(* ===== verification/_CoqProject ===== *)
-Q . S2P
Prelude.v
Readers.v
Wire.v
Track.v
Transport.v
Cert.v
Metrics.v
Replay.v
Pubsub.v
PubsubCalls.v
Heap.v
Scheduler.v
Pump.v
Record.v
SessionStore.v
RateLimit.v
KindStats.v
DataChannel.v
Inbound.v
Session.v
SessionRun.v
Server.v
ServerSessions.v
Client.v
ClientRecv.v
ToolCalls.v
ClientSessions.v
StatsReport.v
EndToEnd.v
PublishBack.v
ServerRun.v
ShareLink.v
ServerListen.v
Relay.v
RelayRun.v
Adapters.v
PeerConnection.v
GoText.v
ReplayTool.v
ReplayView.v
CuaServer.v
CuaClient.v
Cua.v
CuaLive.v
CuaLiveBrain.v
Paint.v
AgentPubsub.v
