(* ===== verification/Prelude.v ===== *)
(** * quicrtc: a Rocq model of the transport library and its correctness

    quicrtc carries media, tokens, tool calls and telemetry over QUIC and
    WebTransport.  A publisher's [server] fans the access units of its tracks
    out to sessions; every session handshakes with one subscriber, runs one pump
    per track and takes tracks published back; a [client] is the other end; a
    [relay] is a client of some upstreams and a server to its own subscribers; a
    [peerconnection] hides the role behind one interface.

    ** The parts and how they interact

    - [Readers.v]: [Read] calls, [io.ReadFull] and the reader that puts a byte
      back, the level below the [reader] of the other files.
    - [wire] ([Wire.v]): control and feed frames, stream headers, datagrams, the
      handshake payloads.  [track] ([Track.v]): kinds and their defaults.
    - [pubsub]: the replay ring of a broadcaster ([Replay.v]) and its receivers,
      interceptors and fan-out ([Pubsub.v]); [PubsubCalls.v] says what one call
      does, for the server and the client, which hold broadcasters.
    - [feed]: the scheduler ([Scheduler.v], over container/heap in [Heap.v]) and
      the four delivery pumps ([Pump.v]).
    - [session]: inbound tracks ([Inbound.v]), rate limiter ([RateLimit.v]),
      handshake, control stream, outbound tracks and watchdog ([Session.v]), the
      goroutines of [Run] ([SessionRun.v]); [datachannel] ([DataChannel.v]).
    - [server]: tracks, recorders, admission, resumption ([Server.v]), their
      effect on sessions ([ServerSessions.v]), the subscribers that join, leave
      and return ([ServerRun.v]), listening, eviction and shutdown
      ([ServerListen.v]), parked sessions ([SessionStore.v]);
      [record] ([Record.v]); [metrics] ([Metrics.v]); [cert] ([Cert.v]).
    - [client]: state and operations ([Client.v]), the receive plane under every
      interleaving ([ClientRecv.v]), the client against the server's session
      ([ClientSessions.v]), tool calls ([ToolCalls.v]), receive statistics
      ([KindStats.v]) and their way to the server ([StatsReport.v]), the share link and the certificate pin ([ShareLink.v]).
    - [EndToEnd.v] and [PublishBack.v] compose server, pumps and client, in both
      directions: what is published is received.
    - [relay]: the upstreams and the tracks it forwards ([Relay.v]), the process
      that runs them ([RelayRun.v]); [transport]: the send-rate meter ([Transport.v]), the
      interface and its two adapters ([Adapters.v]); [peerconnection]
      ([PeerConnection.v]).
    - [examples], over the text functions of Go in [GoText.v]: the replay tool,
      which imports captures into recordings ([ReplayTool.v]) and shows them
      ([ReplayView.v]); the computer-use host ([CuaServer.v]), its simulator
      ([CuaClient.v]) and the two against each other over a lossy network
      ([Cua.v]); the live agent: its loop, lanes and scripted brain
      ([CuaLive.v]), the brain that talks to a model ([CuaLiveBrain.v]) and the
      painters of its frames and of [internal/synframe] ([Paint.v]);
      [agent_pubsub], [publisher], [subscriber], [relay] and [internal/status]
      ([AgentPubsub.v]).

    ** How the code is modelled

    A definition has the name of the function it translates.  An object that Go
    shares by pointer (a receiver, a broadcaster, a track, a stream, a pump)
    has an address in a store, so that a goroutine that kept a pointer acts on
    the same object as the table it was taken from.  A critical section is one
    function; what runs without a lock between two of them is a step of a
    relation, and the relations ([pstep], [sstep], [istep], [sv_step], [kstep],
    [rstep], [pcstep], [runstep], [lstep], [rrstep], [imstep], [cuastep]) interleave the steps of all goroutines.  A [select]
    with several ready cases is a relation.  The order in which a map is
    iterated, the clock, the behaviour of the network (what a write, a read, an
    open returns) and the callbacks of the application are parameters, quantified
    over in the theorems.  [option] is a possible panic; an error is a value of
    [error], in which a wrapped error is the sentinel it wraps.  Unsigned
    integers are [Z] with the wrap-around written out; [float64] is binary64 of
    the Standard Library.  Encoding of JSON payloads is an instance of [JSON],
    with the round trip as a hypothesis where a theorem needs it; SHA-256 and
    the parsing of URLs are arguments.

    Interfaces are classes: [JSON] (what a payload's encoder promises),
    [Upstream] (the connection a relay forwards from, implemented by the
    client), [Transport] with [TransportLaws] (implemented by both adapters and
    by their sum, and all that [PeerConnection.v] uses), [Brain] (what the loop
    of the live agent asks of its brain, implemented by the scripted and by the
    live one).

    ** What the theorems show

    - Data kept: the replay ring refines a bounded list; a published unit
      reaches every subscriber, recorder and file exactly once, and a published
      group of pictures is returned by the client's receive calls, as what the
      client publishes back is by the session's; the drop policy
      leaves only decodable runs; streams carry groups of pictures that the
      other end reads back; the client's queues are lossless and in order; the
      resume cursor is exact and a resumed session has no gap; a relay
      forwards what it receives, once, in order and unchanged.
    - Formats: frames, recordings and share links are read back as written;
      corrupt recordings are refused; chunked writes are invisible.
    - Safety: no interleaving of the broadcaster's, the server's, the session's,
      the client's or the relay's operations panics; only accepted tracks are
      taken in; queues, tables and pumps stay within their limits.
    - Agreement: the two handshakes agree on identity, features and version; a
      peer connection refines the life cycle its documentation describes.
    - Progress: the scheduler loses no wake-up and pops the most urgent item;
      an accepted stream and a tool call are received; reconnecting gives up
      exactly when its budget is used; a session, a server and a relay end for
      the causes their documentation names, and a drained server has no session
      left.
    - Programs: an imported capture is recorded without loss and a recording is
      shown completely; every request to the computer-use host is answered once,
      on the track of its kind, and no latency of the simulator is that of
      another request; the live agent's turns are fanned out to numbered
      lanes, its conversation answers a call of each of the model's turns; the
      painters never index outside of the image.
    - Theorems whose comment says so exhibit behaviour that differs from the
      documentation or from what the code intends; the manifest lists them as
      findings.

    ** Fuel and bounds

    Loops over bytes take the number of bytes left as fuel: each round reads at
    least one, and the theorems are about the functions with that fuel, which
    return a result ([None] is never lack of fuel there).  [container/heap] runs
    with the length of the slice, shown sufficient.  Loops that wait for the
    outside world take the list of the events they see and return when it ends
    ("still waiting").  The loop of the live agent takes its number of turns as
    fuel; ten are shown enough for the scripted brain.  The message identifiers
    of the simulator are assumed not to wrap (4 per turn, below 2^32); the
    percentiles are checked for up to 4096 samples, binary64 rounding included.
    Interceptor identifiers are assumed not to wrap at 2^64.

    ** Not modelled

    The libraries below the listener and the dialler (QUIC, HTTP/3, TLS,
    WebTransport), deadlines of single reads and writes, logging, buffer pools,
    signing of certificates, the snapshots of a pump's statistics.  Of the
    example programs: the parsing of flags, the calls of [main] that only
    construct servers and clients and print, the browser behind the live agent,
    the PNG encoder and [HumanBytes], which are calls of libraries.  The load and
    interoperability tools and the browser client in TypeScript. *)

From stdpp Require Export base list gmap strings sorting.
From Stdlib Require Export ZArith Lia ZifyBool.
From Stdlib Require Import Strings.Byte.
From Stdlib Require Export Init.Byte.

#[global] Open Scope Z_scope.

(** ** Automation shared by every file *)

Create HintDb quicrtc.

(** Splits every [if] on a boolean in the goal, keeping the equation. *)
Ltac split_ifs :=
  repeat match goal with
  | |- context [if ?b then _ else _] => destruct b eqn:?
  end.

(** Same, in the hypotheses too. *)
Ltac split_ifs_all :=
  repeat match goal with
  | |- context [if ?b then _ else _] => destruct b eqn:?
  | H : context [if ?b then _ else _] |- _ => destruct b eqn:?
  end.

(** ** Lengths as Go [int]s *)

Definition zlen {A} (l : list A) : Z := Z.of_nat (length l).

Lemma zlen_nonneg {A} (l : list A) : 0 <= zlen l.
Proof. unfold zlen; lia. Qed.

Lemma zlen_app {A} (l k : list A) : zlen (l ++ k) = zlen l + zlen k.
Proof. unfold zlen; rewrite length_app; lia. Qed.

Lemma zlen_cons {A} (x : A) l : zlen (x :: l) = 1 + zlen l.
Proof. unfold zlen; simpl; lia. Qed.

Lemma zlen_nil {A} : zlen (@nil A) = 0.
Proof. done. Qed.

Lemma zlen_single {A} (x : A) : zlen [x] = 1.
Proof. done. Qed.

Lemma zlen_0 {A} (l : list A) : zlen l = 0 -> l = [].
Proof. unfold zlen; destruct l; simpl; [done|lia]. Qed.

Lemma elem_of_drop_in {A} n (l : list A) x : x ∈ drop n l -> x ∈ l.
Proof. intros H. rewrite <- (take_drop n l). apply elem_of_app. by right. Qed.

(** ** Bytes and machine integers

    A Go [byte] is [Byte.byte].  A w-bit unsigned integer is a [Z] in
    [[0, 2^w)]; [u8], [u16], [u32] and [u64] are the conversions and the
    wrap-around of the arithmetic on them. *)

Definition u8 (z : Z) : Z := z mod 2 ^ 8.
Definition u16 (z : Z) : Z := z mod 2 ^ 16.
Definition u32 (z : Z) : Z := z mod 2 ^ 32.
Definition u64 (z : Z) : Z := z mod 2 ^ 64.

Definition is_u (w : Z) (z : Z) : Prop := 0 <= z < 2 ^ w.

(** [int64(x)] of a [uint64]. *)
Definition s64 (z : Z) : Z := if z <? 2 ^ 63 then z else z - 2 ^ 64.
Definition is_s64 (z : Z) : Prop := - 2 ^ 63 <= z < 2 ^ 63.

Lemma s64_u64 z : is_s64 z -> s64 (u64 z) = z.
Proof.
  unfold is_s64, s64, u64. intros Hz. destruct (decide (0 <= z)).
  - rewrite Z.mod_small by lia. split_ifs; lia.
  - rewrite <- (Z_mod_plus_full z 1), Z.mod_small by lia. split_ifs; lia.
Qed.

Definition Z_of_byte (b : byte) : Z := Z.of_N (Byte.to_N b).
Definition byte_of_Z (z : Z) : byte := default x00 (Byte.of_N (Z.to_N (u8 z))).

Lemma Z_of_byte_range b : 0 <= Z_of_byte b < 256.
Proof.
  unfold Z_of_byte. pose proof (Byte.to_N_bounded b). lia.
Qed.

Lemma Z_of_byte_of_Z z : Z_of_byte (byte_of_Z z) = z mod 256.
Proof.
  unfold byte_of_Z, Z_of_byte, u8. change (2 ^ 8) with 256.
  pose proof (Z.mod_pos_bound z 256 eq_refl).
  destruct (Byte.of_N (Z.to_N (z mod 256))) as [b|] eqn:E; simpl.
  - apply Byte.to_of_N in E. rewrite E. lia.
  - apply Byte.of_N_None_iff in E. lia.
Qed.

Lemma Z_of_byte_inj b c : Z_of_byte b = Z_of_byte c -> b = c.
Proof.
  unfold Z_of_byte; intros H. apply N2Z.inj in H.
  pose proof (Byte.of_to_N b); pose proof (Byte.of_to_N c). congruence.
Qed.

Lemma byte_of_Z_of_byte b : byte_of_Z (Z_of_byte b) = b.
Proof.
  apply Z_of_byte_inj. rewrite Z_of_byte_of_Z.
  pose proof (Z_of_byte_range b). by rewrite Z.mod_small.
Qed.

#[global] Instance byte_eq_dec : EqDecision byte.
Proof. intros a b. destruct (Byte.byte_eq_dec a b); [by left|by right]. Defined.

(** [be_bytes n v] is [byte(v>>8(n-1)), ..., byte(v>>8), byte(v)]: what
    [binary.BigEndian.PutUint16/32/64] and the hand-written encoders emit. *)
Fixpoint be_bytes (n : nat) (v : Z) : list byte :=
  match n with
  | O => []
  | S n' => byte_of_Z (Z.shiftr v (8 * Z.of_nat n')) :: be_bytes n' v
  end.

(** [be_value [b0; ...; bk]] is [b0<<8k | ... | bk], the decoders' side. *)
Fixpoint be_value (l : list byte) : Z :=
  match l with
  | [] => 0
  | b :: l' => Z.lor (Z.shiftl (Z_of_byte b) (8 * zlen l')) (be_value l')
  end.

Lemma length_be_bytes n v : length (be_bytes n v) = n.
Proof. induction n; simpl; congruence. Qed.

Lemma zlen_be_bytes n v : zlen (be_bytes n v) = Z.of_nat n.
Proof. unfold zlen; by rewrite length_be_bytes. Qed.

Lemma lor_shiftl_add a b n :
  0 <= n -> 0 <= b < 2 ^ n -> Z.lor (Z.shiftl a n) b = a * 2 ^ n + b.
Proof.
  intros Hn Hb. rewrite <- Z.shiftl_mul_pow2 by done. symmetry.
  apply Z.add_nocarry_lor, Z.bits_inj_0; intros i.
  rewrite Z.land_spec. destruct (decide (i < 0)).
  { by rewrite Z.testbit_neg_r by lia. }
  destruct (decide (i < n)).
  - by rewrite Z.shiftl_spec_low by lia.
  - destruct (decide (b = 0)) as [->|]; [by rewrite Z.bits_0, andb_false_r|].
    rewrite (Z.bits_above_log2 b i), andb_false_r; [done|lia|].
    apply Z.log2_lt_pow2; [lia|]. eapply Z.lt_le_trans; [apply Hb|].
    apply Z.pow_le_mono_r; lia.
Qed.

Lemma be_value_bound l : 0 <= be_value l < 2 ^ (8 * zlen l).
Proof.
  induction l as [|b l IH]; [by vm_compute|].
  change (be_value (b :: l)) with (Z.lor (Z.shiftl (Z_of_byte b) (8 * zlen l)) (be_value l)).
  rewrite zlen_cons. pose proof (zlen_nonneg l). pose proof (Z_of_byte_range b).
  rewrite lor_shiftl_add; [|lia|exact IH].
  replace (8 * (1 + zlen l)) with (8 + 8 * zlen l) by lia.
  rewrite Z.pow_add_r by lia. nia.
Qed.

Lemma be_value_cons b l :
  be_value (b :: l) = Z_of_byte b * 2 ^ (8 * zlen l) + be_value l.
Proof.
  simpl. apply lor_shiftl_add; [pose proof (zlen_nonneg l); lia|].
  apply be_value_bound.
Qed.

Lemma be_value_bytes n v : be_value (be_bytes n v) = v mod 2 ^ (8 * Z.of_nat n).
Proof.
  induction n as [|n IH]; [simpl; by rewrite Z.mod_1_r|].
  change (be_bytes (S n) v) with (byte_of_Z (Z.shiftr v (8 * Z.of_nat n)) :: be_bytes n v).
  rewrite be_value_cons, IH, zlen_be_bytes, Z_of_byte_of_Z, Z.shiftr_div_pow2 by lia.
  replace (8 * Z.of_nat (S n)) with (8 * Z.of_nat n + 8) by lia.
  rewrite Z.pow_add_r by lia. change (2 ^ 8) with 256.
  rewrite Z.rem_mul_r by lia. lia.
Qed.

Lemma be_value_bytes_id n v : is_u (8 * Z.of_nat n) v -> be_value (be_bytes n v) = v.
Proof. unfold is_u; intros. rewrite be_value_bytes. by rewrite Z.mod_small. Qed.

Lemma be_value_inj l k : length l = length k -> be_value l = be_value k -> l = k.
Proof.
  revert k; induction l as [|b l IH]; intros [|c k] Hlen; simpl in Hlen; try done.
  rewrite !be_value_cons. assert (zlen l = zlen k) as -> by (unfold zlen; lia).
  pose proof (be_value_bound l) as Hl. pose proof (be_value_bound k) as Hk.
  assert (zlen l = zlen k) as E by (unfold zlen; lia). rewrite E in Hl. intros Hv.
  assert (Z_of_byte b = Z_of_byte c /\ be_value l = be_value k) as [Hb Hr].
  { set (m := 2 ^ (8 * zlen k)) in *.
    assert (Z_of_byte b = Z_of_byte c) by nia. split; [done|nia]. }
  f_equal; [by apply Z_of_byte_inj|]. apply IH; [lia|done].
Qed.

Lemma be_bytes_value l : be_bytes (length l) (be_value l) = l.
Proof.
  apply be_value_inj; [apply length_be_bytes|].
  rewrite be_value_bytes. apply Z.mod_small, be_value_bound.
Qed.

Lemma be_bytes_value' n l : length l = n -> be_bytes n (be_value l) = l.
Proof. intros <-. apply be_bytes_value. Qed.

Lemma be_bytes_2 v : be_bytes 2 v = [byte_of_Z (Z.shiftr v 8); byte_of_Z v].
Proof. simpl. by rewrite Z.shiftr_0_r. Qed.

#[global] Opaque be_bytes be_value.

(** A single flag bit of a byte, as [flags & (1<<k) != 0] and [flags | (1<<k)]. *)
Definition band (b : byte) (m : Z) : Z := Z.land (Z_of_byte b) m.
Definition bor (b : byte) (m : Z) : byte := byte_of_Z (Z.lor (Z_of_byte b) m).

(** ** Go errors, results and the reader monad

    [error] has one constructor per sentinel the code compares with
    [errors.Is]; an error built with [fmt.Errorf("%w: ...", Sentinel, ...)] is
    its sentinel, since only the sentinel is observable through [errors.Is].
    [ErrMsg] is any other error. *)

Inductive error :=
  | EOF | ErrUnexpectedEOF | ErrClosedPipe
  | ErrCanceled | ErrDeadlineExceeded
  | ErrFrameTooLarge | ErrDatagramTooLarge
  | ErrCorruptHeader | ErrTrackNameTooLong | ErrKindTooLong
  | ErrDropAU | ErrAuth | ErrBadHello | ErrIdle
  | ErrBidiResponseTooLarge
  | ErrMsg (msg : string).

#[global] Instance error_eq_dec : EqDecision error.
Proof. solve_decision. Defined.

Inductive result (A : Type) :=
  | Ok (a : A)
  | Err (e : error).
Arguments Ok {A} _.
Arguments Err {A} _.

(** An [io.Reader] is the bytes it will still deliver and the error it
    reports after them ([EOF] for a FIN, anything else for a reset or a
    deadline).  How the bytes are split over [Read] calls is not observable
    through [io.ReadFull]. *)
Record reader := mkReader { rd_data : list byte; rd_end : error }.

Definition rd (A : Type) : Type := reader -> result A * reader.

Definition rd_ret {A} (a : A) : rd A := fun r => (Ok a, r).
Definition rd_fail {A} (e : error) : rd A := fun r => (Err e, r).
Definition rd_bind {A B} (m : rd A) (k : A -> rd B) : rd B :=
  fun r => match m r with
           | (Ok a, r') => k a r'
           | (Err e, r') => (Err e, r')
           end.

Declare Scope go_scope.
Delimit Scope go_scope with go.
Notation "'let!' x := m 'in' k" := (rd_bind m (fun x => k))
  (at level 10, x binder, m at level 100, k at level 200) : go_scope.
#[global] Open Scope go_scope.

(** [io.ReadFull]: [n] bytes, or the terminal error, which an [EOF] in the
    middle turns into [ErrUnexpectedEOF]. *)
Definition ReadFull (n : Z) : rd (list byte) :=
  fun r =>
    if n <=? zlen (rd_data r)
    then (Ok (take (Z.to_nat n) (rd_data r)),
          mkReader (drop (Z.to_nat n) (rd_data r)) (rd_end r))
    else match rd_data r with
         | [] => (Err (rd_end r), r)
         | _ :: _ =>
             (Err (if decide (rd_end r = EOF) then ErrUnexpectedEOF else rd_end r),
              mkReader [] (rd_end r))
         end.

Lemma ReadFull_app n l rest e :
  n = zlen l -> ReadFull n (mkReader (l ++ rest) e) = (Ok l, mkReader rest e).
Proof.
  intros ->. unfold ReadFull; simpl. rewrite zlen_app.
  pose proof (zlen_nonneg rest).
  destruct (zlen l <=? zlen l + zlen rest) eqn:E; [|lia].
  unfold zlen. rewrite Nat2Z.id.
  rewrite take_app_length, drop_app_length. done.
Qed.

Lemma ReadFull_exact n l e :
  n = zlen l -> ReadFull n (mkReader l e) = (Ok l, mkReader [] e).
Proof. intros. rewrite <- (app_nil_r l) at 1. by apply ReadFull_app. Qed.

Lemma ReadFull_ok n r l r' :
  0 <= n -> ReadFull n r = (Ok l, r') ->
  zlen l = n /\ rd_data r = l ++ rd_data r' /\ rd_end r' = rd_end r.
Proof.
  unfold ReadFull. intros Hn. destruct (n <=? zlen (rd_data r)) eqn:E.
  - intros [= <- <-]; simpl. split_and!; [|by rewrite take_drop|done].
    unfold zlen in *. rewrite length_take. lia.
  - destruct (rd_data r); discriminate.
Qed.

Lemma ReadFull_nil n e : 0 < n -> ReadFull n (mkReader [] e) = (Err e, mkReader [] e).
Proof. intros. unfold ReadFull; simpl. destruct (n <=? zlen []) eqn:E; [|done]. unfold zlen in E; simpl in E; lia. Qed.

Lemma ReadFull_short n l e :
  0 < zlen l < n ->
  ReadFull n (mkReader l e) =
    (Err (if decide (e = EOF) then ErrUnexpectedEOF else e), mkReader [] e).
Proof.
  intros. unfold ReadFull; simpl. destruct (n <=? zlen l) eqn:E; [lia|].
  destruct l; [unfold zlen in *; simpl in *; lia|done].
Qed.

#[export] Hint Resolve zlen_nonneg be_value_bound Z_of_byte_range : quicrtc.

(** ** Writers

    A writer records the bytes it accepted; its script says how the next
    [Write] calls end ([WAccept], or a failure after a prefix).  When the
    script is exhausted every write is accepted. *)
Inductive write_outcome := WAccept | WFail (n : nat) (e : error).

Record writer := mkWriter { w_out : list byte; w_script : list write_outcome }.

Definition Write (p : list byte) (w : writer) : option error * writer :=
  match w_script w with
  | [] => (None, mkWriter (w_out w ++ p) [])
  | WAccept :: s => (None, mkWriter (w_out w ++ p) s)
  | WFail n e :: s => (Some e, mkWriter (w_out w ++ take n p) s)
  end.

(** [if _, err := w.Write(p); err != nil { return err }; k]. *)
Definition wr_seq (m k : writer -> option error * writer) : writer -> option error * writer :=
  fun w => match m w with
           | (None, w') => k w'
           | (Some e, w') => (Some e, w')
           end.

(** What a writer gained, on any outcome, is a prefix of what was offered. *)
Lemma Write_prefix p w err w' :
  Write p w = (err, w') ->
  exists k, w_out w' = w_out w ++ take k p /\ (err = None -> take k p = p).
Proof.
  unfold Write. destruct (w_script w) as [|[|n e] s]; intros [= <- <-]; simpl.
  - exists (length p). by rewrite firstn_all.
  - exists (length p). by rewrite firstn_all.
  - by exists n.
Qed.

(** ** Buffered channels

    A Go [chan T] of capacity [ch_cap].  [try_send] and [try_recv] are the
    two arms of a [select] with a [default]; a send on a closed channel is a
    run-time panic and has an outcome of its own. *)
Record chan (A : Type) := mkChan { ch_buf : list A; ch_cap : nat; ch_closed : bool }.
Arguments mkChan {A} _ _ _.
Arguments ch_buf {A} _.
Arguments ch_cap {A} _.
Arguments ch_closed {A} _.

Inductive send_outcome (A : Type) := Sent (c : chan A) | SendFull | SendPanic.
Arguments Sent {A} _.
Arguments SendFull {A}.
Arguments SendPanic {A}.

Definition make_chan (A : Type) (n : nat) : chan A := mkChan [] n false.

Definition try_send {A} (c : chan A) (x : A) : send_outcome A :=
  if ch_closed c then SendPanic
  else if (length (ch_buf c) <? ch_cap c)%nat
       then Sent (mkChan (ch_buf c ++ [x]) (ch_cap c) false)
       else SendFull.

Inductive recv_outcome (A : Type) := Got (x : A) (c : chan A) | RecvEmpty | RecvClosed.
Arguments Got {A} _ _.
Arguments RecvEmpty {A}.
Arguments RecvClosed {A}.

Definition try_recv {A} (c : chan A) : recv_outcome A :=
  match ch_buf c with
  | x :: b => Got x (mkChan b (ch_cap c) (ch_closed c))
  | [] => if ch_closed c then RecvClosed else RecvEmpty
  end.

(** [select { case <-c: default: }]. *)
Definition discard_one {A} (c : chan A) : chan A :=
  mkChan (tail (ch_buf c)) (ch_cap c) (ch_closed c).

(** [k] receives by the channel's consumer. *)
Definition consume {A} (k : nat) (c : chan A) : chan A :=
  mkChan (drop k (ch_buf c)) (ch_cap c) (ch_closed c).

Definition close_chan {A} (c : chan A) : chan A := mkChan (ch_buf c) (ch_cap c) true.

Definition chan_ok {A} (c : chan A) : Prop := (length (ch_buf c) <= ch_cap c)%nat.

(** ** Sorting with a Go [less] function

    [sort_less] is a stable sort ([sort.SliceStable]); when no two elements
    tie it is also what [sort.Slice] computes, since then the ordered
    permutation is unique ([ordered_unique]). *)
Section SortLess.
Context {A : Type} (less : A -> A -> bool).

Fixpoint insert_less (x : A) (l : list A) : list A :=
  match l with
  | [] => [x]
  | y :: l' => if less x y then x :: y :: l' else y :: insert_less x l'
  end.

Definition sort_less (l : list A) : list A := foldl (fun acc x => insert_less x acc) [] l.

(** No later element is strictly less than an earlier one. *)
Definition ordered (l : list A) : Prop := StronglySorted (fun a b => less b a = false) l.

Context (less_asym : forall a b, less a b = true -> less b a = false).
Context (geq_trans : forall a b c, less b a = false -> less c b = false -> less c a = false).

Lemma insert_less_perm x l : insert_less x l ≡ₚ x :: l.
Proof.
  induction l as [|y l IH]; simpl; [done|]. split_ifs; [done|].
  rewrite IH. apply Permutation_swap.
Qed.

Lemma sort_less_perm l : sort_less l ≡ₚ l.
Proof.
  unfold sort_less. rewrite <- (app_nil_r l) at 2. generalize (@nil A) as acc.
  induction l as [|x l IH]; intros acc; simpl; [done|].
  rewrite IH, insert_less_perm. by rewrite Permutation_middle.
Qed.

Lemma insert_less_ordered x l : ordered l -> ordered (insert_less x l).
Proof.
  induction 1 as [|y l Hl IH Hy]; simpl.
  - repeat constructor.
  - destruct (less x y) eqn:E.
    + constructor; [by constructor|]. constructor; [by apply less_asym|].
      eapply Forall_impl; [exact Hy|]. intros z Hz. eapply geq_trans; [|exact Hz].
      by apply less_asym.
    + constructor; [done|]. rewrite insert_less_perm. by constructor.
Qed.

Lemma sort_less_ordered l : ordered (sort_less l).
Proof.
  unfold sort_less. assert (ordered (@nil A)) as H by constructor. revert H.
  generalize (@nil A) as acc. induction l as [|x l IH]; intros acc H; simpl; [done|].
  by apply IH, insert_less_ordered.
Qed.

End SortLess.

(** Sorting by an integer key. *)
Section SortKey.
Context {A : Type} (key : A -> Z).

Definition key_less (a b : A) : bool := key a <? key b.

Lemma sort_key_ordered l : ordered key_less (sort_less key_less l).
Proof. apply sort_less_ordered; unfold key_less; intros; lia. Qed.

(** With pairwise distinct keys there is only one ordered permutation. *)
Lemma ordered_unique (l k : list A) :
  NoDup (key <$> l) -> l ≡ₚ k -> ordered key_less l -> ordered key_less k -> l = k.
Proof.
  intros Hnd Hp Hl; revert k Hnd Hp. induction Hl as [|x l Hl IH Hx]; intros k Hnd Hp Hk.
  { by apply Permutation_nil_l in Hp. }
  destruct Hk as [|y k Hk Hy]; [by apply Permutation_nil_r in Hp|].
  apply NoDup_cons in Hnd as [Hnin Hnd].
  assert (x = y) as <-.
  { assert (x ∈ y :: k) as Hin by (rewrite <- Hp; left).
    assert (y ∈ x :: l) as Hin' by (rewrite Hp; left).
    apply elem_of_cons in Hin as [->|Hin]; [done|].
    apply elem_of_cons in Hin' as [->|Hin']; [done|].
    rewrite Forall_forall in Hx, Hy. specialize (Hx _ Hin'). specialize (Hy _ Hin).
    unfold key_less in *. exfalso. apply Hnin.
    replace (key x) with (key y) by lia. by apply elem_of_list_fmap_1 || set_solver. }
  f_equal. apply IH; [done| |done]. by apply Permutation_cons_inv in Hp.
Qed.

Lemma sort_key_unique l k :
  NoDup (key <$> l) -> l ≡ₚ k -> sort_less key_less l = sort_less key_less k.
Proof.
  intros Hnd Hp. apply ordered_unique.
  - by rewrite sort_less_perm.
  - by rewrite !sort_less_perm.
  - apply sort_key_ordered.
  - apply sort_key_ordered.
Qed.

Lemma sort_key_sorted l : ordered key_less l -> NoDup (key <$> l) -> sort_less key_less l = l.
Proof.
  intros Ho Hnd. apply ordered_unique; [by rewrite sort_less_perm|by rewrite sort_less_perm|apply sort_key_ordered|done].
Qed.
End SortKey.

(** ** Go strings

    A Go [string] is an immutable byte sequence; [bytes_of] and [string_of]
    are the conversions [[]byte(s)] and [string(b)]. *)
Definition bytes_of (s : string) : list byte := String.list_byte_of_string s.
Definition string_of (l : list byte) : string := String.string_of_list_byte l.

Lemma string_of_bytes_of s : string_of (bytes_of s) = s.
Proof. apply String.string_of_list_byte_of_string. Qed.

Lemma bytes_of_string_of l : bytes_of (string_of l) = l.
Proof. apply String.list_byte_of_string_of_list_byte. Qed.

Lemma zlen_bytes_of s : zlen (bytes_of s) = Z.of_nat (String.length s).
Proof.
  unfold zlen, bytes_of, String.list_byte_of_string. rewrite length_map. f_equal.
  induction s; simpl; congruence.
Qed.
