(* ===== verification/Readers.v ===== *)
(** * Readers, call by call

    The other files read from a [reader]: the bytes still to come and the error
    after them.  Here is the level below, the [Read] calls: a transport stream
    delivers its bytes in pieces of any size, and [peekedReader]
    ([client/client.go], [session/session.go]) puts a byte that was already read
    back in front of a stream, or of another [peekedReader].  [io.ReadFull] on
    any of these is [ReadFull] on the bytes they stand for. *)

From S2P Require Import Prelude.

(** A transport stream: the pieces its next [Read] calls return (some of them
    perhaps empty), the error after them, and whether that error comes with the
    last piece or with a call of its own. *)
Inductive ioReader :=
  | RStream (chunks : list (list byte)) (end_ : error) (eager : bool)
  | RPeeked (first : byte) (consumed : bool) (rest : ioReader).

Definition streamRead (n : nat) (chunks : list (list byte)) (end_ : error) (eager : bool)
    : list byte * option error * ioReader :=
  match chunks with
  | [] => ([], Some end_, RStream [] end_ eager)
  | chunk :: chunks' =>
      if (length chunk <=? n)%nat
      then (chunk, if eager && bool_decide (chunks' = []) then Some end_ else None, RStream chunks' end_ eager)
      else (take n chunk, None, RStream (drop n chunk :: chunks') end_ eager)
  end.

(** [Read] into a buffer of [n] bytes: what was read, the error, the reader. *)
Fixpoint Read (n : nat) (r : ioReader) : list byte * option error * ioReader :=
  match r with
  | RStream chunks end_ eager => streamRead n chunks end_ eager
  | RPeeked first false rest =>
      if (n =? 0)%nat then ([], None, r) else ([first], None, RPeeked first true rest)
  | RPeeked first true rest => let '(bs, err, rest) := Read n rest in (bs, err, RPeeked first true rest)
  end.

(** [io.ReadAtLeast] with the length of the buffer: the loop, and what it makes
    of the error. *)
Fixpoint readLoop (fuel n : nat) (got : list byte) (r : ioReader) : option (result (list byte) * ioReader) :=
  if (n <=? length got)%nat then Some (Ok got, r)
  else
    match fuel with
    | O => None
    | S fuel' =>
        let '(bs, err, r) := Read (n - length got) r in
        let got := got ++ bs in
        match err with
        | None => readLoop fuel' n got r
        | Some e =>
            if (n <=? length got)%nat then Some (Ok got, r)
            else Some (Err (if decide (got <> [] /\ e = EOF) then ErrUnexpectedEOF else e), r)
        end
    end.

(** Each round takes a byte, a piece or the error. *)
Fixpoint pieces (r : ioReader) : nat :=
  match r with
  | RStream chunks _ _ => length chunks + length (concat chunks)
  | RPeeked _ false rest => S (pieces rest)
  | RPeeked _ true rest => pieces rest
  end.

Definition ioReadFull (n : nat) (r : ioReader) : option (result (list byte) * ioReader) :=
  readLoop (S (pieces r)) n [] r.

(** * Properties *)

(** What a reader stands for. *)
Fixpoint abs (r : ioReader) : reader :=
  match r with
  | RStream chunks end_ _ => mkReader (concat chunks) end_
  | RPeeked first false rest => mkReader (first :: rd_data (abs rest)) (rd_end (abs rest))
  | RPeeked _ true rest => abs rest
  end.

Lemma Read_spec n r bs err r' :
  (0 < n)%nat -> Read n r = (bs, err, r') ->
  rd_data (abs r) = bs ++ rd_data (abs r') /\ rd_end (abs r') = rd_end (abs r) /\ (length bs <= n)%nat /\
  match err with
  | None => (pieces r' < pieces r)%nat
  | Some e => e = rd_end (abs r) /\ rd_data (abs r') = []
  end.
Proof.
  intros Hn. revert bs err r'. induction r as [chunks e eager|first consumed rest IH]; intros bs err r'; cbn [Read].
  - unfold streamRead. destruct chunks as [|chunk chunks].
    { intros [= <- <- <-]. cbn. split_and!; try done. lia. }
    destruct (Nat.leb_spec (length chunk) n).
    + intros [= <- <- <-]. cbn [abs rd_data rd_end concat pieces length]. split_and!; try done.
      destruct (eager && bool_decide (chunks = [])) eqn:E.
      * apply andb_prop in E as [_ ->%bool_decide_eq_true]. done.
      * rewrite length_app. lia.
    + intros [= <- <- <-]. cbn [abs rd_data rd_end concat pieces length]. rewrite app_assoc, take_drop.
      split_and!; try done; [rewrite length_take; lia|]. rewrite !length_app, length_drop. lia.
  - destruct consumed.
    + destruct (Read n rest) as [[bs0 err0] rest'] eqn:E. intros [= <- <- <-]. cbn. by apply IH.
    + destruct (Nat.eqb_spec n 0); [lia|]. intros [= <- <- <-]. cbn. split_and!; try done; lia.
Qed.

Lemma readLoop_spec fuel : forall n got r,
  (pieces r < fuel)%nat -> (length got <= n)%nat ->
  exists res r', readLoop fuel n got r = Some (res, r') /\
    ReadFull (Z.of_nat n) (mkReader (got ++ rd_data (abs r)) (rd_end (abs r))) = (res, abs r').
Proof.
  induction fuel as [|fuel IH]; intros n got r Hf Hg; [lia|]. cbn [readLoop].
  destruct (Nat.leb_spec n (length got)).
  { exists (Ok got), r. split; [done|]. rewrite ReadFull_app by (unfold zlen; lia). by destruct (abs r). }
  destruct (Read (n - length got) r) as [[bs err] r1] eqn:E.
  destruct (Read_spec (n - length got) r bs err r1 ltac:(lia) E) as (Hd & He & Hl & Herr).
  rewrite Hd, app_assoc, <- He. destruct err as [e|].
  - destruct Herr as (-> & H0). rewrite H0, app_nil_r, <- He. pose proof (length_app got bs) as La.
    destruct (Nat.leb_spec n (length (got ++ bs))).
    + exists (Ok (got ++ bs)), r1. split; [done|]. rewrite ReadFull_exact by (unfold zlen; lia).
      destruct (abs r1). simpl in *. by subst.
    + eexists _, r1. split; [done|]. destruct (decide (got ++ bs = [])) as [E0|E0].
      * rewrite E0, decide_False by (by intros []). rewrite ReadFull_nil by lia. destruct (abs r1). simpl in *. by subst.
      * rewrite ReadFull_short.
        2:{ unfold zlen. destruct (got ++ bs); [done|]. simpl in *. lia. }
        destruct (abs r1) as [d e]. simpl in *. subst d.
        destruct (decide (e = EOF)); [by rewrite decide_True|]. by rewrite decide_False by (by intros []).
  - apply IH; [lia|rewrite length_app; lia].
Qed.

(** putting a byte back is invisible.  However a stream splits its bytes over
    [Read] calls, and whatever stack of [peekedReader]s is in front of it,
    [io.ReadFull] ends, and returns exactly what it returns on the plain
    sequence of bytes, the put-back ones first: the same bytes or the same error
    (an end in the middle is reported as unexpected), leaving the same bytes to
    read. *)
Theorem peeked_reads_exact n r :
  exists res r', ioReadFull n r = Some (res, r') /\ ReadFull (Z.of_nat n) (abs r) = (res, abs r').
Proof.
  destruct (readLoop_spec (S (pieces r)) n [] r) as (res & r' & E & H); [lia|simpl; lia|].
  exists res, r'. split; [exact E|]. rewrite <- H. by destruct (abs r).
Qed.
