(* ===== verification/Wire.v ===== *)
(** * Package wire: the on-the-wire frame formats

    [wire/frame.go] (control and feed frames, stream headers),
    [wire/datagram.go] (the datagram envelope) and [wire/hello.go] (the
    handshake payloads and version negotiation). *)

From S2P Require Import Prelude.
From Stdlib Require Import Floats.SpecFloat.
From Stdlib Require Strings.Ascii.

(** ** Constants of frame.go and datagram.go *)

Definition TypeHello : byte := x01.
Definition TypeSDP : byte := x02.
Definition TypePing : byte := x03.
Definition TypePong : byte := x04.
Definition TypeError : byte := x05.
Definition TypeClose : byte := x06.
Definition TypeData : byte := x07.
Definition TypeSwitch : byte := x08.
Definition TypeSubscribe : byte := x09.
Definition TypeAnnounce : byte := x0a.
Definition TypeBackpressure : byte := x0b.
Definition TypeUnannounce : byte := x0c.
Definition TypeResume : byte := x0d.
Definition TypeKindStats : byte := x0e.
Definition TypeKeyframe : byte := x20.
Definition TypePFrame : byte := x21.
Definition TypeFrame : byte := x22.
Definition TypeStreamHeader : byte := x23.
Definition TypeDatagramAU : byte := x24.

Definition FlagKeyframe : Z := Z.shiftl 1 0.
Definition FlagDiscontinuity : Z := Z.shiftl 1 1.
Definition FlagPublishWall : Z := Z.shiftl 1 2.

Definition MaxStreamHeader : Z := 1024.
Definition WallExtLen : Z := 8.
Definition MaxControlPayload : Z := 64 * 1024.
Definition MaxFeedPayload : Z := 16777215. (* 0xFFFFFF *)
Definition FeedHeaderLen : Z := 17.
Definition DatagramHeaderLen : Z := 4.
Definition MaxDatagramPayload : Z := 1100.

(** ** Stream headers *)

Definition WriteStreamHeader (trackName : string) (w : writer) : option error * writer :=
  let name := bytes_of trackName in
  if zlen name >? MaxStreamHeader then (Some ErrFrameTooLarge, w)
  else wr_seq (Write (TypeStreamHeader :: be_bytes 3 (zlen name)))
              (fun w => if zlen name =? 0 then (None, w) else Write name w) w.

(** Returns [(trackName, firstByte)]. *)
Definition PeekStreamHeader : rd (string * byte) :=
  let! b := ReadFull 1 in
  match b with
  | [b0] =>
      if decide (b0 = TypeStreamHeader) then
        let! lenBuf := ReadFull 3 in
        let length := be_value lenBuf in
        if length >? MaxStreamHeader then rd_fail ErrFrameTooLarge
        else if length =? 0 then rd_fail (ErrMsg "quicrtc/wire: empty stream header")
        else let! name := ReadFull length in rd_ret (string_of name, x00)
      else rd_ret (""%string, b0)
  | _ => rd_fail EOF (* unreachable: ReadFull 1 yields one byte *)
  end.

(** ** Control frames *)

Definition ReadControlFrame : rd (byte * list byte) :=
  let! hdr := ReadFull 4 in
  match hdr with
  | typ :: lenBytes =>
      let length := be_value lenBytes in
      if length >? MaxControlPayload then rd_fail ErrFrameTooLarge
      else if length =? 0 then rd_ret (typ, [])
      else let! payload := ReadFull length in rd_ret (typ, payload)
  | [] => rd_fail EOF (* unreachable: ReadFull 4 yields four bytes *)
  end.

Definition WriteControlFrame (typ : byte) (payload : list byte) (w : writer)
    : option error * writer :=
  if zlen payload >? MaxControlPayload then (Some ErrFrameTooLarge, w)
  else wr_seq (Write (typ :: be_bytes 3 (zlen payload)))
              (fun w => if zlen payload =? 0 then (None, w) else Write payload w) w.

(** ** Feed frames *)

Record FeedFrame := mkFeedFrame {
  ff_Type : byte;
  ff_PTSMicro : Z;
  ff_Seq : Z;
  ff_Flags : byte;
  ff_PubWallMicro : Z;
  ff_Payload : list byte;
}.

Definition IsKeyframe (f : FeedFrame) : bool :=
  bool_decide (ff_Type f = TypeKeyframe) || negb (band (ff_Flags f) FlagKeyframe =? 0).

Definition slice {A} (l : list A) (lo hi : nat) : list A := take (hi - lo) (drop lo l).

Definition ReadFeedFrame : rd FeedFrame :=
  let! hdr := ReadFull FeedHeaderLen in
  let length := be_value (slice hdr 1 4) in
  if length >? MaxFeedPayload then rd_fail ErrFrameTooLarge
  else
    let typ := nth 0 hdr x00 in
    let pts := be_value (slice hdr 4 12) in
    let seq := be_value (slice hdr 12 16) in
    let flags := nth 16 hdr x00 in
    let! wall :=
      if negb (band flags FlagPublishWall =? 0)
      then let! ext := ReadFull WallExtLen in rd_ret (be_value ext)
      else rd_ret 0 in
    if length >? 0
    then let! payload := ReadFull length in
         rd_ret (mkFeedFrame typ pts seq flags wall payload)
    else rd_ret (mkFeedFrame typ pts seq flags wall []).

Definition WriteFeedFrame (typ : byte) (ptsMicro seq : Z) (flags : byte)
    (payload : list byte) (w : writer) : option error * writer :=
  if zlen payload >? MaxFeedPayload then (Some ErrFrameTooLarge, w)
  else
    let hdr := typ :: be_bytes 3 (zlen payload) ++ be_bytes 8 ptsMicro
               ++ be_bytes 4 seq ++ [flags] in
    wr_seq (Write hdr)
           (fun w => if zlen payload =? 0 then (None, w) else Write payload w) w.

Definition WriteFeedFrameWall (typ : byte) (ptsMicro seq : Z) (flags : byte)
    (pubWallMicro : Z) (payload : list byte) (w : writer) : option error * writer :=
  if zlen payload >? MaxFeedPayload then (Some ErrFrameTooLarge, w)
  else
    let hdr := typ :: be_bytes 3 (zlen payload) ++ be_bytes 8 ptsMicro
               ++ be_bytes 4 seq ++ [bor flags FlagPublishWall]
               ++ be_bytes 8 pubWallMicro in
    wr_seq (Write hdr)
           (fun w => if zlen payload =? 0 then (None, w) else Write payload w) w.

(** ** Datagrams *)

Definition EncodeDatagram (dst : list byte) (trackID : byte) (seq : Z) (payload : list byte)
    : result (list byte) :=
  if zlen payload >? MaxDatagramPayload then Err ErrDatagramTooLarge
  else Ok (dst ++ [TypeDatagramAU; trackID; byte_of_Z (Z.shiftr seq 8); byte_of_Z seq]
               ++ payload).

(** Returns [(trackID, seq, payload)]. *)
Definition DecodeDatagram (b : list byte) : result (byte * Z * list byte) :=
  if zlen b <? DatagramHeaderLen
  then Err (ErrMsg "quicrtc/wire: datagram too short")
  else match b with
       | b0 :: b1 :: b2 :: b3 :: payload =>
           if decide (b0 = TypeDatagramAU)
           then Ok (b1, be_value [b2; b3], payload)
           else Err (ErrMsg "quicrtc/wire: unexpected datagram type")
       | _ => Err (ErrMsg "quicrtc/wire: datagram too short")
       end.

(** ** Handshake payloads (hello.go)

    The JSON text of these structs is [encoding/json]'s; the records are the
    decoded values the handlers work on. *)

Record Hello := mkHello {
  h_Role : string;
  h_Slug : string;
  h_Version : string;
  h_MinVersion : string;
  h_MaxVersion : string;
  h_SessionID : string;
  h_Features : list string;
  h_LastSeenSeq : gmap string Z;
}.

Record SDP := mkSDP {
  sdp_Codec : string;
  sdp_Width : Z;
  sdp_Height : Z;
  sdp_FPS : Z;
  sdp_ScreenW : spec_float;
  sdp_ScreenH : spec_float;
  sdp_SessionID : string;
  sdp_Features : list string;
  sdp_NegotiatedVersion : string;
}.

Record Announce := mkAnnounce { a_Name : string; a_Kind : string; a_Codec : string }.

Record Unannounce := mkUnannounce { un_Name : string }.

Record Backpressure := mkBackpressure {
  bp_TrackName : string; bp_Level : Z; bp_NeedsKeyframe : bool }.

Record KindStats := mkKindStats {
  ks_Kind : string; ks_LastSeq : Z; ks_RecvP50Ms : Z; ks_RecvP99Ms : Z; ks_Dropped : Z }.

Record ErrorPayload := mkErrorPayload { ep_Code : string; ep_Reason : string }.

Definition CurrentVersion : string := "1".
Definition MinSupportedVersion : string := "1".

(** Go's [<] on strings is the lexicographic order on bytes. *)
Definition cmpVersion (a b : string) : Z :=
  if negb (String.length a =? String.length b)%nat then
    if (String.length a <? String.length b)%nat then -1 else 1
  else match String.compare a b with
       | Lt => -1
       | Gt => 1
       | Eq => 0
       end.

Definition NegotiateVersion (clientMin clientMax serverMin serverMax : string)
    : string * bool :=
  let lo := if cmpVersion serverMin clientMin >? 0 then serverMin else clientMin in
  let hi := if cmpVersion serverMax clientMax <? 0 then serverMax else clientMax in
  if cmpVersion hi lo <? 0 then (""%string, false) else (hi, true).

(** What the handlers use of [encoding/json] on one payload type. *)
Class JSON (A : Type) := {
  Marshal : A -> result (list byte);
  Unmarshal : list byte -> result A;
}.

(** [json.Unmarshal] into an [ErrorPayload] is the argument; on failure the
    half-filled struct is discarded, as in the source. *)
Definition UnmarshalError (json_unmarshal : list byte -> result ErrorPayload) (b : list byte)
    : ErrorPayload * option error :=
  match b with
  | [] => (mkErrorPayload "" "", None)
  | b0 :: _ =>
      if negb (bool_decide (b0 = x7b)) (* '{' *)
      then (mkErrorPayload "" (string_of b), None)
      else match json_unmarshal b with
           | Err e => (mkErrorPayload "" (string_of b), Some e)
           | Ok ep => (ep, None)
           end
  end.

(** * Properties *)

(** ** Encoders' output when every write is accepted *)

Definition control_bytes (typ : byte) (payload : list byte) : list byte :=
  typ :: be_bytes 3 (zlen payload) ++ payload.

Definition feed_bytes (typ : byte) (pts seq : Z) (flags : byte) (wall : option Z)
    (payload : list byte) : list byte :=
  typ :: be_bytes 3 (zlen payload) ++ be_bytes 8 pts ++ be_bytes 4 seq ++ [flags]
  ++ from_option (be_bytes 8) [] wall ++ payload.

Definition header_bytes (name : string) : list byte :=
  TypeStreamHeader :: be_bytes 3 (zlen (bytes_of name)) ++ bytes_of name.

Lemma write_two_accept a p out :
  wr_seq (Write a) (fun w => if zlen p =? 0 then (None, w) else Write p w) (mkWriter out []) =
  (None, mkWriter (out ++ a ++ p) []).
Proof.
  unfold wr_seq, Write; simpl. destruct (zlen p =? 0) eqn:E; [|by rewrite app_assoc].
  apply Z.eqb_eq in E. apply zlen_0 in E as ->. by rewrite app_nil_r.
Qed.

Lemma WriteControlFrame_accept typ p out :
  zlen p <= MaxControlPayload ->
  WriteControlFrame typ p (mkWriter out []) = (None, mkWriter (out ++ control_bytes typ p) []).
Proof.
  intros. unfold WriteControlFrame. destruct (_ >? _) eqn:E; [lia|].
  by rewrite write_two_accept.
Qed.

Lemma WriteStreamHeader_accept name out :
  zlen (bytes_of name) <= MaxStreamHeader ->
  WriteStreamHeader name (mkWriter out []) = (None, mkWriter (out ++ header_bytes name) []).
Proof.
  intros. unfold WriteStreamHeader. destruct (_ >? _) eqn:E; [lia|].
  by rewrite write_two_accept.
Qed.

Lemma WriteFeedFrame_accept typ pts seq flags p out :
  zlen p <= MaxFeedPayload ->
  WriteFeedFrame typ pts seq flags p (mkWriter out []) =
  (None, mkWriter (out ++ feed_bytes typ pts seq flags None p) []).
Proof.
  intros. unfold WriteFeedFrame. destruct (_ >? _) eqn:E; [lia|].
  rewrite write_two_accept. unfold feed_bytes. simpl. by rewrite <- ?app_assoc.
Qed.

Lemma WriteFeedFrameWall_accept typ pts seq flags wall p out :
  zlen p <= MaxFeedPayload ->
  WriteFeedFrameWall typ pts seq flags wall p (mkWriter out []) =
  (None, mkWriter (out ++ feed_bytes typ pts seq (bor flags FlagPublishWall) (Some wall) p) []).
Proof.
  intros. unfold WriteFeedFrameWall. destruct (_ >? _) eqn:E; [lia|].
  rewrite write_two_accept. unfold feed_bytes. simpl. by rewrite <- ?app_assoc.
Qed.

(** ** Reading back *)

Lemma ReadFull_bind {A} n l rest e (k : list byte -> rd A) :
  n = zlen l ->
  rd_bind (ReadFull n) k (mkReader (l ++ rest) e) = k l (mkReader rest e).
Proof. intros H. unfold rd_bind. by rewrite ReadFull_app. Qed.

Lemma rd_bind_ok {A B} (m : rd A) (k : A -> rd B) r a r' :
  m r = (Ok a, r') -> rd_bind m k r = k a r'.
Proof. intros H. unfold rd_bind. by rewrite H. Qed.

Lemma slice_mid {A} (a b c : list A) lo hi :
  lo = length a -> hi = (length a + length b)%nat -> slice (a ++ b ++ c) lo hi = b.
Proof.
  intros -> ->. unfold slice. rewrite drop_app_length.
  replace (length a + length b - length a)%nat with (length b) by lia.
  by rewrite take_app_length.
Qed.

Definition feed_hdr (typ : byte) (len pts seq : list byte) (flags : byte) : list byte :=
  typ :: len ++ pts ++ seq ++ [flags].

Lemma feed_hdr_fields typ len pts seq flags :
  length len = 3%nat -> length pts = 8%nat -> length seq = 4%nat ->
  let hdr := feed_hdr typ len pts seq flags in
  zlen hdr = FeedHeaderLen /\ nth 0 hdr x00 = typ /\ slice hdr 1 4 = len /\
  slice hdr 4 12 = pts /\ slice hdr 12 16 = seq /\ nth 16 hdr x00 = flags.
Proof.
  intros Hl Hp Hs. unfold feed_hdr; simpl. split_and!.
  - unfold zlen, FeedHeaderLen. simpl. rewrite !length_app, Hl, Hp, Hs. done.
  - done.
  - by apply (slice_mid [typ]); simpl; rewrite ?Hl.
  - rewrite (app_comm_cons len). apply slice_mid; simpl; rewrite ?Hl, ?Hp; done.
  - rewrite (app_assoc len pts), (app_comm_cons (len ++ pts)).
    apply slice_mid; simpl; rewrite ?length_app, ?Hl, ?Hp, ?Hs; done.
  - rewrite app_nth2; rewrite ?Hl; [|lia]. rewrite app_nth2; rewrite ?Hp; [|lia].
    rewrite app_nth2; rewrite ?Hs; [done|lia].
Qed.

(** The continuation of [ReadFeedFrame] once the 17-byte header is read. *)
Definition feed_rest (typ : byte) (length pts seq : Z) (flags : byte) : rd FeedFrame :=
  let! wall :=
    if negb (band flags FlagPublishWall =? 0)
    then let! ext := ReadFull WallExtLen in rd_ret (be_value ext)
    else rd_ret 0 in
  if length >? 0
  then let! payload := ReadFull length in
       rd_ret (mkFeedFrame typ pts seq flags wall payload)
  else rd_ret (mkFeedFrame typ pts seq flags wall []).

Lemma ReadFeedFrame_hdr typ len pts seq flags rest e :
  length len = 3%nat -> length pts = 8%nat -> length seq = 4%nat ->
  ReadFeedFrame (mkReader (feed_hdr typ len pts seq flags ++ rest) e) =
  feed_rest typ (be_value len) (be_value pts) (be_value seq) flags (mkReader rest e).
Proof.
  intros Hl Hp Hs. pose proof (feed_hdr_fields typ len pts seq flags Hl Hp Hs)
    as (Hz & H0 & H1 & H2 & H3 & H4). cbv zeta in *.
  unfold ReadFeedFrame. rewrite ReadFull_bind by done. cbv zeta.
  rewrite H0, H1, H2, H3, H4.
  pose proof (be_value_bound len) as Hb. unfold zlen in Hb. rewrite Hl in Hb.
  change (2 ^ (8 * Z.of_nat 3)) with 16777216 in Hb.
  destruct (be_value len >? MaxFeedPayload) eqn:E; [|done].
  unfold MaxFeedPayload in E. lia.
Qed.

Lemma feed_bytes_hdr typ pts seq flags wall p rest :
  feed_bytes typ pts seq flags wall p ++ rest =
  feed_hdr typ (be_bytes 3 (zlen p)) (be_bytes 8 pts) (be_bytes 4 seq) flags
  ++ from_option (be_bytes 8) [] wall ++ p ++ rest.
Proof. unfold feed_bytes, feed_hdr. simpl. repeat (rewrite <- app_assoc; simpl). done. Qed.

Lemma feed_rest_payload typ pts seq flags wall p rest e n :
  n = zlen p ->
  (if n >? 0 then let! payload := ReadFull n in rd_ret (mkFeedFrame typ pts seq flags wall payload)
   else rd_ret (mkFeedFrame typ pts seq flags wall [])) (mkReader (p ++ rest) e) =
  (Ok (mkFeedFrame typ pts seq flags wall p), mkReader rest e).
Proof.
  intros ->. destruct (zlen p >? 0) eqn:E.
  - by rewrite ReadFull_bind.
  - pose proof (zlen_nonneg p). assert (p = []) as -> by (apply zlen_0; lia). done.
Qed.

Lemma ReadFeedFrame_plain typ pts seq flags p rest e :
  is_u 64 pts -> is_u 32 seq -> zlen p <= MaxFeedPayload ->
  band flags FlagPublishWall = 0 ->
  ReadFeedFrame (mkReader (feed_bytes typ pts seq flags None p ++ rest) e) =
  (Ok (mkFeedFrame typ pts seq flags 0 p), mkReader rest e).
Proof.
  intros Hpts Hseq Hp Hf. rewrite feed_bytes_hdr.
  rewrite ReadFeedFrame_hdr by apply length_be_bytes.
  pose proof (zlen_nonneg p).
  rewrite !be_value_bytes_id by (unfold is_u, MaxFeedPayload in *; simpl in *; lia).
  unfold feed_rest. rewrite Hf. simpl.
  erewrite rd_bind_ok by done. by apply feed_rest_payload.
Qed.

Lemma ReadFeedFrame_wall typ pts seq flags wall p rest e :
  is_u 64 pts -> is_u 32 seq -> is_u 64 wall -> zlen p <= MaxFeedPayload ->
  band flags FlagPublishWall <> 0 ->
  ReadFeedFrame (mkReader (feed_bytes typ pts seq flags (Some wall) p ++ rest) e) =
  (Ok (mkFeedFrame typ pts seq flags wall p), mkReader rest e).
Proof.
  intros Hpts Hseq Hw Hp Hf. rewrite feed_bytes_hdr.
  rewrite ReadFeedFrame_hdr by apply length_be_bytes.
  pose proof (zlen_nonneg p).
  rewrite !be_value_bytes_id by (unfold is_u, MaxFeedPayload in *; simpl in *; lia).
  unfold feed_rest. destruct (band flags FlagPublishWall =? 0) eqn:E; [lia|].
  cbn [negb from_option].
  erewrite rd_bind_ok; [by apply feed_rest_payload|].
  rewrite ReadFull_bind by (by rewrite zlen_be_bytes).
  unfold rd_ret. by rewrite be_value_bytes_id.
Qed.

Lemma ReadControlFrame_bytes typ p rest e :
  zlen p <= MaxControlPayload ->
  ReadControlFrame (mkReader (control_bytes typ p ++ rest) e) =
  (Ok (typ, p), mkReader rest e).
Proof.
  intros Hp. unfold ReadControlFrame, control_bytes. pose proof (zlen_nonneg p).
  rewrite app_comm_cons, <- app_assoc.
  rewrite ReadFull_bind by (rewrite zlen_cons, zlen_be_bytes; lia).
  rewrite be_value_bytes_id by (unfold is_u, MaxControlPayload in *; simpl in *; lia).
  cbv zeta. destruct (zlen p >? MaxControlPayload) eqn:E; [lia|].
  destruct (zlen p =? 0) eqn:E0.
  - apply Z.eqb_eq, zlen_0 in E0 as ->. done.
  - by rewrite ReadFull_bind.
Qed.

Lemma PeekStreamHeader_bytes name rest e :
  name <> ""%string -> zlen (bytes_of name) <= MaxStreamHeader ->
  PeekStreamHeader (mkReader (header_bytes name ++ rest) e) =
  (Ok (name, x00), mkReader rest e).
Proof.
  intros Hne Hn. unfold PeekStreamHeader, header_bytes.
  pose proof (zlen_nonneg (bytes_of name)).
  change ((TypeStreamHeader :: ?a) ++ rest) with ([TypeStreamHeader] ++ a ++ rest).
  rewrite ReadFull_bind by done. rewrite decide_True by done.
  rewrite <- app_assoc, ReadFull_bind by (by rewrite zlen_be_bytes).
  rewrite be_value_bytes_id by (unfold is_u, MaxStreamHeader in *; simpl in *; lia).
  cbv zeta. destruct (_ >? _) eqn:E; [lia|].
  destruct (zlen (bytes_of name) =? 0) eqn:E0.
  - apply Z.eqb_eq in E0. rewrite zlen_bytes_of in E0. by destruct name.
  - rewrite ReadFull_bind by done. by rewrite string_of_bytes_of.
Qed.

Lemma PeekStreamHeader_legacy b rest e :
  b <> TypeStreamHeader ->
  PeekStreamHeader (mkReader (b :: rest) e) = (Ok (""%string, b), mkReader rest e).
Proof.
  intros Hb. unfold PeekStreamHeader. change (b :: rest) with ([b] ++ rest).
  rewrite ReadFull_bind by done. by rewrite decide_False.
Qed.

(** ** Inversion: what a successful read consumed *)

Lemma rd_bind_inv {A B} (m : rd A) (k : A -> rd B) r b r' :
  rd_bind m k r = (Ok b, r') -> exists a r1, m r = (Ok a, r1) /\ k a r1 = (Ok b, r').
Proof. unfold rd_bind. destruct (m r) as [[a|e] r1]; [|done]. eauto. Qed.

Lemma feed_hdr_of_list hdr :
  zlen hdr = FeedHeaderLen ->
  exists typ len pts seq flags, hdr = feed_hdr typ len pts seq flags /\
    length len = 3%nat /\ length pts = 8%nat /\ length seq = 4%nat.
Proof.
  unfold zlen, FeedHeaderLen. intros H.
  do 17 (destruct hdr as [|? hdr]; [simpl in H; lia|]).
  destruct hdr; [|simpl in H; lia].
  match goal with
  | |- context [?a :: ?b1 :: ?b2 :: ?b3 :: ?c1 :: ?c2 :: ?c3 :: ?c4 :: ?c5 :: ?c6 :: ?c7 :: ?c8
                 :: ?d1 :: ?d2 :: ?d3 :: ?d4 :: ?e :: []] =>
      exists a, [b1; b2; b3], [c1; c2; c3; c4; c5; c6; c7; c8], [d1; d2; d3; d4], e
  end. done.
Qed.

(** Projects the fields of an explicit frame, nothing else. *)
Ltac ff_simpl :=
  cbn [ff_Type ff_PTSMicro ff_Seq ff_Flags ff_PubWallMicro ff_Payload from_option] in *.

Definition wall_of (f : FeedFrame) : option Z :=
  if band (ff_Flags f) FlagPublishWall =? 0 then None else Some (ff_PubWallMicro f).

Definition frame_bytes (f : FeedFrame) : list byte :=
  feed_bytes (ff_Type f) (ff_PTSMicro f) (ff_Seq f) (ff_Flags f) (wall_of f) (ff_Payload f).

(** A feed frame as the wire can carry it. *)
Definition frame_wf (f : FeedFrame) : Prop :=
  is_u 64 (ff_PTSMicro f) /\ is_u 32 (ff_Seq f) /\ is_u 64 (ff_PubWallMicro f) /\
  zlen (ff_Payload f) <= MaxFeedPayload /\
  (band (ff_Flags f) FlagPublishWall = 0 -> ff_PubWallMicro f = 0).

Lemma ReadFeedFrame_bytes f rest e :
  frame_wf f ->
  ReadFeedFrame (mkReader (frame_bytes f ++ rest) e) = (Ok f, mkReader rest e).
Proof.
  destruct f as [typ pts seq flags wall p]. intros (Hp & Hs & Hw & Hl & H0).
  unfold frame_bytes, wall_of; ff_simpl. destruct (band flags FlagPublishWall =? 0) eqn:E.
  - rewrite (ReadFeedFrame_plain typ pts seq flags p rest e) by (done || lia).
    by rewrite H0 by lia.
  - apply ReadFeedFrame_wall; done || lia.
Qed.

Lemma be_value_is_u n l : length l = n -> is_u (8 * Z.of_nat n) (be_value l).
Proof. intros <-. apply be_value_bound. Qed.

Lemma feed_payload_inv typ n pts seq flags wall r f r' :
  0 <= n ->
  (if n >? 0 then let! payload := ReadFull n in rd_ret (mkFeedFrame typ pts seq flags wall payload)
   else rd_ret (mkFeedFrame typ pts seq flags wall [])) r = (Ok f, r') ->
  exists p, f = mkFeedFrame typ pts seq flags wall p /\ zlen p = n /\
    rd_data r = p ++ rd_data r' /\ rd_end r' = rd_end r.
Proof.
  intros Hn. destruct (n >? 0) eqn:E; intros H.
  - apply rd_bind_inv in H as (p & r1 & H1 & [= <- <-]).
    apply ReadFull_ok in H1 as (? & ? & ?); [|lia]. by exists p.
  - injection H as <- <-. exists []. split_and!; try done. unfold zlen; simpl; lia.
Qed.

Lemma ReadFeedFrame_inv r f r' :
  ReadFeedFrame r = (Ok f, r') ->
  frame_wf f /\ rd_data r = frame_bytes f ++ rd_data r' /\ rd_end r' = rd_end r.
Proof.
  intros H. pose proof H as H0. unfold ReadFeedFrame in H0.
  apply rd_bind_inv in H0 as (hdr & r1 & H1 & _).
  apply ReadFull_ok in H1 as (Hz & Hd & He); [|done]. symmetry in Hz.
  destruct (feed_hdr_of_list hdr) as (typ & len & pts & seq & flags & -> & Hl & Hp & Hs); [done|].
  destruct r as [data e]; cbn [rd_data rd_end] in *; subst data.
  rewrite ReadFeedFrame_hdr in H by done. unfold feed_rest in H.
  apply rd_bind_inv in H as (wall & r2 & Hw & Hr).
  pose proof (be_value_is_u _ _ Hl) as Bl. pose proof (be_value_is_u _ _ Hp) as Bp.
  pose proof (be_value_is_u _ _ Hs) as Bs.
  apply feed_payload_inv in Hr as (p & -> & Hzp & Hdp & Hep); [|unfold is_u in Bl; lia].
  assert (exists ext, rd_data r1 = ext ++ rd_data r2 /\ rd_end r2 = rd_end r1 /\
     ((band flags FlagPublishWall = 0 /\ ext = [] /\ wall = 0) \/
      (band flags FlagPublishWall <> 0 /\ length ext = 8%nat /\ wall = be_value ext)))
    as (ext & Hext & Heext & Hcase).
  { destruct (band flags FlagPublishWall =? 0) eqn:E; simpl in Hw.
    - injection Hw as <- <-. exists []. split_and!; try done. left. split_and!; [lia|done..].
    - apply rd_bind_inv in Hw as (ext & r3 & H3 & [= <- <-]).
      apply ReadFull_ok in H3 as (Hz3 & Hd3 & He3); [|done].
      exists ext. split; [exact Hd3|]. split; [by rewrite He3|]. right.
      unfold zlen, WallExtLen in Hz3. split_and!; [lia|lia|done]. }
  unfold is_u in Bl. change (2 ^ (8 * Z.of_nat 3)) with 16777216 in Bl.
  assert (is_u 64 wall) as Bw.
  { destruct Hcase as [(_ & _ & ->)|(_ & Hle & ->)]; [by vm_compute|by apply (be_value_is_u 8)]. }
  split; [|split].
  - unfold frame_wf; simpl. split_and!; [done..|unfold MaxFeedPayload; lia|].
    destruct Hcase as [(_ & _ & ->)|(? & _)]; [done|lia].
  - rewrite Hext, Hdp. unfold frame_bytes, wall_of; ff_simpl. rewrite feed_bytes_hdr.
    rewrite Hzp, !be_bytes_value' by done. f_equal.
    destruct (band flags FlagPublishWall =? 0) eqn:E;
      destruct Hcase as [(? & -> & _)|(? & Hle & ->)]; try lia; [done|].
    cbn [from_option]. by rewrite be_bytes_value'.
  - congruence.
Qed.

Lemma ReadControlFrame_inv r typ p r' :
  ReadControlFrame r = (Ok (typ, p), r') ->
  zlen p <= MaxControlPayload /\ rd_data r = control_bytes typ p ++ rd_data r' /\
  rd_end r' = rd_end r.
Proof.
  unfold ReadControlFrame. intros H. apply rd_bind_inv in H as (hdr & r1 & H1 & H).
  apply ReadFull_ok in H1 as (Hz & Hd & He); [|done].
  destruct hdr as [|t len]; [done|]. rewrite zlen_cons in Hz.
  assert (length len = 3%nat) as Hl by (unfold zlen in Hz; lia).
  pose proof (be_value_is_u _ _ Hl) as Hb. unfold is_u in Hb. cbv zeta in H.
  destruct (be_value len >? MaxControlPayload) eqn:E; [done|].
  unfold control_bytes. destruct (be_value len =? 0) eqn:E0.
  - injection H as <- <- <-. apply Z.eqb_eq in E0. split_and!; [unfold zlen; simpl; lia| |done].
    rewrite Hd, app_nil_r. simpl. f_equal. change (zlen []) with 0.
    rewrite <- E0. by rewrite be_bytes_value'.
  - apply rd_bind_inv in H as (pl & r2 & H2 & [= <- <- <-]).
    apply ReadFull_ok in H2 as (Hz2 & Hd2 & He2); [|lia].
    split_and!; [lia| |congruence].
    rewrite Hd, Hd2, Hz2, be_bytes_value' by done. simpl. by rewrite <- app_assoc.
Qed.

(** ** Reading is stable under extension of the stream *)

Lemma ReadFeedFrame_extend data e f r' more :
  ReadFeedFrame (mkReader data e) = (Ok f, r') ->
  ReadFeedFrame (mkReader (data ++ more) e) = (Ok f, mkReader (rd_data r' ++ more) e).
Proof.
  intros H. apply ReadFeedFrame_inv in H as (Hwf & Hd & _). cbn [rd_data] in Hd.
  rewrite Hd, <- app_assoc. by apply ReadFeedFrame_bytes.
Qed.

Lemma ReadFeedFrame_err_class data f e r' :
  ReadFeedFrame (mkReader data EOF) = (f, r') -> f = Err e -> e = EOF \/ e = ErrUnexpectedEOF.
Proof.
  assert (forall n r e r', ReadFull n r = (Err e, r') -> rd_end r = EOF ->
            e = EOF \/ e = ErrUnexpectedEOF) as Hfull.
  { intros n [d en] e0 r0. unfold ReadFull; simpl. intros H ->.
    destruct (n <=? zlen d); [done|]. destruct d; injection H as <- <-; auto. }
  intros H ->. unfold ReadFeedFrame, rd_bind at 1 in H.
  destruct (ReadFull FeedHeaderLen (mkReader data EOF)) as [[hdr|e0] r1] eqn:E1;
    [|injection H as <- <-; by eapply Hfull].
  apply ReadFull_ok in E1 as (Hz & Hd & He); [|done]. cbn [rd_data rd_end] in *.
  destruct (feed_hdr_of_list hdr Hz) as (typ & len & pts & seq & flags & -> & Hl & Hp & Hs).
  pose proof (feed_hdr_fields typ len pts seq flags Hl Hp Hs) as (_ & H0 & H1 & H2 & H3 & H4).
  cbv zeta in *. rewrite H0, H1, H2, H3, H4 in H.
  pose proof (be_value_is_u _ _ Hl) as Bl. unfold is_u in Bl.
  change (2 ^ (8 * Z.of_nat 3)) with 16777216 in Bl.
  destruct (be_value len >? MaxFeedPayload) eqn:E; [unfold MaxFeedPayload in E; lia|].
  unfold rd_bind at 1 in H.
  assert (forall r, rd_end r = EOF -> forall wall,
    (if be_value len >? 0 then let! payload := ReadFull (be_value len) in
       rd_ret (mkFeedFrame typ (be_value pts) (be_value seq) flags wall payload)
     else rd_ret (mkFeedFrame typ (be_value pts) (be_value seq) flags wall [])) r = (Err e, r') ->
    e = EOF \/ e = ErrUnexpectedEOF) as Hpl.
  { intros r Hr wall. destruct (be_value len >? 0); [|done]. unfold rd_bind.
    destruct (ReadFull _ r) as [[p|e1] r2] eqn:E2; [done|]. intros [= <- <-]. by eapply Hfull. }
  destruct (band flags FlagPublishWall =? 0); simpl in H.
  - by eapply Hpl in H.
  - unfold rd_bind at 1 in H.
    destruct (ReadFull WallExtLen r1) as [[ext|e1] r2] eqn:E2.
    + simpl in H. apply ReadFull_ok in E2 as (_ & _ & He2); [|done].
      eapply Hpl; [|exact H]. congruence.
    + injection H as <- <-. by eapply Hfull.
Qed.

(** ** The properties of the wire formats *)

(** a control frame of at most [MaxControlPayload] bytes is written
    without error and reads back as itself, leaving the reader exactly at the
    next frame. *)
Theorem control_frame_roundtrip typ payload :
  zlen payload <= MaxControlPayload ->
  exists bs, WriteControlFrame typ payload (mkWriter [] []) = (None, mkWriter bs []) /\
    forall rest e, ReadControlFrame (mkReader (bs ++ rest) e) =
                   (Ok (typ, payload), mkReader rest e).
Proof.
  intros H. eexists. split; [by apply WriteControlFrame_accept|].
  intros. by apply ReadControlFrame_bytes.
Qed.

Lemma control_frame_roundtrip_witness :
  exists bs, WriteControlFrame TypePing [x2a; x00] (mkWriter [] []) = (None, mkWriter bs []) /\
    forall rest e, ReadControlFrame (mkReader (bs ++ rest) e) =
                   (Ok (TypePing, [x2a; x00]), mkReader rest e).
Proof. apply (control_frame_roundtrip TypePing [x2a; x00]). vm_compute. discriminate. Defined.

(** a successful [ReadControlFrame] never returns more than
    [MaxControlPayload] bytes and consumed exactly the canonical encoding of
    what it returned; a length prefix above the cap is refused with
    [ErrFrameTooLarge] before any payload byte is consumed. *)
Theorem control_frame_bounded r :
  (forall typ payload r', ReadControlFrame r = (Ok (typ, payload), r') ->
     zlen payload <= MaxControlPayload /\
     rd_data r = typ :: be_bytes 3 (zlen payload) ++ payload ++ rd_data r') /\
  (forall typ len rest, rd_data r = typ :: len ++ rest -> length len = 3%nat ->
     MaxControlPayload < be_value len ->
     ReadControlFrame r = (Err ErrFrameTooLarge, mkReader rest (rd_end r))).
Proof.
  split.
  - intros typ p r' H. apply ReadControlFrame_inv in H as (? & Hd & _). split; [done|].
    rewrite Hd. unfold control_bytes. simpl. by rewrite <- app_assoc.
  - intros typ len rest Hd Hl Hm. destruct r as [d e]; cbn [rd_data rd_end] in *; subst d.
    unfold ReadControlFrame. rewrite app_comm_cons.
    rewrite ReadFull_bind by (unfold zlen; simpl; rewrite Hl; done).
    cbv zeta. destruct (be_value len >? MaxControlPayload) eqn:E; [done|lia].
Qed.

(** C30: what [WriteFeedFrame] and [WriteFeedFrameWall] emit, [ReadFeedFrame]
    reads back field by field and stops at the frame's end; the wall-clock
    variant sets [FlagPublishWall] and round-trips the extra 8 bytes. *)
Theorem feed_frame_roundtrip typ pts seq flags wall payload :
  is_u 64 pts -> is_u 32 seq -> is_u 64 wall -> zlen payload <= MaxFeedPayload ->
  band flags FlagPublishWall = 0 ->
  (exists bs, WriteFeedFrame typ pts seq flags payload (mkWriter [] []) = (None, mkWriter bs []) /\
     forall rest e, ReadFeedFrame (mkReader (bs ++ rest) e) =
       (Ok (mkFeedFrame typ pts seq flags 0 payload), mkReader rest e)) /\
  (exists bs, WriteFeedFrameWall typ pts seq flags wall payload (mkWriter [] []) =
       (None, mkWriter bs []) /\
     forall rest e, ReadFeedFrame (mkReader (bs ++ rest) e) =
       (Ok (mkFeedFrame typ pts seq (bor flags FlagPublishWall) wall payload), mkReader rest e)).
Proof.
  intros Hpts Hseq Hw Hl Hf. split; eexists; (split; [by (apply WriteFeedFrame_accept || apply WriteFeedFrameWall_accept)|]); intros.
  - by apply ReadFeedFrame_plain.
  - apply ReadFeedFrame_wall; try done. unfold band, bor, FlagPublishWall.
    rewrite Z_of_byte_of_Z. change 256 with (2 ^ 8).
    rewrite <- Z.land_ones by done. intros H0.
    assert (Z.testbit 0 2 = true) as Hb; [|done]. rewrite <- H0.
    rewrite !Z.land_spec, Z.lor_spec. change (Z.testbit (Z.shiftl 1 2) 2) with true.
    rewrite orb_true_r. done.
Qed.

Lemma feed_frame_roundtrip_witness :
  exists bs, WriteFeedFrameWall TypeKeyframe 33000 7 x01 1700000000000000 [xde; xad] (mkWriter [] []) =
       (None, mkWriter bs []) /\
     forall rest e, ReadFeedFrame (mkReader (bs ++ rest) e) =
       (Ok (mkFeedFrame TypeKeyframe 33000 7 (bor x01 FlagPublishWall) 1700000000000000 [xde; xad]),
        mkReader rest e).
Proof.
  apply (feed_frame_roundtrip TypeKeyframe 33000 7 x01 1700000000000000 [xde; xad]);
    vm_compute; intuition discriminate.
Defined.

(** C31: [ReadFeedFrame] accepts only canonical encodings: the bytes consumed
    by a successful read are the encoding of the frame returned, whose
    numeric fields are in range, and the error reported at the end of the
    stream is untouched. *)
Theorem feed_frame_canonical r f r' :
  ReadFeedFrame r = (Ok f, r') ->
  frame_wf f /\ rd_data r = frame_bytes f ++ rd_data r' /\ rd_end r' = rd_end r.
Proof. apply ReadFeedFrame_inv. Qed.

Lemma feed_frame_canonical_witness :
  let f := mkFeedFrame TypePFrame 1 2 x00 0 [x05] in
  let r := mkReader (x21 :: be_bytes 3 1 ++ be_bytes 8 1 ++ be_bytes 4 2 ++ [x00; x05; x99]) EOF in
  frame_wf f /\ rd_data r = frame_bytes f ++ [x99] /\ EOF = rd_end r.
Proof.
  intros f r. apply (feed_frame_canonical r f (mkReader [x99] EOF)). vm_compute. reflexivity.
Defined.

(** no partial frame is ever delivered: a stream that ends strictly inside
    a feed frame yields [io.EOF] or [io.ErrUnexpectedEOF], never a frame. *)
Theorem feed_frame_truncated f n :
  frame_wf f -> (n < length (frame_bytes f))%nat ->
  exists e r', ReadFeedFrame (mkReader (take n (frame_bytes f)) EOF) = (Err e, r') /\
               (e = EOF \/ e = ErrUnexpectedEOF).
Proof.
  intros Hwf Hn. destruct (ReadFeedFrame (mkReader (take n (frame_bytes f)) EOF)) as [[g|e] r'] eqn:E.
  - exfalso. apply (ReadFeedFrame_extend _ _ _ _ (drop n (frame_bytes f))) in E.
    rewrite take_drop in E. rewrite <- (app_nil_r (frame_bytes f)) in E at 1.
    rewrite ReadFeedFrame_bytes in E by done. injection E as _ E. symmetry in E.
    apply app_eq_nil in E as [_ E].
    assert (length (drop n (frame_bytes f)) = 0%nat) as E0 by (by rewrite E).
    rewrite length_drop in E0. lia.
  - exists e, r'. split; [done|]. by eapply ReadFeedFrame_err_class.
Qed.

Lemma feed_frame_truncated_witness :
  exists e r', ReadFeedFrame (mkReader (take 18 (frame_bytes (mkFeedFrame TypePFrame 1 2 x00 0 [x05; x06]))) EOF)
     = (Err e, r') /\ (e = EOF \/ e = ErrUnexpectedEOF).
Proof.
  apply (feed_frame_truncated (mkFeedFrame TypePFrame 1 2 x00 0 [x05; x06]) 18);
    vm_compute; intuition (discriminate || lia).
Defined.

(** a named stream header is recognised and consumed exactly; a stream
    without one is handed back unchanged once the peeked byte is prepended;
    and the empty name, which [WriteStreamHeader] writes without error, is the
    one name the reader refuses. *)
Theorem stream_header_roundtrip name rest e :
  zlen (bytes_of name) <= MaxStreamHeader ->
  exists bs, WriteStreamHeader name (mkWriter [] []) = (None, mkWriter bs []) /\
    (name <> ""%string ->
       PeekStreamHeader (mkReader (bs ++ rest) e) = (Ok (name, x00), mkReader rest e)) /\
    (name = ""%string -> exists msg,
       PeekStreamHeader (mkReader (bs ++ rest) e) = (Err (ErrMsg msg), mkReader rest e)) /\
    (forall b, b <> TypeStreamHeader ->
       PeekStreamHeader (mkReader (b :: rest) e) = (Ok (""%string, b), mkReader rest e)).
Proof.
  intros H. eexists. split; [by apply WriteStreamHeader_accept|]. split_and!.
  - intros. by apply PeekStreamHeader_bytes.
  - intros ->. exists "quicrtc/wire: empty stream header"%string.
    unfold PeekStreamHeader. change (([] ++ header_bytes "") ++ rest) with
      ([TypeStreamHeader] ++ be_bytes 3 0 ++ rest).
    rewrite ReadFull_bind by done. rewrite decide_True by done.
    rewrite ReadFull_bind by (by rewrite zlen_be_bytes).
    by rewrite be_value_bytes_id by (by vm_compute).
  - intros. by apply PeekStreamHeader_legacy.
Qed.

Lemma stream_header_roundtrip_witness :
  exists bs, WriteStreamHeader "screen" (mkWriter [] []) = (None, mkWriter bs []) /\
    ("screen"%string <> ""%string ->
       PeekStreamHeader (mkReader (bs ++ [x20]) EOF) = (Ok ("screen"%string, x00), mkReader [x20] EOF)) /\
    ("screen"%string = ""%string -> exists msg,
       PeekStreamHeader (mkReader (bs ++ [x20]) EOF) = (Err (ErrMsg msg), mkReader [x20] EOF)) /\
    (forall b, b <> TypeStreamHeader ->
       PeekStreamHeader (mkReader (b :: [x20]) EOF) = (Ok (""%string, b), mkReader [x20] EOF)).
Proof. apply (stream_header_roundtrip "screen" [x20] EOF). vm_compute. discriminate. Defined.

Lemma datagram_decode_encode trackID seq payload :
  is_u 16 seq -> zlen payload <= MaxDatagramPayload ->
  exists bs, EncodeDatagram [] trackID seq payload = Ok bs /\
             DecodeDatagram bs = Ok (trackID, seq, payload).
Proof.
  intros Hseq Hp. unfold EncodeDatagram. destruct (_ >? _) eqn:E; [lia|]. eexists; split; [done|].
  unfold DecodeDatagram. cbn [app]. rewrite !zlen_cons. pose proof (zlen_nonneg payload).
  destruct (_ <? _) eqn:E2; [unfold DatagramHeaderLen in E2; lia|].
  rewrite decide_True by done. by rewrite <- be_bytes_2, be_value_bytes_id.
Qed.

(** the datagram envelope round-trips track id, sequence number and
    payload, rejects oversized payloads, short buffers and foreign type bytes,
    and whatever decodes re-encodes to the same bytes. *)
Theorem datagram_roundtrip trackID seq payload :
  is_u 16 seq ->
  (zlen payload <= MaxDatagramPayload ->
     exists bs, EncodeDatagram [] trackID seq payload = Ok bs /\
                DecodeDatagram bs = Ok (trackID, seq, payload)) /\
  (MaxDatagramPayload < zlen payload ->
     EncodeDatagram [] trackID seq payload = Err ErrDatagramTooLarge) /\
  (forall b, DecodeDatagram b = Ok (trackID, seq, payload) ->
     b = [TypeDatagramAU; trackID; byte_of_Z (Z.shiftr seq 8); byte_of_Z seq] ++ payload).
Proof.
  intros Hseq. assert (forall s, [byte_of_Z (Z.shiftr s 8); byte_of_Z s] = be_bytes 2 s) as Hbe.
  { intros s. by rewrite be_bytes_2. }
  split_and!.
  - intros Hp. by apply datagram_decode_encode.
  - intros Hp. unfold EncodeDatagram. destruct (_ >? _) eqn:E; [done|lia].
  - intros b. unfold DecodeDatagram. destruct (_ <? _); [done|].
    destruct b as [|b0 [|b1 [|b2 [|b3 b]]]]; [done..|].
    destruct (decide _) as [->|]; [|done]. intros [= -> <- <-]. simpl. do 2 f_equal.
    assert ([byte_of_Z (Z.shiftr (be_value [b2; b3]) 8); byte_of_Z (be_value [b2; b3])] = [b2; b3])
      as [= -> ->] by (by rewrite Hbe, be_bytes_value'). done.
Qed.

Lemma datagram_roundtrip_witness :
  exists bs, EncodeDatagram [] x07 513 [x01; x02] = Ok bs /\
             DecodeDatagram bs = Ok (x07, 513, [x01; x02]).
Proof.
  apply (datagram_roundtrip x07 513 [x01; x02]); vm_compute; intuition discriminate.
Defined.

(** ** Version negotiation on decimal versions *)

Definition digit_val (c : Ascii.ascii) : Z := Z.of_N (Ascii.N_of_ascii c) - 48.

Fixpoint version_value (s : string) : Z :=
  match s with
  | EmptyString => 0
  | String c s' => digit_val c * 10 ^ Z.of_nat (String.length s') + version_value s'
  end.

Fixpoint all_digits (s : string) : bool :=
  match s with
  | EmptyString => true
  | String c s' => (0 <=? digit_val c) && (digit_val c <=? 9) && all_digits s'
  end.

(** A decimal number written without superfluous leading zeros. *)
Definition is_version (s : string) : bool :=
  all_digits s &&
  match s with
  | EmptyString => false
  | String c EmptyString => true
  | String c _ => negb (digit_val c =? 0)
  end.

Lemma version_value_bound s :
  all_digits s = true -> 0 <= version_value s < 10 ^ Z.of_nat (String.length s).
Proof.
  induction s as [|c s IH]; simpl String.length; cbn [all_digits version_value]; intros H.
  { simpl; lia. }
  apply andb_prop in H as [H1 H2]. specialize (IH H2).
  rewrite Nat2Z.inj_succ, Z.pow_succ_r by lia. nia.
Qed.

Lemma version_compare_same_length a b :
  all_digits a = true -> all_digits b = true -> String.length a = String.length b ->
  String.compare a b = (version_value a ?= version_value b).
Proof.
  revert b; induction a as [|c a IH]; intros [|d b]; simpl String.length; intros Ha Hb Hl; try done.
  cbn [all_digits version_value String.compare] in *.
  apply andb_prop in Ha as [Hc Ha], Hb as [Hd Hb].
  pose proof (version_value_bound a Ha) as Va. pose proof (version_value_bound b Hb) as Vb.
  injection Hl as Hl. rewrite Hl in *. set (m := 10 ^ Z.of_nat (String.length b)) in *.
  unfold Ascii.compare, digit_val in *.
  destruct (Ascii.N_of_ascii c ?= Ascii.N_of_ascii d)%N eqn:E.
  - apply N.compare_eq in E. rewrite (IH b) by done. rewrite E.
    destruct (version_value a ?= version_value b) eqn:E2; symmetry.
    + apply Z.compare_eq_iff in E2. apply Z.compare_eq_iff. lia.
    + change (version_value a < version_value b) in E2. apply Z.compare_lt_iff. nia.
    + apply Z.compare_gt_iff in E2. apply Z.compare_gt_iff. nia.
  - change (Ascii.N_of_ascii c < Ascii.N_of_ascii d)%N in E.
    symmetry. apply Z.compare_lt_iff. nia.
  - apply N.compare_gt_iff in E. symmetry. apply Z.compare_gt_iff. nia.
Qed.

Lemma version_value_lower s :
  is_version s = true -> (2 <= String.length s)%nat ->
  10 ^ (Z.of_nat (String.length s) - 1) <= version_value s.
Proof.
  unfold is_version. intros [Hd H]%andb_prop Hl. destruct s as [|c s]; [done|].
  destruct s as [|c' s]; [simpl in Hl; lia|].
  cbn [all_digits] in Hd. apply andb_prop in Hd as [Hc Hd].
  pose proof (version_value_bound (String c' s) Hd) as Vb.
  set (t := String c' s) in *. change (String.length (String c t)) with (S (String.length t)).
  change (version_value (String c t)) with (digit_val c * 10 ^ Z.of_nat (String.length t) + version_value t).
  replace (Z.of_nat (S (String.length t)) - 1) with (Z.of_nat (String.length t)) by lia.
  nia.
Qed.

Lemma version_value_shorter a b :
  is_version a = true -> is_version b = true -> (String.length a < String.length b)%nat ->
  version_value a < version_value b.
Proof.
  intros Ha Hb Hl. assert (all_digits a = true) as Da by (by apply andb_prop in Ha as [? _]).
  pose proof (version_value_bound a Da) as Va.
  assert (a <> EmptyString) by (by intros ->; apply andb_prop in Ha as [_ ?]).
  assert (1 <= String.length a)%nat by (destruct a; simpl; [done|lia]).
  pose proof (version_value_lower b Hb ltac:(lia)).
  assert (10 ^ Z.of_nat (String.length a) <= 10 ^ (Z.of_nat (String.length b) - 1))
    by (apply Z.pow_le_mono_r; lia). lia.
Qed.

(** On decimal versions [cmpVersion] is numeric comparison. *)
Lemma cmpVersion_numeric a b :
  is_version a = true -> is_version b = true ->
  cmpVersion a b = Z.sgn (version_value a - version_value b).
Proof.
  intros Ha Hb. unfold cmpVersion.
  destruct (String.length a =? String.length b)%nat eqn:E; simpl.
  - apply Nat.eqb_eq in E. pose proof Ha as [Da _]%andb_prop. pose proof Hb as [Db _]%andb_prop.
    rewrite version_compare_same_length by done.
    destruct (_ ?= _) eqn:C; symmetry.
    + apply Z.compare_eq_iff in C. lia.
    + change (version_value a < version_value b) in C. lia.
    + apply Z.compare_gt_iff in C. lia.
  - apply Nat.eqb_neq in E. destruct (_ <? _)%nat eqn:L.
    + apply Nat.ltb_lt in L. pose proof (version_value_shorter a b Ha Hb L). lia.
    + apply Nat.ltb_ge in L. pose proof (version_value_shorter b a Hb Ha ltac:(lia)). lia.
Qed.

(** on decimal versions, negotiation succeeds exactly when the two ranges
    overlap and then picks the newest version both sides speak, which lies in
    both ranges. *)
Theorem negotiate_version_highest cmin cmax smin smax :
  is_version cmin = true -> is_version cmax = true ->
  is_version smin = true -> is_version smax = true ->
  let lo := Z.max (version_value cmin) (version_value smin) in
  let hi := Z.min (version_value cmax) (version_value smax) in
  match NegotiateVersion cmin cmax smin smax with
  | (v, true) => lo <= hi /\ version_value v = hi /\ (v = cmax \/ v = smax)
  | (v, false) => hi < lo /\ v = ""%string
  end.
Proof.
  intros H1 H2 H3 H4. cbv zeta. unfold NegotiateVersion.
  rewrite (cmpVersion_numeric smin cmin), (cmpVersion_numeric smax cmax) by done.
  destruct (Z.sgn (version_value smin - _) >? 0) eqn:E1;
    destruct (Z.sgn (version_value smax - _) <? 0) eqn:E2;
    rewrite cmpVersion_numeric by done;
    match goal with |- context [Z.sgn ?x <? 0] => destruct (Z.sgn x <? 0) eqn:E3 end;
    split_and?; try lia; auto.
Qed.

Lemma negotiate_version_highest_witness :
  let lo := Z.max (version_value "2") (version_value "1") in
  let hi := Z.min (version_value "10") (version_value "9") in
  match NegotiateVersion "2" "10" "1" "9" with
  | (v, true) => lo <= hi /\ version_value v = hi /\ (v = "10" \/ v = "9")%string
  | (v, false) => hi < lo /\ v = ""%string
  end.
Proof. apply (negotiate_version_highest "2" "10" "1" "9"); vm_compute; reflexivity. Defined.
