(* ===== verification/Track.v ===== *)
(** * Package track: kinds, priorities and delivery classes

    [track/track.go] and [track/presets.go]. *)

From S2P Require Import Prelude.

(** [type Kind string]. *)
Definition Kind : Type := string.

Definition KindVideo : Kind := "video".
Definition KindAudio : Kind := "audio".
Definition KindTokens : Kind := "tokens".
Definition KindToolCalls : Kind := "toolcalls".
Definition KindTelemetry : Kind := "telemetry".

(** [type Priority uint8]; lower is more urgent. *)
Definition PriorityCritical : Z := 0.
Definition PriorityHigh : Z := 2.
Definition PriorityNormal : Z := 4.
Definition PriorityBackground : Z := 7.

(** [type DeliveryClass uint8], numbered by [iota]. *)
Definition DeliveryStreamGOP : Z := 0.
Definition DeliveryStreamLowLatency : Z := 1.
Definition DeliveryBidiPerCall : Z := 2.
Definition DeliveryDatagramOrStream : Z := 3.

Definition DeliveryClass_String (c : Z) : string :=
  if c =? DeliveryStreamGOP then "stream-gop"
  else if c =? DeliveryStreamLowLatency then "stream-low-latency"
  else if c =? DeliveryBidiPerCall then "bidi-per-call"
  else if c =? DeliveryDatagramOrStream then "datagram-or-stream"
  else "unknown".

Definition DefaultPriority (k : Kind) : Z :=
  if decide (k = KindAudio) then PriorityCritical
  else if decide (k = KindTokens \/ k = KindToolCalls) then PriorityHigh
  else if decide (k = KindVideo) then PriorityNormal
  else if decide (k = KindTelemetry) then PriorityBackground
  else PriorityNormal.

Definition DefaultDeliveryClass (k : Kind) : Z :=
  if decide (k = KindVideo) then DeliveryStreamGOP
  else if decide (k = KindTokens \/ k = KindAudio) then DeliveryStreamLowLatency
  else if decide (k = KindToolCalls) then DeliveryBidiPerCall
  else if decide (k = KindTelemetry) then DeliveryDatagramOrStream
  else DeliveryStreamGOP.

Record LocalTrack := mkLocalTrack {
  lt_Name : string;
  lt_Kind : Kind;
  lt_Codec : string;
  lt_Priority : Z;
  lt_Delivery : Z;
}.

Definition Video (name codec : string) : LocalTrack :=
  mkLocalTrack name KindVideo codec PriorityNormal (DefaultDeliveryClass KindVideo).

Definition Audio (name codec : string) : LocalTrack :=
  let codec := if decide (codec = ""%string) then "opus"%string else codec in
  mkLocalTrack name KindAudio codec PriorityCritical (DefaultDeliveryClass KindAudio).

Definition Tokens (name : string) : LocalTrack :=
  mkLocalTrack name KindTokens "" PriorityHigh (DefaultDeliveryClass KindTokens).

Definition ToolCalls (name : string) : LocalTrack :=
  mkLocalTrack name KindToolCalls "" PriorityHigh (DefaultDeliveryClass KindToolCalls).

Definition Telemetry (name : string) : LocalTrack :=
  mkLocalTrack name KindTelemetry "" PriorityBackground (DefaultDeliveryClass KindTelemetry).

(** * Properties *)

Definition preset (name codec : string) (t : LocalTrack) : Prop :=
  t = Video name codec \/ t = Audio name codec \/ t = Tokens name \/
  t = ToolCalls name \/ t = Telemetry name.

(** every preset carries its kind's default priority and delivery class;
    the four delivery classes are pairwise distinct and have distinct labels;
    and in the priority order audio comes before tokens and tool calls, those
    before video, and telemetry last. *)
Theorem presets_follow_defaults name codec t :
  preset name codec t ->
  lt_Name t = name /\ lt_Priority t = DefaultPriority (lt_Kind t) /\
  lt_Delivery t = DefaultDeliveryClass (lt_Kind t) /\
  DeliveryClass_String (lt_Delivery t) <> "unknown"%string /\
  DefaultPriority KindAudio < DefaultPriority KindTokens /\
  DefaultPriority KindTokens = DefaultPriority KindToolCalls /\
  DefaultPriority KindToolCalls < DefaultPriority KindVideo /\
  DefaultPriority KindVideo < DefaultPriority KindTelemetry /\
  NoDup (DeliveryClass_String <$> [DeliveryStreamGOP; DeliveryStreamLowLatency;
                                   DeliveryBidiPerCall; DeliveryDatagramOrStream]).
Proof.
  intros H. assert (NoDup (DeliveryClass_String <$> [DeliveryStreamGOP; DeliveryStreamLowLatency;
     DeliveryBidiPerCall; DeliveryDatagramOrStream])) as Hnd by (by vm_compute; apply (bool_decide_unpack _); vm_compute).
  destruct H as [-> | [-> | [-> | [-> | ->]]]]; split_and!; try done; vm_compute; discriminate.
Qed.

Lemma presets_follow_defaults_witness :
  lt_Priority (Tokens "reasoning") = DefaultPriority KindTokens.
Proof.
  apply (presets_follow_defaults "reasoning" "" (Tokens "reasoning")). right; right; left; reflexivity.
Defined.
