(* ===== verification/Transport.v ===== *)
(** * Package transport: the send-rate meter

    [transport/congestion.go].  Times are Unix microseconds, a [time.Duration]
    is nanoseconds; [uint32], [uint64] and [int64] wrap.  The interface types of
    the package carry no code. *)

From S2P Require Import Prelude.

Record rateSample := mkRateSample { rs_tMicros : Z; rs_bytes : Z }.

Record SendRateMeter := mkSendRateMeter {
  m_windowMicros : Z;
  m_samples : list rateSample;
  m_head : nat;
  m_totalBytes : Z;
}.

Definition NewSendRateMeter (window : Z) : SendRateMeter :=
  let window := if window <=? 0 then 1000000000 else window in
  mkSendRateMeter (Z.quot window 1000) [] 0 0.

(** The loop that drops samples older than [cutoff]; [fuel] bounds the samples
    left. *)
Fixpoint advance (fuel : nat) (cutoff : Z) (m : SendRateMeter) : SendRateMeter :=
  match fuel with
  | O => m
  | S fuel' =>
      match m_samples m !! m_head m with
      | Some s =>
          if rs_tMicros s <? cutoff
          then advance fuel' cutoff
                 (mkSendRateMeter (m_windowMicros m) (m_samples m) (S (m_head m)) (u64 (m_totalBytes m - rs_bytes s)))
          else m
      | None => m
      end
  end.

Definition dropOld (cutoff : Z) (m : SendRateMeter) : SendRateMeter :=
  advance (length (m_samples m) - m_head m) cutoff m.

(** [now] is [now.UnixMicro()]. *)
Definition Add (n now : Z) (m : SendRateMeter) : SendRateMeter :=
  let m := mkSendRateMeter (m_windowMicros m) (m_samples m ++ [mkRateSample now (u32 n)]) (m_head m)
             (u64 (m_totalBytes m + u64 n)) in
  let m := dropOld (now - m_windowMicros m) m in
  if (1024 <? m_head m)%nat
  then mkSendRateMeter (m_windowMicros m) (drop (m_head m) (m_samples m)) 0 (m_totalBytes m)
  else m.

Definition Rate (now : Z) (m : SendRateMeter) : Z * SendRateMeter :=
  let m := dropOld (now - m_windowMicros m) m in
  match m_samples m !! m_head m with
  | None => (0, m)
  | Some s =>
      let span := now - rs_tMicros s in
      if span <=? 0 then (0, m) else (u64 (m_totalBytes m * 1000000) / span, m)
  end.

(** * Properties *)

(** The samples not yet dropped. *)
Definition live (m : SendRateMeter) : list rateSample := drop (m_head m) (m_samples m).

Definition total (l : list rateSample) : Z := foldr (fun s n => rs_bytes s + n) 0 l.

Definition sample_ok (s : rateSample) : Prop := is_u 32 (rs_bytes s).

Definition by_time (l : list rateSample) : Prop := StronglySorted (fun a b => rs_tMicros a <= rs_tMicros b) l.

(** The samples at or after [cutoff]. *)
Definition since (cutoff : Z) (l : list rateSample) : list rateSample := filter (fun s => cutoff <= rs_tMicros s) l.

Lemma total_bytes_app l k : total (l ++ k) = total l + total k.
Proof. induction l as [|s l IH]; simpl; lia. Qed.

Lemma total_bytes_nonneg l : Forall sample_ok l -> 0 <= total l.
Proof. induction 1 as [|s l Hs _ IH]; simpl; [lia|]. unfold sample_ok, is_u in Hs. lia. Qed.

Lemma since_all cutoff s l : by_time (s :: l) -> cutoff <= rs_tMicros s -> since cutoff (s :: l) = s :: l.
Proof.
  intros Hs Hc. unfold since. inversion Hs as [|? ? Hl Hall]; subst. rewrite filter_cons, decide_True by done. f_equal.
  clear Hs Hl. induction Hall as [|x l Hx _ IH]; [done|]. rewrite filter_cons, decide_True by lia. by rewrite IH.
Qed.

(** The meter agrees with the samples it has kept. *)
Record meter_ok (m : SendRateMeter) : Prop := {
  mo_head : (m_head m <= length (m_samples m))%nat;
  mo_total : m_totalBytes m = total (live m);
  mo_range : Forall sample_ok (live m) /\ total (live m) < 2 ^ 64;
}.

Lemma advance_ok fuel : forall cutoff m, meter_ok m -> by_time (live m) -> (length (live m) <= fuel)%nat ->
  let m' := advance fuel cutoff m in
  meter_ok m' /\ live m' = since cutoff (live m) /\ m_windowMicros m' = m_windowMicros m /\
  m_samples m' = m_samples m.
Proof.
  induction fuel as [|fuel IH]; intros cutoff m Hm Hb Hf; pose proof Hm as [Hh Ht [Hr Hs]]; cbn [advance].
  { assert (live m = []) as E by (destruct (live m); [done|simpl in Hf; lia]). rewrite E. by split_and!. }
  unfold live in *. destruct (m_samples m !! m_head m) as [s|] eqn:E.
  - rewrite (drop_S _ _ _ E) in *. destruct (rs_tMicros s <? cutoff) eqn:Ec.
    + set (m1 := mkSendRateMeter _ _ _ _). simpl in Ht, Hs. apply Forall_cons in Hr as [Hsr Hr].
      pose proof (total_bytes_nonneg _ Hr) as Hn. unfold sample_ok, is_u in Hsr.
      assert (m_totalBytes m1 = total (live m1)) as Ht1.
      { subst m1. unfold live. simpl. rewrite Ht. unfold u64. rewrite Z.mod_small; lia. }
      destruct (IH cutoff m1) as (Hok & Hl & Hw & Hsm).
      * split; [apply lookup_lt_Some in E; simpl; lia|done|]. subst m1. unfold live. simpl. split; [done|lia].
      * inversion Hb. by subst.
      * subst m1. unfold live. simpl in *. lia.
      * split; [done|]. split; [|done]. rewrite Hl. subst m1. unfold live, since. simpl.
        rewrite filter_cons, decide_False by lia. done.
    + rewrite since_all by (try done; lia). split; [done|]. split; [by rewrite (drop_S _ _ _ E)|done].
  - assert (drop (m_head m) (m_samples m) = []) as Ed by (apply drop_ge; by apply lookup_ge_None).
    rewrite Ed. split; [done|]. by split.
Qed.

Lemma dropOld_ok cutoff m : meter_ok m -> by_time (live m) ->
  let m' := dropOld cutoff m in
  meter_ok m' /\ live m' = since cutoff (live m) /\ m_windowMicros m' = m_windowMicros m.
Proof.
  intros Hok Hb. destruct (advance_ok (length (m_samples m) - m_head m) cutoff m Hok Hb) as (H1 & H2 & H3 & _); [|done].
  unfold live. rewrite length_drop. lia.
Qed.

(** ** The meter against its definition *)

(** The meter after a history of sends. *)
Definition meter (window : Z) (hist : list (Z * Z)) : SendRateMeter :=
  foldl (fun m tn => Add tn.2 tn.1 m) (NewSendRateMeter window) hist.

Definition sent (hist : list (Z * Z)) : list rateSample := (fun tn => mkRateSample tn.1 tn.2) <$> hist.

(** The bytes per second of the sends of the last window, from the oldest of
    them to [now]. *)
Definition rate_of (windowMicros : Z) (hist : list (Z * Z)) (now : Z) : Z :=
  match since (now - windowMicros) (sent hist) with
  | [] => 0
  | s :: l => if now <=? rs_tMicros s then 0 else u64 (total (s :: l) * 1000000) / (now - rs_tMicros s)
  end.

Lemma since_since a b l : a <= b -> since b (since a l) = since b l.
Proof.
  intros Hab. unfold since. induction l as [|s l IH]; [done|]. rewrite !filter_cons.
  destruct (decide (a <= rs_tMicros s)) as [Ha|Ha].
  - rewrite filter_cons. destruct (decide (b <= rs_tMicros s)); by rewrite IH.
  - rewrite (decide_False (P := b <= rs_tMicros s)) by lia. done.
Qed.

Lemma since_snoc a l s : since a (l ++ [s]) = since a l ++ since a [s].
Proof. apply filter_app. Qed.

Lemma by_time_since a l : by_time l -> by_time (since a l).
Proof.
  intros Hs. unfold since. induction Hs as [|s l Hl IH Hall]; [constructor|]. rewrite filter_cons. destruct (decide _); [|done].
  constructor; [done|]. apply Forall_forall. intros x Hx. apply list_elem_of_filter in Hx as [_ Hx].
  by apply (proj1 (Forall_forall _ _) Hall).
Qed.

Lemma total_since_le a l : Forall sample_ok l -> total (since a l) <= total l.
Proof.
  intros Hl. unfold since. induction Hl as [|s l Hs _ IH]; [done|]. unfold sample_ok, is_u in Hs.
  rewrite filter_cons. destruct (decide _); simpl; lia.
Qed.

(** A history the clock and the widths admit: times not decreasing and not after
    [now], each send below 2^32 bytes, all below 2^64 together. *)
Record history (hist : list (Z * Z)) (now : Z) : Prop := {
  hi_time : by_time (sent hist ++ [mkRateSample now 0]);
  hi_bytes : Forall (fun tn => is_u 32 tn.2) hist;
  hi_total : total (sent hist) < 2 ^ 64;
}.

Lemma by_time_app l k : by_time (l ++ k) -> by_time l /\ by_time k /\
  forall a b, a ∈ l -> b ∈ k -> rs_tMicros a <= rs_tMicros b.
Proof. intros Hs. apply StronglySorted_app in Hs as (? & ? & ?). by split_and!. Qed.

Lemma sent_snoc hist t n : sent (hist ++ [(t, n)]) = sent hist ++ [mkRateSample t n].
Proof. unfold sent. by rewrite fmap_app. Qed.

Lemma history_ok hist now : history hist now -> Forall sample_ok (sent hist).
Proof. intros [_ Hb _]. unfold sent. apply Forall_fmap. exact Hb. Qed.

Lemma history_snoc hist t n now : history (hist ++ [(t, n)]) now ->
  history hist t /\ t <= now /\ is_u 32 n /\ total (sent hist) + n < 2 ^ 64.
Proof.
  intros [Ht Hb Htot]. rewrite sent_snoc in *. rewrite total_bytes_app in Htot. simpl in Htot.
  apply Forall_app in Hb as [Hb Hn]. apply Forall_cons in Hn as [Hn _]. simpl in Hn.
  pose proof (by_time_app _ _ Ht) as (H1 & _ & H3). destruct (by_time_app _ _ H1) as (H4 & _ & H6).
  pose proof (H3 (mkRateSample t n) (mkRateSample now 0) ltac:(set_solver) ltac:(set_solver)) as H7. simpl in H7.
  split; [|split; [exact H7|split; [exact Hn|unfold is_u in Hn; lia]]]. split; [|exact Hb|unfold is_u in Hn; lia]. unfold by_time in *. apply StronglySorted_app. split_and!; [|done|repeat constructor].
  intros a b Ha Hb'. apply list_elem_of_singleton in Hb' as ->. exact (H6 a (mkRateSample t n) Ha ltac:(set_solver)).
Qed.

Lemma Add_ok n t m (l : list rateSample) cut : meter_ok m -> live m = since cut l -> cut <= t - m_windowMicros m ->
  is_u 32 n -> Forall sample_ok l -> by_time (l ++ [mkRateSample t n]) -> total l + n < 2 ^ 64 ->
  let m' := Add n t m in
  meter_ok m' /\ live m' = since (t - m_windowMicros m) (l ++ [mkRateSample t n]) /\ m_windowMicros m' = m_windowMicros m.
Proof.
  intros [Hh Ht [Hr Hs]] Hl Hcut Hn Hsl Hb Htot. unfold Add. cbn zeta. set (m1 := mkSendRateMeter _ _ _ _).
  assert (u32 n = n /\ u64 n = n) as [E1 E2].
  { unfold is_u in Hn. unfold u32, u64. split; apply Z.mod_small; lia. }
  assert (live m1 = live m ++ [mkRateSample t n]) as Hl1.
  { subst m1. unfold live. simpl. by rewrite drop_app_le, E1. }
  pose proof (total_since_le cut l Hsl) as Hle. rewrite <- Hl in Hle. unfold is_u in Hn.
  pose proof (total_bytes_nonneg _ Hr) as Hnn.
  assert (meter_ok m1) as Hok1.
  { split; [subst m1; simpl; rewrite length_app; lia| |].
    - rewrite Hl1, total_bytes_app. subst m1. simpl. rewrite E2, Ht. unfold u64. rewrite Z.mod_small; lia.
    - rewrite Hl1, total_bytes_app. simpl. split; [|lia]. apply Forall_app. split; [done|]. by apply Forall_singleton. }
  assert (by_time (live m1)) as Hb1.
  { rewrite Hl1, Hl. destruct (by_time_app _ _ Hb) as (H1 & _ & H3). unfold by_time. apply StronglySorted_app.
    split_and!; [|by apply by_time_since|repeat constructor].
    intros a b Ha Hb'. apply list_elem_of_filter in Ha as [_ Ha]. auto. }
  destruct (dropOld_ok (t - m_windowMicros m1) m1 Hok1 Hb1) as (Hok2 & Hl2 & Hw2).
  assert (live (dropOld (t - m_windowMicros m1) m1) = since (t - m_windowMicros m) (l ++ [mkRateSample t n])) as Hl3.
  { rewrite Hl2, Hl1, Hl, !since_snoc, since_since by done. done. }
  set (m2 := dropOld _ m1) in *. destruct (1024 <? m_head m2)%nat; [|done].
  split; [|done]. destruct Hok2 as [? H2 H3]. unfold live in *. split; simpl; [lia|done..].
Qed.

Lemma meter_live window hist : forall now, history hist now ->
  let m := meter window hist in
  meter_ok m /\ m_windowMicros m = m_windowMicros (NewSendRateMeter window) /\
  exists cut, cut <= now - m_windowMicros m /\ live m = since cut (sent hist).
Proof.
  induction hist as [|[t n] hist IH] using rev_ind; intros now Hh.
  { simpl. split; [by split|]. split; [done|]. by exists (now - m_windowMicros (NewSendRateMeter window)). }
  destruct (history_snoc hist t n now Hh) as (Hh' & Htn & Hn & Htot). destruct (IH t Hh') as (Hok & Hw & cut & Hcut & Hl).
  unfold meter. rewrite foldl_snoc. fold (meter window hist). cbn [fst snd].
  destruct (Add_ok n t (meter window hist) (sent hist) cut Hok Hl Hcut Hn (history_ok _ _ Hh')) as (H1 & H2 & H3); [|done|].
  { destruct Hh as [Hb _ _]. rewrite sent_snoc in Hb. by destruct (by_time_app _ _ Hb). }
  cbn zeta. rewrite H3. split; [done|]. split; [done|]. exists (t - m_windowMicros (meter window hist)).
  split; [lia|]. by rewrite sent_snoc.
Qed.

(** the meter computes the trailing-window rate.  After any history of sends
    with non-decreasing times, each below 2^32 bytes and all below 2^64 together,
    [Rate] is the total of the sends not older than the window, times a million,
    over the microseconds since the oldest of them, and 0 without such sends:
    dropping from the head, the running total and the compaction never lose or
    count a byte twice. *)
Theorem send_rate_exact window hist now :
  history hist now ->
  (Rate now (meter window hist)).1 = rate_of (m_windowMicros (NewSendRateMeter window)) hist now.
Proof.
  intros Hh. destruct (meter_live window hist now Hh) as (Hok & Hw & cut & Hcut & Hl).
  unfold Rate, rate_of. rewrite <- Hw. set (m := meter window hist) in *.
  assert (by_time (live m)) as Hb.
  { rewrite Hl. apply by_time_since. destruct Hh as [Hb _ _]. by destruct (by_time_app _ _ Hb). }
  destruct (dropOld_ok (now - m_windowMicros m) m Hok Hb) as (Hok2 & Hl2 & _).
  rewrite Hl, since_since in Hl2 by done. set (m2 := dropOld _ m) in *.
  assert (m_samples m2 !! m_head m2 = since (now - m_windowMicros m) (sent hist) !! 0%nat) as ->.
  { rewrite <- Hl2. unfold live. by rewrite lookup_drop, Nat.add_0_r. }
  destruct (since (now - m_windowMicros m) (sent hist)) as [|s l] eqn:Es; cbn [lookup list_lookup]; [reflexivity|].
  replace (now - rs_tMicros s <=? 0) with (now <=? rs_tMicros s) by lia.
  destruct (now <=? rs_tMicros s); [done|]. by rewrite (mo_total _ Hok2), Hl2.
Qed.

(** Sends of one instant: nothing is dropped. *)
Lemma Add_same_time t n m : m_head m = 0%nat -> Forall (fun s => rs_tMicros s = t) (m_samples m) -> 0 <= m_windowMicros m ->
  let m' := Add n t m in
  m_head m' = 0%nat /\ m_samples m' = m_samples m ++ [mkRateSample t (u32 n)] /\ m_windowMicros m' = m_windowMicros m.
Proof.
  intros Hh Hs Hw. unfold Add, dropOld. cbn [m_samples m_head m_windowMicros]. rewrite Hh.
  destruct (m_samples m ++ [mkRateSample t (u32 n)]) as [|s l] eqn:E; [by destruct (m_samples m)|].
  assert (rs_tMicros s = t) as Hst by (destruct (m_samples m); simplify_eq/=; [done|by inversion Hs]).
  cbn [length Nat.sub advance m_samples m_head lookup list_lookup].
  rewrite (proj2 (Z.ltb_ge _ _)) by lia. done.
Qed.

(** the sample buffer is not bounded: the sends of one instant are all kept,
    so a fast sender's buffer grows with the number of its sends in the window
    and not up to the 1024 entries of its first allocation. *)
Theorem send_rate_unbounded window k t :
  length (m_samples (meter window (replicate k (t, 1)))) = k.
Proof.
  enough (let m := meter window (replicate k (t, 1)) in m_head m = 0%nat /\ 0 <= m_windowMicros m /\
    m_samples m = replicate k (mkRateSample t 1)) as (_ & _ & ->) by apply length_replicate.
  induction k as [|k IH].
  - split_and!; [done| |done]. simpl. apply Z.quot_pos; [|lia]. destruct (window <=? 0) eqn:E; lia.
  - rewrite !replicate_S_end. unfold meter. rewrite foldl_snoc. fold (meter window (replicate k (t, 1))). cbn [fst snd].
    destruct IH as (H1 & H2 & H3). destruct (Add_same_time t 1 (meter window (replicate k (t, 1)))) as (E1 & E2 & E3);
      [done|rewrite H3; by apply Forall_replicate|done|]. cbn zeta. by rewrite E1, E2, E3, H3.
Qed.

Definition demo_hist : list (Z * Z) := [(0, 500); (400000, 1000); (1200000, 2000)].

Lemma demo_history : history demo_hist 1300000.
Proof. split; [repeat constructor; vm_compute; discriminate|repeat constructor; vm_compute; discriminate|by vm_compute]. Qed.

Lemma send_rate_exact_witness : (Rate 1300000 (meter 0 demo_hist)).1 = 3333.
Proof. rewrite (send_rate_exact 0 demo_hist 1300000 demo_history). vm_compute. reflexivity. Defined.
