(* ===== verification/Cert.v ===== *)
(** * Package cert: validity and hot reload

    The template of [Generate] in [cert/cert.go] (key generation, signing and PEM
    are [crypto]'s) and the reloader of [cert/reloader.go].  The file system is
    seen through the results of [os.Stat] and [tls.LoadX509KeyPair], one per
    call; times are nanoseconds. *)

From S2P Require Import Prelude.

(** ** Generate *)

Definition second : Z := 1000000000.
Definition hour : Z := 3600 * second.
Definition minute : Z := 60 * second.

Record certOptions := mkCertOptions {
  co_IPs : list (option string); (* [None]: a nil [net.IP] *)
  co_DNSNames : list string;
  co_CommonName : string;
  co_Validity : Z;
}.

Record template := mkTemplate {
  tm_CommonName : string;
  tm_NotBefore : Z;
  tm_NotAfter : Z;
  tm_DNSNames : list string;
  tm_IPAddresses : list string;
}.

Definition browserCap : Z := 13 * 24 * hour + 23 * hour.

Definition validityOf (opts : certOptions) : Z :=
  let validity := if co_Validity opts <=? 0 then 13 * 24 * hour else co_Validity opts in
  if validity >? browserCap then browserCap else validity.

(** The certificate template of [Generate] at the time [now]. *)
Definition Generate (opts : certOptions) (now : Z) : template :=
  mkTemplate (if decide (co_CommonName opts = ""%string) then "quicrtc" else co_CommonName opts)
    (now - minute) (now + validityOf opts)
    (["localhost"%string] ++ co_DNSNames opts)
    (["127.0.0.1"%string; "::1"%string] ++ omap id (co_IPs opts)).

(** ** The reloader *)

Section Reloader.
Context {C : Type}. (* a loaded key pair *)

Record Reloader := mkReloader {
  rd_current : option C;
  rd_lastMod : Z;
  rd_reloads : list (C * Z);   (* the calls of OnReload *)
  rd_errors : list error;      (* the calls of OnReloadError *)
}.

Definition newReloader : Reloader := mkReloader None 0 [] [].

(** What a call sees of the disk: the modification times of the two files, and
    the pair, which is read later. *)
Record disk := mkDisk { dk_cert : result Z; dk_key : result Z; dk_pair : result C }.

Definition loadOnce (d : disk) (r : Reloader) : option error * Reloader :=
  match dk_cert d with
  | Err e => (Some e, r)
  | Ok cm =>
  match dk_key d with
  | Err e => (Some e, r)
  | Ok km =>
  let mod_ := if km >? cm then km else cm in
  match dk_pair d with
  | Err e => (Some e, r)
  | Ok kp => (None, mkReloader (Some kp) mod_ (rd_reloads r ++ [(kp, mod_)]) (rd_errors r))
  end end end.

Definition NewReloader (d : disk) : option error * Reloader := loadOnce d newReloader.

Definition GetCertificate (r : Reloader) : result C :=
  match rd_current r with
  | None => Err (ErrMsg "cert reloader: no cert loaded yet")
  | Some c => Ok c
  end.

Definition changed (d : disk) (r : Reloader) : bool :=
  match dk_cert d with
  | Err _ => false
  | Ok cm =>
      if cm >? rd_lastMod r then true
      else match dk_key d with
           | Err _ => false
           | Ok km => km >? rd_lastMod r
           end
  end.

(** One tick of [pollLoop]: [d] is the disk as [changed] sees it, [d'] as
    [loadOnce] does. *)
Definition pollTick (d d' : disk) (r : Reloader) : Reloader :=
  if changed d r then
    match loadOnce d' r with
    | (Some e, r) => mkReloader (rd_current r) (rd_lastMod r) (rd_reloads r) (rd_errors r ++ [e])
    | (None, r) => r
    end
  else r.

Definition pollLoop (ticks : list (disk * disk)) (r : Reloader) : Reloader :=
  foldl (fun r t => pollTick t.1 t.2 r) r ticks.
End Reloader.
Arguments Reloader : clear implicits.
Arguments disk : clear implicits.

(** * Properties *)

(** every generated certificate is acceptable to a browser for its whole
    life: valid now and for some time, for less than 14 days in all whatever
    validity was asked for; and it always names the loopback addresses and
    localhost next to every address and name given. *)
Theorem generated_certificate_acceptable opts now :
  let t := Generate opts now in
  tm_NotBefore t < now < tm_NotAfter t /\ tm_NotAfter t - tm_NotBefore t < 14 * 24 * hour /\
  (forall ip, ip ∈ tm_IPAddresses t <-> ip = "127.0.0.1"%string \/ ip = "::1"%string \/ Some ip ∈ co_IPs opts) /\
  (forall n, n ∈ tm_DNSNames t <-> n = "localhost"%string \/ n ∈ co_DNSNames opts).
Proof.
  unfold Generate. cbn [tm_NotBefore tm_NotAfter tm_IPAddresses tm_DNSNames].
  assert (0 < validityOf opts <= browserCap) as Hv.
  { unfold validityOf, browserCap, hour, second. destruct (co_Validity opts <=? 0) eqn:E1; [by vm_compute|].
    destruct (_ >? _) eqn:E2; [by vm_compute|lia]. }
  unfold browserCap, hour, minute, second in *. split; [lia|]. split; [lia|]. split.
  - intros ip. rewrite elem_of_app, list_elem_of_omap. split.
    + intros [Hip | (o & Ho & Hid)]; [set_solver|]. simpl in Hid. subst o. auto.
    + intros [-> | [-> | Hip]]; [left; set_solver|left; set_solver|right]. by exists (Some ip).
  - intros n. set_solver.
Qed.

(** The load, if any, that a reloader serves. *)
Definition serves {C} (r : Reloader C) : Prop :=
  exists c m, rd_current r = Some c /\ last (rd_reloads r) = Some (c, m) /\ rd_lastMod r = m.

Lemma loadOnce_serves {C} (d : disk C) r err r' : loadOnce d r = (err, r') ->
  match err with None => serves r' | Some _ => r' = r end.
Proof.
  unfold loadOnce. destruct (dk_cert d) as [cm|e]; [|by intros [= <- <-]].
  destruct (dk_key d) as [km|e]; [|by intros [= <- <-]]. destruct (dk_pair d) as [kp|e]; [|by intros [= <- <-]].
  intros [= <- <-]. do 2 eexists. split; [done|]. split; [|done]. simpl. by rewrite last_snoc.
Qed.

(** hot reload.  After a successful start the reloader always has a
    certificate, the one of the last successful load, whatever the disk does:
    missing, unreadable or half-written files leave it in service and are
    reported.  When both files are readable, one of them is newer than the last
    load and the pair loads, the next tick serves the new pair. *)
Theorem reloader_serves_last_good {C} (d : disk C) r ticks :
  NewReloader d = (None, r) ->
  let r' := pollLoop ticks r in
  serves r' /\ is_Some (rd_current r') /\
  forall d1 cm km kp, dk_cert d1 = Ok cm -> dk_key d1 = Ok km -> dk_pair d1 = Ok kp ->
    rd_lastMod r' < Z.max cm km -> GetCertificate (pollTick d1 d1 r') = Ok kp.
Proof.
  intros Hn r'. assert (serves r') as Hs.
  { subst r'. unfold pollLoop. apply loadOnce_serves in Hn. simpl in Hn. revert r Hn.
    induction ticks as [|[d1 d2] ticks IH]; intros r Hr; [done|]. simpl. apply IH. unfold pollTick.
    destruct (changed d1 r); [|done]. destruct (loadOnce d2 r) as [[e|] r2] eqn:E; apply loadOnce_serves in E; [|done].
    subst r2. destruct Hr as (c & m & ? & ? & ?). by exists c, m. }
  split; [done|]. split; [destruct Hs as (c & m & -> & _); done|]. intros d1 cm km kp Hc Hk Hp Hm. unfold pollTick, changed.
  rewrite Hc, Hk. destruct (cm >? rd_lastMod r') eqn:E1; [|replace (km >? rd_lastMod r') with true by lia];
    unfold loadOnce; by rewrite Hc, Hk, Hp.
Qed.

Lemma reloader_serves_last_good_witness :
  GetCertificate (pollTick (mkDisk (Ok 5) (Ok 1) (Ok 8%nat)) (mkDisk (Ok 5) (Ok 1) (Ok 8%nat))
    (pollLoop [(mkDisk (Err EOF) (Ok 1) (Ok 7%nat), mkDisk (Err EOF) (Ok 1) (Ok 7%nat))]
       (NewReloader (mkDisk (Ok 1) (Ok 2) (Ok 3%nat))).2)) = Ok 8%nat.
Proof.
  destruct (reloader_serves_last_good (mkDisk (Ok 1) (Ok 2) (Ok 3%nat)) _
    [(mkDisk (Err EOF) (Ok 1) (Ok 7%nat), mkDisk (Err EOF) (Ok 1) (Ok 7%nat))] eq_refl) as (_ & _ & H).
  apply (H _ 5 1 8%nat); [reflexivity|reflexivity|reflexivity|vm_compute; reflexivity].
Defined.

(** an update that does not advance the modification times is not seen: with
    files whose times are not after the last load's, ticks change nothing,
    whatever pair the files hold. *)
Theorem reloader_misses_old_files {C} (r : Reloader C) ticks :
  Forall (fun t => (exists cm, dk_cert t.1 = Ok cm /\ cm <= rd_lastMod r) /\
                   (exists km, dk_key t.1 = Ok km /\ km <= rd_lastMod r)) ticks ->
  pollLoop ticks r = r.
Proof.
  unfold pollLoop. induction 1 as [|[d d'] ticks [(cm & Hc & Hcm) (km & Hk & Hkm)] _ IH]; [done|]. simpl in *.
  unfold pollTick, changed. rewrite Hc, Hk.
  replace (cm >? rd_lastMod r) with false by lia. replace (km >? rd_lastMod r) with false by lia. exact IH.
Qed.
