(* ===== verification/Metrics.v ===== *)
(** * Package metrics: the in-memory sink

    [InMemory] of [metrics/metrics.go].  A table maps a key to a [uint64]
    counter; the counters are atomic, so a run is a sequence of events. *)

From S2P Require Import Prelude.

Abbreviation table := (gmap string Z) (only parsing).

Inductive metric :=
  | SessionStarted | SessionEnded | SessionResumed | AuthFailed | HandshakeDuration
  | TrackAdded (k : string) | TrackRemoved (k : string)
  | AUSent (k : string) (bytes : Z) | AURecv (k : string) (bytes : Z)
  | AUDropped (k reason : string)
  | StreamOpened (k : string) | StreamReset (k reason : string).

Record InMemory := mkInMemory {
  mm_sessionsStarted : Z;
  mm_sessionsEnded : Z;
  mm_sessionsResumed : Z;
  mm_authFailures : Z;
  mm_tracksByKind : table;
  mm_tracksRemovedKind : table;
  mm_auSentByKind : table;
  mm_auRecvByKind : table;
  mm_bytesSentByKind : table;
  mm_bytesRecvByKind : table;
  mm_dropsByKind : table;
  mm_streamsOpenedKind : table;
  mm_streamsResetKind : table;
}.

Definition NewInMemory : InMemory := mkInMemory 0 0 0 0 ∅ ∅ ∅ ∅ ∅ ∅ ∅ ∅ ∅.

(** [m.get(t, key).Add(n)]: the counter is made on first use. *)
Definition bump (key : string) (n : Z) (t : table) : table :=
  <[key := u64 (default 0 (t !! key) + u64 n)]> t.

Definition emit (m : InMemory) (e : metric) : InMemory :=
  let '(mkInMemory st en re au tr rm se rc bs br dr op rs) := m in
  match e with
  | SessionStarted => mkInMemory (u64 (st + 1)) en re au tr rm se rc bs br dr op rs
  | SessionEnded => mkInMemory st (u64 (en + 1)) re au tr rm se rc bs br dr op rs
  | SessionResumed => mkInMemory st en (u64 (re + 1)) au tr rm se rc bs br dr op rs
  | AuthFailed => mkInMemory st en re (u64 (au + 1)) tr rm se rc bs br dr op rs
  | HandshakeDuration => m
  | TrackAdded k => mkInMemory st en re au (bump k 1 tr) rm se rc bs br dr op rs
  | TrackRemoved k => mkInMemory st en re au tr (bump k 1 rm) se rc bs br dr op rs
  | AUSent k b => mkInMemory st en re au tr rm (bump k 1 se) rc (bump k b bs) br dr op rs
  | AURecv k b => mkInMemory st en re au tr rm se (bump k 1 rc) bs (bump k b br) dr op rs
  | AUDropped k reason => mkInMemory st en re au tr rm se rc bs br (bump (k +:+ ":" +:+ reason) 1 dr) op rs
  | StreamOpened k => mkInMemory st en re au tr rm se rc bs br dr (bump k 1 op) rs
  | StreamReset k reason => mkInMemory st en re au tr rm se rc bs br dr op (bump (k +:+ ":" +:+ reason) 1 rs)
  end.

Record metricSnapshot := mkMetricSnapshot {
  sn_SessionsStarted : Z;
  sn_SessionsEnded : Z;
  sn_SessionsResumed : Z;
  sn_AuthFailures : Z;
  sn_TracksByKind : table;
  sn_AUSentByKind : table;
  sn_AURecvByKind : table;
  sn_BytesSentByKind : table;
  sn_BytesRecvByKind : table;
  sn_DropsByKind : table;
  sn_StreamsOpened : table;
  sn_StreamsReset : table;
}.

(** [snap] copies a table. *)
Definition Snapshot (m : InMemory) : metricSnapshot :=
  mkMetricSnapshot (mm_sessionsStarted m) (mm_sessionsEnded m) (mm_sessionsResumed m) (mm_authFailures m)
    (mm_tracksByKind m) (mm_auSentByKind m) (mm_auRecvByKind m) (mm_bytesSentByKind m) (mm_bytesRecvByKind m)
    (mm_dropsByKind m) (mm_streamsOpenedKind m) (mm_streamsResetKind m).

Definition record (evs : list metric) : InMemory := foldl emit NewInMemory evs.

(** * Properties *)

(** What the events add to a key, where [f] says to which key an event adds and
    how much: the sum modulo 2^64, and no entry without such an event. *)
Definition added (f : metric -> option (string * Z)) (evs : list metric) (key : string) : list Z :=
  omap (fun e => '(k, n) ← f e; if decide (k = key) then Some n else None) evs.

Definition tally (f : metric -> option (string * Z)) (evs : list metric) (key : string) : option Z :=
  match added f evs key with [] => None | l => Some (u64 (foldr Z.add 0 l)) end.

(** A table is the tally of [f]. *)
Definition tallies (f : metric -> option (string * Z)) (evs : list metric) (t : table) : Prop :=
  forall key, t !! key = tally f evs key.

Lemma sum_app l k : foldr Z.add 0 (l ++ k) = foldr Z.add 0 l + foldr Z.add 0 k.
Proof. induction l as [|x l IH]; simpl; lia. Qed.

Lemma u64_add a b : u64 (u64 a + u64 b) = u64 (a + b).
Proof. unfold u64. by rewrite <- Zplus_mod. Qed.

Lemma added_snoc f evs e key : added f (evs ++ [e]) key = added f evs key ++ added f [e] key.
Proof. unfold added. apply omap_app. Qed.

Lemma tallies_other f evs e t : f e = None -> tallies f evs t -> tallies f (evs ++ [e]) t.
Proof.
  intros Hf Ht key. rewrite (Ht key). unfold tally. rewrite added_snoc. unfold added at 3. simpl.
  by rewrite Hf, app_nil_r.
Qed.

Lemma tallies_bump f evs e t k n : f e = Some (k, n) -> tallies f evs t -> tallies f (evs ++ [e]) (bump k n t).
Proof.
  intros Hf Ht key. assert (added f [e] key = if decide (k = key) then [n] else []) as Ea.
  { unfold added. simpl. rewrite Hf. simpl. by destruct (decide (k = key)). }
  unfold bump. destruct (decide (k = key)) as [<- | Hne].
  - rewrite lookup_insert_eq, (Ht k). unfold tally. rewrite added_snoc, Ea. destruct (added f evs k) as [|x l]; simpl.
    + f_equal. unfold u64. rewrite Z.add_0_l, Z.mod_mod by done. by rewrite Z.add_0_r.
    + rewrite u64_add, sum_app. simpl. do 2 f_equal. lia.
  - rewrite lookup_insert_ne, (Ht key) by done. unfold tally. by rewrite added_snoc, Ea, app_nil_r.
Qed.

Definition count (P : metric -> bool) (evs : list metric) : Z := zlen (filter (fun e => P e = true) evs).

Lemma count_snoc P evs e : count P (evs ++ [e]) = count P evs + (if P e then 1 else 0).
Proof.
  unfold count. rewrite filter_app, zlen_app, filter_cons, filter_nil. destruct (P e) eqn:E.
  - by rewrite decide_True.
  - rewrite decide_False by done. by rewrite zlen_nil.
Qed.

Definition ev_added (e : metric) := match e with TrackAdded k => Some (k, 1) | _ => None end.
Definition ev_sent (e : metric) := match e with AUSent k _ => Some (k, 1) | _ => None end.
Definition ev_recv (e : metric) := match e with AURecv k _ => Some (k, 1) | _ => None end.
Definition ev_bytesSent (e : metric) := match e with AUSent k b => Some (k, b) | _ => None end.
Definition ev_bytesRecv (e : metric) := match e with AURecv k b => Some (k, b) | _ => None end.
Definition ev_dropped (e : metric) := match e with AUDropped k r => Some ((k +:+ ":" +:+ r)%string, 1) | _ => None end.
Definition ev_opened (e : metric) := match e with StreamOpened k => Some (k, 1) | _ => None end.
Definition ev_reset (e : metric) := match e with StreamReset k r => Some ((k +:+ ":" +:+ r)%string, 1) | _ => None end.

(** a snapshot is exact: every counter is the number of its events, every
    table entry the number of units, or the bytes, reported for its key, modulo
    2^64, and a key that was never reported has no entry. *)
Theorem snapshot_exact evs :
  let s := Snapshot (record evs) in
  sn_SessionsStarted s = u64 (count (fun e => match e with SessionStarted => true | _ => false end) evs) /\
  sn_SessionsEnded s = u64 (count (fun e => match e with SessionEnded => true | _ => false end) evs) /\
  sn_SessionsResumed s = u64 (count (fun e => match e with SessionResumed => true | _ => false end) evs) /\
  sn_AuthFailures s = u64 (count (fun e => match e with AuthFailed => true | _ => false end) evs) /\
  tallies ev_added evs (sn_TracksByKind s) /\ tallies ev_sent evs (sn_AUSentByKind s) /\
  tallies ev_recv evs (sn_AURecvByKind s) /\ tallies ev_bytesSent evs (sn_BytesSentByKind s) /\
  tallies ev_bytesRecv evs (sn_BytesRecvByKind s) /\ tallies ev_dropped evs (sn_DropsByKind s) /\
  tallies ev_opened evs (sn_StreamsOpened s) /\ tallies ev_reset evs (sn_StreamsReset s).
Proof.
  induction evs as [|e evs IH] using rev_ind; [by repeat split|].
  unfold record. rewrite foldl_snoc. fold (record evs). destruct (record evs) as [st en re au tr rm se rc bs br dr op rs].
  cbn in IH. destruct IH as (-> & -> & -> & -> & I1 & I2 & I3 & I4 & I5 & I6 & I7 & I8). rewrite !count_snoc.
  assert (forall a, u64 (u64 a + 1) = u64 (a + 1)) as Hu by (intros a; apply (u64_add a 1)).
  destruct e; cbn; rewrite ?Z.add_0_r, ?Hu; split_and!; try done;
    first [by apply tallies_other|by eapply tallies_bump].
Qed.
