(* ===== verification/Replay.v ===== *)
(** * Package pubsub, part 1: access units and the replay ring

    [pubsub/access_unit.go] and the replay ring of
    [pubsub/broadcaster.go] ([replayAppendLocked], [replayEvictOldestLocked],
    [replaySnapshotLocked], [SetReplayCap], [SetReplayMaxBytes],
    [ReplaySince]).

    A slice index out of range is a run-time panic: the operations that index
    return [None] there, and [ring_ok] is the invariant under which they never
    do. *)

From S2P Require Import Prelude.

Record AccessUnit := mkAU {
  au_Bytes : list byte;
  au_Keyframe : bool;
  au_PTSMicro : Z;
  au_Seq : Z;
  au_Discontinuity : bool;
  au_PubWallMicro : Z;
  au_Meta : gmap string string;
  au_SyncGroup : Z;
  au_Priority : Z;
}.

#[global] Instance AccessUnit_eq_dec : EqDecision AccessUnit.
Proof. solve_decision. Defined.

(** The replay fields of [Broadcaster]. *)
Record Replay := mkReplay {
  replayBuf : list AccessUnit;
  replayHead : nat;
  replayCap : nat;
  replayBytes : Z;
  replayMaxBytes : Z;
}.

Definition DefaultReplayCap : nat := 256.
Definition DefaultReplayMaxBytes : Z := Z.shiftl 64 20.

Definition auLen (au : AccessUnit) : Z := zlen (au_Bytes au).

Definition replaySnapshotLocked (b : Replay) : list AccessUnit :=
  let n := length (replayBuf b) in
  if (n =? 0)%nat then []
  else if (n <? replayCap b)%nat then replayBuf b
  else omap (fun i => replayBuf b !! ((replayHead b + i) mod n)%nat) (seq 0 n).

Definition replayEvictOldestLocked (b : Replay) : option Replay :=
  let n := length (replayBuf b) in
  if (n =? 0)%nat then Some b
  else
    let oldestIdx := if (n <? replayCap b)%nat then O else replayHead b in
    oldest ← replayBuf b !! oldestIdx;
    let bytes := replayBytes b - auLen oldest in
    let '(buf, head) :=
      if (n <? replayCap b)%nat then (tail (replayBuf b), replayHead b)
      else
        let snap := replaySnapshotLocked b in
        (if (1 <? length snap)%nat then tail snap else [], O) in
    Some (mkReplay buf head (replayCap b) (if bytes <? 0 then 0 else bytes) (replayMaxBytes b)).

(** [for cond { evict }] with the ring's length as fuel: each round removes an
    entry and every loop condition of the source requires a non-empty ring. *)
Fixpoint evictWhile (cond : Replay -> bool) (fuel : nat) (b : Replay) : option Replay :=
  match fuel with
  | O => Some b
  | S fuel' => if cond b then b' ← replayEvictOldestLocked b; evictWhile cond fuel' b'
               else Some b
  end.

Definition replayAppendLocked (b : Replay) (au : AccessUnit) : option Replay :=
  if (replayCap b =? 0)%nat then Some b
  else
    let auBytes := auLen au in
    b ← evictWhile
          (fun b => (replayMaxBytes b >? 0) && negb (length (replayBuf b) =? 0)%nat
                    && (replayBytes b + auBytes >? replayMaxBytes b))
          (length (replayBuf b)) b;
    if (length (replayBuf b) <? replayCap b)%nat
    then Some (mkReplay (replayBuf b ++ [au]) (replayHead b) (replayCap b)
                        (replayBytes b + auBytes) (replayMaxBytes b))
    else
      old ← replayBuf b !! replayHead b;
      Some (mkReplay (<[replayHead b := au]> (replayBuf b))
                     ((replayHead b + 1) mod replayCap b)%nat (replayCap b)
                     (replayBytes b - auLen old + auBytes) (replayMaxBytes b)).

Definition replayAppendAll (b : Replay) (l : list AccessUnit) : option Replay :=
  foldl (fun ob au => b ← ob; replayAppendLocked b au) (Some b) l.

Definition SetReplayCap (b : Replay) (cap : Z) : option Replay :=
  let cap := Z.to_nat cap in (* negative caps are clamped to 0 *)
  if (cap =? replayCap b)%nat then Some b
  else
    let current := replaySnapshotLocked b in
    let b := mkReplay [] 0 cap 0 (replayMaxBytes b) in
    if (cap =? 0)%nat then Some b
    else
      let current := if (cap <? length current)%nat
                     then drop (length current - cap) current else current in
      replayAppendAll b current.

Definition SetReplayMaxBytes (b : Replay) (n : Z) : option Replay :=
  let n := if n <? 0 then 0 else n in
  let b := mkReplay (replayBuf b) (replayHead b) (replayCap b) (replayBytes b) n in
  evictWhile
    (fun b => (replayMaxBytes b >? 0) && (replayBytes b >? replayMaxBytes b)
              && negb (length (replayBuf b) =? 0)%nat)
    (length (replayBuf b)) b.

(** Returns [(AUs, available)]. *)
Definition ReplaySince (b : Replay) (fromSeq : Z) : list AccessUnit * bool :=
  if (replayCap b =? 0)%nat || (length (replayBuf b) =? 0)%nat then ([], true)
  else match replaySnapshotLocked b with
       | [] => ([], true) (* unreachable: the ring is not empty *)
       | s0 :: rest =>
           let minSeq := foldl (fun m au => if au_Seq au <? m then au_Seq au else m)
                               (au_Seq s0) rest in
           if fromSeq <? minSeq then ([], false)
           else (sort_less (key_less au_Seq)
                   (filter (fun au => au_Seq au >=? fromSeq) (s0 :: rest)), true)
       end.

(** * The ring against its abstract log

    Abstractly the ring is a log in publish order: an append first forgets the
    oldest entries while the byte budget would be exceeded, then adds the new
    entry, and keeps the last [cap] entries. *)

Definition total (l : list AccessUnit) : Z := foldr (fun au s => auLen au + s) 0 l.

(** [over max extra l]: holding [l] and [extra] more bytes exceeds the budget. *)
Definition over (max extra : Z) (l : list AccessUnit) : bool :=
  (max >? 0) && (total l + extra >? max).

Fixpoint trim (max extra : Z) (l : list AccessUnit) : list AccessUnit :=
  match l with
  | [] => []
  | _ :: l' => if over max extra l then trim max extra l' else l
  end.

Definition lastn {A} (n : nat) (l : list A) : list A := drop (length l - n) l.

Definition log_append (cap : nat) (max : Z) (l : list AccessUnit) (au : AccessUnit)
    : list AccessUnit :=
  if (cap =? 0)%nat then [] else lastn cap (trim max (auLen au) l ++ [au]).

Record ring_ok (b : Replay) : Prop := {
  ring_len : (length (replayBuf b) <= replayCap b)%nat;
  ring_head : (replayHead b < replayCap b \/ replayHead b = 0)%nat;
  ring_flat : (length (replayBuf b) < replayCap b)%nat -> replayHead b = O;
  ring_bytes : replayBytes b = total (replayBuf b);
}.

Lemma auLen_nonneg au : 0 <= auLen au.
Proof. apply zlen_nonneg. Qed.

Lemma total_nonneg l : 0 <= total l.
Proof. induction l as [|a l IH]; simpl; [lia|]. pose proof (auLen_nonneg a). lia. Qed.

Lemma total_app l k : total (l ++ k) = total l + total k.
Proof. induction l as [|a l IH]; simpl; lia. Qed.

Lemma total_perm l k : l ≡ₚ k -> total l = total k.
Proof. induction 1; simpl; lia. Qed.

#[export] Hint Resolve auLen_nonneg total_nonneg : quicrtc.

Lemma omap_lookup_seq {A} (l : list A) m a :
  omap (fun i => l !! i) (seq a m) = take m (drop a l).
Proof.
  revert a; induction m as [|m IH]; intros a; [done|]. simpl.
  destruct (l !! a) as [x|] eqn:E.
  - rewrite (drop_S _ _ _ E). simpl. by rewrite IH.
  - apply lookup_ge_None in E. rewrite IH, !drop_ge by lia. by destruct m.
Qed.

Lemma omap_seq_ext {A} (f g : nat -> option A) d a m :
  (forall i, (a <= i < a + m)%nat -> f i = g (i + d)%nat) ->
  omap f (seq a m) = omap g (seq (a + d) m).
Proof.
  revert a; induction m as [|m IH]; intros a H; [done|]. csimpl.
  rewrite (H a) by lia. rewrite (IH (S a)) by (intros; apply H; lia).
  by destruct (g (a + d)%nat).
Qed.

Lemma rotation {A} (l : list A) h :
  (h < length l)%nat ->
  omap (fun i => l !! ((h + i) mod length l)%nat) (seq 0 (length l)) = drop h l ++ take h l.
Proof.
  intros Hh.
  assert (seq 0 (length l) = seq 0 (length l - h) ++ seq (0 + (length l - h)) h) as ->
    by (rewrite <- seq_app; f_equal; lia).
  rewrite omap_app. f_equal.
  - rewrite (omap_seq_ext _ (fun i => l !! i) h).
    + rewrite omap_lookup_seq. apply take_ge. rewrite length_drop. lia.
    + intros i Hi. rewrite Nat.mod_small by lia. f_equal; lia.
  - rewrite <- (omap_seq_ext (fun i => l !! i) _ (0 + (length l - h))%nat 0).
    + by rewrite omap_lookup_seq.
    + intros i Hi. replace (h + (i + (0 + (length l - h))))%nat with (i + 1 * length l)%nat by lia.
      rewrite Nat.Div0.mod_add. by rewrite Nat.mod_small by lia.
Qed.

Lemma snapshot_rotation b :
  ring_ok b ->
  replaySnapshotLocked b = drop (replayHead b) (replayBuf b) ++ take (replayHead b) (replayBuf b).
Proof.
  intros [Hl Hh Hf _]. unfold replaySnapshotLocked.
  destruct (length (replayBuf b) =? 0)%nat eqn:E0.
  { destruct (replayBuf b); [|discriminate]. by rewrite drop_nil, take_nil. }
  destruct (length (replayBuf b) <? replayCap b)%nat eqn:E.
  - rewrite Hf by lia. by rewrite app_nil_r.
  - apply rotation. lia.
Qed.

Lemma snapshot_flat b :
  ring_ok b -> replayHead b = O -> replaySnapshotLocked b = replayBuf b.
Proof. intros H E. rewrite (snapshot_rotation b H), E. by rewrite app_nil_r. Qed.

Lemma snapshot_perm b : ring_ok b -> replaySnapshotLocked b ≡ₚ replayBuf b.
Proof.
  intros H. rewrite (snapshot_rotation b H), Permutation_app_comm.
  by rewrite take_drop.
Qed.

Lemma snapshot_total b : ring_ok b -> total (replaySnapshotLocked b) = replayBytes b.
Proof. intros H. rewrite (ring_bytes b H). by apply total_perm, snapshot_perm. Qed.

Lemma snapshot_length b : ring_ok b -> length (replaySnapshotLocked b) = length (replayBuf b).
Proof. intros H. by rewrite (snapshot_perm b H). Qed.

(** One eviction never panics and forgets exactly the oldest entry. *)
Lemma evict_refines b :
  ring_ok b ->
  exists b', replayEvictOldestLocked b = Some b' /\ ring_ok b' /\
    replaySnapshotLocked b' = tail (replaySnapshotLocked b) /\
    replayCap b' = replayCap b /\ replayMaxBytes b' = replayMaxBytes b.
Proof.
  intros Hok. pose proof Hok as [Hl Hh Hf Hb]. unfold replayEvictOldestLocked.
  destruct (length (replayBuf b) =? 0)%nat eqn:E0.
  { exists b. split_and!; try done. unfold replaySnapshotLocked. by rewrite E0. }
  pose proof (snapshot_rotation b Hok) as Hsnap.
  pose proof (snapshot_total b Hok) as Htot.
  pose proof (snapshot_length b Hok) as Hlen.
  set (old := if (length (replayBuf b) <? replayCap b)%nat then O else replayHead b).
  assert (old = replayHead b) as -> by (unfold old; split_ifs; [|done]; by rewrite Hf by lia).
  destruct (replayBuf b !! replayHead b) as [x|] eqn:Ex.
  2:{ apply lookup_ge_None in Ex. destruct Hh as [Hh|Hh]; [|lia].
      destruct (decide (length (replayBuf b) < replayCap b)%nat) as [Hlt|]; [rewrite (Hf Hlt) in *|]; lia. }
  rewrite (drop_S _ _ _ Ex) in Hsnap. simpl in Hsnap. rewrite Hsnap in Htot; simpl in Htot.
  pose proof (total_nonneg (drop (S (replayHead b)) (replayBuf b) ++ take (replayHead b) (replayBuf b))).
  simpl. set (bytes := if replayBytes b - auLen x <? 0 then 0 else replayBytes b - auLen x).
  assert (bytes = total (tail (replaySnapshotLocked b))) as Hbytes.
  { unfold bytes. rewrite Hsnap; simpl. split_ifs; lia. }
  destruct (length (replayBuf b) <? replayCap b)%nat eqn:E.
  - specialize (Hf ltac:(lia)).
    rewrite (snapshot_flat b Hok Hf) in Hbytes. rewrite (snapshot_flat b Hok Hf).
    eexists. split; [done|]. destruct (replayBuf b) as [|y l]; [discriminate|]. simpl in *.
    assert (ring_ok (mkReplay l (replayHead b) (replayCap b) bytes (replayMaxBytes b))) as Hok'.
    { split; simpl; [lia|done|done|done]. }
    split_and!; try done. by apply snapshot_flat.
  - eexists. split; [done|].
    assert ((if (1 <? length (replaySnapshotLocked b))%nat then tail (replaySnapshotLocked b) else [])
            = tail (replaySnapshotLocked b)) as ->.
    { split_ifs; [done|]. destruct (replaySnapshotLocked b) as [|? [|? ?]]; [done|done|]. simpl in *; lia. }
    assert (ring_ok (mkReplay (tail (replaySnapshotLocked b)) 0 (replayCap b) bytes (replayMaxBytes b))) as Hok'.
    { split; simpl; [|by right|done|done]. rewrite Hsnap in *; simpl in *. lia. }
    split_and!; try done. by apply snapshot_flat.
Qed.

(** The eviction loops run to the end of their condition: with a condition
    that is [over] on the abstract log, [length (replayBuf b)] rounds suffice. *)
Lemma evictWhile_refines cond extra fuel b :
  (forall b, ring_ok b ->
     cond b = negb (length (replayBuf b) =? 0)%nat
              && over (replayMaxBytes b) extra (replaySnapshotLocked b)) ->
  ring_ok b -> (length (replayBuf b) <= fuel)%nat ->
  exists b', evictWhile cond fuel b = Some b' /\ ring_ok b' /\ cond b' = false /\
    replaySnapshotLocked b' = trim (replayMaxBytes b) extra (replaySnapshotLocked b) /\
    replayCap b' = replayCap b /\ replayMaxBytes b' = replayMaxBytes b.
Proof.
  intros Hc. revert b. induction fuel as [|fuel IH]; intros b Hok Hlen; simpl.
  - exists b. pose proof (snapshot_length b Hok) as Hs.
    rewrite (Hc b Hok). destruct (replaySnapshotLocked b) eqn:Es; simpl in Hs; [|lia].
    split_and!; try done. by rewrite <- Hs.
  - pose proof (snapshot_length b Hok) as Hs. destruct (cond b) eqn:E.
    + destruct (evict_refines b Hok) as (b1 & -> & Hok1 & Hs1 & Hc1 & Hm1). simpl.
      rewrite (Hc b Hok) in E. apply andb_true_iff in E as [E1 E2].
      pose proof (snapshot_length b1 Hok1) as Hl1.
      destruct (replaySnapshotLocked b) as [|x l] eqn:Es; simpl in Hs, Hs1; [lia|].
      destruct (IH b1 Hok1) as (b' & -> & ? & ? & Hs' & ? & ?);
        [rewrite Hs1 in Hl1; lia|].
      exists b'. split_and!; try done; try congruence.
      simpl. rewrite E2. by rewrite Hs', Hs1, Hm1.
    + exists b. split_and!; try done. rewrite (Hc b Hok) in E.
      destruct (replaySnapshotLocked b) as [|x l] eqn:Es; [done|]. simpl trim.
      destruct (over (replayMaxBytes b) extra (x :: l)); [|done].
      simpl in Hs. destruct (length (replayBuf b) =? 0)%nat eqn:E0; [lia|discriminate].
Qed.

Lemma trim_suffix max extra l : exists k, l = k ++ trim max extra l.
Proof.
  induction l as [|x l [k IH]]; simpl; [by exists []|].
  destruct (over max extra (x :: l)); [|by exists []]. exists (x :: k). simpl. by rewrite <- IH.
Qed.

Lemma trim_length max extra l : (length (trim max extra l) <= length l)%nat.
Proof.
  destruct (trim_suffix max extra l) as [k E]. apply (f_equal length) in E.
  rewrite length_app in E. lia.
Qed.

Lemma trim_fits max extra l :
  0 < max -> trim max extra l = [] \/ total (trim max extra l) + extra <= max.
Proof.
  intros Hm. induction l as [|x l IH]; simpl; [by left|].
  destruct (over max extra (x :: l)) eqn:E; [done|]. right. unfold over in E.
  apply andb_false_iff in E. lia.
Qed.

Lemma lastn_all {A} n (l : list A) : (length l <= n)%nat -> lastn n l = l.
Proof. intros. unfold lastn. by replace (length l - n)%nat with O by lia. Qed.

(** Writing over the oldest slot of a full ring rotates the log by one. *)
Lemma overwrite_rotates b au x :
  ring_ok b -> length (replayBuf b) = replayCap b -> replayBuf b !! replayHead b = Some x ->
  ring_ok (mkReplay (<[replayHead b := au]> (replayBuf b))
             ((replayHead b + 1) mod replayCap b)%nat (replayCap b)
             (replayBytes b - auLen x + auLen au) (replayMaxBytes b)) /\
  replaySnapshotLocked (mkReplay (<[replayHead b := au]> (replayBuf b))
             ((replayHead b + 1) mod replayCap b)%nat (replayCap b)
             (replayBytes b - auLen x + auLen au) (replayMaxBytes b))
    = tail (replaySnapshotLocked b) ++ [au].
Proof.
  intros Hok Hfull Hx. pose proof Hok as [Hl Hh Hf Hb].
  pose proof (lookup_lt_Some _ _ _ Hx) as Hlt.
  pose proof (snapshot_rotation b Hok) as Hsnap.
  rewrite (drop_S _ _ _ Hx) in Hsnap. simpl in Hsnap.
  set (b' := mkReplay _ _ _ _ _).
  assert (total (replayBuf b') = replayBytes b - auLen x + auLen au) as Htot.
  { simpl. rewrite insert_take_drop by done.
    rewrite <- (take_drop_middle _ _ _ Hx) in Hb. rewrite !total_app in *. simpl in *. lia. }
  assert (ring_ok b') as Hok'.
  { split; simpl; rewrite ?length_insert; [lia| |lia|simpl in Htot; lia].
    left. apply Nat.mod_upper_bound. lia. }
  split; [done|]. rewrite (snapshot_rotation b' Hok'), Hsnap. simpl.
  destruct (decide (S (replayHead b) = replayCap b)) as [E|E].
  - replace (replayHead b + 1)%nat with (replayCap b) by lia.
    rewrite Nat.Div0.mod_same. simpl. rewrite app_nil_r.
    rewrite insert_take_drop by done. rewrite drop_0. by rewrite (drop_ge _ (S (replayHead b))) by lia.
  - rewrite Nat.mod_small by lia. replace (replayHead b + 1)%nat with (S (replayHead b)) by lia.
    rewrite drop_insert_lt by lia. rewrite <- app_assoc. f_equal.
    rewrite (take_S_r _ _ au) by (by apply list_lookup_insert_eq).
    by rewrite take_insert_ge by lia.
Qed.

Lemma append_refines b au :
  ring_ok b ->
  exists b', replayAppendLocked b au = Some b' /\ ring_ok b' /\
    replaySnapshotLocked b' =
      log_append (replayCap b) (replayMaxBytes b) (replaySnapshotLocked b) au /\
    replayCap b' = replayCap b /\ replayMaxBytes b' = replayMaxBytes b.
Proof.
  intros Hok. unfold replayAppendLocked, log_append.
  destruct (replayCap b =? 0)%nat eqn:Ec.
  { exists b. split_and!; try done. pose proof (ring_len b Hok).
    unfold replaySnapshotLocked. by replace (length (replayBuf b)) with O by lia. }
  match goal with |- context [evictWhile ?c] => set (cond := c) end.
  destruct (evictWhile_refines cond (auLen au) (length (replayBuf b)) b)
    as (b1 & -> & Hok1 & Hc1 & Hs1 & Hcap1 & Hmax1); [|done|lia|].
  { intros b0 Hok0. unfold cond, over. rewrite (snapshot_total b0 Hok0).
    destruct (replayMaxBytes b0 >? 0), (length (replayBuf b0) =? 0)%nat; done. }
  simpl. pose proof (snapshot_length b1 Hok1) as Hl1. pose proof (ring_len b1 Hok1).
  destruct (length (replayBuf b1) <? replayCap b1)%nat eqn:E.
  - eexists. split; [done|]. pose proof (ring_flat b1 Hok1 ltac:(lia)) as Hh.
    assert (ring_ok (mkReplay (replayBuf b1 ++ [au]) (replayHead b1) (replayCap b1)
              (replayBytes b1 + auLen au) (replayMaxBytes b1))) as Hok2.
    { split; simpl; rewrite ?length_app; simpl; [lia|lia|done|].
      rewrite total_app, <- (ring_bytes b1 Hok1). simpl. lia. }
    split_and!; try done. rewrite (snapshot_flat _ Hok2 Hh), <- Hs1, (snapshot_flat _ Hok1 Hh).
    simpl. rewrite lastn_all; [done|]. rewrite length_app; simpl. lia.
  - destruct (replayBuf b1 !! replayHead b1) as [x|] eqn:Ex.
    2:{ apply lookup_ge_None in Ex. pose proof (ring_head b1 Hok1). lia. }
    destruct (overwrite_rotates b1 au x Hok1 ltac:(lia) Ex) as [Hok2 Hs2].
    eexists. split; [done|]. split_and!; try done. rewrite Hs2, <- Hs1.
    unfold lastn. rewrite length_app; simpl.
    replace (length (replaySnapshotLocked b1) + 1 - replayCap b)%nat with 1%nat by lia.
    by destruct (replaySnapshotLocked b1) eqn:Es; simpl in *; [lia|].
Qed.

(** ** Resizing, budget changes and arbitrary histories *)

Definition log_append_all (cap : nat) (max : Z) (l k : list AccessUnit) : list AccessUnit :=
  foldl (log_append cap max) l k.

Lemma appendAll_refines b k :
  ring_ok b ->
  exists b', replayAppendAll b k = Some b' /\ ring_ok b' /\
    replaySnapshotLocked b' =
      log_append_all (replayCap b) (replayMaxBytes b) (replaySnapshotLocked b) k /\
    replayCap b' = replayCap b /\ replayMaxBytes b' = replayMaxBytes b.
Proof.
  revert b. induction k as [|au k IH]; intros b Hok.
  { by exists b. }
  destruct (append_refines b au Hok) as (b1 & E1 & Hok1 & Hs1 & Hc1 & Hm1).
  destruct (IH b1 Hok1) as (b2 & E2 & Hok2 & Hs2 & Hc2 & Hm2).
  exists b2. split_and!; [|done| |congruence|congruence].
  - unfold replayAppendAll in *. simpl. by rewrite E1.
  - unfold log_append_all in *; simpl. by rewrite Hs2, Hs1, Hc1, Hm1.
Qed.

Lemma total_suffix k l : total l <= total (k ++ l).
Proof. rewrite total_app. pose proof (total_nonneg k). lia. Qed.

(** Refilling a log that fits the new cap and the budget loses nothing. *)
Lemma log_append_all_fits cap max l k :
  (length (l ++ k) <= cap)%nat -> (0 < max -> total (l ++ k) <= max) ->
  log_append_all cap max l k = (if (cap =? 0)%nat then (if k is [] then l else []) else l ++ k).
Proof.
  revert l; induction k as [|au k IH]; intros l Hlen Hmax; simpl.
  { rewrite app_nil_r. by destruct (cap =? 0)%nat. }
  rewrite length_app in Hlen; simpl in Hlen.
  assert (log_append cap max l au = l ++ [au]) as E.
  { unfold log_append. destruct (cap =? 0)%nat eqn:Ec; [lia|].
    assert (trim max (auLen au) l = l) as ->.
    { destruct l as [|x l]; [done|]. simpl. destruct (over max (auLen au) (x :: l)) eqn:Eo; [|done].
      unfold over in Eo. apply andb_true_iff in Eo as [E1 E2].
      specialize (Hmax ltac:(lia)). rewrite total_app in Hmax. simpl in *.
      pose proof (total_nonneg k). lia. }
    apply lastn_all. rewrite length_app; simpl; lia. }
  unfold log_append_all in *; simpl. rewrite E, IH.
  - destruct (cap =? 0)%nat eqn:Ec; [lia|]. by rewrite <- app_assoc.
  - rewrite !length_app in *; simpl in *; lia.
  - rewrite <- app_assoc. done.
Qed.

(** The byte budget: past it only a lone entry bigger than the budget. *)
Definition budget_ok (b : Replay) : Prop :=
  0 < replayMaxBytes b ->
  replayBytes b <= replayMaxBytes b \/ length (replayBuf b) = 1%nat.

Lemma append_budget b au b' :
  ring_ok b -> budget_ok b -> replayAppendLocked b au = Some b' -> budget_ok b'.
Proof.
  intros Hok Hb E. destruct (append_refines b au Hok) as (b1 & E1 & Hok1 & Hs & Hc & Hm).
  assert (b1 = b') as -> by congruence. intros Hmax. rewrite Hm in *.
  rewrite <- (snapshot_total b' Hok1), <- (snapshot_length b' Hok1), Hs.
  unfold log_append. destruct (replayCap b =? 0)%nat eqn:Ec; [left; simpl; lia|].
  unfold lastn. set (t := trim _ _ _).
  destruct (trim_fits (replayMaxBytes b) (auLen au) (replaySnapshotLocked b) Hmax) as [Et|Et]; fold t in Et.
  - right. rewrite Et. simpl. rewrite length_drop; simpl. lia.
  - left. pose proof (total_suffix (take (length (t ++ [au]) - replayCap b) (t ++ [au]))
                        (drop (length (t ++ [au]) - replayCap b) (t ++ [au]))) as H.
    rewrite take_drop, (total_app t) in H. simpl in H. lia.
Qed.

(** The operations on a ring, as the broadcaster invokes them. *)
Inductive ring_op := RAppend (au : AccessUnit) | RSetCap (cap : Z) | RSetMaxBytes (n : Z).

Definition ring_step (b : Replay) (op : ring_op) : option Replay :=
  match op with
  | RAppend au => replayAppendLocked b au
  | RSetCap cap => SetReplayCap b cap
  | RSetMaxBytes n => SetReplayMaxBytes b n
  end.

Definition ring_run (b : Replay) (ops : list ring_op) : option Replay :=
  foldl (fun ob op => b ← ob; ring_step b op) (Some b) ops.

Definition new_ring : Replay := mkReplay [] 0 DefaultReplayCap 0 DefaultReplayMaxBytes.

Lemma setcap_refines b cap :
  ring_ok b ->
  exists b', SetReplayCap b cap = Some b' /\ ring_ok b' /\
    replayCap b' = Z.to_nat cap /\ replayMaxBytes b' = replayMaxBytes b /\
    replaySnapshotLocked b' =
      if (Z.to_nat cap =? replayCap b)%nat then replaySnapshotLocked b
      else log_append_all (Z.to_nat cap) (replayMaxBytes b) []
             (lastn (Z.to_nat cap) (replaySnapshotLocked b)).
Proof.
  intros Hok. unfold SetReplayCap.
  destruct (Z.to_nat cap =? replayCap b)%nat eqn:E.
  { exists b. split_and!; try done. lia. }
  assert (ring_ok (mkReplay [] 0 (Z.to_nat cap) 0 (replayMaxBytes b))) as Hok0
    by (split; simpl; [lia|lia|done|done]).
  destruct (Z.to_nat cap =? 0)%nat eqn:E0.
  { eexists. split_and!; try done. replace (Z.to_nat cap) with O by lia.
    unfold lastn. rewrite Nat.sub_0_r, drop_all. done. }
  destruct (appendAll_refines _ (lastn (Z.to_nat cap) (replaySnapshotLocked b)) Hok0)
    as (b' & E' & Hok' & Hs & Hc & Hm).
  exists b'. simpl in *. split_and!; try done. rewrite <- E'. f_equal.
  unfold lastn. split_ifs; [done|].
  by replace (length (replaySnapshotLocked b) - Z.to_nat cap)%nat with O by lia.
Qed.

Lemma setmax_refines b n :
  ring_ok b ->
  exists b', SetReplayMaxBytes b n = Some b' /\ ring_ok b' /\
    replayCap b' = replayCap b /\ replayMaxBytes b' = Z.max 0 n /\
    replaySnapshotLocked b' = trim (Z.max 0 n) 0 (replaySnapshotLocked b).
Proof.
  intros [H1 H2 H3 H4]. unfold SetReplayMaxBytes.
  replace (if n <? 0 then 0 else n) with (Z.max 0 n) by (split_ifs; lia).
  set (b0 := mkReplay _ _ _ _ _). assert (ring_ok b0) as Hok by by split.
  match goal with |- context [evictWhile ?c] => set (cond := c) end.
  destruct (evictWhile_refines cond 0 (length (replayBuf b0)) b0) as (b' & E & Hok' & _ & Hs & Hc & Hm);
    [|done|lia|].
  { intros b1 Hok1. unfold cond, over. rewrite (snapshot_total b1 Hok1), Z.add_0_r.
    destruct (replayMaxBytes b1 >? 0), (replayBytes b1 >? replayMaxBytes b1),
      (length (replayBuf b1) =? 0)%nat; done. }
  exists b'. split_and!; try done.
Qed.

Lemma appendAll_budget b k b' :
  ring_ok b -> budget_ok b -> replayAppendAll b k = Some b' -> budget_ok b'.
Proof.
  revert b; induction k as [|au k IH]; intros b Hok Hb E.
  - injection E as <-. done.
  - destruct (append_refines b au Hok) as (b1 & E1 & Hok1 & _).
    unfold replayAppendAll in E; simpl in E. rewrite E1 in E. eapply (IH b1); eauto using append_budget.
Qed.

Lemma ring_step_ok b op :
  ring_ok b -> budget_ok b -> exists b', ring_step b op = Some b' /\ ring_ok b' /\ budget_ok b'.
Proof.
  intros Hok Hb. destruct op as [au|cap|n]; simpl.
  - destruct (append_refines b au Hok) as (b' & E & Hok' & _). eauto using append_budget.
  - destruct (setcap_refines b cap Hok) as (b' & E & Hok' & _). exists b'. split_and!; try done.
    unfold SetReplayCap in E. split_ifs_all; [by injection E as <-| | |];
      [injection E as <-; intros Hm; left; simpl in *; lia| |];
      (eapply appendAll_budget; [| |exact E]; [split; simpl; [lia|lia|done|done]|]);
      intros Hm; left; simpl in *; lia.
  - destruct (setmax_refines b n Hok) as (b' & E & Hok' & Hc & Hm & Hs). exists b'. split_and!; try done.
    intros H. rewrite <- (snapshot_total b' Hok'), Hs, Hm. rewrite Hm in H.
    destruct (trim_fits (Z.max 0 n) 0 (replaySnapshotLocked b) H) as [E'|E']; [rewrite E'; simpl; lia|lia].
Qed.

(** * Claims *)

(** C3: appending to the replay ring never indexes out of range and refines
    the abstract log: the byte-budget loop ends with the oldest entries gone
    exactly as long as the budget was exceeded, the new entry is last, and at
    most the last [replayCap] entries are kept; the invariant (head position,
    slot count, exact byte counter) is preserved. *)
Theorem replay_append_refines b au :
  ring_ok b ->
  exists b', replayAppendLocked b au = Some b' /\ ring_ok b' /\
    replaySnapshotLocked b' =
      log_append (replayCap b) (replayMaxBytes b) (replaySnapshotLocked b) au /\
    replayCap b' = replayCap b /\ replayMaxBytes b' = replayMaxBytes b.
Proof. apply append_refines. Qed.

Definition au0 (seq : Z) (key : bool) (n : nat) : AccessUnit :=
  mkAU (replicate n x00) key 0 seq false 0 ∅ 0 0.

Lemma replay_append_refines_witness :
  ring_ok (mkReplay [au0 5 false 1; au0 3 true 2; au0 4 false 1] 1 3 4 0) /\
  exists b', replayAppendLocked (mkReplay [au0 5 false 1; au0 3 true 2; au0 4 false 1] 1 3 4 0)
                                (au0 6 false 7) = Some b' /\
    au_Seq <$> replaySnapshotLocked b' = [4; 5; 6].
Proof.
  assert (ring_ok (mkReplay [au0 5 false 1; au0 3 true 2; au0 4 false 1] 1 3 4 0)) as Hok
    by (split; simpl; [lia|lia|lia|reflexivity]).
  split; [exact Hok|].
  destruct (replay_append_refines _ (au0 6 false 7) Hok) as (b' & E & _ & Hs & _).
  exists b'. split; [exact E|]. rewrite Hs. vm_compute. reflexivity.
Defined.

(** whatever sequence of appends, cap changes and budget changes a
    broadcaster's ring goes through from its construction, no operation
    panics, the ring holds at most its cap, its byte counter is the sum of the
    lengths it holds, and past the byte budget it holds a single entry. *)
Theorem replay_ring_history ops :
  exists b, ring_run new_ring ops = Some b /\
    (length (replaySnapshotLocked b) <= replayCap b)%nat /\
    replayBytes b = total (replaySnapshotLocked b) /\
    (0 < replayMaxBytes b ->
       total (replaySnapshotLocked b) <= replayMaxBytes b \/
       length (replaySnapshotLocked b) = 1%nat).
Proof.
  assert (forall b, ring_ok b -> budget_ok b ->
            exists b', ring_run b ops = Some b' /\ ring_ok b' /\ budget_ok b') as H.
  { induction ops as [|op ops IH]; intros b Hok Hb; [by exists b|].
    destruct (ring_step_ok b op Hok Hb) as (b1 & E & Hok1 & Hb1).
    destruct (IH b1 Hok1 Hb1) as (b2 & E2 & H2). exists b2. split; [|done].
    unfold ring_run in *. simpl. by rewrite E. }
  destruct (H new_ring) as (b & E & Hok & Hb).
  { split; simpl; [lia|lia|done|done]. }
  { intros _. left. by vm_compute. }
  exists b. split; [done|]. rewrite (snapshot_length b Hok), (snapshot_total b Hok).
  pose proof (ring_len b Hok). done.
Qed.

(** [SetReplayCap] on a ring within its byte budget keeps exactly the
    newest entries that fit the new capacity, in order. *)
Theorem set_replay_cap_keeps_newest b cap :
  ring_ok b -> (0 < replayMaxBytes b -> replayBytes b <= replayMaxBytes b) ->
  exists b', SetReplayCap b cap = Some b' /\ ring_ok b' /\ replayCap b' = Z.to_nat cap /\
    replaySnapshotLocked b' = lastn (Z.to_nat cap) (replaySnapshotLocked b).
Proof.
  intros Hok Hb. destruct (setcap_refines b cap Hok) as (b' & E & Hok' & Hc & Hm & Hs).
  exists b'. split_and!; try done. rewrite Hs.
  pose proof (snapshot_length b Hok) as Hl. pose proof (ring_len b Hok).
  destruct (Z.to_nat cap =? replayCap b)%nat eqn:Ec.
  { symmetry. apply lastn_all. lia. }
  rewrite log_append_all_fits; simpl.
  - destruct (Z.to_nat cap =? 0)%nat eqn:E0; [|done].
    destruct (lastn (Z.to_nat cap) (replaySnapshotLocked b)) eqn:El; [done|].
    apply (f_equal length) in El. unfold lastn in El. rewrite length_drop in El. simpl in El. lia.
  - unfold lastn. rewrite length_drop. lia.
  - intros Hmax. specialize (Hb Hmax). rewrite <- (snapshot_total b Hok) in Hb.
    pose proof (total_suffix (take (length (replaySnapshotLocked b) - Z.to_nat cap) (replaySnapshotLocked b))
      (lastn (Z.to_nat cap) (replaySnapshotLocked b))) as Ht.
    unfold lastn in *. rewrite take_drop in Ht. lia.
Qed.

Lemma set_replay_cap_keeps_newest_witness :
  exists b', SetReplayCap (mkReplay [au0 5 false 1; au0 3 true 2; au0 4 false 1] 1 3 4 10) 2 = Some b' /\
    au_Seq <$> replaySnapshotLocked b' = [4; 5].
Proof.
  destruct (set_replay_cap_keeps_newest
              (mkReplay [au0 5 false 1; au0 3 true 2; au0 4 false 1] 1 3 4 10) 2)
    as (b' & E & _ & _ & Hs).
  - split; simpl; [lia|lia|lia|reflexivity].
  - simpl. lia.
  - exists b'. split; [exact E|]. rewrite Hs. vm_compute. reflexivity.
Defined.

Lemma minSeq_spec l s0 :
  foldl (fun m au => if au_Seq au <? m then au_Seq au else m) s0 l <= s0 /\
  (forall au, au ∈ l -> foldl (fun m au => if au_Seq au <? m then au_Seq au else m) s0 l <= au_Seq au) /\
  (foldl (fun m au => if au_Seq au <? m then au_Seq au else m) s0 l = s0 \/
   exists au, au ∈ l /\ au_Seq au = foldl (fun m au => if au_Seq au <? m then au_Seq au else m) s0 l).
Proof.
  revert s0; induction l as [|a l IH]; intros s0; simpl.
  { split_and!; [lia|set_solver|by left]. }
  destruct (IH (if au_Seq a <? s0 then au_Seq a else s0)) as (H1 & H2 & H3).
  split_and!.
  - revert H1. split_ifs; lia.
  - intros au [-> | Hin]%elem_of_cons; [revert H1; split_ifs; lia|by apply H2].
  - destruct H3 as [H3|(au & Hin & H3)].
    + rewrite H3. split_ifs; [right; exists a; split; [left|done]|by left].
    + right. exists au. split; [by right|done].
Qed.

Lemma ReplaySince_spec b fromSeq :
  ring_ok b ->
  match replaySnapshotLocked b with
  | [] => ReplaySince b fromSeq = ([], true)
  | log =>
      (Forall (fun au => fromSeq < au_Seq au) log -> ReplaySince b fromSeq = ([], false)) /\
      (Exists (fun au => au_Seq au <= fromSeq) log ->
         (ReplaySince b fromSeq).2 = true /\
         (ReplaySince b fromSeq).1 ≡ₚ filter (fun au => fromSeq <= au_Seq au) log /\
         ordered (key_less au_Seq) (ReplaySince b fromSeq).1)
  end.
Proof.
  intros Hok. pose proof (snapshot_length b Hok) as Hl. pose proof (ring_len b Hok).
  unfold ReplaySince. destruct (replaySnapshotLocked b) as [|s0 rest] eqn:Es; simpl in Hl.
  { by destruct ((replayCap b =? 0)%nat || (length (replayBuf b) =? 0)%nat). }
  destruct (replayCap b =? 0)%nat eqn:E0; [lia|].
  destruct (length (replayBuf b) =? 0)%nat eqn:E1; [lia|]. simpl orb. cbv iota zeta.
  destruct (minSeq_spec rest (au_Seq s0)) as (H1 & H2 & H3).
  set (m := foldl _ _ _) in *. split.
  - intros Hall. apply Forall_cons in Hall as [Ha Hall]. rewrite Forall_forall in Hall.
    assert (fromSeq < m) by (destruct H3 as [-> | (au & Hin & <-)]; auto).
    destruct (fromSeq <? m) eqn:E; [done|lia].
  - intros Hex. assert (m <= fromSeq).
    { apply Exists_cons in Hex as [He|He]; [lia|]. apply Exists_exists in He as (au & Hin & He).
      specialize (H2 au Hin). lia. }
    destruct (fromSeq <? m) eqn:E; [lia|]. cbn [fst snd]. split_and!; [done| |apply sort_key_ordered].
    rewrite sort_less_perm. apply reflexive_eq, list_filter_iff. intros au. rewrite Is_true_true. lia.
Qed.

(** [ReplaySince] answers from the abstract log: with an empty or
    disabled ring it says up to date; when every buffered Seq is above
    [fromSeq] it reports the range as unavailable and returns nothing; else it
    returns exactly the buffered units at or above [fromSeq], in ascending
    order of Seq. *)
Theorem replay_since_exact b fromSeq :
  ring_ok b ->
  match replaySnapshotLocked b with
  | [] => ReplaySince b fromSeq = ([], true)
  | log =>
      (Forall (fun au => fromSeq < au_Seq au) log -> ReplaySince b fromSeq = ([], false)) /\
      (Exists (fun au => au_Seq au <= fromSeq) log ->
         (ReplaySince b fromSeq).2 = true /\
         (ReplaySince b fromSeq).1 ≡ₚ filter (fun au => fromSeq <= au_Seq au) log /\
         ordered (key_less au_Seq) (ReplaySince b fromSeq).1)
  end.
Proof. apply ReplaySince_spec. Qed.

Lemma replay_since_exact_witness :
  au_Seq <$> (ReplaySince (mkReplay [au0 5 false 1; au0 3 true 2; au0 4 false 1] 1 3 4 0) 4).1 = [4; 5] /\
  ReplaySince (mkReplay [au0 5 false 1; au0 3 true 2; au0 4 false 1] 1 3 4 0) 2 = ([], false).
Proof.
  split; [vm_compute; reflexivity|].
  apply (replay_since_exact (mkReplay [au0 5 false 1; au0 3 true 2; au0 4 false 1] 1 3 4 0) 2).
  - split; simpl; [lia|lia|lia|reflexivity].
  - apply Forall_forall. intros au Hin. repeat (apply elem_of_cons in Hin as [-> | Hin]; [by vm_compute|]).
    by apply elem_of_nil in Hin.
Defined.
