(* ===== verification/Pubsub.v ===== *)
(** * Package pubsub, part 2: receivers and the broadcaster

    [pubsub/broadcaster.go] apart from the replay ring ([Replay.v]).

    A [*Receiver] is an address in a store [heap]; the broadcaster's
    [receivers] map is the set of the addresses subscribed to it, so that a
    fan-out that has already snapshotted the set and an [Unsubscribe] that has
    already removed a receiver act on the same [Receiver].  Each operation that
    the code runs under a mutex is one definition; [Publish], [Unsubscribe] and
    [Close], which release the broadcaster's mutex before they take the
    receivers' ones, are a first half and a per-receiver half, composed in
    sequence by [Publish], [Unsubscribe] and [Close] below and interleaved
    arbitrarily by the step relation of [PubsubConc].  The consumer of a channel
    takes no mutex: [k1] and [k2] are the receives it makes between the
    [select]s of one delivery.

    [None] is a panic (a send on a closed channel, a second close, an index out
    of range) or a send that blocks for ever. *)

From S2P Require Import Prelude Replay.

Record Receiver := mkReceiver {
  r_ch : chan AccessUnit;
  r_closed : bool;
  r_needKeyframe : bool;
}.

Definition with_ch (r : Receiver) (c : chan AccessUnit) : Receiver :=
  mkReceiver c (r_closed r) (r_needKeyframe r).
Definition with_need (r : Receiver) (v : bool) : Receiver :=
  mkReceiver (r_ch r) (r_closed r) v.

Definition RequestKeyframe (r : Receiver) : Receiver := with_need r true.
Definition NeedsKeyframe (r : Receiver) : bool := r_needKeyframe r.
Definition QueueDepth (r : Receiver) : nat := length (ch_buf (r_ch r)).

(** The body of the fan-out loop of [Publish], under [r.mu]. *)
Definition deliver (selfContained : bool) (au : AccessUnit) (k1 k2 : nat) (r : Receiver)
    : option Receiver :=
  if r_closed r then Some r
  else if selfContained then
    match try_send (r_ch r) au with
    | SendPanic => None
    | Sent c => Some (with_ch r c)
    | SendFull =>
        let c := consume k2 (discard_one (consume k1 (r_ch r))) in
        match try_send c au with
        | SendPanic => None
        | Sent c' => Some (with_ch r c')
        | SendFull => Some (with_ch r c)
        end
    end
  else if r_needKeyframe r && negb (au_Keyframe au) then Some r
  else
    match try_send (r_ch r) au with
    | SendPanic => None
    | Sent c =>
        let r := with_ch r c in
        Some (if au_Keyframe au then with_need r false else r)
    | SendFull =>
        if au_Keyframe au then
          let c := consume k2 (discard_one (consume k1 (r_ch r))) in
          match try_send c au with
          | SendPanic => None
          | Sent c' => Some (with_need (with_ch r c') false)
          | SendFull => Some (with_need (with_ch r c) true)
          end
        else Some (with_need r true)
    end.

(** The locked part of [Unsubscribe] and [Close] on one receiver. *)
Definition closeReceiver (r : Receiver) : option Receiver :=
  if r_closed r then Some r
  else if ch_closed (r_ch r) then None
  else Some (mkReceiver (close_chan (r_ch r)) true (r_needKeyframe r)).

(** [bySeq[au.Seq] = au] for every unit, in order. *)
Definition bySeq_add (m : gmap Z AccessUnit) (l : list AccessUnit) : gmap Z AccessUnit :=
  foldl (fun m au => <[au_Seq au := au]> m) m l.

(** The refill loop: [true] when it ran to the end. *)
Fixpoint refill (c : chan AccessUnit) (l : list AccessUnit) : option (chan AccessUnit * bool) :=
  match l with
  | [] => Some (c, true)
  | au :: l' =>
      match try_send c au with
      | SendPanic => None
      | Sent c' => refill c' l'
      | SendFull =>
          let c := discard_one c in
          match try_send c au with
          | SendPanic => None
          | Sent c' => refill c' l'
          | SendFull => Some (c, false)
          end
      end
  end.

(** [values] is the order in which [range bySeq] yields the map's values. *)
Definition SpliceFront (values : gmap Z AccessUnit -> list AccessUnit)
    (r : Receiver) (prefix : list AccessUnit) : option Receiver :=
  if (length prefix =? 0)%nat then Some r
  else if r_closed r then Some r
  else
    let current := ch_buf (r_ch r) in
    let bySeq := bySeq_add (bySeq_add ∅ prefix) current in
    let merged := sort_less (key_less au_Seq) (values bySeq) in
    res ← refill (mkChan [] (ch_cap (r_ch r)) (ch_closed (r_ch r))) merged;
    let '(c, done) := res in
    Some (if done : bool then with_ch r c else with_need (with_ch r c) true).

(** ** The broadcaster *)

Section Broadcaster.

(** [W] is the state the interceptor closures can read and write. *)
Context {W : Type}.

Definition Interceptor : Type := W -> AccessUnit -> W * result AccessUnit.

Record Broadcaster := mkBroadcaster {
  b_receivers : gset nat;
  b_latestKeyframe : option AccessUnit;
  b_chanSize : Z;
  b_maxAUBytes : Z;
  b_selfContained : bool;
  b_replay : Replay;
  b_interceptors : list Interceptor;
  b_interceptorIDs : list Z;
  b_nextInterceptorID : Z;
}.

Record store := mkStore {
  heap : gmap nat Receiver;
  bc : Broadcaster;
  world : W;
}.

Definition with_heap (s : store) (h : gmap nat Receiver) : store := mkStore h (bc s) (world s).
Definition with_bc (s : store) (b : Broadcaster) : store := mkStore (heap s) b (world s).

Definition NewBroadcasterWithBytes (chanSize maxAUBytes : Z) : Broadcaster :=
  let chanSize := if chanSize <=? 0 then 30 else chanSize in
  mkBroadcaster ∅ None chanSize maxAUBytes false
    (mkReplay [] 0 DefaultReplayCap 0 DefaultReplayMaxBytes) [] [] 0.

Definition NewBroadcaster (chanSize : Z) : Broadcaster :=
  NewBroadcasterWithBytes chanSize (Z.shiftl 16 20).

Definition SetSelfContained (v : bool) (b : Broadcaster) : Broadcaster :=
  mkBroadcaster (b_receivers b) (b_latestKeyframe b) (b_chanSize b) (b_maxAUBytes b) v
    (b_replay b) (b_interceptors b) (b_interceptorIDs b) (b_nextInterceptorID b).

Definition with_replay (b : Broadcaster) (rp : Replay) : Broadcaster :=
  mkBroadcaster (b_receivers b) (b_latestKeyframe b) (b_chanSize b) (b_maxAUBytes b)
    (b_selfContained b) rp (b_interceptors b) (b_interceptorIDs b) (b_nextInterceptorID b).

Definition with_receivers (b : Broadcaster) (rs : gset nat) : Broadcaster :=
  mkBroadcaster rs (b_latestKeyframe b) (b_chanSize b) (b_maxAUBytes b)
    (b_selfContained b) (b_replay b) (b_interceptors b) (b_interceptorIDs b) (b_nextInterceptorID b).

Definition with_keyframe (b : Broadcaster) (k : option AccessUnit) : Broadcaster :=
  mkBroadcaster (b_receivers b) k (b_chanSize b) (b_maxAUBytes b)
    (b_selfContained b) (b_replay b) (b_interceptors b) (b_interceptorIDs b) (b_nextInterceptorID b).

Definition with_interceptors (b : Broadcaster) (fns : list Interceptor) (ids : list Z) (next : Z)
    : Broadcaster :=
  mkBroadcaster (b_receivers b) (b_latestKeyframe b) (b_chanSize b) (b_maxAUBytes b)
    (b_selfContained b) (b_replay b) fns ids next.

(** The new receiver's address is fresh in the store. *)
Definition subscribeWithCap (s : store) (chanSize : Z) : option (nat * store) :=
  let a := fresh (dom (heap s)) in
  let ch := make_chan AccessUnit (Z.to_nat chanSize) in
  let b := with_receivers (bc s) ({[a]} ∪ b_receivers (bc s)) in
  r ← match b_latestKeyframe b with
      | Some k => match try_send ch k with
                  | Sent c => Some (mkReceiver c false false)
                  | _ => None (* blocks for ever *)
                  end
      | None => Some (mkReceiver ch false (negb (b_selfContained b)))
      end;
  Some (a, mkStore (<[a := r]> (heap s)) b (world s)).

Definition Subscribe (s : store) : option (nat * store) :=
  subscribeWithCap s (b_chanSize (bc s)).

Definition SubscribeWithCapacity (s : store) (chanSize : Z) : option (nat * store) :=
  let chanSize := if chanSize <? b_chanSize (bc s) then b_chanSize (bc s) else chanSize in
  subscribeWithCap s chanSize.

Definition Count (b : Broadcaster) : nat := size (b_receivers b).

Definition LatestKeyframe (b : Broadcaster) : option AccessUnit := b_latestKeyframe b.

(** [fn = None] is a nil function.  The result's first part is the identifier
    the returned [remove] closure captured ([None]: the no-op closure). *)
Definition AddInterceptor (b : Broadcaster) (fn : option Interceptor) : option Z * Broadcaster :=
  match fn with
  | None => (None, b)
  | Some fn =>
      let id := u64 (b_nextInterceptorID b + 1) in
      (Some id, with_interceptors b (b_interceptors b ++ [fn]) (b_interceptorIDs b ++ [id]) id)
  end.

(** The closure [AddInterceptor] returns. *)
Definition removeInterceptor (b : Broadcaster) (id : option Z) : option Broadcaster :=
  match id with
  | None => Some b
  | Some id =>
      match list_find (fun gotID => gotID = id) (b_interceptorIDs b) with
      | None => Some b
      | Some (i, _) =>
          if (i <? length (b_interceptors b))%nat
          then Some (with_interceptors b
                 (take i (b_interceptors b) ++ drop (S i) (b_interceptors b))
                 (take i (b_interceptorIDs b) ++ drop (S i) (b_interceptorIDs b))
                 (b_nextInterceptorID b))
          else None
      end
  end.

(** The interceptor chain: [None] when some interceptor drops the unit. *)
Fixpoint runChain (chain : list Interceptor) (w : W) (au : AccessUnit) : W * option AccessUnit :=
  match chain with
  | [] => (w, Some au)
  | fn :: chain' =>
      match fn w au with
      | (w', Err _) => (w', None)
      | (w', Ok next) => runChain chain' w' next
      end
  end.

(** The part of [Publish] under [b.mu]: the unit to fan out, with the
    [selfContained] flag read there, or nothing when the unit is too large. *)
Definition publishLocked (b : Broadcaster) (au : AccessUnit)
    : option (Broadcaster * option (bool * AccessUnit)) :=
  if (b_maxAUBytes b >? 0) && (auLen au >? b_maxAUBytes b) then Some (b, None)
  else
    let b := if au_Keyframe au then with_keyframe b (Some au) else b in
    rp ← replayAppendLocked (b_replay b) au;
    let b := with_replay b rp in
    Some (b, Some (b_selfContained b, au)).

(** One receiver of the fan-out. *)
Definition fanoutOne (sc : bool) (au : AccessUnit) (k : nat * nat) (a : nat)
    (h : gmap nat Receiver) : option (gmap nat Receiver) :=
  r ← h !! a;
  r' ← deliver sc au k.1 k.2 r;
  Some (<[a := r']> h).

Definition fanout (sc : bool) (au : AccessUnit) (sched : nat -> nat * nat) (order : list nat)
    (h : gmap nat Receiver) : option (gmap nat Receiver) :=
  foldl (fun oh a => h ← oh; fanoutOne sc au (sched a) a h) (Some h) order.

(** [order] is the order in which [range b.receivers] yields the set. *)
Definition Publish (s : store) (au : AccessUnit) (order : list nat) (sched : nat -> nat * nat)
    : option store :=
  match runChain (b_interceptors (bc s)) (world s) au with
  | (w, None) => Some (mkStore (heap s) (bc s) w)
  | (w, Some au) =>
      res ← publishLocked (bc s) au;
      match res with
      | (b, None) => Some (mkStore (heap s) b w)
      | (b, Some (sc, au)) =>
          h ← fanout sc au sched order (heap s);
          Some (mkStore h b w)
      end
  end.

Definition closeOne (a : nat) (h : gmap nat Receiver) : option (gmap nat Receiver) :=
  r ← h !! a;
  r' ← closeReceiver r;
  Some (<[a := r']> h).

Definition closeAll (order : list nat) (h : gmap nat Receiver) : option (gmap nat Receiver) :=
  foldl (fun oh a => h ← oh; closeOne a h) (Some h) order.

(** [Unsubscribe] up to the release of [b.mu]: was the receiver present? *)
Definition unsubscribeBegin (s : store) (a : nat) : store * bool :=
  if decide (a ∈ b_receivers (bc s))
  then (with_bc s (with_receivers (bc s) (b_receivers (bc s) ∖ {[a]})), true)
  else (s, false).

Definition Unsubscribe (s : store) (a : nat) : option store :=
  match unsubscribeBegin s a with
  | (s, false) => Some s
  | (s, true) => h ← closeOne a (heap s); Some (with_heap s h)
  end.

Definition closeBegin (s : store) : store := with_bc s (with_receivers (bc s) ∅).

Definition Close (s : store) (order : list nat) : option store :=
  let s := closeBegin s in
  h ← closeAll order (heap s);
  Some (with_heap s h).

End Broadcaster.
Arguments Interceptor : clear implicits.
Arguments Broadcaster : clear implicits.
Arguments store : clear implicits.

(** * One receiver against its abstract queue

    Abstractly a receiver is a bounded queue and a flag.  [offer] is the
    documented drop policy; its last argument is how many units leave the head
    of the queue while a full channel makes room. *)

Record queue := mkQueue { q_items : list AccessUnit; q_need : bool }.

Definition offer (cap : nat) (sc : bool) (au : AccessUnit) (n : nat) (q : queue) : queue * bool :=
  if negb sc && q_need q && negb (au_Keyframe au) then (q, false)
  else if (length (q_items q) <? cap)%nat
  then (mkQueue (q_items q ++ [au]) (if negb sc && au_Keyframe au then false else q_need q), true)
  else if sc || au_Keyframe au
  then (mkQueue (drop n (q_items q) ++ [au]) (if sc then q_need q else false), true)
  else (mkQueue (q_items q) true, false).

Definition queue_of (r : Receiver) : queue := mkQueue (ch_buf (r_ch r)) (r_needKeyframe r).

(** [size_ok max au]: [au] passed a per-unit ceiling of [max] bytes. *)
Definition size_ok (max : Z) (au : AccessUnit) : Prop := 0 < max -> auLen au <= max.

Record receiver_ok (max : Z) (r : Receiver) : Prop := {
  rok_closed : ch_closed (r_ch r) = r_closed r;
  rok_cap : (1 <= ch_cap (r_ch r))%nat;
  rok_len : (length (ch_buf (r_ch r)) <= ch_cap (r_ch r))%nat;
  rok_size : Forall (size_ok max) (ch_buf (r_ch r));
}.

Lemma try_send_open {A} (c : chan A) x :
  ch_closed c = false ->
  try_send c x = if (length (ch_buf c) <? ch_cap c)%nat
                 then Sent (mkChan (ch_buf c ++ [x]) (ch_cap c) false) else SendFull.
Proof. intros H. unfold try_send. by rewrite H. Qed.

(** Making room in a full channel, whatever its consumer does meanwhile. *)
Lemma try_send_room (c : chan AccessUnit) au k1 k2 :
  ch_closed c = false -> length (ch_buf c) = ch_cap c -> (1 <= ch_cap c)%nat ->
  try_send (consume k2 (discard_one (consume k1 c))) au =
    Sent (mkChan (drop (k1 + 1 + k2) (ch_buf c) ++ [au]) (ch_cap c) false).
Proof.
  intros Hcl Hfull Hcap. rewrite try_send_open by done.
  unfold consume, discard_one. cbn [ch_buf ch_cap].
  assert (tail (drop k1 (ch_buf c)) = drop (k1 + 1) (ch_buf c)) as ->
    by (rewrite <- drop_drop; by destruct (drop k1 _)).
  rewrite drop_drop, length_drop. split_ifs; [done|lia].
Qed.

Lemma deliver_offer max sc au k1 k2 r :
  receiver_ok max r -> r_closed r = false ->
  exists r', deliver sc au k1 k2 r = Some r' /\
    queue_of r' = (offer (ch_cap (r_ch r)) sc au (k1 + 1 + k2) (queue_of r)).1 /\
    r_closed r' = false /\ ch_closed (r_ch r') = false /\ ch_cap (r_ch r') = ch_cap (r_ch r).
Proof.
  intros [Hcl Hcap Hlen _] Ho. rewrite Ho in Hcl. unfold deliver, offer, queue_of. rewrite Ho.
  rewrite (try_send_open (r_ch r) au Hcl). cbn [q_items q_need].
  destruct (length (ch_buf (r_ch r)) <? ch_cap (r_ch r))%nat eqn:E.
  - destruct sc; cbn [negb andb orb]; [eexists; split_and!; done|].
    destruct (r_needKeyframe r) eqn:En, (au_Keyframe au); cbn [negb andb];
      (eexists; split_and!; try done; simpl; by rewrite ?En).
  - rewrite (try_send_room (r_ch r) au k1 k2 Hcl ltac:(lia) Hcap).
    destruct sc; cbn [negb andb orb]; [eexists; split_and!; done|].
    destruct (r_needKeyframe r) eqn:En, (au_Keyframe au); cbn [negb andb];
      (eexists; split_and!; try done; simpl; by rewrite ?En).
Qed.

Lemma offer_bounds cap sc au n q max :
  (1 <= cap)%nat -> (1 <= n)%nat -> (length (q_items q) <= cap)%nat ->
  Forall (size_ok max) (q_items q) -> size_ok max au ->
  let q' := (offer cap sc au n q).1 in
  (length (q_items q') <= cap)%nat /\ Forall (size_ok max) (q_items q').
Proof.
  intros Hc Hn Hl Hf Ha. unfold offer. split_ifs; simpl; rewrite ?length_app, ?length_drop; simpl;
    (split; [lia|]); rewrite ?Forall_app; auto using Forall_drop.
Qed.

Lemma deliver_ok max sc au k1 k2 r :
  receiver_ok max r -> size_ok max au ->
  exists r', deliver sc au k1 k2 r = Some r' /\ receiver_ok max r' /\ r_closed r' = r_closed r.
Proof.
  intros Hok Ha. destruct (r_closed r) eqn:E.
  { exists r. unfold deliver. by rewrite E. }
  destruct (deliver_offer max sc au k1 k2 r Hok E) as (r' & -> & Hq & Hcl & Hch & Hcap).
  exists r'. destruct Hok as [H1 H2 H3 H4].
  destruct (offer_bounds (ch_cap (r_ch r)) sc au (k1 + 1 + k2) (queue_of r) max)
    as [Hl Hf]; try done; [lia|]. rewrite <- Hq in Hl, Hf. simpl in Hl, Hf.
  split_and!; try done. split; try congruence; lia.
Qed.

Lemma closeReceiver_ok max r :
  receiver_ok max r ->
  exists r', closeReceiver r = Some r' /\ receiver_ok max r' /\ r_closed r' = true /\
             queue_of r' = queue_of r.
Proof.
  intros [H1 H2 H3 H4]. unfold closeReceiver. rewrite H1. destruct (r_closed r) eqn:E.
  - exists r. split_and!; try done. by split; rewrite ?H1.
  - eexists. split_and!; try done.
Qed.

Lemma consume_ok max r k :
  receiver_ok max r -> receiver_ok max (with_ch r (consume k (r_ch r))).
Proof.
  intros [H1 H2 H3 H4]. split; simpl; auto using Forall_drop. rewrite length_drop. lia.
Qed.

Lemma refill_full cap l l' :
  (1 <= cap)%nat -> (length l <= cap)%nat ->
  refill (mkChan l cap false) l' = Some (mkChan (lastn cap (l ++ l')) cap false, true).
Proof.
  intros Hc. revert l; induction l' as [|au l' IH]; intros l Hl; simpl.
  { rewrite app_nil_r. by rewrite lastn_all. }
  rewrite try_send_open by done. cbn [ch_buf ch_cap].
  destruct (length l <? cap)%nat eqn:E.
  - rewrite IH by (rewrite length_app; simpl; lia). by rewrite <- app_assoc.
  - unfold discard_one; cbn [ch_buf ch_cap ch_closed]. destruct l as [|x l]; simpl in *; [lia|].
    rewrite try_send_open by done. cbn [ch_buf ch_cap].
    destruct (length l <? cap)%nat eqn:E'; [|lia].
    rewrite IH by (rewrite length_app; simpl; lia). rewrite <- app_assoc. simpl.
    unfold lastn. rewrite !length_app; simpl. rewrite !length_app; simpl.
    replace (S (length l + S (length l')) - cap)%nat with (S (length l + S (length l') - cap)) by lia.
    done.
Qed.

(** ** Splicing a prefix into a queue *)

Definition values_of (values : gmap Z AccessUnit -> list AccessUnit) : Prop :=
  forall m, values m ≡ₚ (map_to_list m).*2.

Lemma bySeq_add_lookup m l s au :
  NoDup (au_Seq <$> l) ->
  bySeq_add m l !! s = Some au <->
    (au ∈ l /\ au_Seq au = s) \/ (s ∉ (au_Seq <$> l) /\ m !! s = Some au).
Proof.
  revert m; induction l as [|x l IH]; intros m Hnd; simpl.
  { rewrite elem_of_nil. set_solver. }
  apply NoDup_cons in Hnd as [Hx Hnd]. change (bySeq_add m (x :: l)) with (bySeq_add (<[au_Seq x := x]> m) l).
  rewrite IH by done. rewrite !elem_of_cons. destruct (decide (s = au_Seq x)) as [-> | Hs].
  - rewrite lookup_insert_eq. split.
    + intros [[Hin <-]|[Hnin [= <-]]]; [left; auto|left; auto].
    + intros [[[-> | Hin] E]|[Hnin _]]; [right; split; auto|left; auto|tauto].
  - rewrite lookup_insert_ne by done. split.
    + intros [[Hin <-]|[Hnin E]]; [left; auto|right]. split; [|done]. tauto.
    + intros [[[-> | Hin] E]|[Hnin E]]; [congruence|left; auto|right]. split; [|done]. tauto.
Qed.

Lemma bySeq_add_keys l m :
  (forall s au, m !! s = Some au -> au_Seq au = s) ->
  forall s au, bySeq_add m l !! s = Some au -> au_Seq au = s.
Proof.
  revert m; induction l as [|x l IH]; intros m Hm; [done|]. apply (IH (<[au_Seq x := x]> m)).
  intros s au. rewrite lookup_insert_Some. intros [[<- <-]|[_ H]]; auto.
Qed.

Lemma bySeq_values_in l m au :
  au ∈ (map_to_list (bySeq_add m l)).*2 -> au ∈ l \/ au ∈ (map_to_list m).*2.
Proof.
  revert m; induction l as [|x l IH]; intros m; [by right|]. intros H.
  apply (IH (<[au_Seq x := x]> m)) in H as [H|H]; [left; by right|].
  apply list_elem_of_fmap in H as ([s au'] & -> & H). apply elem_of_map_to_list in H.
  apply lookup_insert_Some in H as [[<- <-]|[_ H]]; [left; left|right].
  apply list_elem_of_fmap. exists (s, au'). split; [done|]. by apply elem_of_map_to_list.
Qed.

Lemma map_values_seqs (m : gmap Z AccessUnit) :
  (forall s au, m !! s = Some au -> au_Seq au = s) -> NoDup (au_Seq <$> (map_to_list m).*2).
Proof.
  intros Hm. rewrite <- list_fmap_compose.
  rewrite (list_fmap_ext (au_Seq ∘ snd) fst).
  - apply NoDup_fst_map_to_list.
  - intros i [s au] H. simpl. apply list_elem_of_lookup_2, elem_of_map_to_list in H. auto.
Qed.

(** The merged list of [SpliceFront], before it is sorted: the queue's units
    and those units of the prefix whose Seq the queue does not have. *)
Lemma splice_merge prefix current :
  NoDup (au_Seq <$> prefix) -> NoDup (au_Seq <$> current) ->
  (map_to_list (bySeq_add (bySeq_add ∅ prefix) current)).*2 ≡ₚ
    current ++ filter (fun au => au_Seq au ∉ (au_Seq <$> current)) prefix.
Proof.
  intros Hp Hc. apply NoDup_Permutation.
  - eapply NoDup_fmap_1, map_values_seqs. intros s au. apply bySeq_add_keys.
    intros s' au'. apply bySeq_add_keys. by intros ??.
  - apply NoDup_app. split_and!; [by eapply NoDup_fmap_1| |apply NoDup_filter; by eapply NoDup_fmap_1].
    intros au Hin [Hn _]%list_elem_of_filter. apply Hn. by apply list_elem_of_fmap_2.
  - intros au. rewrite elem_of_app, list_elem_of_filter, list_elem_of_fmap. split.
    + intros ([s au'] & -> & H%elem_of_map_to_list). simpl in *.
      rewrite bySeq_add_lookup in H by done. destruct H as [[H _]|[Hn H]]; [by left|right].
      rewrite bySeq_add_lookup in H by done. destruct H as [[H E]|[_ H]]; [|done].
      split; [by rewrite E|done].
    + intros H. exists (au_Seq au, au). split; [done|]. apply elem_of_map_to_list.
      apply bySeq_add_lookup; [done|]. destruct H as [H|[Hn H]]; [by left|right].
      split; [done|]. apply bySeq_add_lookup; auto.
Qed.

Lemma SpliceFront_exact max values r prefix :
  receiver_ok max r -> r_closed r = false -> prefix <> [] ->
  SpliceFront values r prefix =
    Some (with_ch r (mkChan (lastn (ch_cap (r_ch r))
            (sort_less (key_less au_Seq)
               (values (bySeq_add (bySeq_add ∅ prefix) (ch_buf (r_ch r))))))
            (ch_cap (r_ch r)) false)).
Proof.
  intros [H1 H2 H3 _] Ho Hp. unfold SpliceFront. rewrite H1, Ho.
  destruct (length prefix =? 0)%nat eqn:E; [destruct prefix; [done|discriminate]|].
  rewrite refill_full; [done|lia|simpl; lia].
Qed.

Lemma lastn_length {A} n (l : list A) : (length (lastn n l) <= n)%nat.
Proof. unfold lastn. rewrite length_drop. lia. Qed.

Lemma SpliceFront_ok max values r prefix :
  values_of values -> receiver_ok max r -> Forall (size_ok max) prefix ->
  exists r', SpliceFront values r prefix = Some r' /\ receiver_ok max r' /\ r_closed r' = r_closed r.
Proof.
  intros Hv Hok Hp. destruct (decide (prefix = [])) as [-> | Hne]; [by exists r|].
  destruct (r_closed r) eqn:Ho.
  { exists r. unfold SpliceFront. rewrite Ho. by destruct (length prefix =? 0)%nat. }
  rewrite (SpliceFront_exact max) by done. eexists. split; [done|]. split; [|done].
  destruct Hok as [H1 H2 H3 H4]. split; simpl; [done|done|apply lastn_length|].
  unfold lastn. apply Forall_drop. rewrite sort_less_perm, (Hv _). apply Forall_forall. intros au Hin.
  rewrite Forall_forall in Hp, H4.
  apply bySeq_values_in in Hin as [Hin|Hin]; [auto|].
  apply bySeq_values_in in Hin as [Hin|Hin]; [auto|]. rewrite map_to_list_empty in Hin. by apply elem_of_nil in Hin.
Qed.

(** * Interleavings

    Any number of goroutines publish, subscribe, unsubscribe, close, splice
    and reconfigure concurrently.  A [thread] is what such a call still has to
    do after it released [b.mu]: run the rest of an interceptor chain and take
    the mutex, fan a unit out, or close receivers. *)

Section Interleavings.
Context {W : Type}.

Inductive thread :=
  | TChain (chain : list (Interceptor W)) (au : AccessUnit)
  | TFan (sc : bool) (au : AccessUnit) (todo : list nat)
  | TClose (todo : list nat).

Record config := mkConfig { c_store : store W; c_threads : list thread }.

(** [pstep c oc]: one atomic action leads from [c] to [oc]; [None] is a panic. *)
Inductive pstep : config -> option config -> Prop :=
  | s_publish s ts au :
      pstep (mkConfig s ts) (Some (mkConfig s (ts ++ [TChain (b_interceptors (bc s)) au])))
  | s_chain s ts1 ts2 fn chain au :
      pstep (mkConfig s (ts1 ++ TChain (fn :: chain) au :: ts2))
        (let '(w, res) := fn (world s) au in
         Some (mkConfig (mkStore (heap s) (bc s) w)
                 (match res with
                  | Ok next => ts1 ++ TChain chain next :: ts2
                  | Err _ => ts1 ++ ts2
                  end)))
  | s_locked s ts1 ts2 au order :
      order ≡ₚ elements (b_receivers (bc s)) ->
      pstep (mkConfig s (ts1 ++ TChain [] au :: ts2))
        (res ← publishLocked (bc s) au;
         let '(b, o) := res in
         Some (mkConfig (with_bc s b)
                 (match o with
                  | Some (sc, au) => ts1 ++ TFan sc au order :: ts2
                  | None => ts1 ++ ts2
                  end)))
  | s_deliver s ts1 ts2 sc au a todo k :
      pstep (mkConfig s (ts1 ++ TFan sc au (a :: todo) :: ts2))
        (h ← fanoutOne sc au k a (heap s);
         Some (mkConfig (with_heap s h) (ts1 ++ TFan sc au todo :: ts2)))
  | s_subscribe s ts cap :
      pstep (mkConfig s ts)
        (res ← SubscribeWithCapacity s cap; Some (mkConfig res.2 ts))
  | s_unsubscribe s ts a :
      pstep (mkConfig s ts)
        (let '(s', present) := unsubscribeBegin s a in
         Some (mkConfig s' (if present : bool then ts ++ [TClose [a]] else ts)))
  | s_close s ts order :
      order ≡ₚ elements (b_receivers (bc s)) ->
      pstep (mkConfig s ts) (Some (mkConfig (closeBegin s) (ts ++ [TClose order])))
  | s_close_one s ts1 ts2 a todo :
      pstep (mkConfig s (ts1 ++ TClose (a :: todo) :: ts2))
        (h ← closeOne a (heap s);
         Some (mkConfig (with_heap s h) (ts1 ++ TClose todo :: ts2)))
  | s_consume s ts a r k :
      heap s !! a = Some r ->
      pstep (mkConfig s ts)
        (Some (mkConfig (with_heap s (<[a := with_ch r (consume k (r_ch r))]> (heap s))) ts))
  | s_request s ts a r :
      heap s !! a = Some r ->
      pstep (mkConfig s ts)
        (Some (mkConfig (with_heap s (<[a := RequestKeyframe r]> (heap s))) ts))
  | s_splice s ts a r values fromSeq :
      values_of values -> heap s !! a = Some r ->
      pstep (mkConfig s ts)
        (r' ← SpliceFront values r (ReplaySince (b_replay (bc s)) fromSeq).1;
         Some (mkConfig (with_heap s (<[a := r']> (heap s))) ts))
  | s_selfcontained s ts v :
      pstep (mkConfig s ts) (Some (mkConfig (with_bc s (SetSelfContained v (bc s))) ts))
  | s_ring s ts op :
      match op with RAppend _ => False | _ => True end ->
      pstep (mkConfig s ts)
        (rp ← ring_step (b_replay (bc s)) op;
         Some (mkConfig (with_bc s (with_replay (bc s) rp)) ts))
  | s_add s ts fn :
      pstep (mkConfig s ts) (Some (mkConfig (with_bc s (AddInterceptor (bc s) fn).2) ts))
  | s_remove s ts id :
      pstep (mkConfig s ts)
        (b ← removeInterceptor (bc s) id; Some (mkConfig (with_bc s b) ts)).

Definition psteps : config -> config -> Prop := rtc (fun c c' => pstep c (Some c')).

(** The state a program starts from: a new broadcaster, no receiver. *)
Definition initial (chanSize maxAUBytes : Z) (w : W) : config :=
  mkConfig (mkStore ∅ (NewBroadcasterWithBytes chanSize maxAUBytes) w) [].

Definition thread_ok (max : Z) (h : gmap nat Receiver) (rs : gset nat) (t : thread) : Prop :=
  match t with
  | TChain _ _ => True
  | TFan _ au todo => size_ok max au /\ Forall (fun a => is_Some (h !! a)) todo
  | TClose todo => Forall (fun a => is_Some (h !! a) /\ a ∉ rs) todo
  end.

Record config_ok (max : Z) (c : config) : Prop := {
  cok_max : b_maxAUBytes (bc (c_store c)) = max;
  cok_chan : 0 < b_chanSize (bc (c_store c));
  cok_ids : length (b_interceptorIDs (bc (c_store c))) = length (b_interceptors (bc (c_store c)));
  cok_ring : ring_ok (b_replay (bc (c_store c)));
  cok_budget : budget_ok (b_replay (bc (c_store c)));
  cok_ring_size : Forall (size_ok max) (replaySnapshotLocked (b_replay (bc (c_store c))));
  cok_key : forall k, b_latestKeyframe (bc (c_store c)) = Some k -> au_Keyframe k = true /\ size_ok max k;
  cok_heap : forall a r, heap (c_store c) !! a = Some r ->
               receiver_ok max r /\ (a ∈ b_receivers (bc (c_store c)) -> r_closed r = false);
  cok_dom : b_receivers (bc (c_store c)) ⊆ dom (heap (c_store c));
  cok_threads : Forall (thread_ok max (heap (c_store c)) (b_receivers (bc (c_store c)))) (c_threads c);
}.

Lemma thread_ok_mono max h h' rs rs' t :
  (forall a, is_Some (h !! a) -> is_Some (h' !! a)) ->
  (forall a, is_Some (h !! a) -> a ∈ rs' -> a ∈ rs) ->
  thread_ok max h rs t -> thread_ok max h' rs' t.
Proof.
  intros Hh Hrs. destruct t as [| |]; simpl; [done| |].
  - intros [Ha Hf]. split; [done|]. eapply Forall_impl; [exact Hf|]. auto.
  - intros Hf. eapply Forall_impl; [exact Hf|]. simpl. intros a [H1 H2]. split; [auto|]. naive_solver.
Qed.

Lemma threads_ok_mono max h h' rs rs' ts :
  (forall a, is_Some (h !! a) -> is_Some (h' !! a)) ->
  (forall a, is_Some (h !! a) -> a ∈ rs' -> a ∈ rs) ->
  Forall (thread_ok max h rs) ts -> Forall (thread_ok max h' rs') ts.
Proof. intros. eapply Forall_impl; [done|]. eauto using thread_ok_mono. Qed.

(** Replacing the [Receiver] at an address by another good one. *)
Lemma config_ok_update max s ts ts' a r r' :
  config_ok max (mkConfig s ts) -> heap s !! a = Some r ->
  receiver_ok max r' -> (a ∈ b_receivers (bc s) -> r_closed r' = false) ->
  Forall (thread_ok max (heap s) (b_receivers (bc s))) ts' ->
  config_ok max (mkConfig (with_heap s (<[a := r']> (heap s))) ts').
Proof.
  intros [] Ha Hr Hc Hts. split; simpl in *; try done.
  - intros a' r0. rewrite lookup_insert_Some. intros [[<- <-]|[_ H]]; auto.
  - rewrite dom_insert. set_solver.
  - eapply threads_ok_mono; [| |exact Hts]; [|done].
    intros a' H. destruct (decide (a = a')) as [-> | Hne]; [by rewrite lookup_insert_eq|].
    by rewrite lookup_insert_ne.
Qed.

(** Replacing the broadcaster's fields apart from the receiver set. *)
Lemma config_ok_bc max s ts ts' b :
  config_ok max (mkConfig s ts) ->
  b_maxAUBytes b = b_maxAUBytes (bc s) -> b_chanSize b = b_chanSize (bc s) ->
  b_receivers b = b_receivers (bc s) ->
  length (b_interceptorIDs b) = length (b_interceptors b) ->
  ring_ok (b_replay b) -> budget_ok (b_replay b) ->
  Forall (size_ok max) (replaySnapshotLocked (b_replay b)) ->
  (forall k, b_latestKeyframe b = Some k -> au_Keyframe k = true /\ size_ok max k) ->
  Forall (thread_ok max (heap s) (b_receivers (bc s))) ts' ->
  config_ok max (mkConfig (with_bc s b) ts').
Proof.
  intros [] E1 E2 E3 ? ? ? ? ? ?. split; simpl in *; rewrite ?E1, ?E2, ?E3; done.
Qed.

Lemma log_append_in cap max l au x : x ∈ log_append cap max l au -> x = au \/ x ∈ l.
Proof.
  unfold log_append. destruct (cap =? 0)%nat; [by intros []%elem_of_nil|].
  unfold lastn. intros H%elem_of_drop_in. apply elem_of_app in H as [H|H].
  - right. destruct (trim_suffix max (auLen au) l) as [k ->]. apply elem_of_app; by right.
  - left. by apply list_elem_of_singleton in H.
Qed.

Lemma log_append_all_in cap max k l x : x ∈ log_append_all cap max l k -> x ∈ k \/ x ∈ l.
Proof.
  revert l; induction k as [|au k IH]; intros l H; [by right|].
  unfold log_append_all in *; simpl in H. apply IH in H as [H|H]; [left; by right|].
  apply log_append_in in H as [-> | H]; [left; left|by right].
Qed.

Lemma ring_step_in b op b' x :
  ring_ok b -> ring_step b op = Some b' -> x ∈ replaySnapshotLocked b' ->
  op = RAppend x \/ x ∈ replaySnapshotLocked b.
Proof.
  intros Hok E Hx. destruct op as [au|cap|n]; simpl in E.
  - destruct (append_refines b au Hok) as (b1 & E1 & _ & Hs & _).
    assert (b1 = b') as -> by congruence. rewrite Hs in Hx.
    apply log_append_in in Hx as [-> | Hx]; auto.
  - destruct (setcap_refines b cap Hok) as (b1 & E1 & _ & _ & _ & Hs).
    assert (b1 = b') as -> by congruence. rewrite Hs in Hx. right.
    destruct (Z.to_nat cap =? replayCap b)%nat; [done|].
    apply log_append_all_in in Hx as [Hx|[]%elem_of_nil]. by apply elem_of_drop_in in Hx.
  - destruct (setmax_refines b n Hok) as (b1 & E1 & _ & _ & _ & Hs).
    assert (b1 = b') as -> by congruence. rewrite Hs in Hx. right.
    destruct (trim_suffix (Z.max 0 n) 0 (replaySnapshotLocked b)) as [k ->]. apply elem_of_app; by right.
Qed.

Lemma ReplaySince_in b fromSeq x :
  x ∈ (ReplaySince b fromSeq).1 -> x ∈ replaySnapshotLocked b.
Proof.
  unfold ReplaySince. destruct ((replayCap b =? 0)%nat || (length (replayBuf b) =? 0)%nat);
    [by intros []%elem_of_nil|].
  destruct (replaySnapshotLocked b) as [|s0 rest]; [by intros []%elem_of_nil|].
  destruct (fromSeq <? _); [by intros []%elem_of_nil|]. cbn [fst].
  rewrite sort_less_perm. by intros [_ ?]%list_elem_of_filter.
Qed.

Ltac split_threads H :=
  let H1 := fresh in let H2 := fresh in
  apply Forall_app in H as [H1 H2]; apply Forall_cons in H2 as [H H2].

Lemma publishLocked_ok max s ts au :
  config_ok max (mkConfig s ts) ->
  exists b o, publishLocked (bc s) au = Some (b, o) /\
    (forall ts', Forall (thread_ok max (heap s) (b_receivers (bc s))) ts' ->
                 config_ok max (mkConfig (with_bc s b) ts')) /\
    match o with Some (_, au') => au' = au /\ size_ok max au | None => b = bc s end.
Proof.
  intros Hok. pose proof Hok as [Hmax _ _ Hring Hbud Hsz Hkey _ _ _]. simpl in *.
  unfold publishLocked. rewrite Hmax.
  destruct ((max >? 0) && (auLen au >? max)) eqn:E.
  { eexists _, None. split; [done|]. split; [|done]. intros ts' Hts.
    destruct Hok. eapply config_ok_bc; eauto; done. }
  assert (size_ok max au) as Ha by (intros Hm; lia).
  set (b0 := if au_Keyframe au then _ else _).
  assert (b_replay b0 = b_replay (bc s)) as -> by (unfold b0; by destruct (au_Keyframe au)).
  destruct (append_refines (b_replay (bc s)) au Hring) as (rp & Erp & Hok' & _).
  rewrite Erp. simpl. eexists _, _. split; [done|]. split; [|done].
  intros ts' Hts. eapply config_ok_bc; eauto; try (unfold b0; by destruct (au_Keyframe au)).
  - destruct Hok. unfold b0. by destruct (au_Keyframe au).
  - eapply append_budget; [exact Hring|exact Hbud|exact Erp].
  - apply Forall_forall. intros x Hx. rewrite Forall_forall in Hsz.
    destruct (ring_step_in (b_replay (bc s)) (RAppend au) rp x) as [[= ->] | H]; auto.
  - unfold b0. simpl. destruct (au_Keyframe au) eqn:Ek; simpl; [|done]. intros k [= <-]. done.
Qed.

Lemma subscribe_ok max s ts cap :
  config_ok max (mkConfig s ts) ->
  exists res, SubscribeWithCapacity s cap = Some res /\ config_ok max (mkConfig res.2 ts).
Proof.
  intros [H1 H2 H3 H4 H5 H6 H7 H8 H9 H10]. simpl in *.
  unfold SubscribeWithCapacity, subscribeWithCap. cbn [with_receivers b_latestKeyframe b_selfContained].
  set (n := Z.to_nat _). assert (1 <= n)%nat as Hn by (unfold n; split_ifs; lia).
  set (a := fresh (dom (heap s))). pose proof (is_fresh (dom (heap s))) as Hfr. fold a in Hfr.
  set (r := match b_latestKeyframe (bc s) with Some _ => _ | None => _ end).
  assert (exists r0, r = Some r0 /\ receiver_ok max r0 /\ r_closed r0 = false) as (r0 & -> & Hr0 & Hcl).
  { unfold r. destruct (b_latestKeyframe (bc s)) as [k|] eqn:Ek.
    - destruct (H7 k eq_refl) as [_ Hk]. rewrite try_send_open by done. simpl.
      destruct (0 <? n)%nat eqn:E; [|lia]. eexists; split_and!; try done.
      split; simpl; [done|lia|lia|]. by constructor.
    - eexists; split_and!; try done. split; simpl; [done|lia|lia|constructor]. }
  simpl. eexists. split; [done|]. split; simpl; try done.
  - intros a' r'. rewrite lookup_insert_Some. intros [[<- <-]|[Hne H]]; [done|].
    destruct (H8 a' r' H). split; [done|]. set_solver.
  - rewrite dom_insert_L. set_solver.
  - eapply threads_ok_mono; [| |exact H10].
    + intros a' H. destruct (decide (a = a')) as [-> | Hne]; [by rewrite lookup_insert_eq|].
      by rewrite lookup_insert_ne.
    + intros a' H%elem_of_dom Hin. set_solver.
Qed.

(** Removing or rewriting one thread of the pool. *)
Lemma threads_ok_replace max h rs ts1 t ts2 l :
  Forall (thread_ok max h rs) (ts1 ++ t :: ts2) ->
  (thread_ok max h rs t -> Forall (thread_ok max h rs) l) ->
  Forall (thread_ok max h rs) (ts1 ++ l ++ ts2).
Proof.
  intros [H1 [Ht H2]%Forall_cons]%Forall_app Hl. apply Forall_app; split; [done|].
  apply Forall_app; split; auto.
Qed.

Lemma fanoutOne_ok max s ts1 ts2 sc au a todo k :
  config_ok max (mkConfig s (ts1 ++ TFan sc au (a :: todo) :: ts2)) ->
  exists h, fanoutOne sc au k a (heap s) = Some h /\
    config_ok max (mkConfig (with_heap s h) (ts1 ++ TFan sc au todo :: ts2)).
Proof.
  intros Hok. pose proof (cok_threads _ _ Hok) as Hts. simpl in Hts.
  pose proof Hts as [_ [[Ha Htodo] _]%Forall_cons]%Forall_app.
  apply Forall_cons in Htodo as [[r Hr] Htodo].
  destruct (cok_heap _ _ Hok a r Hr) as [Hrok Hopen]. simpl in Hopen.
  destruct (deliver_ok max sc au k.1 k.2 r Hrok Ha) as (r' & E & Hr' & Hcl).
  exists (<[a := r']> (heap s)). unfold fanoutOne. rewrite Hr. simpl. rewrite E. split; [done|].
  eapply config_ok_update; [exact Hok|exact Hr|done|by rewrite Hcl|].
  eapply (threads_ok_replace _ _ _ ts1 _ ts2 [_]); [exact Hts|]. intros _. by constructor.
Qed.

Lemma closeOne_ok max s ts1 ts2 a todo :
  config_ok max (mkConfig s (ts1 ++ TClose (a :: todo) :: ts2)) ->
  exists h, closeOne a (heap s) = Some h /\
    config_ok max (mkConfig (with_heap s h) (ts1 ++ TClose todo :: ts2)).
Proof.
  intros Hok. pose proof (cok_threads _ _ Hok) as Hts. simpl in Hts.
  pose proof Hts as [_ [Htodo _]%Forall_cons]%Forall_app. simpl in Htodo.
  apply Forall_cons in Htodo as [[[r Hr] Ha] Htodo].
  destruct (cok_heap _ _ Hok a r Hr) as [Hrok _].
  destruct (closeReceiver_ok max r Hrok) as (r' & E & Hr' & Hcl & _).
  exists (<[a := r']> (heap s)). unfold closeOne. rewrite Hr. simpl. rewrite E. split; [done|].
  eapply config_ok_update; [exact Hok|exact Hr|done|done|].
  eapply (threads_ok_replace _ _ _ ts1 _ ts2 [_]); [exact Hts|]. intros _. by constructor.
Qed.

(** Taking receivers out of the set, to close them. *)
Lemma config_ok_leave max s ts rs todo :
  config_ok max (mkConfig s ts) ->
  Forall (fun a => a ∈ b_receivers (bc s) /\ a ∉ rs) todo ->
  rs ⊆ b_receivers (bc s) ->
  config_ok max (mkConfig (with_bc s (with_receivers (bc s) rs)) (ts ++ [TClose todo])).
Proof.
  intros [] Htodo Hsub. split; simpl in *; try done.
  - intros a r H. destruct (cok_heap0 a r H). split; [done|]. set_solver.
  - set_solver.
  - apply Forall_app. split.
    + eapply threads_ok_mono; [| |exact cok_threads0]; [done|]. set_solver.
    + constructor; [|constructor]. simpl. eapply Forall_impl; [exact Htodo|].
      intros a [Hin Hn]. split; [|done]. apply elem_of_dom. set_solver.
Qed.

Lemma removeInterceptor_ok b id :
  length (b_interceptorIDs b) = length (b_interceptors b) ->
  exists fns ids, @removeInterceptor W b id = Some (with_interceptors b fns ids (b_nextInterceptorID b)) /\
    length ids = length fns.
Proof.
  intros Hl. unfold removeInterceptor. destruct id as [id|].
  2:{ exists (b_interceptors b), (b_interceptorIDs b). by destruct b. }
  destruct (list_find (λ gotID : Z, gotID = id) (b_interceptorIDs b)) as [[i x]|] eqn:E.
  2:{ exists (b_interceptors b), (b_interceptorIDs b). by destruct b. }
  apply list_find_Some in E as (E & _ & _). apply lookup_lt_Some in E.
  destruct (i <? length (b_interceptors b))%nat eqn:Ei; [|lia].
  eexists _, _. split; [done|]. rewrite !length_app, !length_take, !length_drop. lia.
Qed.

Lemma pstep_ok max c oc :
  config_ok max c -> pstep c oc -> exists c', oc = Some c' /\ config_ok max c'.
Proof.
  intros Hok Hst. destruct Hst as
    [s ts au | s ts1 ts2 fn chain au | s ts1 ts2 au order Ho | s ts1 ts2 sc au a todo k
    | s ts cap | s ts a | s ts order Ho | s ts1 ts2 a todo | s ts a r k Hr | s ts a r Hr
    | s ts a r values fromSeq Hv Hr | s ts v | s ts op Hop | s ts fn | s ts id].
  - eexists; split; [done|]. destruct Hok. split; try done. simpl. apply Forall_app. split; [done|]. by constructor.
  - destruct (fn (world s) au) as [w res]. eexists; split; [done|].
    destruct Hok; split; try done. simpl in *.
    destruct res; [eapply (threads_ok_replace _ _ _ ts1 _ ts2 [_])|eapply (threads_ok_replace _ _ _ ts1 _ ts2 [])];
      eauto; repeat constructor.
  - destruct (publishLocked_ok max s _ au Hok) as (b & o & -> & Hb & Hau). simpl. eexists; split; [done|].
    apply Hb. pose proof (cok_threads _ _ Hok) as Hts; simpl in Hts.
    destruct o as [[sc au']|];
      [|eapply (threads_ok_replace _ _ _ ts1 _ ts2 []); [exact Hts|constructor]].
    destruct Hau as [-> Hau].
    eapply (threads_ok_replace _ _ _ ts1 _ ts2 [_]); [exact Hts|]. intros _. constructor; [|constructor].
    split; [done|]. rewrite Ho. apply Forall_forall. intros a Ha%elem_of_elements.
    apply elem_of_dom. by apply (cok_dom _ _ Hok).
  - destruct (fanoutOne_ok max s ts1 ts2 sc au a todo k Hok) as (h & -> & H). eauto.
  - destruct (subscribe_ok max s ts cap Hok) as (res & -> & H). eauto.
  - unfold unsubscribeBegin. destruct (decide _) as [Hin|]; [|eauto]. eexists; split; [done|].
    apply config_ok_leave; [done| |set_solver]. constructor; [set_solver|constructor].
  - eexists; split; [done|]. apply config_ok_leave; [done| |set_solver].
    rewrite Ho. apply Forall_forall. intros a Ha%elem_of_elements. set_solver.
  - destruct (closeOne_ok max s ts1 ts2 a todo Hok) as (h & -> & H). eauto.
  - eexists; split; [done|]. destruct (cok_heap _ _ Hok a r Hr) as [H1 H2].
    eapply config_ok_update; eauto using consume_ok. apply (cok_threads _ _ Hok).
  - eexists; split; [done|]. destruct (cok_heap _ _ Hok a r Hr) as [[] H2].
    eapply config_ok_update; eauto; [by split|]. apply (cok_threads _ _ Hok).
  - destruct (cok_heap _ _ Hok a r Hr) as [H1 H2].
    destruct (SpliceFront_ok max values r (ReplaySince (b_replay (bc s)) fromSeq).1) as (r' & -> & Hr' & Hcl); try done.
    { apply Forall_forall. intros x Hx%ReplaySince_in. pose proof (cok_ring_size _ _ Hok) as Hf.
      rewrite Forall_forall in Hf. auto. }
    eexists; split; [done|]. eapply config_ok_update; [exact Hok|exact Hr|done|by rewrite Hcl|apply (cok_threads _ _ Hok)].
  - eexists; split; [done|]. destruct Hok. eapply config_ok_bc; eauto; done.
  - destruct (ring_step_ok (b_replay (bc s)) op (cok_ring _ _ Hok) (cok_budget _ _ Hok)) as (rp & E & Hr & Hb).
    rewrite E. eexists; split; [done|]. pose proof (cok_ring _ _ Hok) as Hring. pose proof Hok as [].
    eapply config_ok_bc; eauto; try done. apply Forall_forall. intros x Hx.
    destruct (ring_step_in (b_replay (bc s)) op rp x) as [-> | H]; auto; [done|].
    rewrite Forall_forall in cok_ring_size0. auto.
  - eexists; split; [done|]. destruct Hok. destruct fn as [fn|]; eapply config_ok_bc; eauto; try done.
    simpl in *. rewrite !length_app. simpl. lia.
  - destruct (removeInterceptor_ok (bc s) id (cok_ids _ _ Hok)) as (fns & ids & -> & Hl).
    eexists; split; [done|]. destruct Hok. eapply config_ok_bc; eauto; done.
Qed.
End Interleavings.
Arguments thread : clear implicits.
Arguments config : clear implicits.

(** * Claims about a single receiver *)

Inductive revent :=
  | REOffer (au : AccessUnit) (k1 k2 : nat)
  | REConsume (k : nat)
  | RERequestKeyframe.

(** One event at an open receiver; a publish also yields the unit and whether
    the drop policy let it in. *)
Definition rstep (sc : bool) (r : Receiver) (ev : revent)
    : option (Receiver * list (AccessUnit * bool)) :=
  match ev with
  | REOffer au k1 k2 =>
      r' ← deliver sc au k1 k2 r;
      Some (r', [(au, (offer (ch_cap (r_ch r)) sc au (k1 + 1 + k2) (queue_of r)).2)])
  | REConsume k => Some (with_ch r (consume k (r_ch r)), [])
  | RERequestKeyframe => Some (RequestKeyframe r, [])
  end.

Fixpoint rrun (sc : bool) (r : Receiver) (evs : list revent)
    : option (Receiver * list (AccessUnit * bool)) :=
  match evs with
  | [] => Some (r, [])
  | ev :: evs' =>
      st ← rstep sc r ev;
      rest ← rrun sc st.1 evs';
      Some (rest.1, st.2 ++ rest.2)
  end.

Lemma offer_need cap au n q :
  q_need (offer cap false au n q).1 = negb (offer cap false au n q).2.
Proof.
  unfold offer. cbn [negb andb orb].
  destruct (q_need q) eqn:En, (au_Keyframe au) eqn:Ek; cbn [negb andb];
    split_ifs; simpl; congruence.
Qed.

Definition open_ok (r : Receiver) : Prop := (exists max, receiver_ok max r) /\ r_closed r = false.

Lemma open_ok_deliver sc au k1 k2 r :
  open_ok r ->
  exists r', deliver sc au k1 k2 r = Some r' /\ open_ok r' /\
    queue_of r' = (offer (ch_cap (r_ch r)) sc au (k1 + 1 + k2) (queue_of r)).1 /\
    ch_cap (r_ch r') = ch_cap (r_ch r).
Proof.
  intros [[max Hok] Ho]. destruct (deliver_offer max sc au k1 k2 r Hok Ho) as (r' & E & Hq & Hcl & Hch & Hcap).
  exists r'. split_and!; try done. split; [|done]. exists 0. destruct Hok as [H1 H2 H3 _].
  destruct (offer_bounds (ch_cap (r_ch r)) sc au (k1 + 1 + k2) (queue_of r) 0) as [Hl Hf];
    try done; try lia.
  { apply Forall_forall. intros x _ H. lia. }
  rewrite <- Hq in Hl, Hf. split; [congruence|lia|simpl in Hl; lia|done].
Qed.

(** C4: one delivery of [Publish] implements the documented drop policy, for
    every interleaving with the channel's consumer: a waiting video receiver
    skips a non-keyframe; with room the unit is appended; a keyframe (or any
    unit of a self-contained track) displaces the oldest units of a full queue
    and is appended, so it is never lost; another unit is dropped and the
    receiver waits for a keyframe.  It never panics. *)
Theorem deliver_implements_drop_policy sc au k1 k2 r :
  open_ok r ->
  exists r', deliver sc au k1 k2 r = Some r' /\ open_ok r' /\
    queue_of r' = (offer (ch_cap (r_ch r)) sc au (k1 + 1 + k2) (queue_of r)).1 /\
    (sc || au_Keyframe au = true ->
       last (ch_buf (r_ch r')) = Some au /\ (sc = false -> r_needKeyframe r' = false)).
Proof.
  intros Hok. destruct (open_ok_deliver sc au k1 k2 r Hok) as (r' & E & Hok' & Hq & _).
  exists r'. split_and!; try done. intros Hk.
  change (ch_buf (r_ch r')) with (q_items (queue_of r')).
  change (r_needKeyframe r') with (q_need (queue_of r')). rewrite Hq. unfold offer.
  rewrite Hk. destruct sc; cbn [negb andb orb] in *.
  - split_ifs; simpl; by rewrite last_snoc.
  - rewrite Hk. cbn [negb]. rewrite andb_false_r. split_ifs; simpl; by rewrite last_snoc.
Qed.

Definition rcv0 (l : list AccessUnit) (cap : nat) (need : bool) : Receiver :=
  mkReceiver (mkChan l cap false) false need.

Lemma open_ok_rcv0 l cap need :
  (1 <= cap)%nat -> (length l <= cap)%nat -> open_ok (rcv0 l cap need).
Proof.
  intros. split; [exists 0|done]. split; simpl; [done|lia|lia|].
  apply Forall_forall. intros x _ Hx. lia.
Qed.

Lemma deliver_implements_drop_policy_witness :
  exists r', deliver false (au0 9 true 1) 0 0 (rcv0 [au0 7 true 1; au0 8 false 1] 2 true) = Some r' /\
    r_needKeyframe r' = false.
Proof.
  destruct (deliver_implements_drop_policy false (au0 9 true 1) 0 0
              (rcv0 [au0 7 true 1; au0 8 false 1] 2 true)) as (r' & E & _ & _ & H).
  - apply open_ok_rcv0; simpl; lia.
  - exists r'. split; [exact E|]. by apply H.
Defined.

Lemma rrun_head r evs r' au l :
  open_ok r -> rrun false r evs = Some (r', (au, true) :: l) -> au_Keyframe au = false ->
  r_needKeyframe r = false.
Proof.
  revert r; induction evs as [|ev evs IH]; intros r Hok; simpl; [congruence|].
  destruct ev as [au' k1 k2|k|]; simpl.
  - destruct (open_ok_deliver false au' k1 k2 r Hok) as (r1 & -> & Hok1 & Hq & _). simpl.
    destruct (rrun false r1 evs) as [[r2 l2]|]; [|discriminate]. simpl. intros [= _ -> Hf _] Hk.
    unfold offer in Hf. rewrite Hk in Hf. cbn [queue_of q_need q_items negb andb orb] in Hf.
    by destruct (r_needKeyframe r).
  - destruct (rrun false _ evs) as [[r2 l2]|] eqn:E; [|discriminate]. simpl. intros [= -> ->] Hk.
    apply (IH (with_ch r (consume k (r_ch r)))) in E; [done| |done].
    destruct Hok as [[max Hok] Ho]. split; [exists max; by apply consume_ok|done].
  - destruct (rrun false _ evs) as [[r2 l2]|] eqn:E; [|discriminate]. simpl. intros [= -> ->] Hk.
    apply (IH (RequestKeyframe r)) in E; [|destruct Hok as [[max []] Ho]; split; [exists max; by split|done]|done].
    done.
Qed.

(** on the enqueue side a video receiver never has a gap inside a group of
    pictures: whatever the publisher, the consumer and [RequestKeyframe] do,
    a non-keyframe is let in only when the unit published just before it was
    let in too, and as the first unit only if the receiver was not waiting
    for a keyframe. *)
Theorem enqueue_gop_contiguous r evs r' log :
  open_ok r -> rrun false r evs = Some (r', log) ->
  (forall au l, log = (au, true) :: l -> r_needKeyframe r = true -> au_Keyframe au = true) /\
  (forall l1 x bx au l2, log = l1 ++ (x, bx) :: (au, true) :: l2 ->
     au_Keyframe au = false -> bx = true).
Proof.
  intros Hok Hrun. split.
  { intros au l -> Hn. destruct (au_Keyframe au) eqn:Ek; [done|].
    by rewrite (rrun_head r evs r' au l Hok Hrun Ek) in Hn. }
  revert r r' log Hok Hrun. induction evs as [|ev evs IH]; intros r r' log Hok; simpl.
  { intros [= <- <-] l1 x bx au l2 E. by destruct l1. }
  destruct (rstep false r ev) as [[r1 lev]|] eqn:Es; [|discriminate]. simpl.
  destruct (rrun false r1 evs) as [[r2 l2]|] eqn:Er; [|discriminate]. simpl. intros [= <- <-].
  assert (open_ok r1 /\ (lev = [] \/ exists x, lev = [(x, negb (r_needKeyframe r1))])) as [Hok1 Hlev].
  { destruct ev as [au k1 k2|k|]; simpl in Es.
    - destruct (open_ok_deliver false au k1 k2 r Hok) as (r1' & E & Hok1 & Hq & _).
      rewrite E in Es. injection Es as <- <-. split; [done|]. right. exists au.
      change (r_needKeyframe r1') with (q_need (queue_of r1')). by rewrite Hq, offer_need, negb_involutive.
    - injection Es as <- <-. split; [|by left].
      destruct Hok as [[max Hok] Ho]. split; [exists max; by apply consume_ok|done].
    - injection Es as <- <-. split; [|by left].
      destruct Hok as [[max []] Ho]; split; [exists max; by split|done]. }
  intros l1 x bx au l3 E Hk. destruct Hlev as [-> | [y ->]]; simpl in E; [eapply IH; eauto|].
  destruct l1 as [|z l1]; simpl in E; [|injection E as <- ->; eapply IH; eauto].
  injection E as -> <- ->. by rewrite (rrun_head r1 evs r2 au l3 Hok1 Er Hk).
Qed.

Lemma enqueue_gop_contiguous_witness :
  exists r' log,
    rrun false (rcv0 [] 2 true)
      [REOffer (au0 1 false 1) 0 0; REOffer (au0 2 true 1) 0 0; REOffer (au0 3 false 1) 0 0;
       REOffer (au0 4 false 1) 0 0; REConsume 2; REOffer (au0 5 false 1) 0 0;
       REOffer (au0 6 true 1) 0 0] = Some (r', log) /\
    log.*2 = [false; true; true; false; false; true] /\
    (forall l1 x bx au l2, log = l1 ++ (x, bx) :: (au, true) :: l2 ->
       au_Keyframe au = false -> bx = true).
Proof.
  eexists _, _. split; [vm_compute; reflexivity|]. split; [reflexivity|].
  eapply (enqueue_gop_contiguous (rcv0 [] 2 true)
    [REOffer (au0 1 false 1) 0 0; REOffer (au0 2 true 1) 0 0; REOffer (au0 3 false 1) 0 0;
       REOffer (au0 4 false 1) 0 0; REConsume 2; REOffer (au0 5 false 1) 0 0;
       REOffer (au0 6 true 1) 0 0]).
  - apply open_ok_rcv0; simpl; lia.
  - vm_compute; reflexivity.
Defined.

Lemma SpliceFront_room values r prefix :
  values_of values -> open_ok r -> prefix <> [] ->
  NoDup (au_Seq <$> prefix) -> NoDup (au_Seq <$> ch_buf (r_ch r)) ->
  (length (ch_buf (r_ch r)) +
   length (filter (fun au => au_Seq au ∉ (au_Seq <$> ch_buf (r_ch r))) prefix) <= ch_cap (r_ch r))%nat ->
  exists r', SpliceFront values r prefix = Some r' /\
    r_needKeyframe r' = r_needKeyframe r /\ ch_cap (r_ch r') = ch_cap (r_ch r) /\
    ordered (key_less au_Seq) (ch_buf (r_ch r')) /\
    ch_buf (r_ch r') ≡ₚ ch_buf (r_ch r) ++
      filter (fun au => au_Seq au ∉ (au_Seq <$> ch_buf (r_ch r))) prefix.
Proof.
  intros Hv [[max Hok] Ho] Hne Hp Hc Hroom.
  rewrite (SpliceFront_exact max) by done. eexists. split; [done|]. cbn [with_ch r_ch r_needKeyframe ch_buf ch_cap].
  pose proof (splice_merge prefix (ch_buf (r_ch r)) Hp Hc) as Hm. rewrite <- (Hv _) in Hm.
  rewrite lastn_all.
  - split_and!; [done|done|apply sort_key_ordered|]. by rewrite sort_less_perm.
  - rewrite sort_less_perm, Hm, length_app. lia.
Qed.

(** [SpliceFront] on an open receiver with room for what results leaves
    exactly the queue's units and those prefix units whose Seq the queue did
    not have, in ascending order of Seq, whatever order the map iteration had;
    the keyframe flag and the capacity are unchanged. *)
Theorem splice_front_exact values r prefix :
  values_of values -> open_ok r -> prefix <> [] ->
  NoDup (au_Seq <$> prefix) -> NoDup (au_Seq <$> ch_buf (r_ch r)) ->
  (length (ch_buf (r_ch r)) +
   length (filter (fun au => au_Seq au ∉ (au_Seq <$> ch_buf (r_ch r))) prefix) <= ch_cap (r_ch r))%nat ->
  exists r', SpliceFront values r prefix = Some r' /\
    r_needKeyframe r' = r_needKeyframe r /\ ch_cap (r_ch r') = ch_cap (r_ch r) /\
    ordered (key_less au_Seq) (ch_buf (r_ch r')) /\
    ch_buf (r_ch r') ≡ₚ ch_buf (r_ch r) ++
      filter (fun au => au_Seq au ∉ (au_Seq <$> ch_buf (r_ch r))) prefix.
Proof. apply SpliceFront_room. Qed.

Lemma splice_front_exact_witness :
  exists r', SpliceFront (fun m => (map_to_list m).*2) (rcv0 [au0 4 true 1; au0 5 false 1] 8 false)
               [au0 2 false 1; au0 3 false 1; au0 4 false 1] = Some r' /\
    au_Seq <$> ch_buf (r_ch r') = [2; 3; 4; 5].
Proof.
  destruct (splice_front_exact (fun m => (map_to_list m).*2) (rcv0 [au0 4 true 1; au0 5 false 1] 8 false)
              [au0 2 false 1; au0 3 false 1; au0 4 false 1]) as (r' & E & _).
  - by intros m.
  - apply open_ok_rcv0; simpl; lia.
  - discriminate.
  - apply (bool_decide_unpack _). vm_compute. exact I.
  - apply (bool_decide_unpack _). vm_compute. exact I.
  - simpl. lia.
  - exists r'. split; [exact E|]. revert E. vm_compute. intros [= <-]. reflexivity.
Defined.

(** * Claims about the broadcaster *)

Section BroadcasterClaims.
Context {W : Type}.
Implicit Types s : store W.

(** The fan-out of one unit acts on each subscribed receiver once. *)
Lemma fanout_spec max sc au sched order h :
  NoDup order -> size_ok max au ->
  (forall a, a ∈ order -> exists r, h !! a = Some r /\ receiver_ok max r) ->
  exists h', fanout sc au sched order h = Some h' /\
    forall a, h' !! a = if decide (a ∈ order)
                        then r ← h !! a; deliver sc au (sched a).1 (sched a).2 r else h !! a.
Proof.
  revert h. induction order as [|a order IH]; intros h Hnd Hsz Hh.
  { exists h. split; [done|]. intros a. by rewrite decide_False by apply not_elem_of_nil. }
  apply NoDup_cons in Hnd as [Ha Hnd].
  destruct (Hh a) as (r & Hr & Hrok); [by left|].
  destruct (deliver_ok max sc au (sched a).1 (sched a).2 r Hrok Hsz) as (r' & E & Hr' & _).
  destruct (IH (<[a := r']> h)) as (h' & E' & Hh'); [done|done| |].
  { intros a' Hin. rewrite lookup_insert_ne by (intros ->; done). apply Hh. by right. }
  exists h'. split.
  - unfold fanout in *. simpl. unfold fanoutOne at 2. rewrite Hr. simpl. rewrite E. done.
  - intros a'. rewrite Hh'. destruct (decide (a' = a)) as [-> | Hne].
    + rewrite decide_False by done. rewrite lookup_insert_eq.
      rewrite decide_True by by left. by rewrite Hr.
    + rewrite lookup_insert_ne by done.
      destruct (decide (a' ∈ order)) as [Hin|Hin].
      * by rewrite decide_True by by right.
      * rewrite decide_False; [done|]. by intros [-> | ?]%elem_of_cons.
Qed.

(** The broadcaster's own invariant: what [config_ok] says without threads. *)
Definition store_ok s : Prop := config_ok (b_maxAUBytes (bc s)) (mkConfig s []).

(** A publish that the chain lets through, in full. *)
Lemma publish_delivers s au w au' order sched :
  store_ok s -> order ≡ₚ elements (b_receivers (bc s)) ->
  runChain (b_interceptors (bc s)) (world s) au = (w, Some au') ->
  size_ok (b_maxAUBytes (bc s)) au' ->
  exists s', Publish s au order sched = Some s' /\ world s' = w /\
    b_latestKeyframe (bc s') =
      (if au_Keyframe au' then Some au' else b_latestKeyframe (bc s)) /\
    replaySnapshotLocked (b_replay (bc s')) =
      log_append (replayCap (b_replay (bc s))) (replayMaxBytes (b_replay (bc s)))
        (replaySnapshotLocked (b_replay (bc s))) au' /\
    b_receivers (bc s') = b_receivers (bc s) /\
    forall a, heap s' !! a =
      if decide (a ∈ b_receivers (bc s))
      then r ← heap s !! a; deliver (b_selfContained (bc s)) au' (sched a).1 (sched a).2 r
      else heap s !! a.
Proof.
  intros Hok Hord Hchain Hsz. unfold Publish. rewrite Hchain. unfold publishLocked.
  destruct ((b_maxAUBytes (bc s) >? 0) && (auLen au' >? b_maxAUBytes (bc s))) eqn:E.
  { unfold size_ok in Hsz. lia. }
  set (b0 := if au_Keyframe au' then _ else _).
  assert (b_replay b0 = b_replay (bc s)) as -> by (unfold b0; by destruct (au_Keyframe au')).
  destruct (append_refines (b_replay (bc s)) au' (cok_ring _ _ Hok)) as (rp & Erp & _ & Hs & _).
  rewrite Erp. cbn [mbind option_bind with_replay b_selfContained].
  destruct (fanout_spec (b_maxAUBytes (bc s)) (b_selfContained b0) au' sched order (heap s))
    as (h' & -> & Hh'); [| |intros a Ha|].
  - rewrite Hord. apply NoDup_elements.
  - done.
  - rewrite Hord in Ha. apply elem_of_elements in Ha.
    apply (cok_dom _ _ Hok) in Ha. apply elem_of_dom in Ha as [r Hr].
    exists r. split; [done|]. by apply (cok_heap _ _ Hok a r Hr).
  - eexists. split; [done|]. cbn [world bc heap with_replay b_latestKeyframe b_replay b_receivers mbind option_bind].
    split_and!; try done; try (unfold b0; by destruct (au_Keyframe au')).
    intros a. rewrite Hh'. assert (a ∈ order <-> a ∈ b_receivers (bc s)) as Hiff
      by (rewrite Hord; apply elem_of_elements).
    assert (b_selfContained b0 = b_selfContained (bc s)) as -> by (unfold b0; by destruct (au_Keyframe au')).
    by rewrite (decide_ext _ _ _ _ Hiff).
Qed.

(** C15: a unit that the interceptor chain lets through as [au'] and that fits
    the size cap becomes the cached keyframe if it is one, is appended to the
    replay log, and is delivered exactly once to every subscribed receiver and
    to no other one; the result does not depend on the order in which the
    receiver map is iterated, and nothing panics. *)
Theorem publish_reaches_every_subscriber s au w au' order sched :
  store_ok s -> order ≡ₚ elements (b_receivers (bc s)) ->
  runChain (b_interceptors (bc s)) (world s) au = (w, Some au') ->
  size_ok (b_maxAUBytes (bc s)) au' ->
  exists s', Publish s au order sched = Some s' /\ world s' = w /\
    b_latestKeyframe (bc s') =
      (if au_Keyframe au' then Some au' else b_latestKeyframe (bc s)) /\
    replaySnapshotLocked (b_replay (bc s')) =
      log_append (replayCap (b_replay (bc s))) (replayMaxBytes (b_replay (bc s)))
        (replaySnapshotLocked (b_replay (bc s))) au' /\
    b_receivers (bc s') = b_receivers (bc s) /\
    forall a, heap s' !! a =
      if decide (a ∈ b_receivers (bc s))
      then r ← heap s !! a; deliver (b_selfContained (bc s)) au' (sched a).1 (sched a).2 r
      else heap s !! a.
Proof. apply publish_delivers. Qed.

(** a unit that an interceptor refuses (with any error) or that is over
    the size cap after the chain has run leaves the broadcaster, its caches
    and every receiver as they were. *)
Theorem publish_refused_is_invisible s au w oau order sched :
  runChain (b_interceptors (bc s)) (world s) au = (w, oau) ->
  (oau = None \/ exists au', oau = Some au' /\ 0 < b_maxAUBytes (bc s) < auLen au') ->
  Publish s au order sched = Some (mkStore (heap s) (bc s) w).
Proof.
  intros Hc Ho. unfold Publish. rewrite Hc. destruct Ho as [-> | (au' & -> & H)]; [done|].
  unfold publishLocked. destruct ((b_maxAUBytes (bc s) >? 0) && (auLen au' >? b_maxAUBytes (bc s))) eqn:E; [done|lia].
Qed.

Lemma SubscribeWithCapacity_spec s cap :
  store_ok s ->
  exists a s' r, SubscribeWithCapacity s cap = Some (a, s') /\
    heap s !! a = None /\ heap s' = <[a := r]> (heap s) /\
    b_receivers (bc s') = {[a]} ∪ b_receivers (bc s) /\
    r_closed r = false /\ ch_closed (r_ch r) = false /\
    Z.of_nat (ch_cap (r_ch r)) = Z.max cap (b_chanSize (bc s)) /\
    match LatestKeyframe (bc s) with
    | Some k => ch_buf (r_ch r) = [k] /\ au_Keyframe k = true /\ r_needKeyframe r = false
    | None => ch_buf (r_ch r) = [] /\ r_needKeyframe r = negb (b_selfContained (bc s))
    end.
Proof.
  intros Hok. pose proof (cok_chan _ _ Hok) as Hch. simpl in Hch.
  unfold SubscribeWithCapacity, subscribeWithCap, LatestKeyframe.
  cbn [with_receivers b_latestKeyframe b_selfContained].
  set (n := if cap <? b_chanSize (bc s) then _ else _).
  assert (n = Z.max cap (b_chanSize (bc s))) as Hn by (unfold n; split_ifs; lia).
  assert (heap s !! fresh (dom (heap s)) = None) as Hfr.
  { apply not_elem_of_dom, is_fresh. }
  destruct (b_latestKeyframe (bc s)) as [k|] eqn:Ek.
  - rewrite try_send_open by done. simpl. destruct (0 <? Z.to_nat n)%nat eqn:E; [|lia]. simpl.
    eexists _, _, _. split; [done|]. split_and!; try done; [simpl; lia|].
    by apply (cok_key _ _ Hok k).
  - simpl. eexists _, _, _. split; [done|]. split_and!; try done. simpl. lia.
Qed.

(** [SubscribeWithCapacity] never blocks; the new receiver has a fresh
    identity and an open channel of at least the broadcaster's depth; it starts
    with the cached keyframe if there is one, else it is empty and waits for a
    keyframe exactly when the track is not self-contained.  No other receiver
    changes. *)
Theorem subscribe_seeds_keyframe s cap :
  store_ok s ->
  exists a s' r, SubscribeWithCapacity s cap = Some (a, s') /\
    heap s !! a = None /\ heap s' = <[a := r]> (heap s) /\
    b_receivers (bc s') = {[a]} ∪ b_receivers (bc s) /\
    r_closed r = false /\ ch_closed (r_ch r) = false /\
    Z.of_nat (ch_cap (r_ch r)) = Z.max cap (b_chanSize (bc s)) /\
    match LatestKeyframe (bc s) with
    | Some k => ch_buf (r_ch r) = [k] /\ au_Keyframe k = true /\ r_needKeyframe r = false
    | None => ch_buf (r_ch r) = [] /\ r_needKeyframe r = negb (b_selfContained (bc s))
    end.
Proof. apply SubscribeWithCapacity_spec. Qed.
End BroadcasterClaims.

Definition store0 : store nat :=
  mkStore {[ 0%nat := rcv0 [] 2 true ]}
    (with_receivers (NewBroadcasterWithBytes 2 8) {[ 0%nat ]}) 0%nat.

Lemma store0_ok : store_ok store0.
Proof.
  split; try done.
  - split; simpl; [lia|lia|done|done].
  - intros _; left; by vm_compute.
  - intros a r H. apply (proj1 (lookup_singleton_Some 0%nat a (rcv0 [] 2 true) r)) in H as [<- <-]. split; [|done].
    split; simpl; [done|lia|lia|constructor].
Qed.

Lemma publish_reaches_every_subscriber_witness :
  exists s', Publish store0 (au0 1 true 3) [0%nat] (fun _ => (0, 0)%nat) = Some s' /\
    b_latestKeyframe (bc s') = Some (au0 1 true 3).
Proof.
  destruct (publish_reaches_every_subscriber store0 (au0 1 true 3) 0%nat (au0 1 true 3) [0%nat]
              (fun _ => (0, 0)%nat)) as (s' & E & _ & Hk & _).
  - exact store0_ok.
  - vm_compute. reflexivity.
  - reflexivity.
  - intros _. vm_compute. discriminate.
  - exists s'. split; [exact E|exact Hk].
Defined.

Lemma publish_refused_is_invisible_witness :
  Publish store0 (au0 1 true 9) [0%nat] (fun _ => (0, 0)%nat) = Some store0.
Proof.
  apply (publish_refused_is_invisible store0 (au0 1 true 9) 0%nat (Some (au0 1 true 9))).
  - reflexivity.
  - right. exists (au0 1 true 9). split; [reflexivity|]. vm_compute. split; reflexivity.
Defined.

Lemma subscribe_seeds_keyframe_witness :
  exists a s' r, SubscribeWithCapacity store0 5 = Some (a, s') /\ heap s' !! a = Some r /\
    r_needKeyframe r = true.
Proof.
  destruct (subscribe_seeds_keyframe store0 5) as (a & s' & r & E & _ & Hh & _ & _ & _ & _ & Hk).
  - exact store0_ok.
  - exists a, s', r. split; [exact E|]. split; [rewrite Hh; apply lookup_insert_eq|]. apply Hk.
Defined.

Section ConcurrencyClaims.
Context {W : Type}.

Lemma initial_ok chanSize max (w : W) : config_ok max (initial chanSize max w).
Proof.
  split; try done.
  - simpl. split_ifs; lia.
  - split; simpl; [lia|lia|done|done].
  - intros _; left; by vm_compute.
Qed.

Lemma psteps_ok chanSize max (w : W) c :
  psteps (initial chanSize max w) c -> config_ok max c.
Proof.
  intros H. assert (config_ok max (initial chanSize max w)) as H0 by apply initial_ok.
  induction H as [|c1 c2 c3 Hst _ IH]; [done|]. apply IH.
  destruct (pstep_ok max c1 (Some c2) H0 Hst) as (c' & [= <-] & Hc'). done.
Qed.

(** C5: in every interleaving of publishers, subscribers, unsubscribers,
    closers, resumptions, reconfigurations and channel consumers, no goroutine
    panics: no send on a closed channel, no second close, no index out of
    range, no send that blocks while the mutexes are held. *)
Theorem pubsub_never_panics chanSize max (w : W) c oc :
  psteps (initial chanSize max w) c -> pstep c oc -> oc <> None.
Proof.
  intros Hr Hst. apply psteps_ok in Hr. by destruct (pstep_ok max c oc Hr Hst) as (c' & -> & _).
Qed.

Lemma total_bound max l : Forall (size_ok max) l -> 0 < max -> total l <= zlen l * max.
Proof.
  intros Hf Hm. induction Hf as [|au l Ha _ IH]; simpl; [unfold zlen; simpl; lia|].
  rewrite zlen_cons. specialize (Ha Hm). lia.
Qed.

(** with a size cap, the memory a subscriber's queue can hold never
    exceeds the channel capacity times the cap, in every reachable state of
    every interleaving; and a receiver that is still subscribed has an open
    channel. *)
Theorem pubsub_memory_bound chanSize max (w : W) c a r :
  psteps (initial chanSize max w) c -> heap (c_store c) !! a = Some r ->
  (QueueDepth r <= ch_cap (r_ch r))%nat /\
  (0 < max -> total (ch_buf (r_ch r)) <= Z.of_nat (ch_cap (r_ch r)) * max) /\
  (a ∈ b_receivers (bc (c_store c)) -> r_closed r = false /\ ch_closed (r_ch r) = false).
Proof.
  intros Hr Ha. apply psteps_ok in Hr. destruct (cok_heap _ _ Hr a r Ha) as [[H1 H2 H3 H4] H5].
  split_and!; [done| |intros Hin; specialize (H5 Hin); by rewrite H1].
  intros Hm. pose proof (total_bound max _ H4 Hm). unfold zlen in *. nia.
Qed.

(** [AddInterceptor] puts the function last in the chain; the closure it
    returns takes exactly that function out, keeps the others in order, and
    does nothing the second time, as long as the identifiers in use are
    distinct. *)
Theorem interceptor_remove_exact (b b1 : Broadcaster W) fn id :
  length (b_interceptorIDs b) = length (b_interceptors b) ->
  AddInterceptor b (Some fn) = (Some id, b1) -> id ∉ b_interceptorIDs b ->
  b_interceptors b1 = b_interceptors b ++ [fn] /\
  exists b2, removeInterceptor b1 (Some id) = Some b2 /\
    b_interceptors b2 = b_interceptors b /\ b_interceptorIDs b2 = b_interceptorIDs b /\
    removeInterceptor b2 (Some id) = Some b2.
Proof.
  intros Hl [= <- <-] Hn. split; [done|]. unfold removeInterceptor.
  set (id := u64 (b_nextInterceptorID b + 1)) in *. cbn [with_interceptors b_interceptorIDs b_interceptors].
  assert (list_find (fun g => g = id) (b_interceptorIDs b ++ [id]) = Some (length (b_interceptorIDs b), id)) as ->.
  { apply list_find_Some. split_and!; [rewrite lookup_app_r by lia; by rewrite Nat.sub_diag|done|].
    intros j y Hy Hlt E. subst y. rewrite lookup_app_l in Hy by done.
    apply Hn. by apply list_elem_of_lookup_2 in Hy. }
  rewrite length_app, Hl. destruct (_ <? _)%nat eqn:E; [|simpl in E; lia].
  eexists. split; [done|]. cbn [b_interceptorIDs b_interceptors with_interceptors].
  assert (take (length (b_interceptors b)) (b_interceptorIDs b ++ [id]) = b_interceptorIDs b) as ->
    by (rewrite <- Hl; apply take_app_length).
  rewrite !take_app_length, !drop_ge by (rewrite length_app; simpl; lia). rewrite !app_nil_r.
  split_and!; [done|done|]. rewrite (proj2 (list_find_None _ _)); [done|].
  apply Forall_forall. intros x Hx E1. apply Hn. by rewrite <- E1.
Qed.
End ConcurrencyClaims.

Lemma pstep_eq {W} (c : config W) oc oc' : pstep c oc -> oc = oc' -> pstep c oc'.
Proof. by intros H <-. Qed.

(** A run in which an [Unsubscribe] overtakes a fan-out. *)
Definition demo_s0 : store unit := c_store (initial 1 0 tt).
Definition demo_s1 : store unit := from_option snd demo_s0 (SubscribeWithCapacity demo_s0 1).
Definition demo_s2 : store unit :=
  with_bc demo_s1 (from_option fst (bc demo_s1) (publishLocked (bc demo_s1) (au0 1 true 1))).
Definition demo_s3 : store unit := (unsubscribeBegin demo_s2 0).1.
Definition demo_c : config unit :=
  mkConfig demo_s3 [TFan false (au0 1 true 1) [0%nat]; TClose [0%nat]].

Lemma demo_run : psteps (initial 1 0 tt) demo_c.
Proof.
  apply rtc_l with (mkConfig demo_s1 []).
  { eapply pstep_eq; [apply (s_subscribe demo_s0 [] 1)|vm_compute; reflexivity]. }
  apply rtc_l with (mkConfig demo_s1 [TChain [] (au0 1 true 1)]).
  { apply (s_publish demo_s1 [] (au0 1 true 1)). }
  apply rtc_l with (mkConfig demo_s2 [TFan false (au0 1 true 1) [0%nat]]).
  { eapply pstep_eq; [apply (s_locked demo_s1 [] [] (au0 1 true 1) [0%nat])|]; vm_compute; reflexivity. }
  apply rtc_once. eapply pstep_eq; [apply (s_unsubscribe demo_s2 _ 0%nat)|vm_compute; reflexivity].
Qed.

Lemma pubsub_never_panics_witness :
  psteps (initial 1 0 tt) demo_c /\ forall oc, pstep demo_c oc -> oc <> None.
Proof.
  split; [exact demo_run|]. intros oc. apply (pubsub_never_panics 1 0 tt demo_c oc demo_run).
Defined.

Lemma pubsub_memory_bound_witness :
  exists r, heap (c_store demo_c) !! 0%nat = Some r /\ (QueueDepth r <= ch_cap (r_ch r))%nat.
Proof.
  eexists. split; [vm_compute; reflexivity|].
  apply (pubsub_memory_bound 1 0 tt demo_c 0%nat _ demo_run). vm_compute. reflexivity.
Defined.

Lemma interceptor_remove_exact_witness :
  exists b2, removeInterceptor (AddInterceptor (NewBroadcaster 4) (Some (fun (w : unit) au => (w, Ok au)))).2 (Some 1)
    = Some b2 /\ b_interceptors b2 = [].
Proof.
  destruct (interceptor_remove_exact (NewBroadcaster 4)
     (AddInterceptor (NewBroadcaster 4) (Some (fun (w : unit) au => (w, Ok au)))).2
     (fun (w : unit) au => (w, Ok au)) 1) as [_ (b2 & E & H & _)].
  - reflexivity.
  - reflexivity.
  - simpl. apply not_elem_of_nil.
  - exists b2. split; [exact E|exact H].
Defined.

(** the eviction that lets a keyframe into a full queue does not look at
    what it evicts: when the queue starts with a keyframe [k] and a unit [p]
    that depends on it, publishing the next keyframe silently discards [k],
    and the subscriber's next unit is [p], without its reference. *)
Theorem eviction_can_orphan_a_dependent_unit r k p rest au :
  open_ok r -> ch_buf (r_ch r) = k :: p :: rest ->
  length (k :: p :: rest) = ch_cap (r_ch r) ->
  au_Keyframe k = true -> au_Keyframe p = false -> au_Keyframe au = true ->
  exists r', deliver false au 0 0 r = Some r' /\ ch_buf (r_ch r') = p :: rest ++ [au] /\
    r_needKeyframe r' = false.
Proof.
  intros Hok Hb Hl Hk Hp Ha. destruct (open_ok_deliver false au 0 0 r Hok) as (r' & E & _ & Hq & _).
  exists r'. split; [done|]. change (ch_buf (r_ch r')) with (q_items (queue_of r')).
  change (r_needKeyframe r') with (q_need (queue_of r')). rewrite Hq. unfold offer.
  cbn [queue_of q_items q_need negb andb orb]. rewrite Ha, Hb. cbn [negb]. rewrite andb_false_r.
  destruct (length (k :: p :: rest) <? ch_cap (r_ch r))%nat eqn:E'; [lia|]. done.
Qed.

Lemma eviction_can_orphan_a_dependent_unit_witness :
  exists r', deliver false (au0 4 true 1) 0 0 (rcv0 [au0 1 true 1; au0 2 false 1] 2 true) = Some r' /\
    au_Seq <$> ch_buf (r_ch r') = [2; 4].
Proof.
  destruct (eviction_can_orphan_a_dependent_unit (rcv0 [au0 1 true 1; au0 2 false 1] 2 true)
              (au0 1 true 1) (au0 2 false 1) [] (au0 4 true 1)) as (r' & E & Hb & _).
  - apply open_ok_rcv0; simpl; lia.
  - reflexivity.
  - reflexivity.
  - reflexivity.
  - reflexivity.
  - reflexivity.
  - exists r'. split; [exact E|]. rewrite Hb. reflexivity.
Defined.
