(* ===== verification/PubsubCalls.v ===== *)
(** * What a call of package pubsub does, for its callers

    Each operation of a broadcaster on a store that satisfies the broadcaster's
    invariant: it returns, keeps the invariant, and changes only what it should.
    The server's and the client's proofs use the broadcasters through these
    lemmas. *)

From S2P Require Import Prelude Replay Pubsub.

Section Calls.
Context {W : Type}.
Implicit Types s : store W.

(** What no call but the interceptor operations and the setters changes. *)
Definition same_chain (b b' : Broadcaster W) : Prop :=
  b_interceptors b' = b_interceptors b /\ b_interceptorIDs b' = b_interceptorIDs b /\
  b_nextInterceptorID b' = b_nextInterceptorID b /\ b_maxAUBytes b' = b_maxAUBytes b /\
  b_chanSize b' = b_chanSize b /\ b_selfContained b' = b_selfContained b.

(** A caller may assume of a call [s -> s']: nothing is deallocated. *)
Record call_ok s s' : Prop := {
  call_inv : store_ok s';
  call_chain : same_chain (bc s) (bc s');
  call_dom : dom (heap s) ⊆ dom (heap s');
}.

Lemma same_chain_refl b : same_chain b b.
Proof. by repeat split. Qed.

Lemma store_ok_world h b (w w' : W) : store_ok (mkStore h b w) -> store_ok (mkStore h b w').
Proof. intros []. by split. Qed.

Lemma Subscribe_capacity s : Subscribe s = SubscribeWithCapacity s (b_chanSize (bc s)).
Proof. unfold Subscribe, SubscribeWithCapacity. by destruct (_ <? _). Qed.

Lemma subscribe_call s cap :
  store_ok s ->
  exists a s' r, SubscribeWithCapacity s cap = Some (a, s') /\ call_ok s s' /\ world s' = world s /\
    heap s !! a = None /\ heap s' = <[a := r]> (heap s) /\
    bc s' = with_receivers (bc s) ({[a]} ∪ b_receivers (bc s)) /\ r_closed r = false /\
    Z.of_nat (ch_cap (r_ch r)) = Z.max cap (b_chanSize (bc s)).
Proof.
  intros Hok. destruct (subscribe_ok _ s [] cap Hok) as (res & E & Hres).
  destruct (SubscribeWithCapacity_spec s cap Hok) as (a & s' & r & E' & Hfr & Hh & Hr & Ho & _ & Hcap & _).
  rewrite E' in E. injection E as <-. cbn [snd] in Hres.
  assert (world s' = world s /\ bc s' = with_receivers (bc s) ({[a]} ∪ b_receivers (bc s))) as [Hw Hb].
  { revert E'. unfold SubscribeWithCapacity, subscribeWithCap.
    intros (rr & _ & [= <- <-])%bind_Some. done. }
  exists a, s', r. split; [done|]. split; [|done]. split.
  - unfold store_ok. by rewrite Hb in *.
  - by rewrite Hb.
  - rewrite Hh, dom_insert_L. set_solver.
Qed.

Lemma closeOne_call (s : store W) a :
  store_ok s -> a ∈ dom (heap s) -> a ∉ b_receivers (bc s) ->
  exists r, closeOne a (heap s) = Some (<[a := r]> (heap s)) /\ r_closed r = true /\
    store_ok (with_heap s (<[a := r]> (heap s))).
Proof.
  intros Hok [r Hr]%elem_of_dom Hn. destruct (cok_heap _ _ Hok a r Hr) as [Hrok _].
  destruct (closeReceiver_ok _ r Hrok) as (r' & E & Hr' & Hcl & _).
  exists r'. unfold closeOne. cbn in Hr. rewrite Hr. cbn. rewrite E. split_and!; [done|done|].
  eapply (config_ok_update _ s []); eauto. intros ?. done.
Qed.

Lemma store_ok_leave s rs : store_ok s -> rs ⊆ b_receivers (bc s) ->
  store_ok (with_bc s (with_receivers (bc s) rs)).
Proof.
  intros [] Hs. split; cbn in *; try done; [|set_solver].
  intros a r H. destruct (cok_heap a r H). split; [done|]. set_solver.
Qed.

Lemma unsubscribe_call s a :
  store_ok s ->
  exists s', Unsubscribe s a = Some s' /\ call_ok s s' /\ world s' = world s /\
    bc s' = with_receivers (bc s) (b_receivers (bc s) ∖ {[a]}) /\ dom (heap s') = dom (heap s) /\
    forall a', a' <> a -> heap s' !! a' = heap s !! a'.
Proof.
  intros Hok. unfold Unsubscribe, unsubscribeBegin. case_decide as Ha.
  - set (s1 := with_bc s _). assert (store_ok s1) as Hok1 by (apply store_ok_leave; [done|set_solver]).
    destruct (closeOne_call s1 a Hok1) as (r & E & _ & Hr).
    { unfold s1. cbn. by apply (cok_dom _ _ Hok). }
    { unfold s1. cbn. set_solver. }
    rewrite E. cbn. eexists. split; [done|].
    assert (dom (<[a := r]> (heap s)) = dom (heap s)) as Hd.
    { rewrite dom_insert_L. pose proof (cok_dom _ _ Hok). cbn in *. set_solver. }
    split_and!; [split; [exact Hr|done|cbn; by rewrite Hd]|done|done|done|].
    intros a' Hne. cbn. by rewrite lookup_insert_ne.
  - exists s. assert (bc s = with_receivers (bc s) (b_receivers (bc s) ∖ {[a]})) as Hb.
    { destruct s as [h b w]. cbn in *. destruct b. unfold with_receivers. cbn in *. f_equal. set_solver. }
    split_and!; [done|by split|done|done|done|done].
Qed.

Lemma closeAll_call order : forall s,
  store_ok s -> Forall (fun a => a ∈ dom (heap s)) order -> b_receivers (bc s) = ∅ ->
  exists h, closeAll order (heap s) = Some h /\ store_ok (with_heap s h) /\ dom h = dom (heap s).
Proof.
  induction order as [|a order IH]; intros s Hok Hord Hemp.
  { exists (heap s). split; [done|]. split; [|done]. by destruct s. }
  apply Forall_cons in Hord as [Ha Hord].
  destruct (closeOne_call s a Hok Ha) as (r & E & _ & Hr); [set_solver|].
  assert (dom (<[a := r]> (heap s)) = dom (heap s)) as Hd by (rewrite dom_insert_L; set_solver).
  destruct (IH (with_heap s (<[a := r]> (heap s))) Hr) as (h & E' & Hh & Hdh); cbn in *; [by rewrite Hd|done|].
  exists h. split_and!; [|done|by rewrite Hdh]. unfold closeAll in *. cbn. by rewrite E.
Qed.

Lemma close_call s order :
  store_ok s -> order ≡ₚ elements (b_receivers (bc s)) ->
  exists s', Close s order = Some s' /\ call_ok s s' /\ world s' = world s /\
    bc s' = with_receivers (bc s) ∅ /\ dom (heap s') = dom (heap s).
Proof.
  intros Hok Hord. unfold Close, closeBegin.
  destruct (closeAll_call order (with_bc s (with_receivers (bc s) ∅))) as (h & E & Hh & Hd).
  - apply store_ok_leave; [done|set_solver].
  - apply Forall_forall. intros a Ha. rewrite Hord in Ha. apply elem_of_elements in Ha. cbn.
    by apply (cok_dom _ _ Hok).
  - done.
  - cbn [heap with_bc] in *. rewrite E. cbn. eexists. split; [done|].
    split_and!; [split; [exact Hh|done|cbn; by rewrite Hd]|done..].
Qed.

Lemma publish_call s au order sched :
  store_ok s -> order ≡ₚ elements (b_receivers (bc s)) ->
  exists s', Publish s au order sched = Some s' /\ call_ok s s' /\
    world s' = (runChain (b_interceptors (bc s)) (world s) au).1 /\
    b_receivers (bc s') = b_receivers (bc s) /\ dom (heap s') = dom (heap s).
Proof.
  intros Hok Hord. unfold Publish. destruct (runChain _ _ _) as [w [au'|]].
  2:{ eexists. split; [done|]. cbn. split_and!; try done. split; [|done|done]. destruct s. by eapply store_ok_world. }
  cbn [fst]. destruct (publishLocked_ok _ s [] au' Hok) as (b & o & Eb & Hb & Ho).
  rewrite Eb. cbn [mbind option_bind].
  assert (same_chain (bc s) b /\ b_receivers b = b_receivers (bc s)) as [Hsc Hrs].
  { revert Eb. unfold publishLocked. destruct (_ && _); [by intros [= <- <-]|].
    intros (rp & _ & [= <- <-])%bind_Some. unfold same_chain. by destruct (au_Keyframe au'). }
  pose proof (Hb [] (Forall_nil_2 _)) as Hokb.
  assert (store_ok (with_bc s b)) as Hokb'.
  { unfold store_ok. cbn. destruct Hsc as (_ & _ & _ & -> & _). done. }
  destruct o as [[sc au'']|].
  2:{ eexists. split; [done|]. split_and!; [|done..]. split; [|done|done].
      destruct s. by eapply store_ok_world. }
  destruct Ho as [-> Hsz].
  assert (forall a, a ∈ order -> exists r, heap s !! a = Some r /\ receiver_ok (b_maxAUBytes (bc s)) r) as Hrec.
  { intros a Ha. rewrite Hord in Ha. apply elem_of_elements, (cok_dom _ _ Hok), elem_of_dom in Ha as [r Hr].
    exists r. split; [done|]. by apply (cok_heap _ _ Hok a r Hr). }
  destruct (fanout_spec (b_maxAUBytes (bc s)) sc au' sched order (heap s)) as (h' & -> & Hh');
    [rewrite Hord; apply NoDup_elements|done|done|]. cbn.
  assert (forall a r', h' !! a = Some r' -> exists r, heap s !! a = Some r /\
            receiver_ok (b_maxAUBytes (bc s)) r' /\ r_closed r' = r_closed r) as Hafter.
  { intros a r'. rewrite Hh'. case_decide as Ha.
    - destruct (Hrec a Ha) as (r & Hr & Hrok). rewrite Hr. cbn. intros Hd.
      destruct (deliver_ok _ sc au' (sched a).1 (sched a).2 r Hrok Hsz) as (r2 & E2 & ? & ?).
      rewrite E2 in Hd. injection Hd as <-. eauto.
    - intros Hr. exists r'. split_and!; [done| |done]. by apply (cok_heap _ _ Hok a r' Hr). }
  assert (dom h' = dom (heap s)) as Hd.
  { apply set_eq. intros a. rewrite !elem_of_dom. split.
    - intros [r' Hr']. destruct (Hafter a r' Hr') as (r & -> & _). done.
    - intros [r Hr]. rewrite Hh'. case_decide as Ha; [|done]. destruct (Hrec a Ha) as (r0 & Hr0 & Hrok).
      rewrite Hr0. cbn. destruct (deliver_ok _ sc au' (sched a).1 (sched a).2 r0 Hrok Hsz) as (r2 & -> & _). done. }
  eexists. split; [done|]. split_and!; [|done..]. split; [|done|cbn; by rewrite Hd].
  destruct Hokb' as [H1 H2 H3 H4 H5 H6 H7 H8 H9 H10]. split; cbn in *; try done.
  - intros a r' Hr'. destruct (Hafter a r' Hr') as (r & Hr & Hrok & ->). destruct Hsc as (_ & _ & _ & -> & _).
    split; [done|]. by apply (H8 a r Hr).
  - rewrite Hd. done.
Qed.

(** A change of one receiver that does not open or close it. *)
Lemma update_call s a r r' :
  store_ok s -> heap s !! a = Some r -> receiver_ok (b_maxAUBytes (bc s)) r' -> r_closed r' = r_closed r ->
  call_ok s (with_heap s (<[a := r']> (heap s))).
Proof.
  intros Hok Hr Hr' Hcl. split; [|done|].
  - eapply (config_ok_update _ s []); eauto. rewrite Hcl. by apply (cok_heap _ _ Hok a r Hr).
  - cbn. rewrite dom_insert_L. set_solver.
Qed.
End Calls.
