(* ===== verification/Heap.v ===== *)
(** * container/heap

    The part of Go's [container/heap] that [feed/scheduler.go] uses: [Push] and
    [Pop] with their loops [up] and [down], over a slice and a [Less] function.
    An index out of range is [None].  The loops are run with fuel; the
    theorems show that the slice's length is enough. *)

From S2P Require Import Prelude.

Section Heap.
Context {A : Type} (less : A -> A -> bool).

Definition Less (h : list A) (i j : nat) : option bool :=
  x ← h !! i; y ← h !! j; Some (less x y).

Definition Swap (h : list A) (i j : nat) : option (list A) :=
  x ← h !! i; y ← h !! j; Some (<[i := y]> (<[j := x]> h)).

(** [i := (j - 1) / 2]: Go truncates, so the parent of 0 is 0. *)
Definition parent (j : nat) : nat := ((j - 1) / 2)%nat.

Fixpoint up (fuel : nat) (h : list A) (j : nat) : option (list A) :=
  match fuel with
  | O => None
  | S fuel' =>
      let i := parent j in
      if (i =? j)%nat then Some h
      else
        b ← Less h j i;
        if negb b then Some h
        else h' ← Swap h i j; up fuel' h' i
  end.

Fixpoint down (fuel : nat) (h : list A) (i n : nat) : option (list A) :=
  match fuel with
  | O => None
  | S fuel' =>
      let j1 := (2 * i + 1)%nat in
      if (n <=? j1)%nat then Some h
      else
        let j2 := (j1 + 1)%nat in
        j ← (if (j2 <? n)%nat
             then b ← Less h j2 j1; Some (if b : bool then j2 else j1)
             else Some j1);
        b ← Less h j i;
        if negb b then Some h
        else h' ← Swap h i j; down fuel' h' j n
  end.

Definition heap_Push (h : list A) (x : A) : option (list A) :=
  let h := h ++ [x] in
  up (S (length h)) h (length h - 1).

(** [heap.Pop]: the popped element and the rest; [None] also on an empty heap
    (index out of range in [Swap]). *)
Definition heap_Pop (h : list A) : option (A * list A) :=
  let n := (length h - 1)%nat in
  h1 ← Swap h 0 n;
  h2 ← down (S n) h1 0 n;
  item ← h2 !! n;
  Some (item, take n h2).

(** ** Correctness *)

Context (less_asym : forall a b, less a b = true -> less b a = false).
Context (geq_trans : forall a b c, less b a = false -> less c b = false -> less c a = false).

(** The element at [i] is not above the one at [j]. *)
Definition leat (h : list A) (i j : nat) : Prop :=
  forall x y, h !! i = Some x -> h !! j = Some y -> less y x = false.

(** The heap order on the first [n] slots, as a predicate on the slots whose
    parent relation is already in order. *)
Definition heap_upto (h : list A) (n : nat) : Prop :=
  forall k, (0 < k < n)%nat -> leat h (parent k) k.

Definition is_heap (h : list A) : Prop := heap_upto h (length h).

Definition transpose (i j k : nat) : nat :=
  if decide (k = i) then j else if decide (k = j) then i else k.

Lemma transpose_inj i j : Inj (=) (=) (transpose i j).
Proof. intros a b. unfold transpose. repeat case_decide; congruence. Qed.

Lemma Swap_spec h i j :
  (i < length h)%nat -> (j < length h)%nat ->
  exists h', Swap h i j = Some h' /\ length h' = length h /\ h' ≡ₚ h /\
    forall k, h' !! k = h !! transpose i j k.
Proof.
  intros Hi Hj. destruct (lookup_lt_is_Some_2 h i Hi) as [x Hx].
  destruct (lookup_lt_is_Some_2 h j Hj) as [y Hy].
  unfold Swap. rewrite Hx, Hy. simpl. eexists. split; [done|].
  assert (forall k, <[i := y]> (<[j := x]> h) !! k = h !! transpose i j k) as Hk.
  { intros k. unfold transpose. case_decide; [subst|case_decide; [subst|]].
    - rewrite list_lookup_insert_eq; [congruence|by rewrite length_insert].
    - rewrite list_lookup_insert_ne by done. rewrite list_lookup_insert_eq by done. congruence.
    - by rewrite !list_lookup_insert_ne by done. }
  assert (length (<[i := y]> (<[j := x]> h)) = length h) as Hl by by rewrite !length_insert.
  split_and!; [done| |done]. apply Permutation_inj. split; [done|].
  exists (transpose i j). split; [apply transpose_inj|done].
Qed.

Lemma leat_trans h i j k : (j < length h)%nat -> leat h i j -> leat h j k -> leat h i k.
Proof.
  intros Hj H1 H2 x z Hx Hz. destruct (lookup_lt_is_Some_2 h j Hj) as [y Hy]. eauto.
Qed.

Lemma Less_spec h i j :
  (i < length h)%nat -> (j < length h)%nat ->
  exists b, Less h i j = Some b /\ (b = true -> leat h i j) /\ (b = false -> leat h j i).
Proof.
  intros Hi Hj. destruct (lookup_lt_is_Some_2 h i Hi) as [x Hx].
  destruct (lookup_lt_is_Some_2 h j Hj) as [y Hy]. unfold Less, leat. rewrite Hx, Hy. simpl.
  eexists. split; [done|]. split; intros E x' y' [= <-] [= <-]; auto.
Qed.

Lemma leat_transpose h h' i j :
  (forall k, h' !! k = h !! transpose i j k) ->
  forall a b, leat h' a b <-> leat h (transpose i j a) (transpose i j b).
Proof. intros H a b. unfold leat. by rewrite !H. Qed.

Lemma parent_lt k : (0 < k)%nat -> (parent k < k)%nat.
Proof. intros. unfold parent. apply Nat.Div0.div_lt_upper_bound; lia. Qed.

Lemma parent_children k i : (0 < k)%nat -> parent k = i -> (k = 2 * i + 1 \/ k = 2 * i + 2)%nat.
Proof.
  unfold parent. intros Hk <-. pose proof (Nat.div_mod (k - 1) 2 ltac:(lia)).
  pose proof (Nat.mod_upper_bound (k - 1) 2 ltac:(lia)). lia.
Qed.

Lemma parent_left i : parent (2 * i + 1) = i.
Proof. unfold parent. replace (2 * i + 1 - 1)%nat with (i * 2)%nat by lia. by rewrite Nat.div_mul. Qed.

Lemma parent_right i : parent (2 * i + 2) = i.
Proof.
  unfold parent. replace (2 * i + 2 - 1)%nat with (1 + i * 2)%nat by lia.
  by rewrite Nat.div_add.
Qed.

(** In order everywhere but between [j] and its parent, and [j]'s children
    are in order with [j]'s parent. *)
Definition weak_up (h : list A) (j : nat) : Prop :=
  (forall k, (0 < k < length h)%nat -> k <> j -> leat h (parent k) k) /\
  (forall k, (0 < k < length h)%nat -> (0 < j)%nat -> parent k = j -> leat h (parent j) k).

Lemma weak_up_swap h h' j :
  weak_up h j -> (0 < j < length h)%nat -> leat h j (parent j) ->
  length h' = length h -> (forall k, h' !! k = h !! transpose (parent j) j k) ->
  weak_up h' (parent j).
Proof.
  intros [HA HB] Hj Hle Hlen Hsw. pose proof (parent_lt j ltac:(lia)) as Hpj.
  unfold weak_up. rewrite Hlen. split.
  - intros k Hk Hne. rewrite (leat_transpose h h' _ _ Hsw). pose proof (parent_lt k ltac:(lia)).
    unfold transpose. rewrite (decide_False (P := k = parent j)) by done.
    destruct (decide (k = j)) as [-> | Hkj].
    + by rewrite decide_True.
    + repeat case_decide; try lia.
      * eapply (leat_trans _ _ (parent j)); [lia|done|]. rewrite <- H0. by apply HA.
      * apply HB; [done|lia|done].
      * by apply HA.
  - intros k Hk Hi Hpk. rewrite (leat_transpose h h' _ _ Hsw).
    pose proof (parent_lt (parent j) Hi). unfold transpose.
    rewrite (decide_False (P := parent (parent j) = parent j)) by lia.
    rewrite (decide_False (P := parent (parent j) = j)) by lia.
    pose proof (parent_lt k ltac:(lia)). rewrite (decide_False (P := k = parent j)) by lia.
    case_decide; subst.
    + apply HA; lia.
    + eapply (leat_trans _ _ (parent j)); [lia|apply HA; lia|]. rewrite <- Hpk. by apply HA.
Qed.

Lemma up_spec fuel h j :
  (j < length h)%nat -> (j < fuel)%nat -> weak_up h j ->
  exists h', up fuel h j = Some h' /\ h' ≡ₚ h /\ is_heap h'.
Proof.
  revert h j; induction fuel as [|fuel IH]; intros h j Hj Hf Hw; [lia|]. simpl.
  destruct (parent j =? j)%nat eqn:E.
  - assert (j = O) as ->. { destruct (decide (0 < j)%nat) as [H|]; [apply parent_lt in H|]; lia. }
    exists h. split_and!; [done|done|]. intros k Hk. apply Hw; lia.
  - assert (0 < j)%nat as H0. { destruct j; [by vm_compute in E|lia]. }
    pose proof (parent_lt j H0) as Hp.
    destruct (Less_spec h j (parent j)) as (b & -> & Ht & Hff); [lia|lia|]. simpl.
    destruct b; simpl.
    + destruct (Swap_spec h (parent j) j) as (h1 & -> & Hl1 & Hp1 & Hs1); [lia|lia|]. simpl.
      destruct (IH h1 (parent j)) as (h' & E' & Hp' & Hh'); [lia|lia| |].
      { by eapply weak_up_swap; eauto. }
      exists h'. split_and!; [done|by rewrite Hp'|done].
    + exists h. split_and!; [done|done|]. intros k Hk.
      destruct (decide (k = j)) as [-> | Hne]; [by apply Hff|by apply Hw].
Qed.

Lemma heap_Push_spec h x :
  is_heap h -> exists h', heap_Push h x = Some h' /\ h' ≡ₚ x :: h /\ is_heap h'.
Proof.
  intros Hh. unfold heap_Push. destruct (up_spec (S (length (h ++ [x]))) (h ++ [x]) (length (h ++ [x]) - 1))
    as (h' & E & Hp & Hh'); try (rewrite length_app; simpl; lia).
  - split; rewrite length_app; simpl.
    + intros k Hk Hne x' y'. pose proof (parent_lt k ltac:(lia)).
      rewrite !lookup_app_l by lia. apply Hh. lia.
    + intros k Hk Hj Hpk. pose proof (parent_lt k ltac:(lia)). lia.
  - exists h'. split_and!; [done| |done]. rewrite Hp. by rewrite Permutation_app_comm.
Qed.

(** In order everywhere below [n] but between [i] and its children, which are
    in order with [i]'s parent. *)
Definition weak_down (h : list A) (i n : nat) : Prop :=
  (forall k, (0 < k < n)%nat -> parent k <> i -> leat h (parent k) k) /\
  (forall k, (0 < k < n)%nat -> (0 < i)%nat -> parent k = i -> leat h (parent i) k).

(** [j] is a child of [i], not above its sibling, and it moves up. *)
Lemma weak_down_swap h h' i j n :
  weak_down h i n -> (n <= length h)%nat -> (0 < j < n)%nat -> parent j = i ->
  leat h j i -> (forall k, (0 < k < n)%nat -> parent k = i -> k <> j -> leat h j k) ->
  (forall k, h' !! k = h !! transpose i j k) ->
  weak_down h' j n.
Proof.
  intros [HA HB] Hn Hj Hpj Hle Hsib Hsw. pose proof (parent_lt j ltac:(lia)) as Hij. split.
  - intros k Hk Hpk. rewrite (leat_transpose h h' _ _ Hsw). pose proof (parent_lt k ltac:(lia)).
    unfold transpose. destruct (decide (k = j)) as [-> | Hkj].
    + rewrite (decide_True (P := parent j = i)) by done. by rewrite decide_False by lia.
    + destruct (decide (k = i)) as [-> | Hki].
      * rewrite !decide_False by lia. apply HB; [lia|lia|done].
      * destruct (decide (parent k = i)); [by apply Hsib|].
        rewrite decide_False by done. by apply HA.
  - intros k Hk _ Hpk. rewrite (leat_transpose h h' _ _ Hsw). pose proof (parent_lt k ltac:(lia)).
    unfold transpose. rewrite (decide_True (P := parent j = i)) by done.
    rewrite !decide_False by lia. rewrite <- Hpk. apply HA; lia.
Qed.

Lemma down_spec fuel h i n :
  (n <= length h)%nat -> (i <= n)%nat -> (n < fuel + i)%nat -> weak_down h i n ->
  exists h', down fuel h i n = Some h' /\ h' ≡ₚ h /\ heap_upto h' n /\
    length h' = length h /\ forall k, (n <= k)%nat -> h' !! k = h !! k.
Proof.
  revert h i; induction fuel as [|fuel IH]; intros h i Hn Hi Hf Hw; [lia|]. simpl down.
  destruct (n <=? 2 * i + 1)%nat eqn:E.
  { rewrite (proj2 (Nat.leb_le _ _)) by lia. exists h. split_and!; try done.
    intros k Hk. apply Hw; [done|]. intros Hp%parent_children; lia. }
  rewrite (proj2 (Nat.leb_gt _ _)) by lia.
  replace (i + (i + 0) + 1)%nat with (2 * i + 1)%nat by lia.
  set (oj := if (_ <? n)%nat then _ else _).
  assert (exists j, oj = Some j /\ (0 < j < n)%nat /\ parent j = i /\
    forall k, (0 < k < n)%nat -> parent k = i -> k <> j -> leat h j k) as (j & -> & Hj & Hpj & Hsib).
  { unfold oj. replace (2 * i + 1 + 1)%nat with (2 * i + 2)%nat by lia.
    destruct (2 * i + 2 <? n)%nat eqn:E2.
    - destruct (Less_spec h (2 * i + 2) (2 * i + 1)) as (b & -> & Ht & Hff); [lia|lia|]. cbn [mbind option_bind].
      destruct b; eexists; (split; [done|]); (split; [lia|]);
        rewrite ?parent_left, ?parent_right; (split; [done|]);
        intros k Hk Hpk Hne; apply parent_children in Hpk as [-> | ->]; try lia; auto.
    - eexists. split; [done|]. split; [lia|]. rewrite parent_left. split; [done|].
      intros k Hk Hpk Hne. apply parent_children in Hpk as [-> | ->]; lia. }
  pose proof (parent_lt j ltac:(lia)) as Hij. rewrite Hpj in Hij. cbn [mbind option_bind].
  destruct (Less_spec h j i) as (b & -> & Ht & Hff); [lia|lia|]. cbn [mbind option_bind].
  destruct b; cbn [negb].
  - destruct (Swap_spec h i j) as (h1 & -> & Hl1 & Hp1 & Hs1); [lia|lia|]. cbn [mbind option_bind].
    destruct (IH h1 j) as (h' & E' & Hp' & Hh' & Hl' & Hk'); [lia|lia|lia| |].
    { by eapply weak_down_swap; eauto. }
    exists h'. split_and!; [done|by rewrite Hp'|done|congruence|].
    intros k Hk. rewrite Hk', Hs1 by done. unfold transpose. by rewrite !decide_False by lia.
  - exists h. split_and!; try done. intros k Hk.
    destruct (decide (parent k = i)) as [Hp|Hp]; [|by apply Hw].
    rewrite Hp. destruct (decide (k = j)) as [-> | Hne]; [by apply Hff|].
    eapply leat_trans; [|by apply Hff|by apply Hsib]. lia.
Qed.

Lemma heap_root_least h k : is_heap h -> (k < length h)%nat -> leat h 0 k.
Proof.
  intros Hh. induction (lt_wf k) as [k _ IH]. intros Hk. destruct k as [|k].
  - intros x y Hx Hy. assert (x = y) as -> by congruence. destruct (less y y) eqn:E; [|done].
    by rewrite (less_asym _ _ E) in E.
  - pose proof (parent_lt (S k) ltac:(lia)).
    eapply (leat_trans _ _ (parent (S k))); [lia|apply IH; lia|apply Hh; lia].
Qed.

(** [Pop] on a non-empty heap takes out an element that none is below. *)
Lemma heap_Pop_spec h :
  is_heap h -> h <> [] ->
  exists x h', heap_Pop h = Some (x, h') /\ h ≡ₚ x :: h' /\ is_heap h' /\
    forall y, y ∈ h -> less y x = false.
Proof.
  intros Hh Hne. assert (0 < length h)%nat as Hl by (destruct h; [done|simpl; lia]).
  unfold heap_Pop. set (n := (length h - 1)%nat).
  destruct (Swap_spec h 0 n) as (h1 & -> & Hl1 & Hp1 & Hs1); [lia|lia|]. cbn [mbind option_bind].
  destruct (down_spec (S n) h1 0 n) as (h2 & -> & Hp2 & Hh2 & Hl2 & Hk2); [lia|lia|lia| |].
  { split; [|lia]. intros k Hk Hp. rewrite (leat_transpose h h1 _ _ Hs1). unfold transpose.
    pose proof (parent_lt k ltac:(lia)). rewrite !decide_False by lia. apply Hh. lia. }
  cbn [mbind option_bind].
  assert (h2 !! n = h !! 0%nat) as E0.
  { rewrite Hk2 by lia. rewrite Hs1. unfold transpose. destruct (decide (n = 0%nat)) as [En|En]; [by rewrite En|by rewrite decide_True]. }
  destruct (lookup_lt_is_Some_2 h 0 Hl) as [x Hx]. rewrite E0, Hx. cbn [mbind option_bind].
  assert (h2 = take n h2 ++ [x]) as Eh2.
  { rewrite <- (take_drop_middle h2 n x) at 1 by congruence. by rewrite (drop_ge h2) by lia. }
  exists x, (take n h2). split_and!; [done| | |].
  - rewrite <- Hp1, <- Hp2. rewrite Eh2 at 1. by rewrite Permutation_app_comm.
  - unfold is_heap. rewrite length_take. intros k Hk a b Ha Hb.
    pose proof (parent_lt k ltac:(lia)). rewrite lookup_take_lt in Ha, Hb by lia.
    eapply Hh2; [|exact Ha|exact Hb]. lia.
  - intros y [k Hy]%list_elem_of_lookup_1. eapply (heap_root_least h k Hh); [by apply lookup_lt_Some in Hy|done|done].
Qed.
End Heap.
