(* ===== verification/Scheduler.v ===== *)
(** * The priority scheduler of package feed

    [feed/scheduler.go].  [Submit], [Start] and [Close] run under the mutex
    and are functions on the scheduler's state; the worker goroutine [run], its
    watcher and the waits on the condition variable are the step relation
    [sstep].  A closure [Do] is an element of an arbitrary type [D]; what the
    worker called is the log [ran]. *)

From S2P Require Import Prelude Heap.

Definition SchedulerPriorityHighThreshold : Z := 2.

Section Scheduler.
Context {D : Type}.

Record WorkItem := mkWorkItem { wi_Priority : Z; wi_Do : D }.

Record workEntry := mkWorkEntry { we_priority : Z; we_seq : Z; we_do : D }.

(** [workHeap.Less] on the entries themselves. *)
Definition workLess (a b : workEntry) : bool :=
  if negb (we_priority a =? we_priority b) then we_priority a <? we_priority b
  else we_seq a <? we_seq b.

Record SchedulerStats := mkStats {
  Submitted : Z; Completed : Z; HighPrioRuns : Z; LowPrioRuns : Z;
}.

Record Scheduler := mkScheduler {
  s_items : list workEntry;
  s_seq : Z;
  s_closed : bool;
  s_started : bool;
  s_shutdown : bool; (* the channel is closed *)
  s_stats : SchedulerStats;
}.

Definition NewScheduler : Scheduler := mkScheduler [] 0 false false false (mkStats 0 0 0 0).

(** [Submit]'s first result is the bool it returns. *)
Definition Submit (s : Scheduler) (item : WorkItem) : option (bool * Scheduler) :=
  if s_closed s then Some (false, s)
  else
    let seq := u64 (s_seq s + 1) in
    items ← heap_Push workLess (s_items s) (mkWorkEntry (wi_Priority item) seq (wi_Do item));
    let st := s_stats s in
    Some (true, mkScheduler items seq (s_closed s) (s_started s) (s_shutdown s)
      (mkStats (u64 (Submitted st + 1)) (Completed st) (HighPrioRuns st) (LowPrioRuns st))).

(** [Start] returns whether it launched the worker. *)
Definition Start (s : Scheduler) : bool * Scheduler :=
  if s_started s then (false, s)
  else (true, mkScheduler (s_items s) (s_seq s) (s_closed s) true (s_shutdown s) (s_stats s)).

Definition Close (s : Scheduler) : Scheduler :=
  if s_shutdown s then s
  else mkScheduler (s_items s) (s_seq s) (s_closed s) (s_started s) true (s_stats s).

(** The watcher goroutine's body once [ctx] or [shutdown] is done. *)
Definition markClosed (s : Scheduler) : Scheduler :=
  mkScheduler (s_items s) (s_seq s) true (s_started s) (s_shutdown s) (s_stats s).

(** The worker's locked section after the wait loop: [Some None] returns. *)
Definition takeItem (s : Scheduler) : option (option workEntry * Scheduler) :=
  if s_closed s && (length (s_items s) =? 0)%nat then Some (None, s)
  else
    res ← heap_Pop workLess (s_items s);
    Some (Some res.1, mkScheduler res.2 (s_seq s) (s_closed s) (s_started s) (s_shutdown s) (s_stats s)).

Definition countRun (s : Scheduler) (e : workEntry) : Scheduler :=
  let st := s_stats s in
  mkScheduler (s_items s) (s_seq s) (s_closed s) (s_started s) (s_shutdown s)
    (if we_priority e <=? SchedulerPriorityHighThreshold
     then mkStats (Submitted st) (Completed st) (u64 (HighPrioRuns st + 1)) (LowPrioRuns st)
     else mkStats (Submitted st) (Completed st) (HighPrioRuns st) (u64 (LowPrioRuns st + 1))).

Definition countDone (s : Scheduler) : Scheduler :=
  let st := s_stats s in
  mkScheduler (s_items s) (s_seq s) (s_closed s) (s_started s) (s_shutdown s)
    (mkStats (Submitted st) (u64 (Completed st + 1)) (HighPrioRuns st) (LowPrioRuns st)).

(** Where the worker goroutine is: not launched, at the top of the loop with
    the mutex free, inside [cond.Wait], with a popped item whose closure it has
    not called yet, inside the closure, returned. *)
Inductive worker := WNone | WTop | WWait | WPopped (e : workEntry) | WDoing (e : workEntry) | WExit.

Record sconfig := mkSConfig {
  sc : Scheduler;
  sc_worker : worker;
  sc_watcher : bool;        (* the watcher goroutine is still waiting *)
  sc_ctx : bool;            (* ctx is cancelled *)
  accepted : list workEntry; (* what Submit enqueued, in order *)
  ran : list workEntry;      (* whose closures the worker called, in order *)
}.

(** [cond.Signal] and [cond.Broadcast]: the only waiter is the worker. *)
Definition wake (w : worker) : worker := match w with WWait => WTop | _ => w end.

Inductive sstep : sconfig -> option sconfig -> Prop :=
  | ss_submit s w wt ctx acc log item :
      sstep (mkSConfig s w wt ctx acc log)
        (res ← Submit s item;
         Some (match res with
               | (true, s') =>
                   mkSConfig s' (wake w) wt ctx
                     (acc ++ [mkWorkEntry (wi_Priority item) (s_seq s') (wi_Do item)]) log
               | (false, s') => mkSConfig s' w wt ctx acc log
               end))
  | ss_start s w wt ctx acc log :
      sstep (mkSConfig s w wt ctx acc log)
        (Some (match Start s with
               | (true, s') => mkSConfig s' WTop true ctx acc log
               | (false, s') => mkSConfig s' w wt ctx acc log
               end))
  | ss_close s w wt ctx acc log :
      sstep (mkSConfig s w wt ctx acc log) (Some (mkSConfig (Close s) w wt ctx acc log))
  | ss_cancel s w wt ctx acc log :
      sstep (mkSConfig s w wt ctx acc log) (Some (mkSConfig s w wt true acc log))
  | ss_watch s w ctx acc log :
      ctx || s_shutdown s = true ->
      sstep (mkSConfig s w true ctx acc log)
        (Some (mkSConfig (markClosed s) (wake w) false ctx acc log))
  | ss_wait s wt ctx acc log :
      (length (s_items s) =? 0)%nat && negb (s_closed s) = true ->
      sstep (mkSConfig s WTop wt ctx acc log) (Some (mkSConfig s WWait wt ctx acc log))
  | ss_take s wt ctx acc log :
      (length (s_items s) =? 0)%nat && negb (s_closed s) = false ->
      sstep (mkSConfig s WTop wt ctx acc log)
        (res ← takeItem s;
         Some (match res with
               | (Some e, s') => mkSConfig s' (WPopped e) wt ctx acc log
               | (None, s') => mkSConfig s' WExit wt ctx acc log
               end))
  | ss_call s wt ctx acc log e :
      sstep (mkSConfig s (WPopped e) wt ctx acc log)
        (Some (mkSConfig (countRun s e) (WDoing e) wt ctx acc (log ++ [e])))
  | ss_done s wt ctx acc log e :
      sstep (mkSConfig s (WDoing e) wt ctx acc log)
        (Some (mkSConfig (countDone s) WTop wt ctx acc log)).

Definition sinit : sconfig := mkSConfig NewScheduler WNone false false [] [].
Definition ssteps : sconfig -> sconfig -> Prop := rtc (fun c c' => sstep c (Some c')).

(** * Properties *)

Lemma workLess_asym a b : workLess a b = true -> workLess b a = false.
Proof. unfold workLess. split_ifs; lia. Qed.

Lemma workLess_trans a b c :
  workLess b a = false -> workLess c b = false -> workLess c a = false.
Proof. unfold workLess. split_ifs; lia. Qed.

Definition fifo (e f : workEntry) : Prop := we_priority e = we_priority f -> we_seq e < we_seq f.

(** The popped items: those called and the one about to be. *)
Definition taken (c : sconfig) : list workEntry :=
  ran c ++ match sc_worker c with WPopped e => [e] | _ => [] end.

Definition doing (w : worker) : Z := match w with WDoing _ => 1 | _ => 0 end.

(** The invariant, while fewer than 2^64 items were accepted. *)
Record sched_ok (c : sconfig) : Prop := {
  so_heap : is_heap workLess (s_items (sc c));
  so_seq : s_seq (sc c) = zlen (accepted c);
  so_acc : forall e, e ∈ accepted c -> 0 < we_seq e <= zlen (accepted c);
  so_nodup : NoDup (we_seq <$> accepted c);
  so_perm : accepted c ≡ₚ taken c ++ s_items (sc c);
  so_fifo : StronglySorted fifo (taken c);
  so_cross : forall e f, e ∈ taken c -> f ∈ s_items (sc c) -> fifo e f;
  so_wait : sc_worker c = WWait -> s_items (sc c) = [] /\ s_closed (sc c) = false;
  so_exit : sc_worker c = WExit -> s_items (sc c) = [] /\ s_closed (sc c) = true;
  so_submitted : Submitted (s_stats (sc c)) = zlen (accepted c);
  so_completed : Completed (s_stats (sc c)) = zlen (ran c) - doing (sc_worker c);
  so_high : HighPrioRuns (s_stats (sc c)) =
    zlen (filter (fun e => we_priority e <= SchedulerPriorityHighThreshold) (ran c));
  so_low : LowPrioRuns (s_stats (sc c)) =
    zlen (filter (fun e => SchedulerPriorityHighThreshold < we_priority e) (ran c));
  so_none : s_started (sc c) = false -> sc_worker c = WNone;
}.

Lemma StronglySorted_snoc {A} (R : A -> A -> Prop) l x :
  StronglySorted R l -> (forall y, y ∈ l -> R y x) -> StronglySorted R (l ++ [x]).
Proof.
  induction 1 as [|y l Hl IH Hy]; intros H; simpl.
  - by repeat constructor.
  - constructor; [apply IH; intros; apply H; by right|].
    apply Forall_app. split; [done|]. constructor; [apply H; by left|constructor].
Qed.

Lemma u64_small z : 0 <= z < 2 ^ 64 -> u64 z = z.
Proof. apply Z.mod_small. Qed.

Lemma submit_ok s w wt ctx acc log item :
  sched_ok (mkSConfig s w wt ctx acc log) -> zlen acc + 1 < 2 ^ 64 ->
  exists b s', Submit s item = Some (b, s') /\
    if b : bool
    then s_closed s = false /\
         sched_ok (mkSConfig s' (wake w) wt ctx
                     (acc ++ [mkWorkEntry (wi_Priority item) (s_seq s') (wi_Do item)]) log)
    else s_closed s = true /\ s' = s.
Proof.
  intros [Hh Hs Ha Hn Hp Hf Hc Hw He Hsu Hco Hhi Hlo Hno] Hb. simpl in *. unfold Submit.
  destruct (s_closed s) eqn:Ecl; [by exists false, s|].
  pose proof (zlen_nonneg acc). rewrite u64_small by lia.
  set (e := mkWorkEntry _ _ _).
  destruct (heap_Push_spec workLess workLess_asym workLess_trans (s_items s) e Hh) as (items & -> & Hpi & Hhi').
  cbn [mbind option_bind]. eexists _, _. split; [done|]. split; [done|].
  assert (taken (mkSConfig s w wt ctx acc log) = taken (mkSConfig s (wake w) wt ctx acc log)) as Et
    by by destruct w.
  unfold taken in *. simpl in *. rewrite Et in *.
  split; unfold taken; cbn [sc sc_worker accepted ran s_items s_seq s_closed s_stats Submitted Completed HighPrioRuns LowPrioRuns].
  - done.
  - rewrite zlen_app. unfold zlen at 2. simpl. lia.
  - intros f [Hf'|Hf']%elem_of_app; rewrite zlen_app; unfold zlen at 2; simpl.
    + specialize (Ha f Hf'). lia.
    + apply list_elem_of_singleton in Hf' as ->. simpl. lia.
  - rewrite fmap_app. apply NoDup_app. split_and!; [done| |simpl; apply NoDup_singleton].
    intros x (f & -> & Hf')%list_elem_of_fmap Hx. apply list_elem_of_singleton in Hx.
    specialize (Ha f Hf'). simpl in Hx. lia.
  - rewrite Hpi, Hp, <- app_assoc. f_equiv. by rewrite Permutation_app_comm.
  - done.
  - intros x y Hx Hy. rewrite Hpi in Hy. apply elem_of_cons in Hy as [-> | Hy]; [|auto].
    intros _. simpl. assert (x ∈ acc) as Hin by (rewrite Hp; apply elem_of_app; by left).
    specialize (Ha x Hin). lia.
  - intros Hx. by destruct w.
  - intros Hx. assert (w = WExit) as -> by by destruct w. by destruct (He eq_refl).
  - rewrite Hsu, u64_small by lia. rewrite zlen_app. unfold zlen at 3. simpl. lia.
  - by destruct w.
  - done.
  - done.
  - intros Hx. by rewrite (Hno Hx).
Qed.

Lemma take_ok s wt ctx acc log :
  sched_ok (mkSConfig s WTop wt ctx acc log) ->
  (length (s_items s) =? 0)%nat && negb (s_closed s) = false ->
  exists oe s', takeItem s = Some (oe, s') /\
    match oe with
    | Some e => sched_ok (mkSConfig s' (WPopped e) wt ctx acc log) /\
                s_items s ≡ₚ e :: s_items s' /\
                forall f, f ∈ s_items s -> workLess f e = false
    | None => s' = s /\ s_items s = [] /\ s_closed s = true
    end.
Proof.
  intros [Hh Hs Ha Hn Hp Hf Hc Hw He Hsu Hco Hhi Hlo Hno] Hg. unfold takeItem, taken in *.
  cbn [sc sc_worker accepted ran doing] in *. rewrite app_nil_r in *.
  destruct (s_closed s && (length (s_items s) =? 0)%nat) eqn:E.
  { exists None, s. apply andb_true_iff in E as [E1 E2].
    destruct (s_items s); [done|discriminate]. }
  destruct (heap_Pop_spec workLess workLess_asym workLess_trans (s_items s) Hh) as (e & items & -> & Hpi & Hh' & Hmin).
  { intros E0. rewrite E0 in E, Hg. by destruct (s_closed s). }
  cbn [mbind option_bind fst snd]. eexists (Some e), _. split; [done|].
  split; [|done]. assert (e ∈ s_items s) as Hein by (rewrite Hpi; by left).
  split; unfold taken; cbn [sc sc_worker accepted ran s_items s_seq s_closed s_stats doing]; try done;
    [| | |by intros H%Hno].
  - rewrite Hp, Hpi. by rewrite <- app_assoc.
  - apply StronglySorted_snoc; [done|]. intros f Hfi. by apply Hc.
  - intros x y Hx Hy. apply elem_of_app in Hx as [Hx|Hx].
    + apply Hc; [done|]. rewrite Hpi. by right.
    + apply list_elem_of_singleton in Hx as ->. intros Epr.
      assert (we_seq e <> we_seq y) as Hne.
      { rewrite Hp, fmap_app, Hpi in Hn. apply NoDup_app in Hn as (_ & _ & Hn). simpl in Hn.
        apply NoDup_cons in Hn as [Hn _]. intros E'. apply Hn. rewrite E'. by apply list_elem_of_fmap_2. }
      assert (y ∈ s_items s) as Hy' by (rewrite Hpi; by right).
      specialize (Hmin y Hy'). unfold workLess in Hmin. revert Hmin. split_ifs; lia.
Qed.

Lemma sched_ok_same c c' :
  s_items (sc c') = s_items (sc c) -> s_seq (sc c') = s_seq (sc c) ->
  s_stats (sc c') = s_stats (sc c) -> accepted c' = accepted c -> ran c' = ran c ->
  taken c' = taken c -> doing (sc_worker c') = doing (sc_worker c) ->
  (sc_worker c' = WWait -> s_items (sc c) = [] /\ s_closed (sc c') = false) ->
  (sc_worker c' = WExit -> s_items (sc c) = [] /\ s_closed (sc c') = true) ->
  (s_started (sc c') = false -> sc_worker c' = WNone) ->
  sched_ok c -> sched_ok c'.
Proof.
  intros E1 E2 E3 E4 E5 E6 E7 Hw He Hno []. split; rewrite ?E1, ?E2, ?E3, ?E4, ?E5, ?E6, ?E7; done.
Qed.

Lemma filter_snoc_zlen {A} (P : A -> Prop) `{!forall x, Decision (P x)} l (e : A) :
  zlen (filter P (l ++ [e])) = zlen (filter P l) + (if decide (P e) then 1 else 0).
Proof.
  rewrite filter_app, zlen_app. f_equal. rewrite filter_cons, filter_nil. by case_decide.
Qed.

Lemma call_ok s wt ctx acc log e :
  sched_ok (mkSConfig s (WPopped e) wt ctx acc log) -> zlen acc + 1 < 2 ^ 64 ->
  sched_ok (mkSConfig (countRun s e) (WDoing e) wt ctx acc (log ++ [e])).
Proof.
  intros [Hh Hs Ha Hn Hp Hf Hc Hw He Hsu Hco Hhi Hlo Hno] Hb. unfold taken in *.
  cbn [sc sc_worker accepted ran doing] in *.
  assert (zlen log < zlen acc) as Hlt.
  { unfold zlen in *. rewrite Hp, !length_app. simpl. lia. }
  pose proof (length_filter (fun e => we_priority e <= SchedulerPriorityHighThreshold) log) as F1.
  pose proof (length_filter (fun e => SchedulerPriorityHighThreshold < we_priority e) log) as F2.
  split; unfold taken; cbn [sc sc_worker accepted ran doing countRun s_items s_seq s_stats s_started];
    rewrite ?app_nil_r; try done; try (by intros H%Hno); split_ifs; cbn [Submitted Completed HighPrioRuns LowPrioRuns];
    rewrite ?filter_snoc_zlen, ?zlen_app; try done;
    repeat case_decide; rewrite ?u64_small; unfold zlen in *; simpl in *; lia.
Qed.

Lemma done_ok s wt ctx acc log e :
  sched_ok (mkSConfig s (WDoing e) wt ctx acc log) -> zlen acc + 1 < 2 ^ 64 ->
  sched_ok (mkSConfig (countDone s) WTop wt ctx acc log).
Proof.
  intros [Hh Hs Ha Hn Hp Hf Hc Hw He Hsu Hco Hhi Hlo Hno] Hb. unfold taken in *.
  cbn [sc sc_worker accepted ran doing] in *.
  assert (zlen log <= zlen acc) as Hlt.
  { unfold zlen in *. rewrite Hp, !length_app. simpl. lia. }
  pose proof (zlen_nonneg log).
  split; unfold taken; cbn [sc sc_worker accepted ran doing countDone s_items s_seq s_stats s_started]; try done;
    [|by intros ?%Hno].
  cbn [Completed]. rewrite u64_small; lia.
Qed.

Lemma sstep_ok c oc :
  sched_ok c -> zlen (accepted c) + 1 < 2 ^ 64 -> sstep c oc ->
  exists c', oc = Some c' /\ sched_ok c'.
Proof.
  intros Hok Hb Hst. destruct Hst as [s w wt ctx acc log item|s w wt ctx acc log|s w wt ctx acc log
    |s w wt ctx acc log|s w ctx acc log Hg|s wt ctx acc log Hg|s wt ctx acc log Hg
    |s wt ctx acc log e|s wt ctx acc log e].
  - destruct (submit_ok s w wt ctx acc log item Hok Hb) as (b & s' & -> & H). simpl.
    eexists; split; [done|]. destruct b; [apply H|]. by destruct H as [_ ->].
  - eexists; split; [done|]. unfold Start. destruct (s_started s) eqn:Es; [done|].
    pose proof (so_none _ Hok Es) as Hw; simpl in Hw; subst w.
    eapply sched_ok_same; try exact Hok; done.
  - eexists; split; [done|]. unfold Close. destruct (s_shutdown s); [done|].
    destruct Hok; eapply sched_ok_same; [..|by split]; done.
  - eexists; split; [done|]. destruct Hok; eapply sched_ok_same; [..|by split]; done.
  - eexists; split; [done|]. pose proof Hok as []. simpl in *.
    eapply sched_ok_same; [..|exact Hok]; try done; unfold taken; simpl.
    + by destruct w.
    + by destruct w.
    + by destruct w.
    + destruct w; try done. intros _. by destruct (so_exit0 eq_refl).
    + intros Hs. by rewrite (so_none0 Hs).
  - eexists; split; [done|]. apply andb_true_iff in Hg as [Hg1 Hg2]. pose proof Hok as [].
    eapply sched_ok_same; [..|exact Hok]; try done; simpl.
    + intros _. destruct (s_items s); [|discriminate]. by destruct (s_closed s).
    + by intros ?%so_none0.
  - destruct (take_ok s wt ctx acc log Hok Hg) as (oe & s' & -> & H). simpl. eexists; split; [done|].
    destruct oe as [e|]; [apply H|]. destruct H as (-> & Hi & Hcl). pose proof Hok as [].
    eapply sched_ok_same; [..|exact Hok]; try done; simpl. by intros ?%so_none0.
  - eexists; split; [done|]. by apply call_ok.
  - eexists; split; [done|]. by eapply done_ok.
Qed.

Lemma sstep_accepted c c' : sstep c (Some c') -> zlen (accepted c) <= zlen (accepted c').
Proof.
  intros H. remember (Some c') as oc eqn:E. destruct H; simpl in *.
  - destruct (Submit s item) as [[[] s']|]; [| |discriminate]; simpl in E; injection E as <-;
      unfold zlen; simpl; rewrite ?length_app; lia.
  - destruct (Start s) as [[] ?]; injection E as <-; done.
  - injection E as <-; done.
  - injection E as <-; done.
  - injection E as <-; done.
  - injection E as <-; done.
  - destruct (takeItem s) as [[[] s']|]; [| |discriminate]; simpl in E; injection E as <-; done.
  - injection E as <-; done.
  - injection E as <-; done.
Qed.

Lemma sinit_ok : sched_ok sinit.
Proof.
  split; try reflexivity; try discriminate.
  - by intros e ?%elem_of_nil.
  - apply NoDup_nil_2.
  - constructor.
  - by intros e f ?%elem_of_nil.
Qed.

Lemma ssteps_ok c : ssteps sinit c -> zlen (accepted c) + 1 < 2 ^ 64 -> sched_ok c.
Proof.
  unfold ssteps. revert c. apply (rtc_ind_r (fun c => zlen (accepted c) + 1 < 2 ^ 64 -> sched_ok c)).
  - intros _. apply sinit_ok.
  - intros c1 c2 _ Hst IH Hb. pose proof (sstep_accepted _ _ Hst).
    destruct (sstep_ok c1 (Some c2)) as (c' & [= <-] & H'); [apply IH; lia|lia|done|done].
Qed.

(** ** Claims *)

(** C11: in every interleaving of submitters, the worker, the watcher, [Start],
    [Close] and cancellation, what the worker ran, holds and still has queued
    is exactly what [Submit] accepted, each once; inside a priority, items run
    in submission order; and once the worker has returned every accepted item
    has run, so [Close] drains the queue.  (Sequence numbers are 64 bits wide;
    the claim is for the first 2^64 - 1 items.) *)
Theorem scheduler_fifo_and_lossless c :
  ssteps sinit c -> zlen (accepted c) + 1 < 2 ^ 64 ->
  accepted c ≡ₚ taken c ++ s_items (sc c) /\
  NoDup (we_seq <$> accepted c) /\
  StronglySorted fifo (ran c) /\
  (sc_worker c = WExit -> ran c ≡ₚ accepted c).
Proof.
  intros Hr Hb. destruct (ssteps_ok c Hr Hb) as [Hh Hs Ha Hn Hp Hf Hc Hw He _ _ _ _ _].
  split_and!; try done.
  - unfold taken in Hf. destruct (sc_worker c); rewrite ?app_nil_r in Hf; try done.
    clear -Hf. induction (ran c) as [|x l IH]; [constructor|]. simpl in Hf.
    apply StronglySorted_inv in Hf as [Hf Hx]. apply Forall_app in Hx as [Hx _]. constructor; auto.
  - intros E. destruct (He E) as [Hi _]. unfold taken in Hp. rewrite E, Hi, !app_nil_r in Hp. done.
Qed.

(** C22: whenever the worker takes an item, no queued item is more urgent (a
    lower priority value, or the same priority and submitted earlier), and
    [heap.Pop] never runs on an empty queue: no step of the system panics. *)
Theorem scheduler_pops_most_urgent c oc :
  ssteps sinit c -> zlen (accepted c) + 1 < 2 ^ 64 -> sstep c oc ->
  exists c', oc = Some c' /\
    forall e, sc_worker c = WTop -> sc_worker c' = WPopped e ->
      s_items (sc c) ≡ₚ e :: s_items (sc c') /\
      forall f, f ∈ s_items (sc c) -> f = e \/ we_priority e < we_priority f \/
        (we_priority e = we_priority f /\ we_seq e < we_seq f).
Proof.
  intros Hr Hb Hst. pose proof (ssteps_ok c Hr Hb) as Hok.
  destruct (sstep_ok c oc Hok Hb Hst) as (c' & -> & Hok').
  exists c'. split; [done|]. intros e Hw Hw'. remember (Some c') as oc eqn:E.
  destruct Hst as [s w wt ctx acc log item|s w wt ctx acc log|s w wt ctx acc log
    |s w wt ctx acc log|s w ctx acc log Hg|s wt ctx acc log Hg|s wt ctx acc log Hg
    |s wt ctx acc log e'|s wt ctx acc log e']; simpl in Hw; subst; try discriminate.
  - destruct (Submit s item) as [[[] s']|]; simpl in E; try discriminate; by injection E as <-.
  - destruct (Start s) as [[] s']; injection E as <-; discriminate.
  - injection E as <-; discriminate.
  - injection E as <-; discriminate.
  - injection E as <-; discriminate.
  - injection E as <-; discriminate.
  - destruct (take_ok s wt ctx acc log Hok Hg) as (oe & s' & Et & H). rewrite Et in E. simpl in E.
    destruct oe as [e0|]; injection E as <-; [|discriminate]. injection Hw' as ->.
    destruct H as (_ & Hpi & Hmin). split; [done|]. intros f Hfin.
    pose proof (so_nodup _ Hok) as Hnd. rewrite (so_perm _ Hok), fmap_app in Hnd. simpl in Hnd.
    apply NoDup_app in Hnd as (_ & _ & Hnd). specialize (Hmin f Hfin).
    simpl in Hfin. rewrite Hpi in Hfin, Hnd. apply elem_of_cons in Hfin as [-> | Hfin]; [by left|right].
    simpl in Hnd. apply NoDup_cons in Hnd as [Hnd _].
    assert (we_seq e <> we_seq f) by (intros E'; apply Hnd; rewrite E'; by apply list_elem_of_fmap_2).
    unfold workLess in *. revert Hmin. split_ifs; lia.
Qed.

(** C23: no wake-up is lost: the worker sleeps on the condition variable only
    while the queue is empty and the scheduler is open, so that once it has
    been started, as long as it has not returned and there is work or a close
    to see, one of its own steps is enabled. *)
Theorem scheduler_no_lost_wakeup c :
  ssteps sinit c -> zlen (accepted c) + 1 < 2 ^ 64 ->
  (sc_worker c = WWait -> s_items (sc c) = [] /\ s_closed (sc c) = false) /\
  (s_started (sc c) = true -> sc_worker c <> WNone -> sc_worker c <> WExit ->
   s_items (sc c) <> [] \/ s_closed (sc c) = true ->
   exists c', sstep c (Some c') /\ sc_worker c' <> sc_worker c).
Proof.
  intros Hr Hb. pose proof (ssteps_ok c Hr Hb) as Hok. split; [apply (so_wait _ Hok)|].
  intros Hst Hn He Hwork. destruct c as [s w wt ctx acc log]. simpl in *. destruct w as [| | |e|e|]; try done.
  - assert ((length (s_items s) =? 0)%nat && negb (s_closed s) = false) as Hg.
    { destruct Hwork as [Hwork| ->]; [destruct (s_items s); [done|reflexivity]|by rewrite andb_false_r]. }
    destruct (take_ok s wt ctx acc log Hok Hg) as (oe & s' & Et & _).
    pose proof (ss_take s wt ctx acc log Hg) as Hs. rewrite Et in Hs. simpl in Hs.
    destruct oe; eexists; (split; [exact Hs|done]).
  - destruct (so_wait _ Hok eq_refl) as [H1 H2]. simpl in *. destruct Hwork; congruence.
  - eexists. split; [apply ss_call|done].
  - eexists. split; [apply ss_done|done].
Qed.

(** the counters agree with the history: accepted, finished, and called
    items on either side of the high-priority threshold. *)
Theorem scheduler_stats_exact c :
  ssteps sinit c -> zlen (accepted c) + 1 < 2 ^ 64 ->
  Submitted (s_stats (sc c)) = zlen (accepted c) /\
  Completed (s_stats (sc c)) = zlen (ran c) - doing (sc_worker c) /\
  HighPrioRuns (s_stats (sc c)) =
    zlen (filter (fun e => we_priority e <= SchedulerPriorityHighThreshold) (ran c)) /\
  LowPrioRuns (s_stats (sc c)) =
    zlen (filter (fun e => SchedulerPriorityHighThreshold < we_priority e) (ran c)).
Proof. intros Hr Hb. by destruct (ssteps_ok c Hr Hb). Qed.
End Scheduler.
Arguments sconfig : clear implicits.
Arguments workEntry : clear implicits.
Arguments WorkItem : clear implicits.
Arguments Scheduler : clear implicits.

(** A background item, then an urgent one, then the worker starts. *)
Module SchedulerDemo.
Definition e1 : workEntry nat := mkWorkEntry 7 1 10%nat.
Definition e2 : workEntry nat := mkWorkEntry 0 2 20%nat.
Definition st (items : list (workEntry nat)) (n : Z) (started : bool) : Scheduler nat :=
  mkScheduler items n false started false (mkStats n 0 0 0).
Definition c1 : sconfig nat := mkSConfig (st [e1] 1 false) WNone false false [e1] [].
Definition c2 : sconfig nat := mkSConfig (st [e2; e1] 2 false) WNone false false [e1; e2] [].
Definition c3 : sconfig nat := mkSConfig (st [e2; e1] 2 true) WTop true false [e1; e2] [].
Definition c4 : sconfig nat := mkSConfig (st [e1] 2 true) (WPopped e2) true false [e1; e2] [].

Lemma sstep_eq (c : sconfig nat) oc oc' : sstep c oc -> oc = oc' -> sstep c oc'.
Proof. by intros H <-. Qed.

Lemma reach3 : ssteps sinit c3.
Proof.
  apply rtc_l with c1.
  { eapply sstep_eq; [apply (ss_submit _ _ _ _ _ _ (mkWorkItem 7 10%nat))|vm_compute; reflexivity]. }
  apply rtc_l with c2.
  { eapply sstep_eq; [apply (ss_submit _ _ _ _ _ _ (mkWorkItem 0 20%nat))|vm_compute; reflexivity]. }
  apply rtc_once. eapply sstep_eq; [apply ss_start|vm_compute; reflexivity].
Qed.

Lemma step34 : sstep c3 (Some c4).
Proof. eapply sstep_eq; [apply ss_take|]; vm_compute; reflexivity. Qed.

Lemma scheduler_fifo_and_lossless_witness : accepted c3 ≡ₚ taken c3 ++ s_items (sc c3).
Proof. apply (scheduler_fifo_and_lossless c3 reach3). reflexivity. Defined.

Lemma scheduler_pops_most_urgent_witness :
  exists c', Some c4 = Some c' /\ sc_worker c' = WPopped e2 /\
    forall f, f ∈ s_items (sc c3) -> f = e2 \/ we_priority e2 < we_priority f \/
      (we_priority e2 = we_priority f /\ we_seq e2 < we_seq f).
Proof.
  destruct (scheduler_pops_most_urgent c3 (Some c4) reach3) as (c' & E & H).
  - reflexivity.
  - exact step34.
  - exists c'. split; [exact E|]. injection E as <-. split; [reflexivity|].
    apply (H e2); reflexivity.
Defined.

Lemma scheduler_no_lost_wakeup_witness :
  exists c', sstep c3 (Some c') /\ sc_worker c' <> sc_worker c3.
Proof.
  apply (scheduler_no_lost_wakeup c3 reach3).
  - reflexivity.
  - reflexivity.
  - discriminate.
  - discriminate.
  - left. discriminate.
Defined.

Lemma scheduler_stats_exact_witness : Submitted (s_stats (sc c3)) = zlen (accepted c3).
Proof. apply (scheduler_stats_exact c3 reach3). reflexivity. Defined.
End SchedulerDemo.
