(* ===== verification/Pump.v ===== *)
(** * Package feed: the pumps

    [feed/pump.go] (dispatch, stream-per-GOP pump, low-latency pump, frame
    encoding and chunked writes), [feed/datagram.go] and [feed/bidi.go].

    A pump takes access units off its receiver's channel one at a time; a run
    is a list of units, each with the wall clock read while it is handled, and
    the way it ended (channel closed, or ctx done).  The transport is a script
    ([net]): how each [OpenSendStream], each [Write] and each [SendDatagram]
    ends.  Streams live in a store and are named by their position in it, so
    that a stream that was reset and the stream that replaced it both remain
    visible.  The configuration's callbacks are the entries of a log, in the
    order in which they are invoked. *)

From S2P Require Import Prelude Wire Track Replay.

Definition DefaultOpenDeadlineKeyframe : Z := 1500 * 1000000.
Definition DefaultWriteDeadline : Z := 1500 * 1000000.
Definition DefaultBidiCallTimeout : Z := 30 * 1000000000.
Definition DefaultMaxBidiResponse : Z := MaxFeedPayload.
Definition pacingChunkBytes : Z := 16 * 1024.

(** The configuration; a hook that may be nil is a [bool]. *)
Record Config := mkPumpConfig {
  cfg_OpenDeadlineKeyframe : Z;
  cfg_WriteDeadline : Z;
  cfg_TrackName : string;
  cfg_Priority : Z;
  cfg_Scheduler : bool;
  cfg_Delivery : Z;
  cfg_DatagramSender : bool;
  cfg_FallbackOpener : bool;
  cfg_TrackID : byte;
  cfg_BidiOpener : bool;
  cfg_BidiCallTimeout : Z;
  cfg_MaxBidiResponse : Z;
  cfg_AllowLeadingPFrames : bool;
  cfg_StampPublishWall : bool;
  cfg_OnBidiResponse : bool;
}.

(** [feed.New]'s defaults. *)
Definition New (c : Config) : Config :=
  mkPumpConfig
    (if cfg_OpenDeadlineKeyframe c =? 0 then DefaultOpenDeadlineKeyframe else cfg_OpenDeadlineKeyframe c)
    (if cfg_WriteDeadline c =? 0 then DefaultWriteDeadline else cfg_WriteDeadline c)
    (cfg_TrackName c) (cfg_Priority c) (cfg_Scheduler c) (cfg_Delivery c) (cfg_DatagramSender c)
    (cfg_FallbackOpener c) (cfg_TrackID c) (cfg_BidiOpener c) (cfg_BidiCallTimeout c)
    (cfg_MaxBidiResponse c) (cfg_AllowLeadingPFrames c) (cfg_StampPublishWall c)
    (cfg_OnBidiResponse c).

(** How a send stream stands: open, closed with a FIN, or reset. *)
Inductive stream_state := SOpen | SFin | SReset.

Record stream := mkStream { st_w : writer; st_state : stream_state }.

(** The transport's script: each open fails or yields a stream with the
    outcomes of its writes; each datagram is sent or refused.  An exhausted
    script means success. *)
Record net := mkNet {
  n_opens : list (option error * list write_outcome);
  n_dgrams : list (option error);
}.

Inductive event :=
  | EvAttempt
  | EvSubmit (priority : Z)
  | EvOpened (name : string) (priority : Z)
  | EvWriteBytes (n : Z)
  | EvDropped (reason : string)
  | EvRequestKeyframe
  | EvFallback (reason : string)
  | EvDatagram (b : list byte)
  | EvBidiResponse (seq : Z) (resp : list byte) (err : option error).

Record pump := mkPump { p_streams : list stream; p_net : net; p_log : list event }.

Definition log (e : event) (p : pump) : pump := mkPump (p_streams p) (p_net p) (p_log p ++ [e]).

(** [s.f()] on the stream named [i]. *)
Definition on_stream (i : nat) (f : writer -> option error * writer) (p : pump)
    : option error * pump :=
  match p_streams p !! i with
  | Some s =>
      let '(err, w) := f (st_w s) in
      (err, mkPump (<[i := mkStream w (st_state s)]> (p_streams p)) (p_net p) (p_log p))
  | None => (Some ErrClosedPipe, p)
  end.

Definition end_stream (i : nat) (how : stream_state) (p : pump) : pump :=
  mkPump (alter (fun s => mkStream (st_w s) how) i (p_streams p)) (p_net p) (p_log p).

Definition CancelWrite (i : nat) : pump -> pump := end_stream i SReset.
Definition CloseStream (i : nat) : pump -> pump := end_stream i SFin.

(** [opener.OpenSendStream]. *)
Definition OpenSendStream (p : pump) : result nat * pump :=
  let '(res, rest) := match n_opens (p_net p) with
                      | [] => ((None, []), [])
                      | r :: rest => (r, rest)
                      end in
  let n := mkNet rest (n_dgrams (p_net p)) in
  match res with
  | (Some e, _) => (Err e, mkPump (p_streams p) n (p_log p))
  | (None, script) =>
      (Ok (length (p_streams p)),
       mkPump (p_streams p ++ [mkStream (mkWriter [] script) SOpen]) n (p_log p))
  end.

Definition SendDatagram (b : list byte) (p : pump) : option error * pump :=
  match n_dgrams (p_net p) with
  | Some e :: rest => (Some e, mkPump (p_streams p) (mkNet (n_opens (p_net p)) rest) (p_log p))
  | None :: rest =>
      (None, mkPump (p_streams p) (mkNet (n_opens (p_net p)) rest) (p_log p ++ [EvDatagram b]))
  | [] => (None, log (EvDatagram b) p)
  end.

Section Pump.
Context (cfg : Config).

(** Inline, or through the scheduler's queue: either way [fn] has run once
    when [scheduledDo] returns ([Scheduler.v]). *)
Definition scheduledDo {A} (fn : pump -> A * pump) (p : pump) : A * pump :=
  if cfg_Scheduler cfg then fn (log (EvSubmit (cfg_Priority cfg)) p) else fn p.

Definition openGOPStream (p : pump) : result nat * pump :=
  match OpenSendStream p with
  | (Err e, p) => (Err e, p)
  | (Ok s, p) =>
      let '(err, p) :=
        if decide (cfg_TrackName cfg = ""%string) then (None, p)
        else on_stream s (WriteStreamHeader (cfg_TrackName cfg)) p in
      match err with
      | Some e => (Err e, CancelWrite s p)
      | None => (Ok s, log (EvOpened (cfg_TrackName cfg) (cfg_Priority cfg)) p)
      end
  end.

Definition appendFeedFrame (dst : list byte) (typ : byte) (pts seq : Z) (flags : byte)
    (pubWall : Z) (payload : list byte) : list byte :=
  let n := zlen payload in
  let flags := if negb (pubWall =? 0) then bor flags FlagPublishWall else flags in
  let dst := dst ++ typ :: be_bytes 3 n ++ be_bytes 8 pts ++ be_bytes 4 seq ++ [flags] in
  let dst := if negb (pubWall =? 0) then dst ++ be_bytes 8 pubWall else dst in
  dst ++ payload.

Definition writeFeedFramePooled (typ : byte) (pts seq : Z) (flags : byte) (pubWall : Z)
    (payload : list byte) (w : writer) : option error * writer :=
  if zlen payload >? MaxFeedPayload then (Some ErrFrameTooLarge, w)
  else Write (appendFeedFrame [] typ pts seq flags pubWall payload) w.

Definition pubWall (au : AccessUnit) (now : Z) : Z :=
  if negb (cfg_StampPublishWall cfg) then 0
  else if negb (au_PubWallMicro au =? 0) then au_PubWallMicro au
  else u64 now.

(** The chunk loop; each round advances, so the buffer's length is fuel
    enough. *)
Fixpoint writeChunks (fuel : nat) (s : nat) (buf : list byte) (off : Z) (p : pump)
    : option error * pump :=
  match fuel with
  | O => (None, p)
  | S fuel' =>
      if off <? zlen buf then
        let end_ := Z.min (off + pacingChunkBytes) (zlen buf) in
        let chunk := slice buf (Z.to_nat off) (Z.to_nat end_) in
        match scheduledDo (on_stream s (Write chunk)) p with
        | (Some werr, p) => (Some werr, p)
        | (None, p) => writeChunks fuel' s buf (off + pacingChunkBytes) p
        end
      else (None, p)
  end.

Definition writeFrame (s : nat) (typ : byte) (pts seq : Z) (flags : byte) (wall : Z)
    (payload : list byte) (p : pump) : option error * pump :=
  if zlen payload >? MaxFeedPayload then (Some ErrFrameTooLarge, p)
  else if negb (cfg_Scheduler cfg) || (FeedHeaderLen + zlen payload <=? pacingChunkBytes)
  then scheduledDo (on_stream s (writeFeedFramePooled typ pts seq flags wall payload)) p
  else
    let buf := appendFeedFrame [] typ pts seq flags wall payload in
    writeChunks (length buf) s buf 0 p.

(** ** The stream-per-GOP pump *)

Record gop := mkGop { g_pump : pump; g_current : option nat; g_leading : bool }.

Definition au_flags (kf disc : bool) : byte :=
  let f := x00 in
  let f := if kf then bor f FlagKeyframe else f in
  if disc then bor f FlagDiscontinuity else f.

(** One round of the loop of [runStreamGOP]. *)
Definition gop_step (g : gop) (in_ : AccessUnit * Z) : gop :=
  let '(au, now) := in_ in
  let p := log EvAttempt (g_pump g) in
  let '(opened, g) :=
    if au_Keyframe au then
      let p := match g_current g with Some s => CancelWrite s p | None => p end in
      match openGOPStream p with
      | (Err _, p) => (false, mkGop (log EvRequestKeyframe p) None false)
      | (Ok s, p) => (true, mkGop p (Some s) false)
      end
    else (true, mkGop p (g_current g) (g_leading g)) in
  if negb opened then g
  else
    let '(ready, g) :=
      match g_current g with
      | Some s => (Some s, g)
      | None =>
          if negb (g_leading g)
          then (None, mkGop (log EvRequestKeyframe (g_pump g)) None (g_leading g))
          else match openGOPStream (g_pump g) with
               | (Err _, p) => (None, mkGop (log EvRequestKeyframe p) None false)
               | (Ok s, p) => (Some s, mkGop p (Some s) false)
               end
      end in
    match ready with
    | None => g
    | Some s =>
        let typ := if au_Keyframe au then TypeKeyframe else TypePFrame in
        let flags := au_flags (au_Keyframe au) (au_Discontinuity au) in
        match writeFrame s typ (au_PTSMicro au) (au_Seq au) flags (pubWall au now) (au_Bytes au)
                (g_pump g) with
        | (Some _, p) => mkGop (log EvRequestKeyframe (CancelWrite s p)) None (g_leading g)
        | (None, p) => mkGop (log (EvWriteBytes (FeedHeaderLen + zlen (au_Bytes au))) p) (Some s) (g_leading g)
        end
    end.

Definition closeCurrent (cur : option nat) (p : pump) : pump :=
  match cur with Some s => CloseStream s p | None => p end.

(** [ctxErr] is how the receive loop ends: [None] when the channel was closed,
    [ctx.Err()] when ctx is done. *)
Definition runStreamGOP (ins : list (AccessUnit * Z)) (ctxErr : option error) (p : pump)
    : option error * pump :=
  let g := foldl gop_step (mkGop p None (cfg_AllowLeadingPFrames cfg)) ins in
  (ctxErr, closeCurrent (g_current g) (g_pump g)).

(** ** The low-latency pump *)

Definition ll_step (st : option nat * pump) (in_ : AccessUnit * Z) : option nat * pump :=
  let '(stream, p) := st in
  let '(au, now) := in_ in
  let p := log EvAttempt p in
  let '(stream, p) :=
    match stream with
    | Some s => (Some s, p)
    | None => match openGOPStream p with
              | (Err _, p) => (None, log (EvDropped "stream_open_failed") p)
              | (Ok s, p) => (Some s, p)
              end
    end in
  match stream with
  | None => (None, p)
  | Some s =>
      let flags := au_flags true (au_Discontinuity au) in
      match writeFrame s TypeKeyframe (au_PTSMicro au) (au_Seq au) flags (pubWall au now) (au_Bytes au) p with
      | (Some _, p) => (None, log (EvDropped "write_deadline") (CancelWrite s p))
      | (None, p) => (Some s, log (EvWriteBytes (FeedHeaderLen + zlen (au_Bytes au))) p)
      end
  end.

Definition runStreamLowLatency (ins : list (AccessUnit * Z)) (ctxErr : option error) (p : pump)
    : option error * pump :=
  let st := match openGOPStream p with
            | (Err _, p) => (None, log (EvDropped "stream_open_failed") p)
            | (Ok s, p) => (Some s, p)
            end in
  let '(stream, p) := foldl ll_step st ins in
  (ctxErr, closeCurrent stream p).

(** ** The datagram pump *)

Definition dropReasonDatagramTooLarge : string := "datagram_too_large".
Definition dropReasonSendFailed : string := "send_failed".
Definition dropReasonFallbackWriteFailed : string := "fallback_write_failed".
Definition dropReasonFallbackOpenFailed : string := "fallback_open_failed".

Definition writeFallback (s : nat) (au : AccessUnit) (now : Z) (p : pump) : bool * pump :=
  let flags := au_flags true (au_Discontinuity au) in
  match scheduledDo (on_stream s (writeFeedFramePooled TypeKeyframe (au_PTSMicro au) (au_Seq au)
                                    flags (pubWall au now) (au_Bytes au))) p with
  | (Some _, p) => (false, p)
  | (None, p) => (true, log (EvWriteBytes (FeedHeaderLen + zlen (au_Bytes au))) p)
  end.

(** [fallback] is the variable [fallbackStream]. *)
Definition fallbackOrDrop (au : AccessUnit) (now : Z) (dropReason : string)
    (fallback : option nat) (p : pump) : option nat * pump :=
  if negb (cfg_FallbackOpener cfg) then (fallback, log (EvDropped dropReason) p)
  else
    let '(stream, p) :=
      match fallback with
      | Some s => (Some s, p)
      | None => match openGOPStream p with
                | (Err _, p) => (None, log (EvDropped dropReasonFallbackOpenFailed) p)
                | (Ok s, p) => (Some s, p)
                end
      end in
    match stream with
    | None => (None, p)
    | Some s =>
        match writeFallback s au now p with
        | (false, p) => (None, log (EvDropped dropReasonFallbackWriteFailed) (CancelWrite s p))
        | (true, p) => (Some s, log (EvFallback dropReason) p)
        end
    end.

Record dgram := mkDgram { d_pump : pump; d_fallback : option nat; d_seq : Z }.

Definition dgram_step (d : dgram) (in_ : AccessUnit * Z) : dgram :=
  let '(au, now) := in_ in
  let p := log EvAttempt (d_pump d) in
  match EncodeDatagram [] (cfg_TrackID cfg) (d_seq d) (au_Bytes au) with
  | Err _ =>
      let '(fb, p) := fallbackOrDrop au now dropReasonDatagramTooLarge (d_fallback d) p in
      mkDgram p fb (u16 (d_seq d + 1))
  | Ok encoded =>
      match scheduledDo (SendDatagram encoded) p with
      | (Some _, p) =>
          let '(fb, p) := fallbackOrDrop au now dropReasonSendFailed (d_fallback d) p in
          mkDgram p fb (u16 (d_seq d + 1))
      | (None, p) => mkDgram (log (EvWriteBytes (zlen encoded)) p) (d_fallback d) (u16 (d_seq d + 1))
      end
  end.

Definition runDatagramOrStream (ins : list (AccessUnit * Z)) (ctxErr : option error) (p : pump)
    : option error * pump :=
  if negb (cfg_DatagramSender cfg)
  then (Some (ErrMsg "feed: DatagramSender required for DeliveryDatagramOrStream"), p)
  else
    let d := foldl dgram_step (mkDgram p None 0) ins in
    (ctxErr, closeCurrent (d_fallback d) (d_pump d)).

(** ** The bidi-per-call pump

    One stream per call: what the peer answers is its reader. *)

Record bidi := mkBidi {
  bi_w : writer; bi_r : reader;
  bi_fin : bool; bi_cancelW : bool; bi_cancelR : bool;
}.

(** [io.ReadAll(io.LimitReader(r, n))]. *)
Definition ReadAllLimit (n : Z) (r : reader) : list byte * option error :=
  if n <=? zlen (rd_data r) then (take (Z.to_nat n) (rd_data r), None)
  else (rd_data r, if decide (rd_end r = EOF) then None else Some (rd_end r)).

Definition cancelBoth (b : bidi) : bidi := mkBidi (bi_w b) (bi_r b) (bi_fin b) true true.

(** The goroutine of one call: the callbacks it makes, and the stream it
    leaves. *)
Definition bidiCall (maxResp : Z) (opened : result bidi) (au : AccessUnit) (now : Z)
    : list event * option bidi :=
  match opened with
  | Err _ => ([EvDropped "bidi_open_failed"], None)
  | Ok b =>
      let '(err, w) :=
        if decide (cfg_TrackName cfg = ""%string) then (None, bi_w b)
        else WriteStreamHeader (cfg_TrackName cfg) (bi_w b) in
      let b := mkBidi w (bi_r b) (bi_fin b) (bi_cancelW b) (bi_cancelR b) in
      match err with
      | Some _ => ([EvDropped "bidi_header_failed"], Some (cancelBoth b))
      | None =>
          let flags := au_flags true (au_Discontinuity au) in
          let pw := pubWall au now in
          let '(err, w) :=
            if negb (pw =? 0)
            then WriteFeedFrameWall TypeKeyframe (au_PTSMicro au) (au_Seq au) flags pw (au_Bytes au) (bi_w b)
            else WriteFeedFrame TypeKeyframe (au_PTSMicro au) (au_Seq au) flags (au_Bytes au) (bi_w b) in
          let b := mkBidi w (bi_r b) (bi_fin b) (bi_cancelW b) (bi_cancelR b) in
          match err with
          | Some _ => ([EvDropped "bidi_write_failed"], Some (cancelBoth b))
          | None =>
              let b := mkBidi (bi_w b) (bi_r b) true (bi_cancelW b) (bi_cancelR b) in
              let ev := EvWriteBytes (FeedHeaderLen + zlen (au_Bytes au)) in
              if negb (cfg_OnBidiResponse cfg)
              then ([ev], Some (mkBidi (bi_w b) (bi_r b) true (bi_cancelW b) true))
              else
                let '(resp, readErr) := ReadAllLimit (maxResp + 1) (bi_r b) in
                if zlen resp >? maxResp
                then ([ev; EvBidiResponse (au_Seq au) (take (Z.to_nat maxResp) resp)
                             (match readErr with Some e => Some e | None => Some ErrBidiResponseTooLarge end)],
                      Some (mkBidi (bi_w b) (bi_r b) true (bi_cancelW b) true))
                else ([ev; EvBidiResponse (au_Seq au) resp readErr], Some b)
          end
      end
  end.

(** The calls are independent goroutines; [runBidiPerCall] returns once all
    have finished.  A call is its unit, clock and opened stream. *)
Definition runBidiPerCall (calls : list (AccessUnit * Z * result bidi)) (ctxErr : option error)
    : option error * list (list event * option bidi) :=
  if negb (cfg_BidiOpener cfg)
  then (Some (ErrMsg "feed: BidiOpener required for DeliveryBidiPerCall"), [])
  else
    let maxResp := if cfg_MaxBidiResponse cfg <=? 0 then DefaultMaxBidiResponse else cfg_MaxBidiResponse cfg in
    (ctxErr, (fun c => bidiCall maxResp c.2 c.1.1 c.1.2) <$> calls).

(** ** Dispatch *)

Inductive pump_kind := PumpGOP | PumpLowLatency | PumpDatagram | PumpBidi.

(** Which pump [Run] starts. *)
Definition Run : pump_kind :=
  if cfg_Delivery cfg =? DeliveryStreamLowLatency then PumpLowLatency
  else if cfg_Delivery cfg =? DeliveryDatagramOrStream
  then if cfg_DatagramSender cfg then PumpDatagram else PumpGOP
  else if cfg_Delivery cfg =? DeliveryBidiPerCall
  then if cfg_BidiOpener cfg then PumpBidi else PumpGOP
  else PumpGOP.
End Pump.

(** * Writing one frame *)

Definition wall_opt (wall : Z) : option Z := if wall =? 0 then None else Some wall.

Definition wall_flags (flags : byte) (wall : Z) : byte :=
  if wall =? 0 then flags else bor flags FlagPublishWall.

Lemma appendFeedFrame_bytes dst typ pts seq flags wall p :
  appendFeedFrame dst typ pts seq flags wall p =
  dst ++ feed_bytes typ pts seq (wall_flags flags wall) (wall_opt wall) p.
Proof.
  unfold appendFeedFrame, feed_bytes, wall_flags, wall_opt.
  destruct (wall =? 0); cbn [negb from_option]; rewrite <- !app_assoc; cbn [app];
    by rewrite <- !app_assoc.
Qed.

(** What [on_stream] leaves of a valid stream. *)
Definition stream_at (p : pump) (i : nat) (out : list byte) (script : list write_outcome)
    (st : stream_state) : Prop :=
  p_streams p !! i = Some (mkStream (mkWriter out script) st).

Lemma on_stream_at i f p s :
  p_streams p !! i = Some s ->
  on_stream i f p = ((f (st_w s)).1,
    mkPump (<[i := mkStream (f (st_w s)).2 (st_state s)]> (p_streams p)) (p_net p) (p_log p)).
Proof. intros H. unfold on_stream. rewrite H. by destruct (f (st_w s)). Qed.

(** A write step at stream [i] that either appends all of [b] or fails after a
    prefix of it, touching nothing else but the log of submissions. *)
Definition writes (i : nat) (b : list byte) (m : pump -> option error * pump) : Prop :=
  forall p s, p_streams p !! i = Some s ->
  exists err k script lg,
    m p = (err, mkPump (<[i := mkStream (mkWriter (w_out (st_w s) ++ take k b) script) (st_state s)]> (p_streams p))
                  (p_net p) (p_log p ++ lg)) /\
    (err = None -> take k b = b) /\
    (w_script (st_w s) = [] -> err = None /\ script = []) /\
    Forall (fun e => exists n, e = EvSubmit n) lg.

Lemma writes_Write i b : writes i b (on_stream i (Write b)).
Proof.
  intros p s Hs. rewrite (on_stream_at _ _ _ _ Hs). unfold Write.
  destruct (w_script (st_w s)) as [|[|n e] sc] eqn:E; simpl.
  - exists None, (length b), [], []. rewrite app_nil_r, firstn_all. by split_and!.
  - exists None, (length b), sc, []. rewrite app_nil_r, firstn_all. by split_and!.
  - exists (Some e), n, sc, []. rewrite app_nil_r. by split_and!.
Qed.

Lemma writes_scheduled cfg i b m : writes i b m -> writes i b (scheduledDo cfg m).
Proof.
  intros Hm p s Hs. unfold scheduledDo. destruct (cfg_Scheduler cfg); [|by apply Hm].
  destruct (Hm (log (EvSubmit (cfg_Priority cfg)) p) s Hs) as (err & k & sc & lg & E & H1 & H2 & H3).
  exists err, k, sc, (EvSubmit (cfg_Priority cfg) :: lg). rewrite E. simpl. rewrite <- app_assoc.
  split_and!; try done; try by apply H2. constructor; [eauto|done].
Qed.

Lemma writes_nil i : writes i [] (fun p => (None, p)).
Proof.
  intros p s Hs. exists None, O, (w_script (st_w s)), []. simpl. rewrite !app_nil_r.
  split_and!; try done. f_equal. rewrite list_insert_id; [by destruct p|]. by destruct s as [[] ?].
Qed.

Lemma writes_seq i b1 b2 m1 m2 :
  writes i b1 m1 -> writes i b2 m2 ->
  writes i (b1 ++ b2) (fun p => match m1 p with (Some e, p) => (Some e, p) | (None, p) => m2 p end).
Proof.
  intros H1 H2 p s Hs. destruct (H1 p s Hs) as (err & k & sc & lg & -> & Hk & Hsc & Hlg).
  destruct err as [e|].
  - exists (Some e), (k `min` length b1)%nat, sc, lg.
    assert (take (k `min` length b1) (b1 ++ b2) = take k b1) as ->.
    { rewrite take_app_le by lia. destruct (decide (k <= length b1)%nat).
      - by rewrite Nat.min_l by lia.
      - rewrite Nat.min_r by lia. by rewrite !take_ge by lia. }
    split_and!; try done.
  - rewrite (Hk eq_refl). set (s1 := mkStream (mkWriter (w_out (st_w s) ++ b1) sc) (st_state s)).
    set (p1 := mkPump _ _ _).
    assert (p_streams p1 !! i = Some s1) as Hs1.
    { simpl. apply list_lookup_insert_eq. by eapply lookup_lt_Some. }
    destruct (H2 p1 s1 Hs1) as (err & k2 & sc2 & lg2 & -> & Hk2 & Hsc2 & Hlg2).
    exists err, (length b1 + k2)%nat, sc2, (lg ++ lg2). simpl.
    assert (take (length b1 + k2) (b1 ++ b2) = b1 ++ take k2 b2) as ->.
    { rewrite take_app_ge by lia. f_equal. f_equal. lia. }
    rewrite list_insert_insert_eq, <- !app_assoc. split_and!; try done.
    + intros ->. by rewrite (Hk2 eq_refl).
    + intros E. apply Hsc2. simpl. by apply Hsc.
    + apply Forall_app; by split.
Qed.

Lemma writes_ext i b m m' : (forall p, m p = m' p) -> writes i b m -> writes i b m'.
Proof. intros E H p s Hs. rewrite <- E. by apply H. Qed.

Lemma slice_rest {A} (l : list A) lo hi :
  (lo <= hi)%nat -> slice l lo hi ++ drop hi l = drop lo l.
Proof.
  intros H. unfold slice. replace hi with (lo + (hi - lo))%nat at 2 by lia.
  rewrite <- drop_drop. apply take_drop.
Qed.

Lemma writes_chunks cfg i buf fuel off :
  0 <= off -> zlen buf - off <= Z.of_nat fuel ->
  writes i (drop (Z.to_nat off) buf) (writeChunks cfg fuel i buf off).
Proof.
  revert off; induction fuel as [|fuel IH]; intros off Hoff Hf.
  { rewrite drop_ge by (unfold zlen in *; lia). apply writes_nil. }
  destruct (off <? zlen buf) eqn:E.
  2:{ rewrite drop_ge by (unfold zlen in *; lia). eapply writes_ext; [|apply writes_nil].
      intros p. simpl. by rewrite E. }
  set (end_ := Z.min (off + pacingChunkBytes) (zlen buf)).
  assert (0 < pacingChunkBytes) as Hc by done.
  rewrite <- (slice_rest buf (Z.to_nat off) (Z.to_nat end_)) by lia.
  assert (drop (Z.to_nat end_) buf = drop (Z.to_nat (off + pacingChunkBytes)) buf) as ->.
  { unfold end_. destruct (decide (off + pacingChunkBytes <= zlen buf)).
    - by rewrite Z.min_l by lia.
    - rewrite Z.min_r by lia. by rewrite !drop_ge by (unfold zlen in *; lia). }
  eapply writes_ext; [|apply writes_seq; [apply (writes_scheduled cfg), writes_Write|apply IH; lia]].
  intros p. cbn [writeChunks]. rewrite E. fold end_. by destruct (scheduledDo _ _ _) as [[] ?].
Qed.

(** Whatever the scheduler configuration and the transport's script, writing
    one frame puts a prefix of its encoding on its own stream, all of it when
    no error is reported. *)
Lemma writes_frame cfg i typ pts seq flags wall payload :
  zlen payload <= MaxFeedPayload ->
  writes i (feed_bytes typ pts seq (wall_flags flags wall) (wall_opt wall) payload)
    (writeFrame cfg i typ pts seq flags wall payload).
Proof.
  intros Hn. unfold writeFrame.
  assert (appendFeedFrame [] typ pts seq flags wall payload =
          feed_bytes typ pts seq (wall_flags flags wall) (wall_opt wall) payload) as Eb
    by by rewrite appendFeedFrame_bytes.
  destruct (zlen payload >? MaxFeedPayload) eqn:E; [lia|].
  destruct (negb (cfg_Scheduler cfg) || (FeedHeaderLen + zlen payload <=? pacingChunkBytes)).
  - apply writes_scheduled. eapply writes_ext; [|apply writes_Write].
    intros p. unfold writeFeedFramePooled, on_stream. by rewrite E, Eb.
  - rewrite Eb. cbv zeta. set (buf := feed_bytes _ _ _ _ _ _).
    change buf with (drop (Z.to_nat 0) buf) at 1. apply writes_chunks; [done|].
    unfold zlen. lia.
Qed.

(** C34: writing one feed frame puts exactly the bytes of
    [WriteFeedFrame]/[WriteFeedFrameWall] on the stream, whether the frame is
    written at once or chunk by chunk through the scheduler: on success all of
    them, on failure a prefix; and an oversized payload is refused before any
    byte is written.  No other stream is touched. *)
Theorem write_frame_chunking_invisible cfg i typ pts seq flags wall payload p s :
  p_streams p !! i = Some s ->
  exists err p' s',
    writeFrame cfg i typ pts seq flags wall payload p = (err, p') /\
    p_streams p' !! i = Some s' /\ st_state s' = st_state s /\
    (forall j, j <> i -> p_streams p' !! j = p_streams p !! j) /\
    (MaxFeedPayload < zlen payload -> err = Some ErrFrameTooLarge /\ s' = s) /\
    (zlen payload <= MaxFeedPayload ->
     let bytes := feed_bytes typ pts seq (wall_flags flags wall) (wall_opt wall) payload in
     exists k, w_out (st_w s') = w_out (st_w s) ++ take k bytes /\
       (err = None -> take k bytes = bytes) /\ (w_script (st_w s) = [] -> err = None)).
Proof.
  intros Hs. destruct (decide (MaxFeedPayload < zlen payload)) as [Hbig|Hok].
  - exists (Some ErrFrameTooLarge), p, s. unfold writeFrame.
    destruct (zlen payload >? MaxFeedPayload) eqn:E; [|lia]. split_and!; try done. lia.
  - destruct (writes_frame cfg i typ pts seq flags wall payload ltac:(lia) p s Hs)
      as (err & k & sc & lg & -> & Hk & Hsc & _).
    eexists _, _, _. split; [done|]. simpl.
    rewrite list_lookup_insert_eq by (by eapply lookup_lt_Some). split; [done|]. split; [done|].
    split; [intros j Hj; by rewrite list_lookup_insert_ne|]. split; [lia|].
    intros _. exists k. split_and!; [done|done|]. intros E. by apply Hsc.
Qed.

Definition cfg0 (scheduler : bool) : Config :=
  mkPumpConfig 0 0 "v" 4 scheduler 0 false false x00 false 0 0 false false false.

Definition pump0 : pump := mkPump [mkStream (mkWriter [] []) SOpen] (mkNet [] []) [].

Lemma write_frame_chunking_invisible_witness :
  exists err p' s', writeFrame (cfg0 true) 0 TypePFrame 5 6 x00 0 [x01; x02] pump0 = (err, p') /\
    p_streams p' !! 0%nat = Some s' /\ st_state s' = SOpen.
Proof.
  destruct (write_frame_chunking_invisible (cfg0 true) 0 TypePFrame 5 6 x00 0 [x01; x02] pump0
              (mkStream (mkWriter [] []) SOpen)) as (err & p' & s' & E & H1 & H2 & _).
  - reflexivity.
  - exists err, p', s'. split; [exact E|]. split; [exact H1|exact H2].
Defined.

(** * The stream-per-GOP pump

    [gop_bytes seg] is what a stream that carried the units [seg] holds. *)

Section GopPump.
Context (cfg : Config).

Definition stream_prefix : list byte :=
  if decide (cfg_TrackName cfg = ""%string) then [] else header_bytes (cfg_TrackName cfg).

Definition frame_of (x : AccessUnit * Z) : list byte :=
  let '(au, now) := x in
  let wall := pubWall cfg au now in
  feed_bytes (if au_Keyframe au then TypeKeyframe else TypePFrame) (au_PTSMicro au) (au_Seq au)
    (wall_flags (au_flags (au_Keyframe au) (au_Discontinuity au)) wall) (wall_opt wall) (au_Bytes au).

Definition gop_bytes (seg : list (AccessUnit * Z)) : list byte :=
  stream_prefix ++ concat (frame_of <$> seg).

Definition is_key (x : AccessUnit * Z) : bool := au_Keyframe x.1.

(** A segment is empty or starts with a keyframe. *)
Definition starts_key (seg : list (AccessUnit * Z)) : Prop :=
  match seg with [] => True | x :: _ => is_key x = true end.

Definition no_key_after (seg : list (AccessUnit * Z)) : Prop :=
  Forall (fun x => is_key x = false) (tail seg).

(** Every stream's segment starts with a keyframe; only when leading
    P-frames are allowed may the first stream be an exception. *)
Definition keys_ok (segs : list (list (AccessUnit * Z))) : Prop :=
  Forall starts_key (if cfg_AllowLeadingPFrames cfg then tail segs else segs).

(** A finished stream: reset, and holding a prefix of the bytes of a
    contiguous run of the units with no keyframe but the first. *)
Definition carried (ins : list (AccessUnit * Z)) (s : stream) (seg : list (AccessUnit * Z)) : Prop :=
  st_state s = SReset /\ (exists k, w_out (st_w s) = take k (gop_bytes seg)) /\
  (exists pre post, ins = pre ++ seg ++ post) /\ no_key_after seg.

Definition settled (ins : list (AccessUnit * Z)) := Forall2 (carried ins).

Inductive gop_inv (ins : list (AccessUnit * Z)) : gop -> Prop :=
  | gi_idle p lead segs :
      settled ins (p_streams p) segs -> keys_ok segs ->
      (lead = true -> cfg_AllowLeadingPFrames cfg = true /\ segs = []) ->
      gop_inv ins (mkGop p None lead)
  | gi_live p old s segs pre seg :
      p_streams p = old ++ [s] -> settled ins old segs -> keys_ok (segs ++ [seg]) ->
      st_state s = SOpen -> w_out (st_w s) = gop_bytes seg -> ins = pre ++ seg -> seg <> [] ->
      no_key_after seg ->
      gop_inv ins (mkGop p (Some (length old)) false).

Lemma settled_mono ins x ss segs : settled ins ss segs -> settled (ins ++ [x]) ss segs.
Proof.
  intros H. eapply Forall2_impl; [exact H|]. intros s seg (H1 & H2 & (pre & post & ->) & H4). split_and!; try done.
  exists pre, (post ++ [x]). by rewrite <- !app_assoc.
Qed.

Lemma WriteStreamHeader_prefix name w err w' :
  WriteStreamHeader name w = (err, w') ->
  exists k, w_out w' = w_out w ++ take k (header_bytes name) /\
    (err = None -> take k (header_bytes name) = header_bytes name).
Proof.
  unfold WriteStreamHeader. destruct (_ >? _).
  { intros [= <- <-]. exists O. by rewrite app_nil_r. }
  change (header_bytes name) with ((TypeStreamHeader :: be_bytes 3 (zlen (bytes_of name))) ++ bytes_of name).
  set (h := TypeStreamHeader :: _). unfold wr_seq.
  destruct (Write h w) as [[e|] w1] eqn:E1.
  - intros [= <- <-]. destruct (Write_prefix _ _ _ _ E1) as (k & Hk & _).
    exists (k `min` length h)%nat. rewrite Hk. split; [|done]. f_equal.
    rewrite take_app_le by lia. destruct (decide (k <= length h)%nat).
    + by rewrite Nat.min_l by lia.
    + rewrite Nat.min_r by lia. by rewrite !take_ge by lia.
  - destruct (Write_prefix _ _ _ _ E1) as (k & Hk & Hall). rewrite (Hall eq_refl) in Hk.
    destruct (zlen (bytes_of name) =? 0) eqn:E0.
    + intros [= <- <-]. exists (length h). rewrite Hk, take_app_length. split; [done|].
      intros _. assert (bytes_of name = []) as -> by (apply zlen_0; lia). by rewrite app_nil_r.
    + intros E2. destruct (Write_prefix _ _ _ _ E2) as (k2 & Hk2 & Hall2).
      exists (length h + k2)%nat. rewrite Hk2, Hk, <- app_assoc.
      rewrite take_app_ge by lia. replace (length h + k2 - length h)%nat with k2 by lia.
      split; [done|]. intros E. by rewrite (Hall2 E).
Qed.

Lemma open_spec p :
  exists res p', openGOPStream cfg p = (res, p') /\
  ((exists e, res = Err e /\ p_streams p' = p_streams p) \/
   (exists e k sc, res = Err e /\
      p_streams p' = p_streams p ++ [mkStream (mkWriter (take k stream_prefix) sc) SReset]) \/
   (exists sc, res = Ok (length (p_streams p)) /\
      p_streams p' = p_streams p ++ [mkStream (mkWriter stream_prefix sc) SOpen])).
Proof.
  unfold openGOPStream, OpenSendStream, stream_prefix.
  destruct (match n_opens (p_net p) with [] => _ | r :: rest => _ end) as [[[e|] script] rest].
  { eexists _, _. split; [done|]. left. by exists e. }
  set (p1 := mkPump _ _ _).
  assert (p_streams p1 !! length (p_streams p) = Some (mkStream (mkWriter [] script) SOpen)) as Hs.
  { simpl. rewrite lookup_app_r by lia. by rewrite Nat.sub_diag. }
  destruct (decide (cfg_TrackName cfg = ""%string)).
  { eexists _, _. split; [done|]. right; right. by exists script. }
  rewrite (on_stream_at _ _ _ _ Hs). cbn [st_w st_state].
  destruct (WriteStreamHeader (cfg_TrackName cfg) (mkWriter [] script)) as [err w] eqn:E.
  destruct (WriteStreamHeader_prefix _ _ _ _ E) as (k & Hk & Hall). cbn [fst snd w_out app] in *.
  destruct w as [out sc]. simpl in Hk.
  assert (forall x, <[length (p_streams p) := x]> (p_streams p1) = p_streams p ++ [x]) as Hins.
  { intros x. simpl. rewrite insert_app_r_alt by lia. by rewrite Nat.sub_diag. }
  destruct err as [e|].
  - eexists _, _. split; [done|]. right; left. exists e, k, sc. split; [done|].
    unfold CancelWrite, end_stream. cbn [p_streams]. rewrite Hins.
    rewrite alter_app_r_alt by lia. rewrite Nat.sub_diag. simpl. by rewrite Hk.
  - eexists _, _. split; [done|]. right; right. exists sc. split; [done|].
    simpl p_streams. simpl in Hins. rewrite Hins, Hk. by rewrite (Hall eq_refl).
Qed.

Lemma insert_last {A} (old : list A) x y : <[length old := y]> (old ++ [x]) = old ++ [y].
Proof. rewrite insert_app_r_alt by lia. by rewrite Nat.sub_diag. Qed.

Lemma cancel_last p old s :
  p_streams p = old ++ [s] ->
  p_streams (CancelWrite (length old) p) = old ++ [mkStream (st_w s) SReset].
Proof.
  intros E. unfold CancelWrite, end_stream. simpl. rewrite E.
  rewrite alter_app_r_alt by lia. by rewrite Nat.sub_diag.
Qed.

(** Writing a unit on the last stream, as the pump does. *)
Definition write_au (i : nat) (x : AccessUnit * Z) (p : pump) : option error * pump :=
  let '(au, now) := x in
  writeFrame cfg i (if au_Keyframe au then TypeKeyframe else TypePFrame) (au_PTSMicro au) (au_Seq au)
    (au_flags (au_Keyframe au) (au_Discontinuity au)) (pubWall cfg au now) (au_Bytes au) p.

Lemma write_au_last p old s x :
  p_streams p = old ++ [s] ->
  exists err p' k sc, write_au (length old) x p = (err, p') /\
    p_streams p' = old ++ [mkStream (mkWriter (w_out (st_w s) ++ take k (frame_of x)) sc) (st_state s)] /\
    (err = None -> take k (frame_of x) = frame_of x).
Proof.
  intros E. destruct x as [au now]. simpl.
  destruct (decide (zlen (au_Bytes au) <= MaxFeedPayload)) as [Hn|Hn].
  - assert (p_streams p !! length old = Some s) as Hs.
    { rewrite E, lookup_app_r by lia. by rewrite Nat.sub_diag. }
    destruct (writes_frame cfg (length old) (if au_Keyframe au then TypeKeyframe else TypePFrame)
      (au_PTSMicro au) (au_Seq au) (au_flags (au_Keyframe au) (au_Discontinuity au))
      (pubWall cfg au now) (au_Bytes au) Hn p s Hs) as (err & k & sc & lg & -> & Hk & _).
    eexists _, _, k, sc. split; [done|]. split; [simpl; by rewrite E, insert_last|done].
  - unfold writeFrame. destruct (_ >? _) eqn:E'; [|lia].
    eexists _, _, O, (w_script (st_w s)). split; [done|]. rewrite E. split; [|done].
    simpl. rewrite app_nil_r. by destruct s as [[] ?].
Qed.

Lemma gop_bytes_snoc seg x : gop_bytes (seg ++ [x]) = gop_bytes seg ++ frame_of x.
Proof.
  unfold gop_bytes. rewrite fmap_app, concat_app, <- app_assoc. simpl. by rewrite app_nil_r.
Qed.

Lemma gop_bytes_prefix seg x k :
  gop_bytes seg ++ take k (frame_of x) =
  take (length (gop_bytes seg) + k) (gop_bytes (seg ++ [x])).
Proof.
  rewrite gop_bytes_snoc, take_app_ge by lia. f_equal. f_equal. lia.
Qed.

(** The write, from a last stream that holds exactly [seg]. *)
Lemma live_write ins p old s segs pre seg x :
  p_streams p = old ++ [s] -> settled ins old segs ->
  keys_ok (segs ++ [seg ++ [x]]) -> st_state s = SOpen -> w_out (st_w s) = gop_bytes seg ->
  ins = pre ++ seg -> no_key_after (seg ++ [x]) ->
  gop_inv (ins ++ [x])
    (match write_au (length old) x p with
     | (Some _, p) => mkGop (log EvRequestKeyframe (CancelWrite (length old) p)) None false
     | (None, p) => mkGop (log (EvWriteBytes (FeedHeaderLen + zlen (au_Bytes x.1))) p) (Some (length old)) false
     end).
Proof.
  intros Hp Hset Hkeys Hst Hout Hins Hnk.
  destruct (write_au_last p old s x Hp) as (err & p' & k & sc & -> & Hp' & Hall).
  destruct err as [e|].
  - apply gi_idle with (segs ++ [seg ++ [x]]); [|done|done].
    change (p_streams (log EvRequestKeyframe (CancelWrite (length old) p')))
      with (p_streams (CancelWrite (length old) p')).
    rewrite (cancel_last _ _ _ Hp'). cbn [st_w].
    apply Forall2_app; [by apply settled_mono|]. constructor; [|constructor].
    split_and!; [done| |by exists pre, []; rewrite app_nil_r, Hins, app_assoc|done].
    cbn [st_w w_out]. rewrite Hout, gop_bytes_prefix. eauto.
  - apply (gi_live _ _ old (mkStream (mkWriter (w_out (st_w s) ++ take k (frame_of x)) sc) (st_state s))
             segs pre (seg ++ [x])); try done.
    + by apply settled_mono.
    + cbn [st_w w_out]. by rewrite Hout, (Hall eq_refl), gop_bytes_snoc.
    + by rewrite Hins, app_assoc.
    + by destruct seg.
Qed.

Lemma keys_ok_snoc segs seg :
  keys_ok segs -> starts_key seg \/ (cfg_AllowLeadingPFrames cfg = true /\ segs = []) ->
  keys_ok (segs ++ [seg]).
Proof.
  unfold keys_ok. intros Hk Hs. destruct (cfg_AllowLeadingPFrames cfg) eqn:E.
  - destruct segs as [|x segs]; simpl; [constructor|]. simpl in Hk. apply Forall_app. split; [done|].
    constructor; [|constructor]. by destruct Hs as [Hs|[_ Hs]].
  - apply Forall_app. split; [done|]. constructor; [|constructor]. by destruct Hs as [Hs|[Hs _]].
Qed.

(** Opening a stream for [x] in an idle state, and writing it. *)
Lemma open_and_write ins p segs x :
  settled ins (p_streams p) segs -> keys_ok segs ->
  is_key x = true \/ (cfg_AllowLeadingPFrames cfg = true /\ segs = []) ->
  gop_inv (ins ++ [x])
    (match openGOPStream cfg p with
     | (Err _, p) => mkGop (log EvRequestKeyframe p) None false
     | (Ok s, p) =>
         match write_au s x p with
         | (Some _, p) => mkGop (log EvRequestKeyframe (CancelWrite s p)) None false
         | (None, p) => mkGop (log (EvWriteBytes (FeedHeaderLen + zlen (au_Bytes x.1))) p) (Some s) false
         end
     end).
Proof.
  intros Hset Hkeys Hx. destruct (open_spec p) as (res & p' & -> & [H|[H|H]]).
  - destruct H as (e & -> & Hp'). apply gi_idle with segs; [|done|done].
    simpl. rewrite Hp'. by apply settled_mono.
  - destruct H as (e & k & sc & -> & Hp'). apply gi_idle with (segs ++ [[]]); [| |done].
    + simpl. rewrite Hp'. apply Forall2_app; [by apply settled_mono|]. constructor; [|constructor].
      split_and!; [done| |by exists (ins ++ [x]), []; rewrite app_nil_r|constructor].
      exists k. unfold gop_bytes. simpl. by rewrite app_nil_r.
    + apply keys_ok_snoc; [done|by left].
  - destruct H as (sc & -> & Hp').
    eapply (live_write ins p' (p_streams p) _ segs ins []); try exact Hp'; try done.
    + apply keys_ok_snoc; [done|]. simpl. destruct Hx; auto.
    + cbn [st_w w_out]. unfold gop_bytes. simpl. by rewrite app_nil_r.
    + by rewrite app_nil_r.
    + constructor.
Qed.

(** [gop_step] in terms of the operations above. *)
Lemma gop_step_eq g x :
  gop_step cfg g x =
  let p := log EvAttempt (g_pump g) in
  let start := fun p =>
    match openGOPStream cfg p with
    | (Err _, p) => mkGop (log EvRequestKeyframe p) None false
    | (Ok s, p) =>
        match write_au s x p with
        | (Some _, p) => mkGop (log EvRequestKeyframe (CancelWrite s p)) None false
        | (None, p) => mkGop (log (EvWriteBytes (FeedHeaderLen + zlen (au_Bytes x.1))) p) (Some s) false
        end
    end in
  if is_key x
  then start (match g_current g with Some s => CancelWrite s p | None => p end)
  else match g_current g with
       | None => if g_leading g then start p else mkGop (log EvRequestKeyframe p) None false
       | Some s =>
           match write_au s x p with
           | (Some _, p) => mkGop (log EvRequestKeyframe (CancelWrite s p)) None (g_leading g)
           | (None, p) => mkGop (log (EvWriteBytes (FeedHeaderLen + zlen (au_Bytes x.1))) p) (Some s) (g_leading g)
           end
       end.
Proof.
  destruct x as [au now], g as [p cur lead]. unfold gop_step, is_key, write_au.
  cbn [g_pump g_current g_leading fst snd].
  destruct (au_Keyframe au).
  - destruct (openGOPStream cfg (match cur with Some s => _ | None => _ end)) as [[s|e] p']; [|done].
    cbn [negb g_current g_pump g_leading]. by destruct (writeFrame _ _ _ _ _ _ _ _ _) as [[] ?].
  - cbn [negb g_current g_pump g_leading]. destruct cur as [s|].
    + by destruct (writeFrame _ _ _ _ _ _ _ _ _) as [[] ?].
    + destruct lead; cbn [negb]; [|done].
      destruct (openGOPStream cfg _) as [[s|e] p']; [|done]. cbn [g_pump g_leading].
      by destruct (writeFrame _ _ _ _ _ _ _ _ _) as [[] ?].
Qed.

Lemma gop_step_inv ins g x : gop_inv ins g -> gop_inv (ins ++ [x]) (gop_step cfg g x).
Proof.
  intros Hinv. rewrite gop_step_eq. destruct (is_key x) eqn:Ek; destruct Hinv as
    [p lead segs Hset Hkeys Hlead|p old s segs pre seg Hp Hset Hkeys Hst Hout Hins Hne Hnk];
    cbv zeta; cbn [g_pump g_current g_leading].
  - apply open_and_write with segs; [done|done|by left].
  - assert (p_streams (log EvAttempt p) = old ++ [s]) as Hp' by done.
    apply open_and_write with (segs ++ [seg]); [|done|by left].
    rewrite (cancel_last _ _ _ Hp'). apply Forall2_app; [done|]. constructor; [|constructor].
    split_and!; [done| |exists pre, []; by rewrite app_nil_r|done].
    exists (length (gop_bytes seg)). cbn [st_w]. by rewrite Hout, firstn_all.
  - destruct lead.
    + apply open_and_write with segs; [done|done|right; auto].
    + apply gi_idle with segs; [by apply settled_mono|done|done].
  - apply (live_write ins (log EvAttempt p) old s segs pre seg x); try done.
    + unfold keys_ok in *. destruct (cfg_AllowLeadingPFrames cfg).
      * destruct segs; simpl in *; [done|]. apply Forall_app in Hkeys as [H1 H2].
        apply Forall_app. split; [done|]. constructor; [|constructor]. apply Forall_cons in H2 as [H2 _].
        by destruct seg.
      * apply Forall_app in Hkeys as [H1 H2]. apply Forall_app. split; [done|].
        constructor; [|constructor]. apply Forall_cons in H2 as [H2 _]. by destruct seg.
    + unfold no_key_after in *. destruct seg; [done|]. simpl in *. apply Forall_app. split; [done|].
      by constructor.
Qed.

Lemma gop_run_inv ins p :
  p_streams p = [] ->
  gop_inv ins (foldl (gop_step cfg) (mkGop p None (cfg_AllowLeadingPFrames cfg)) ins).
Proof.
  intros Hp. induction ins as [|x ins IH] using rev_ind.
  - simpl. apply gi_idle with []; [rewrite Hp; constructor| |done].
    unfold keys_ok. by destruct (cfg_AllowLeadingPFrames cfg); constructor.
  - rewrite foldl_app. by apply gop_step_inv.
Qed.

(** C10: the stream-per-GOP discipline, whatever the transport does.  Every
    stream the pump opens carries a prefix of the encoding of a contiguous run
    of the units it was given, whose first unit is a keyframe (only the first
    stream of a resumed session may start otherwise) and in which no later
    unit is one; every stream but the last is reset, and the last one is
    closed with all of its run written if it was still in use. *)
Theorem gop_streams_are_gops ins ctxErr p p' :
  p_streams p = [] -> runStreamGOP cfg ins ctxErr p = (ctxErr, p') ->
  exists segs, length segs = length (p_streams p') /\ keys_ok segs /\
    forall i s seg, p_streams p' !! i = Some s -> segs !! i = Some seg ->
      no_key_after seg /\ (exists pre post, ins = pre ++ seg ++ post) /\
      (exists k, w_out (st_w s) = take k (gop_bytes seg)) /\
      (st_state s = SReset \/
       (st_state s = SFin /\ S i = length (p_streams p') /\ w_out (st_w s) = gop_bytes seg)).
Proof.
  intros Hp. unfold runStreamGOP. pose proof (gop_run_inv ins p Hp) as Hinv.
  set (g := foldl _ _ _) in *. intros [= <-].
  assert (forall ss segs i s seg, settled ins ss segs -> ss !! i = Some s -> segs !! i = Some seg -> carried ins s seg)
    as Hlook by (intros ss segs i s seg H1 H2 H3; by eapply (Forall2_lookup_lr _ _ _ i)).
  destruct Hinv as [p0 lead segs Hset Hkeys _|p0 old s segs pre seg Hp0 Hset Hkeys Hst Hout Hins Hne Hnk];
    cbn [g_current g_pump closeCurrent].
  - exists segs. split; [symmetry; by eapply Forall2_length|]. split; [done|].
    intros i s seg Hs Hseg. destruct (Hlook _ _ _ _ _ Hset Hs Hseg) as (H1 & H2 & H3 & H4).
    split_and!; try done. by left.
  - assert (p_streams (CloseStream (length old) p0) = old ++ [mkStream (st_w s) SFin]) as E.
    { unfold CloseStream, end_stream. simpl. rewrite Hp0, alter_app_r_alt by lia. by rewrite Nat.sub_diag. }
    exists (segs ++ [seg]). rewrite E. pose proof (Forall2_length _ _ _ Hset) as Hl.
    split; [rewrite !length_app; simpl; lia|]. split; [done|].
    intros i s' seg' Hs Hseg. apply lookup_app_Some in Hs as [Hs|[Hi Hs]].
    + apply lookup_lt_Some in Hs as Hlt. rewrite lookup_app_l in Hseg by lia.
      destruct (Hlook _ _ _ _ _ Hset Hs Hseg) as (H1 & H2 & H3 & H4). split_and!; try done. by left.
    + apply list_lookup_singleton_Some in Hs as [Hi0 <-]. assert (i = length old) as -> by lia.
      rewrite lookup_app_r in Hseg by lia. replace (length old - length segs)%nat with O in Hseg by lia.
      injection Hseg as <-. split_and!; [done|exists pre, []; by rewrite app_nil_r| |].
      * exists (length (gop_bytes seg)). cbn [st_w]. by rewrite Hout, firstn_all.
      * right. split_and!; [done|rewrite length_app; simpl; lia|done].
Qed.
End GopPump.

Lemma gop_streams_are_gops_witness :
  exists p', runStreamGOP (cfg0 true) [(au0 1 true 1, 0); (au0 2 false 1, 0); (au0 3 true 1, 0)] None
               (mkPump [] (mkNet [] []) []) = (None, p') /\
    st_state <$> p_streams p' = [SReset; SFin] /\
    exists segs, length segs = 2%nat /\ keys_ok (cfg0 true) segs.
Proof.
  eexists. split; [vm_compute; reflexivity|]. split; [reflexivity|].
  destruct (gop_streams_are_gops (cfg0 true)
              [(au0 1 true 1, 0); (au0 2 false 1, 0); (au0 3 true 1, 0)] None
              (mkPump [] (mkNet [] []) []) _ eq_refl eq_refl) as (segs & Hl & Hk & _).
  exists segs. split; [rewrite Hl; vm_compute; reflexivity|exact Hk].
Defined.

(** ** Accounting: what every pump reports for each unit *)

Section Accounting.
Context (cfg : Config).

Definition is_ev_attempt (e : event) : bool := match e with EvAttempt => true | _ => false end.
Definition is_ev_outcome (e : event) : bool :=
  match e with EvWriteBytes _ | EvDropped _ => true | _ => false end.

Definition count (f : event -> bool) (l : list event) : nat := length (filter (fun e => f e = true) l).

Lemma count_app f l k : count f (l ++ k) = (count f l + count f k)%nat.
Proof. unfold count. by rewrite filter_app, length_app. Qed.

Lemma count_cons f e l : count f (e :: l) = ((if f e then 1 else 0) + count f l)%nat.
Proof. unfold count. rewrite filter_cons. case_decide as H; [by rewrite H|]. by destruct (f e). Qed.

(** [m] only adds entries that are neither attempts nor outcomes nor
    datagrams. *)
Definition quiet_event (e : event) : bool :=
  match e with EvSubmit _ | EvOpened _ _ | EvRequestKeyframe => true | _ => false end.

Definition extends (p p' : pump) : Prop :=
  exists l, p_log p' = p_log p ++ l /\ Forall (fun e => quiet_event e = true) l.

Lemma extends_refl p : extends p p.
Proof. exists []. by rewrite app_nil_r. Qed.

Lemma extends_trans p q r : extends p q -> extends q r -> extends p r.
Proof.
  intros (l & E & H) (k & E' & H'). exists (l ++ k). rewrite E', E, app_assoc. split; [done|].
  apply Forall_app; by split.
Qed.

Lemma extends_log e p : quiet_event e = true -> extends p (log e p).
Proof. intros H. exists [e]. split; [done|]. by repeat constructor. Qed.

Lemma extends_on_stream i f p : extends p (on_stream i f p).2.
Proof.
  unfold on_stream. destruct (p_streams p !! i); [|apply extends_refl].
  destruct (f _). exists []. by rewrite app_nil_r.
Qed.

Lemma extends_end i how p : extends p (end_stream i how p).
Proof. exists []. by rewrite app_nil_r. Qed.

Lemma extends_scheduled {A} (m : pump -> A * pump) p :
  (forall q, extends q (m q).2) -> extends p (scheduledDo cfg m p).2.
Proof.
  intros H. unfold scheduledDo. destruct (cfg_Scheduler cfg); [|done].
  eapply extends_trans; [by apply (extends_log (EvSubmit (cfg_Priority cfg)))|done].
Qed.

Lemma extends_open p : extends p (openGOPStream cfg p).2.
Proof.
  unfold openGOPStream. assert (extends p (OpenSendStream p).2) as Ho.
  { unfold OpenSendStream. destruct (n_opens (p_net p)) as [|[[e|] sc] rest]; exists []; by rewrite app_nil_r. }
  destruct (OpenSendStream p) as [[s|e] p1]; [|done]. cbn [snd] in Ho.
  set (r := if decide _ then _ else _).
  assert (extends p1 r.2) as Hr by (unfold r; case_decide; [apply extends_refl|apply extends_on_stream]).
  destruct r as [[e|] p2]; cbn [snd] in *.
  - eapply extends_trans; [exact Ho|]. eapply extends_trans; [exact Hr|]. apply extends_end.
  - eapply extends_trans; [exact Ho|]. eapply extends_trans; [exact Hr|]. by apply extends_log.
Qed.

Lemma extends_chunks fuel s buf off p : extends p (writeChunks cfg fuel s buf off p).2.
Proof.
  revert off p; induction fuel as [|fuel IH]; intros off p; simpl; [apply extends_refl|].
  destruct (off <? zlen buf); [|apply extends_refl].
  set (m := on_stream s _). assert (extends p (scheduledDo cfg m p).2) as H.
  { apply extends_scheduled. intros q. apply extends_on_stream. }
  destruct (scheduledDo cfg m p) as [[e|] p1]; [done|]. eapply extends_trans; [exact H|apply IH].
Qed.

Lemma extends_writeFrame s typ pts seq flags wall payload p :
  extends p (writeFrame cfg s typ pts seq flags wall payload p).2.
Proof.
  unfold writeFrame. split_ifs; [apply extends_refl| |apply extends_chunks].
  apply extends_scheduled. intros q. apply extends_on_stream.
Qed.

Lemma extends_count f p p' :
  extends p p' -> (forall e, quiet_event e = true -> f e = false) ->
  count f (p_log p') = count f (p_log p).
Proof.
  intros (l & -> & Hl) Hf. rewrite count_app. enough (count f l = O) by lia.
  induction Hl as [|e l He _ IH]; [done|]. by rewrite count_cons, (Hf e He), IH.
Qed.

Lemma extends_datagram p p' b : extends p p' -> EvDatagram b ∈ p_log p' -> EvDatagram b ∈ p_log p.
Proof.
  intros (l & -> & Hl) [H|H]%elem_of_app; [done|]. rewrite Forall_forall in Hl.
  by specialize (Hl _ H).
Qed.

(** [accounts p p']: between [p] and [p'] one unit was taken, and one outcome
    was reported for it. *)
Definition accounts (p p' : pump) : Prop :=
  count is_ev_attempt (p_log p') = S (count is_ev_attempt (p_log p)) /\
  count is_ev_outcome (p_log p') = S (count is_ev_outcome (p_log p)).

Lemma accounts_intro p p1 e :
  extends (log EvAttempt p) p1 -> is_ev_outcome e = true -> accounts p (log e p1).
Proof.
  intros H He. split; unfold log at 1; cbn [p_log]; rewrite count_app, count_cons.
  - rewrite (extends_count _ _ _ H) by (by intros []). unfold log; cbn [p_log].
    rewrite count_app, count_cons. destruct e; try discriminate; unfold count; simpl; lia.
  - rewrite (extends_count _ _ _ H) by (by intros []). unfold log; cbn [p_log].
    rewrite count_app, count_cons, He. unfold count; simpl; lia.
Qed.

Lemma ll_step_accounts st x : accounts st.2 (ll_step cfg st x).2.
Proof.
  destruct st as [stream p], x as [au now]. unfold ll_step. cbn [fst snd].
  set (r := match stream with Some s => _ | None => _ end).
  assert ((exists s p1, r = (Some s, p1) /\ extends (log EvAttempt p) p1) \/
          (exists p1, r = (None, log (EvDropped "stream_open_failed") p1) /\ extends (log EvAttempt p) p1))
    as [(s & p1 & -> & H)|(p1 & -> & H)].
  { unfold r. destruct stream as [s|]; [left; eexists _, _; split; [done|apply extends_refl]|].
    pose proof (extends_open (log EvAttempt p)) as Ho.
    destruct (openGOPStream cfg (log EvAttempt p)) as [[s|e] p1]; [left|right]; eauto. }
  - pose proof (extends_writeFrame s TypeKeyframe (au_PTSMicro au) (au_Seq au)
      (au_flags true (au_Discontinuity au)) (pubWall cfg au now) (au_Bytes au) p1) as Hw.
    destruct (writeFrame _ _ _ _ _ _ _ _ p1) as [[e|] p2]; cbn [snd] in *; apply accounts_intro; try done.
    + eapply extends_trans; [exact H|]. eapply extends_trans; [exact Hw|]. apply extends_end.
    + by eapply extends_trans.
  - by apply accounts_intro.
Qed.

(** the low-latency pump loses no unit silently: for every unit it takes
    off the queue it reports exactly one outcome, written or dropped with a
    reason (a failed open before the first unit adds one report). *)
Theorem low_latency_accounts_for_every_unit ins ctxErr p :
  p_log p = [] ->
  let p' := (runStreamLowLatency cfg ins ctxErr p).2 in
  let early := if (openGOPStream cfg p).1 is Err _ then 1%nat else 0%nat in
  count is_ev_attempt (p_log p') = length ins /\
  count is_ev_outcome (p_log p') = (early + length ins)%nat.
Proof.
  intros Hp. unfold runStreamLowLatency.
  pose proof (extends_open p) as Ho. destruct (openGOPStream cfg p) as [res p1]. cbn [fst snd] in *.
  set (st := match res with Err _ => _ | Ok _ => _ end). cbv zeta.
  assert (count is_ev_attempt (p_log st.2) = O /\
          count is_ev_outcome (p_log st.2) = (if res is Err _ then 1%nat else 0%nat)) as [Ha Hb].
  { unfold st. destruct res; cbn [snd]; [|unfold log; cbn [p_log]; rewrite !count_app, !count_cons];
      rewrite !(extends_count _ _ _ Ho) by (by intros []); rewrite Hp; done. }
  assert (forall st0, count is_ev_attempt (p_log (foldl (ll_step cfg) st0 ins).2) =
             (count is_ev_attempt (p_log st0.2) + length ins)%nat /\
           count is_ev_outcome (p_log (foldl (ll_step cfg) st0 ins).2) =
             (count is_ev_outcome (p_log st0.2) + length ins)%nat) as Hfold.
  { induction ins as [|x ins IH]; intros st0; simpl; [lia|].
    destruct (ll_step_accounts st0 x) as [H1 H2]. destruct (IH (ll_step cfg st0 x)). lia. }
  destruct (Hfold st) as [H1 H2]. destruct (foldl _ st ins) as [stream p2]. cbn [snd] in *.
  assert (p_log (closeCurrent stream p2) = p_log p2) as -> by by destruct stream. lia.
Qed.

(** The spill-over of one datagram unit reports one outcome. *)
Lemma fallback_accounts au now reason fb p0 p :
  extends (log EvAttempt p0) p ->
  accounts p0 (fallbackOrDrop cfg au now reason fb p).2 /\
  forall b, EvDatagram b ∈ p_log (fallbackOrDrop cfg au now reason fb p).2 -> EvDatagram b ∈ p_log p0.
Proof.
  intros H. assert (forall q e, extends (log EvAttempt p0) q -> is_ev_outcome e = true ->
     accounts p0 (log e q) /\ forall b, EvDatagram b ∈ p_log (log e q) -> EvDatagram b ∈ p_log p0) as Hd.
  { intros q e Hq He. split; [by apply accounts_intro|]. intros b Hb. unfold log in Hb; simpl in Hb.
    apply elem_of_app in Hb as [Hb|Hb]; [|apply list_elem_of_singleton in Hb; by subst e].
    apply (extends_datagram _ _ _ Hq) in Hb. unfold log in Hb; simpl in Hb.
    apply elem_of_app in Hb as [Hb|Hb]; [done|by apply list_elem_of_singleton in Hb]. }
  unfold fallbackOrDrop. destruct (cfg_FallbackOpener cfg); cbn [negb snd]; [|by apply Hd].
  set (r := match fb with Some s => _ | None => _ end).
  assert ((exists s p1, r = (Some s, p1) /\ extends p p1) \/
          (exists p1, r = (None, log (EvDropped dropReasonFallbackOpenFailed) p1) /\ extends p p1))
    as [(s & p1 & -> & H1)|(p1 & -> & H1)].
  { unfold r. destruct fb as [s|]; [left; eexists _, _; split; [done|apply extends_refl]|].
    pose proof (extends_open p) as Ho. destruct (openGOPStream cfg p) as [[s|e] p1]; [left|right]; eauto. }
  2:{ apply Hd; [by eapply extends_trans|done]. }
  unfold writeFallback. set (m := on_stream s _).
  assert (extends p1 (scheduledDo cfg m p1).2) as H2 by (apply extends_scheduled; intros q; apply extends_on_stream).
  destruct (scheduledDo cfg m p1) as [[e|] p2]; cbn [snd] in *.
  - apply Hd; [|done]. eapply extends_trans; [exact H|]. eapply extends_trans; [exact H1|].
    eapply extends_trans; [exact H2|]. apply extends_end.
  - destruct (Hd p2 (EvWriteBytes (FeedHeaderLen + zlen (au_Bytes au)))) as [[Ha1 Ha2] Hb]; [|done|].
    { eapply extends_trans; [exact H|]. by eapply extends_trans. }
    split.
    + split; unfold log at 1; cbn [p_log]; rewrite count_app, count_cons; change (count _ []) with O; cbn [is_ev_attempt is_ev_outcome]; lia.
    + intros b Hin. unfold log at 1 in Hin; cbn [p_log] in Hin.
      apply elem_of_app in Hin as [Hin|Hin]; [by apply Hb|by apply list_elem_of_singleton in Hin].
Qed.
End Accounting.


Lemma u16_is_u z : is_u 16 (u16 z).
Proof. unfold is_u, u16. by apply Z.mod_pos_bound. Qed.

Lemma u16_succ n : u16 (u16 (Z.of_nat n) + 1) = u16 (Z.of_nat (S n)).
Proof. unfold u16. rewrite Zplus_mod_idemp_l. f_equal. lia. Qed.

(** The datagrams logged so far each carry the unit of their position. *)
Definition dgrams_ok (cfg : Config) (ins : list (AccessUnit * Z)) (p : pump) : Prop :=
  forall b, EvDatagram b ∈ p_log p ->
  exists i au now, ins !! i = Some (au, now) /\
    DecodeDatagram b = Ok (cfg_TrackID cfg, u16 (Z.of_nat i), au_Bytes au).

Lemma dgrams_ok_mono cfg ins x p : dgrams_ok cfg ins p -> dgrams_ok cfg (ins ++ [x]) p.
Proof.
  intros H b Hb. destruct (H b Hb) as (i & au & now & Hi & Hd). exists i, au, now.
  split; [|done]. by apply lookup_app_l_Some.
Qed.

Lemma send_datagram_cases cfg b p :
  exists q lg, Forall (fun e => quiet_event e = true) lg /\ p_log q = p_log p ++ lg ++ [EvDatagram b] /\
    scheduledDo cfg (SendDatagram b) p = (None, q) \/
  exists e q, scheduledDo cfg (SendDatagram b) p = (Some e, q) /\ extends p q.
Proof.
  assert (forall p, (SendDatagram b p).1 = None /\ p_log (SendDatagram b p).2 = p_log p ++ [EvDatagram b] \/
     exists e, (SendDatagram b p).1 = Some e /\ p_log (SendDatagram b p).2 = p_log p) as H.
  { intros q. unfold SendDatagram. destruct (n_dgrams (p_net q)) as [|[e|] rest]; simpl; eauto. }
  unfold scheduledDo. destruct (cfg_Scheduler cfg).
  - set (p1 := log (EvSubmit (cfg_Priority cfg)) p). destruct (H p1) as [[E1 E2]|(e & E1 & E2)];
      destruct (SendDatagram b p1) as [o q]; simpl in *; subst o.
    + exists q, [EvSubmit (cfg_Priority cfg)]. left. split_and!; [by repeat constructor| |done].
      by rewrite E2, <- app_assoc.
    + exists p1, []. right. exists e, q. split; [done|]. exists [EvSubmit (cfg_Priority cfg)].
      split; [done|by repeat constructor].
  - destruct (H p) as [[E1 E2]|(e & E1 & E2)]; destruct (SendDatagram b p) as [o q]; simpl in *; subst o.
    + exists q, []. left. split_and!; [constructor|done|done].
    + exists p, []. right. exists e, q. split; [done|]. exists []. by rewrite app_nil_r.
Qed.

Lemma dgram_step_spec cfg ins d x :
  d_seq d = u16 (zlen ins) -> dgrams_ok cfg ins (d_pump d) ->
  d_seq (dgram_step cfg d x) = u16 (zlen (ins ++ [x])) /\
  dgrams_ok cfg (ins ++ [x]) (d_pump (dgram_step cfg d x)) /\
  accounts (d_pump d) (d_pump (dgram_step cfg d x)).
Proof.
  intros Hseq Hok. destruct x as [au now]. unfold dgram_step.
  assert (u16 (d_seq d + 1) = u16 (zlen (ins ++ [(au, now)]))) as Hs.
  { rewrite Hseq. unfold zlen. rewrite u16_succ, length_app. simpl. f_equal. lia. }
  assert (forall reason p, extends (log EvAttempt (d_pump d)) p ->
     let r := fallbackOrDrop cfg au now reason (d_fallback d) p in
     dgrams_ok cfg (ins ++ [(au, now)]) r.2 /\ accounts (d_pump d) r.2) as Hfb.
  { intros reason p Hp. destruct (fallback_accounts cfg au now reason (d_fallback d) (d_pump d) p Hp) as [Ha Hb].
    split; [|done]. apply dgrams_ok_mono. intros b Hin. by apply Hok, Hb. }
  destruct (EncodeDatagram [] (cfg_TrackID cfg) (d_seq d) (au_Bytes au)) as [bs|e] eqn:Ee.
  2:{ destruct (Hfb dropReasonDatagramTooLarge (log EvAttempt (d_pump d)) (extends_refl _)) as [H1 H2].
      destruct (fallbackOrDrop _ _ _ _ _ _) as [fb q]. simpl in *. done. }
  destruct (send_datagram_cases cfg bs (log EvAttempt (d_pump d))) as (q & lg & [(Hlg & Hlog & ->)|(e & q' & -> & Hq')]).
  2:{ destruct (Hfb dropReasonSendFailed q' Hq') as [H1 H2].
      destruct (fallbackOrDrop _ _ _ _ _ _) as [fb q2]. simpl in *. done. }
  cbn [d_pump d_seq]. split; [done|]. split.
  - intros b Hin. simpl in Hin. rewrite Hlog in Hin. simpl in Hin.
    rewrite !elem_of_app, !list_elem_of_singleton in Hin.
    destruct Hin as [[[Hin|Hin]|[Hin|Hin]]|Hin]; try done.
    + exact (dgrams_ok_mono cfg ins (au, now) (d_pump d) Hok b Hin).
    + rewrite Forall_forall in Hlg. by specialize (Hlg _ Hin).
    + injection Hin as ->. exists (length ins), au, now.
      split; [rewrite lookup_app_r by lia; by rewrite Nat.sub_diag|].
      unfold EncodeDatagram in Ee. destruct (zlen (au_Bytes au) >? MaxDatagramPayload) eqn:El; [done|].
      destruct (datagram_decode_encode (cfg_TrackID cfg) (d_seq d) (au_Bytes au)) as (bs' & Ee' & Hd).
      { rewrite Hseq. apply u16_is_u. } { lia. }
      unfold EncodeDatagram in Ee'. rewrite El in Ee'. assert (bs' = bs) as -> by congruence.
      rewrite Hd, Hseq. done.
  - split; unfold log; cbn [p_log]; rewrite count_app, count_cons, Hlog; unfold log; cbn [p_log];
      rewrite !count_app, !count_cons; cbn [is_ev_attempt is_ev_outcome];
      (assert (forall f, (forall e, quiet_event e = true -> f e = false) -> count f lg = O) as Hz;
       [intros f Hf; clear -Hlg Hf; induction Hlg as [|e l He _ IH]; [done|]; by rewrite count_cons, (Hf e He), IH|]);
      rewrite (Hz _) by (by intros []); change (count _ []) with O; lia.
Qed.

(** the datagram pump numbers the units 0, 1, 2, ... modulo 2^16 whether
    or not they travel as datagrams; each datagram it sends decodes to its
    track id, its unit's number and its unit's bytes; and for every unit it
    reports exactly one outcome, sent (directly or over the fallback stream)
    or dropped. *)
Theorem datagram_pump_accounts cfg ins ctxErr p :
  cfg_DatagramSender cfg = true -> p_log p = [] ->
  let p' := (runDatagramOrStream cfg ins ctxErr p).2 in
  (forall b, EvDatagram b ∈ p_log p' ->
     exists i au now, ins !! i = Some (au, now) /\
       DecodeDatagram b = Ok (cfg_TrackID cfg, u16 (Z.of_nat i), au_Bytes au)) /\
  count is_ev_attempt (p_log p') = length ins /\
  count is_ev_outcome (p_log p') = length ins.
Proof.
  intros Hc Hp. unfold runDatagramOrStream. rewrite Hc. cbn [negb].
  assert (let d := foldl (dgram_step cfg) (mkDgram p None 0) ins in
          d_seq d = u16 (zlen ins) /\ dgrams_ok cfg ins (d_pump d) /\
          count is_ev_attempt (p_log (d_pump d)) = length ins /\
          count is_ev_outcome (p_log (d_pump d)) = length ins) as (_ & H2 & H3 & H4).
  { induction ins as [|x ins IH] using rev_ind.
    - simpl. rewrite Hp. split_and!; try done. intros b Hb. simpl in Hb. rewrite Hp in Hb. by apply elem_of_nil in Hb.
    - rewrite foldl_app. simpl in *. destruct IH as (H1 & H2 & H3 & H4).
      destruct (dgram_step_spec cfg ins _ x H1 H2) as (H1' & H2' & [H3' H4']).
      rewrite length_app; simpl. split_and!; try done; lia. }
  cbn [snd]. set (d := foldl _ _ _) in *.
  assert (p_log (closeCurrent (d_fallback d) (d_pump d)) = p_log (d_pump d)) as -> by by destruct (d_fallback d).
  done.
Qed.

(** a bidi call never hands the application more than [maxResp] bytes, and
    it reports an error whenever the peer's answer was longer than that or
    did not end with a FIN; a complete answer within the limit arrives as it
    is, without an error. *)
Theorem bidi_response_bounded cfg maxResp b au now evs ob seq resp err :
  0 <= maxResp -> bidiCall cfg maxResp (Ok b) au now = (evs, ob) ->
  EvBidiResponse seq resp err ∈ evs ->
  seq = au_Seq au /\ zlen resp <= maxResp /\
  (exists rest, rd_data (bi_r b) = resp ++ rest) /\
  (err = None <-> rd_data (bi_r b) = resp /\ rd_end (bi_r b) = EOF).
Proof.
  intros Hm. unfold bidiCall.
  destruct (if decide _ then _ else _) as [[e|] w]; [intros [= <- <-] H; by apply list_elem_of_singleton in H|].
  destruct (if negb _ then _ else _) as [[e|] w2]; [intros [= <- <-] H; by apply list_elem_of_singleton in H|].
  destruct (cfg_OnBidiResponse cfg); cbn [negb]; [|intros [= <- <-] H; by apply list_elem_of_singleton in H].
  cbn [bi_r]. unfold ReadAllLimit. set (r := bi_r b).
  destruct (maxResp + 1 <=? zlen (rd_data r)) eqn:E.
  - assert (zlen (take (Z.to_nat (maxResp + 1)) (rd_data r)) = maxResp + 1) as Hl
      by (unfold zlen in *; rewrite length_take; lia).
    rewrite Hl. destruct (maxResp + 1 >? maxResp) eqn:E'; [|lia]. intros [= <- <-] H.
    apply elem_of_cons in H as [H|H]; [done|]. apply list_elem_of_singleton in H. injection H as -> -> ->.
    rewrite take_take. split_and!; [done| | |].
    + unfold zlen in *. rewrite length_take. lia.
    + exists (drop (Z.to_nat maxResp `min` Z.to_nat (maxResp + 1)) (rd_data r)). by rewrite take_drop.
    + split; [done|]. intros [H _]. exfalso. apply (f_equal zlen) in H. unfold zlen in *.
      rewrite length_take in H. lia.
  - destruct (zlen (rd_data r) >? maxResp) eqn:E'; [lia|]. intros [= <- <-] H.
    apply elem_of_cons in H as [H|H]; [done|]. apply list_elem_of_singleton in H. injection H as -> -> ->.
    split_and!; [done|lia|exists []; by rewrite app_nil_r|]. case_decide; naive_solver.
Qed.

Definition pump1 : pump := mkPump [] (mkNet [] []) [].

Lemma low_latency_accounts_for_every_unit_witness :
  count is_ev_outcome (p_log (runStreamLowLatency (cfg0 false) [(au0 1 false 3, 0); (au0 2 false 3, 0)] None
    (mkPump [] (mkNet [(Some ErrCanceled, [])] []) [])).2) = 3%nat.
Proof.
  apply (low_latency_accounts_for_every_unit (cfg0 false) [(au0 1 false 3, 0); (au0 2 false 3, 0)] None
           (mkPump [] (mkNet [(Some ErrCanceled, [])] []) []) eq_refl).
Defined.

Definition cfg_dg : Config :=
  mkPumpConfig 0 0 "t" 7 false 3 true true x05 false 0 0 false false false.

Lemma datagram_pump_accounts_witness :
  count is_ev_outcome (p_log (runDatagramOrStream cfg_dg [(au0 1 false 3, 0); (au0 2 false 1200, 0)] None pump1).2)
  = 2%nat.
Proof.
  apply (datagram_pump_accounts cfg_dg [(au0 1 false 3, 0); (au0 2 false 1200, 0)] None pump1 eq_refl eq_refl).
Defined.

Definition cfg_bidi : Config :=
  mkPumpConfig 0 0 "" 2 false 2 false false x00 true 0 4 false false true.

Lemma bidi_response_bounded_witness :
  exists evs ob, bidiCall cfg_bidi 2 (Ok (mkBidi (mkWriter [] []) (mkReader [x01; x02; x03] EOF) false false false))
      (au0 9 false 1) 0 = (evs, ob) /\
    EvBidiResponse 9 [x01; x02] (Some ErrBidiResponseTooLarge) ∈ evs /\ zlen [x01; x02] <= 2.
Proof.
  eexists _, _. split; [vm_compute; reflexivity|]. split; [right; left|].
  eapply (bidi_response_bounded cfg_bidi 2
    (mkBidi (mkWriter [] []) (mkReader [x01; x02; x03] EOF) false false false) (au0 9 false 1) 0
    _ _ 9 [x01; x02] (Some ErrBidiResponseTooLarge)).
  - lia.
  - vm_compute; reflexivity.
  - right; left.
Defined.

(** ** Delivery over a reliable transport *)

Section Reliable.
Context (cfg : Config).
Context (name_ok : zlen (bytes_of (cfg_TrackName cfg)) <= MaxStreamHeader).

Definition fits (x : AccessUnit * Z) : Prop := zlen (au_Bytes x.1) <= MaxFeedPayload.

(** Streams whose every write was and will be accepted. *)
Definition holds (s : stream) (seg : list (AccessUnit * Z)) : Prop :=
  st_w s = mkWriter (gop_bytes cfg seg) [].

Lemma open_reliable p :
  n_opens (p_net p) = [] ->
  exists p', openGOPStream cfg p = (Ok (length (p_streams p)), p') /\ n_opens (p_net p') = [] /\
    p_streams p' = p_streams p ++ [mkStream (mkWriter (stream_prefix cfg) []) SOpen].
Proof.
  intros Hn. unfold openGOPStream, OpenSendStream, stream_prefix. rewrite Hn.
  set (p1 := mkPump _ _ _).
  assert (p_streams p1 !! length (p_streams p) = Some (mkStream (mkWriter [] []) SOpen)) as Hs.
  { simpl. rewrite lookup_app_r by lia. by rewrite Nat.sub_diag. }
  destruct (decide (cfg_TrackName cfg = ""%string)); [eexists; split_and!; done|].
  rewrite (on_stream_at _ _ _ _ Hs). cbn [st_w st_state].
  rewrite WriteStreamHeader_accept by done. cbn [fst snd].
  eexists. split_and!; [done|done|]. simpl. by rewrite insert_app_r_alt, Nat.sub_diag by lia.
Qed.

Lemma write_reliable p old s seg x :
  p_streams p = old ++ [s] -> holds s seg -> fits x ->
  exists p', write_au cfg (length old) x p = (None, p') /\ p_net p' = p_net p /\
    p_streams p' = old ++ [mkStream (mkWriter (gop_bytes cfg (seg ++ [x])) []) (st_state s)].
Proof.
  intros Hp Hs Hx. destruct x as [au now]. unfold write_au.
  assert (p_streams p !! length old = Some s) as Hl.
  { rewrite Hp, lookup_app_r by lia. by rewrite Nat.sub_diag. }
  destruct (writes_frame cfg (length old) (if au_Keyframe au then TypeKeyframe else TypePFrame)
      (au_PTSMicro au) (au_Seq au) (au_flags (au_Keyframe au) (au_Discontinuity au))
      (pubWall cfg au now) (au_Bytes au) Hx p s Hl) as (err & k & sc & lg & -> & Hk & Hsc & _).
  rewrite Hs in Hsc. destruct (Hsc eq_refl) as [-> ->]. rewrite (Hk eq_refl), Hs.
  eexists. split_and!; [done|done|]. simpl p_streams. rewrite Hp, insert_last. f_equal. do 3 f_equal.
  by rewrite gop_bytes_snoc.
Qed.

(** The groups delivered so far, and the units skipped before the first. *)
Inductive rel_inv (ins : list (AccessUnit * Z)) : gop -> Prop :=
  | ri_idle p : n_opens (p_net p) = [] -> p_streams p = [] ->
      Forall (fun x => is_key x = false) ins -> rel_inv ins (mkGop p None false)
  | ri_live p old s segs seg skipped :
      n_opens (p_net p) = [] -> p_streams p = old ++ [s] ->
      Forall2 (fun s seg => holds s seg /\ st_state s = SReset) old segs ->
      holds s seg -> st_state s = SOpen ->
      Forall (fun seg => seg <> [] /\ starts_key seg /\ no_key_after seg) (segs ++ [seg]) ->
      Forall (fun x => is_key x = false) skipped ->
      ins = skipped ++ concat (segs ++ [seg]) ->
      rel_inv ins (mkGop p (Some (length old)) false).

Lemma rel_start ins p old segs skipped x :
  n_opens (p_net p) = [] -> p_streams p = old ->
  Forall2 (fun s seg => holds s seg /\ st_state s = SReset) old segs ->
  Forall (fun seg => seg <> [] /\ starts_key seg /\ no_key_after seg) segs ->
  Forall (fun x => is_key x = false) skipped -> ins = skipped ++ concat segs ->
  is_key x = true -> fits x ->
  exists p2, match openGOPStream cfg p with
     | (Err _, p) => mkGop (log EvRequestKeyframe p) None false
     | (Ok s, p) =>
         match write_au cfg s x p with
         | (Some _, p) => mkGop (log EvRequestKeyframe (CancelWrite s p)) None false
         | (None, p) => mkGop (log (EvWriteBytes (FeedHeaderLen + zlen (au_Bytes x.1))) p) (Some s) false
         end
     end = mkGop p2 (Some (length old)) false /\ rel_inv (ins ++ [x]) (mkGop p2 (Some (length old)) false).
Proof.
  intros Hn <- Hold Hsegs Hskip Hins Hkey Hfit.
  destruct (open_reliable p Hn) as (p1 & -> & Hn1 & Hp1).
  destruct (write_reliable p1 (p_streams p) _ [] x Hp1) as (p2 & -> & Hn2 & Hp2).
  { unfold holds, gop_bytes. simpl. by rewrite app_nil_r. } { done. }
  eexists. split; [done|]. eapply (ri_live _ _ (p_streams p) _ segs [x] skipped); try done.
  - simpl. by rewrite Hn2.
  - apply Forall_app. split; [done|]. constructor; [|constructor]. split_and!; [done|done|constructor].
  - rewrite Hins, concat_app, <- !app_assoc. simpl. done.
Qed.

Lemma rel_step ins g x : fits x -> rel_inv ins g -> rel_inv (ins ++ [x]) (gop_step cfg g x).
Proof.
  intros Hfit Hinv. rewrite gop_step_eq. destruct Hinv as
    [p Hn Hp Hskip|p old s segs seg skipped Hn Hp Hold Hs Hst Hsegs Hskip Hins];
    cbv zeta; cbn [g_pump g_current g_leading]; destruct (is_key x) eqn:Ek.
  - destruct (rel_start ins (log EvAttempt p) [] [] ins x) as (p2 & -> & H); try done; try constructor.
    by rewrite app_nil_r.
  - apply ri_idle; [done|done|]. apply Forall_app. split; [done|]. by constructor.
  - assert (p_streams (log EvAttempt p) = old ++ [s]) as Hp' by done.
    destruct (rel_start ins (CancelWrite (length old) (log EvAttempt p)) (old ++ [mkStream (st_w s) SReset])
                (segs ++ [seg]) skipped x) as (p2 & -> & H); try done.
    + by apply cancel_last.
    + apply Forall2_app; [done|]. by constructor.
  - destruct (write_reliable (log EvAttempt p) old s seg x) as (p2 & -> & Hn2 & Hp2); try done.
    eapply (ri_live _ _ old _ segs (seg ++ [x]) skipped); try done.
    + simpl. by rewrite Hn2.
    + apply Forall_app in Hsegs as [H1 H2]. apply Forall_app. split; [done|].
      apply Forall_cons in H2 as [(Ha & Hb & Hc) _]. constructor; [|constructor].
      destruct seg as [|y seg]; [done|]. split_and!; [done|done|].
      unfold no_key_after in *. simpl in *. apply Forall_app. split; [done|]. by constructor.
    + rewrite Hins, !concat_app, <- !app_assoc. simpl. by rewrite !app_nil_r.
Qed.
End Reliable.

(** The low-latency and the bidi pump send every unit as a keyframe. *)
Definition keyed (au : AccessUnit) : AccessUnit :=
  mkAU (au_Bytes au) true (au_PTSMicro au) (au_Seq au) (au_Discontinuity au) (au_PubWallMicro au)
    (au_Meta au) (au_SyncGroup au) (au_Priority au).

Definition keyedAt (x : AccessUnit * Z) : AccessUnit * Z := (keyed x.1, x.2).

Lemma ll_step_reliable cfg seg p x :
  p_streams p = [mkStream (mkWriter (gop_bytes cfg seg) []) SOpen] -> fits x ->
  exists p', ll_step cfg (Some 0%nat, p) x = (Some 0%nat, p') /\
    p_streams p' = [mkStream (mkWriter (gop_bytes cfg (seg ++ [keyedAt x])) []) SOpen].
Proof.
  intros Hp Hx. destruct x as [au now].
  destruct (write_reliable cfg (log EvAttempt p) [] _ seg (keyed au, now) Hp eq_refl Hx) as (p2 & E & _ & Hp2).
  unfold ll_step. unfold write_au in E. cbn [keyed au_Keyframe au_PTSMicro au_Seq au_Discontinuity au_Bytes length] in E.
  change (pubWall cfg (keyed au) now) with (pubWall cfg au now) in E. rewrite E. eexists. by split.
Qed.

(** Over a transport that takes everything the low-latency pump has one stream,
    with all units on it. *)
Lemma ll_reliable_run cfg ins ctxErr p :
  zlen (bytes_of (cfg_TrackName cfg)) <= MaxStreamHeader -> Forall fits ins ->
  n_opens (p_net p) = [] -> p_streams p = [] ->
  exists p' s, runStreamLowLatency cfg ins ctxErr p = (ctxErr, p') /\ p_streams p' = [s] /\ st_state s = SFin /\
    w_out (st_w s) = gop_bytes cfg (keyedAt <$> ins).
Proof.
  intros Hn Hf Ho Hp. unfold runStreamLowLatency. destruct (open_reliable cfg Hn p Ho) as (p1 & -> & _ & Hp1).
  rewrite Hp in *. cbn [length app] in *.
  assert (exists p2, foldl (ll_step cfg) (Some 0%nat, p1) ins = (Some 0%nat, p2) /\
    p_streams p2 = [mkStream (mkWriter (gop_bytes cfg (keyedAt <$> ins)) []) SOpen]) as (p2 & -> & Hp2).
  { induction ins as [|x ins IH] using rev_ind.
    - exists p1. split; [done|]. rewrite Hp1. unfold gop_bytes. simpl. by rewrite app_nil_r.
    - apply Forall_app in Hf as [Hf1 Hf2]. apply Forall_cons in Hf2 as [Hx _]. destruct (IH Hf1) as (p2 & E & Hp2).
      rewrite foldl_app, E. cbn [foldl]. destruct (ll_step_reliable cfg _ p2 x Hp2 Hx) as (p3 & -> & Hp3).
      exists p3. by rewrite fmap_app. }
  cbn [closeCurrent]. eexists _, _. split; [done|]. unfold CloseStream, end_stream. cbn [p_streams]. rewrite Hp2.
  split; [reflexivity|]. by split.
Qed.

Lemma gop_reliable_run cfg ins ctxErr p :
  zlen (bytes_of (cfg_TrackName cfg)) <= MaxStreamHeader ->
  cfg_AllowLeadingPFrames cfg = false -> Forall fits ins ->
  n_opens (p_net p) = [] -> p_streams p = [] ->
  exists skipped segs p', runStreamGOP cfg ins ctxErr p = (ctxErr, p') /\
    ins = skipped ++ concat segs /\ Forall (fun x => is_key x = false) skipped /\
    Forall (fun seg => seg <> [] /\ starts_key seg /\ no_key_after seg) segs /\
    (fun s => w_out (st_w s)) <$> p_streams p' = gop_bytes cfg <$> segs /\
    st_state <$> p_streams p' =
      (if segs is [] then [] else replicate (length segs - 1) SReset ++ [SFin]).
Proof.
  intros Hname Hlead Hfits Hn Hp. unfold runStreamGOP. rewrite Hlead.
  assert (rel_inv cfg ins (foldl (gop_step cfg) (mkGop p None false) ins)) as Hinv.
  { induction ins as [|x ins IH] using rev_ind; [by apply ri_idle|].
    apply Forall_app in Hfits as [Hf1 Hf2]. apply Forall_cons in Hf2 as [Hf2 _].
    rewrite foldl_app. apply rel_step; [done|done|]. by apply IH. }
  destruct Hinv as [p1 Hn1 Hp1 Hskip|p1 old s segs seg skipped Hn1 Hp1 Hold Hs Hst Hsegs Hskip Hins].
  - exists ins, [], p1. simpl. rewrite app_nil_r, Hp1. by split_and!.
  - exists skipped, (segs ++ [seg]), (CloseStream (length old) p1).
    assert (p_streams (CloseStream (length old) p1) = old ++ [mkStream (st_w s) SFin]) as E.
    { unfold CloseStream, end_stream. simpl. rewrite Hp1, alter_app_r_alt by lia. by rewrite Nat.sub_diag. }
    split_and!; try done.
    + rewrite E, !fmap_app. f_equal; [|simpl; by rewrite Hs].
      clear -Hold. induction Hold as [|s seg old segs [H _] _ IH]; [done|]. csimpl. by rewrite H, IH.
    + rewrite E, fmap_app. destruct (segs ++ [seg]) as [|] eqn:Eq; [by destruct segs|]. rewrite <- Eq.
      rewrite length_app. simpl. replace (length segs + 1 - 1)%nat with (length segs) by lia. f_equal.
      clear -Hold. induction Hold as [|s seg old segs [_ H] _ IH]; [done|]. csimpl. by rewrite H, IH.
Qed.

(** over a transport that accepts everything, the stream-per-GOP pump
    loses nothing from the first keyframe on: the streams' contents are, in
    order, the groups of pictures of the input, each stream the complete
    encoding of one group; all but the last end in a reset, the last in a
    FIN. *)
Theorem gop_reliable_delivery cfg ins ctxErr p :
  zlen (bytes_of (cfg_TrackName cfg)) <= MaxStreamHeader ->
  cfg_AllowLeadingPFrames cfg = false -> Forall fits ins ->
  n_opens (p_net p) = [] -> p_streams p = [] ->
  exists skipped segs p', runStreamGOP cfg ins ctxErr p = (ctxErr, p') /\
    ins = skipped ++ concat segs /\ Forall (fun x => is_key x = false) skipped /\
    Forall (fun seg => seg <> [] /\ starts_key seg /\ no_key_after seg) segs /\
    (fun s => w_out (st_w s)) <$> p_streams p' = gop_bytes cfg <$> segs /\
    st_state <$> p_streams p' =
      (if segs is [] then [] else replicate (length segs - 1) SReset ++ [SFin]).
Proof. apply gop_reliable_run. Qed.

Lemma gop_reliable_delivery_witness :
  exists skipped segs p', runStreamGOP (cfg0 false)
      [(au0 0 false 1, 0); (au0 1 true 1, 0); (au0 2 false 1, 0); (au0 3 true 1, 0)] None pump1 = (None, p') /\
    [(au0 0 false 1, 0); (au0 1 true 1, 0); (au0 2 false 1, 0); (au0 3 true 1, 0)] = skipped ++ concat segs.
Proof.
  destruct (gop_reliable_delivery (cfg0 false)
      [(au0 0 false 1, 0); (au0 1 true 1, 0); (au0 2 false 1, 0); (au0 3 true 1, 0)] None pump1)
    as (skipped & segs & p' & E & Hi & _).
  - vm_compute. discriminate.
  - reflexivity.
  - repeat (constructor; [vm_compute; discriminate|]). constructor.
  - reflexivity.
  - reflexivity.
  - exists skipped, segs, p'. split; [exact E|exact Hi].
Defined.
