(* ===== verification/Record.v ===== *)
(** * Package record: session recordings

    [record/format.go] (the file format), [record/file.go] (the asynchronous
    recorder), [record/timeline.go] (the index) and [record/replayer.go].

    A file is the list of its bytes; opening it reads from its start, and its
    end is an [EOF]. *)

From S2P Require Import Prelude Wire Replay.

Definition FileMagic : list byte := [x51; x52; x54; x43; x52; x45; x43; x00]. (* "QRTCREC\x00" *)
Definition FormatVersion : Z := 1.
Definition flagKeyframe : Z := Z.shiftl 1 0.
Definition flagDiscontinuity : Z := Z.shiftl 1 1.
Definition eofMarker : list byte := [xff; xff; xff; xff].
Definition maxFrameLen : Z := Z.shiftl 64 20.

Record frame := mkFrame {
  fr_TrackName : string;
  fr_Kind : string;
  fr_PTSMicros : Z;
  fr_Seq : Z;
  fr_Keyframe : bool;
  fr_Discontinuity : bool;
  fr_CapturedAtMicros : Z;
  fr_Payload : list byte;
}.

Definition writeHeader (w : writer) : option error * writer :=
  Write (FileMagic ++ be_bytes 4 FormatVersion) w.

Definition readHeader : rd unit :=
  let! hdr := ReadFull 12 in
  if negb (bool_decide (slice hdr 0 8 = FileMagic)) then rd_fail ErrCorruptHeader
  else if negb (be_value (slice hdr 8 12) =? FormatVersion) then rd_fail ErrCorruptHeader
  else rd_ret tt.

Definition appendU16 (b : list byte) (v : Z) : list byte := b ++ be_bytes 2 v.
Definition appendU32 (b : list byte) (v : Z) : list byte := b ++ be_bytes 4 v.
Definition appendU64 (b : list byte) (v : Z) : list byte := b ++ be_bytes 8 v.

Definition encodeFrame (f : frame) : result (list byte) :=
  let trackName := bytes_of (fr_TrackName f) in
  let kind := bytes_of (fr_Kind f) in
  if zlen trackName >? 65535 then Err ErrTrackNameTooLong
  else if zlen kind >? 255 then Err ErrKindTooLong
  else
    let body := appendU16 [] (u16 (zlen trackName)) in
    let body := body ++ trackName in
    let body := body ++ [byte_of_Z (zlen kind)] in
    let body := body ++ kind in
    let body := appendU64 body (fr_PTSMicros f) in
    let body := appendU32 body (fr_Seq f) in
    let flags := x00 in
    let flags := if fr_Keyframe f then bor flags flagKeyframe else flags in
    let flags := if fr_Discontinuity f then bor flags flagDiscontinuity else flags in
    let body := body ++ [flags] in
    let body := appendU64 body (u64 (fr_CapturedAtMicros f)) in
    let body := appendU32 body (u32 (zlen (fr_Payload f))) in
    let body := body ++ fr_Payload f in
    Ok (be_bytes 4 (u32 (zlen body)) ++ body).

(** [body[lo:hi]] after the length check of the source. *)
Definition cut (body : list byte) (lo hi : Z) : list byte :=
  slice body (Z.to_nat lo) (Z.to_nat hi).

(** The part of [decodeFrame] after the body has been read. *)
Definition parseBody (body : list byte) : result frame :=
  let off := 0 in
  if zlen body <? off + 2 then Err ErrCorruptHeader
  else
    let trackLen := be_value (cut body off (off + 2)) in
    let off := off + 2 in
    if zlen body <? off + trackLen then Err ErrCorruptHeader
    else
      let trackName := string_of (cut body off (off + trackLen)) in
      let off := off + trackLen in
      if zlen body <? off + 1 then Err ErrCorruptHeader
      else
        let kindLen := be_value (cut body off (off + 1)) in
        let off := off + 1 in
        if zlen body <? off + kindLen then Err ErrCorruptHeader
        else
          let kind := string_of (cut body off (off + kindLen)) in
          let off := off + kindLen in
          if zlen body <? off + 8 + 4 + 1 + 8 + 4 then Err ErrCorruptHeader
          else
            let pts := be_value (cut body off (off + 8)) in
            let off := off + 8 in
            let seq := be_value (cut body off (off + 4)) in
            let off := off + 4 in
            let flags := nth (Z.to_nat off) body x00 in
            let off := off + 1 in
            let capturedAt := s64 (be_value (cut body off (off + 8))) in
            let off := off + 8 in
            let payloadLen := be_value (cut body off (off + 4)) in
            let off := off + 4 in
            if zlen body <? off + payloadLen then Err ErrCorruptHeader
            else
              let payload := cut body off (off + payloadLen) in
              Ok (mkFrame trackName kind pts seq
                    (negb (band flags flagKeyframe =? 0))
                    (negb (band flags flagDiscontinuity =? 0)) capturedAt payload).

Definition decodeFrame : rd frame :=
  let! lenBuf := ReadFull 4 in
  if bool_decide (lenBuf = eofMarker) then rd_fail EOF
  else
    let totalLen := be_value lenBuf in
    if totalLen >? maxFrameLen then rd_fail ErrCorruptHeader
    else
      let! body := ReadFull totalLen in
      match parseBody body with
      | Ok f => rd_ret f
      | Err e => rd_fail e
      end.

(** ** The index *)

Record Entry := mkEntry {
  e_TrackName : string;
  e_Kind : string;
  e_CapturedAtMicros : Z;
  e_PTSMicros : Z;
  e_Seq : Z;
  e_Keyframe : bool;
  e_Discontinuity : bool;
  e_PayloadLen : Z;
  e_Offset : Z;
}.

Definition entry_of (f : frame) (off : Z) : Entry :=
  mkEntry (fr_TrackName f) (fr_Kind f) (fr_CapturedAtMicros f) (fr_PTSMicros f) (fr_Seq f)
    (fr_Keyframe f) (fr_Discontinuity f) (zlen (fr_Payload f)) off.

(** The counting reader: [n] is the number of bytes read so far. *)
Definition counted {A} (m : rd A) (n : Z) (r : reader) : result A * reader * Z :=
  let '(res, r') := m r in
  (res, r', n + (zlen (rd_data r) - zlen (rd_data r'))).

(** The loop of [BuildTimeline]; every round but the last consumes bytes, so
    the number of bytes is fuel enough. *)
Fixpoint indexFrames (fuel : nat) (r : reader) (n : Z) (acc : list Entry) : result (list Entry) :=
  match fuel with
  | O => Ok acc
  | S fuel' =>
      let off := n in
      let '(res, r, n) := counted decodeFrame n r in
      match res with
      | Err e => if decide (e = EOF \/ e = ErrUnexpectedEOF) then Ok acc else Err e
      | Ok f => indexFrames fuel' r n (acc ++ [entry_of f off])
      end
  end.

Definition BuildTimeline (file : list byte) : result (list Entry) :=
  let '(res, r, n) := counted readHeader 0 (mkReader file EOF) in
  match res with
  | Err e => Err e
  | Ok _ => indexFrames (S (length file)) r n []
  end.

Definition RTrack : Type := string * string. (* name, kind *)

Definition track_of (e : Entry) : RTrack := (e_TrackName e, e_Kind e).

(** [Tracks]: the [seen] map and the output slice. *)
Definition Tracks (tl : list Entry) : list RTrack :=
  (foldl (fun (st : gset RTrack * list RTrack) e =>
            let '(seen, out) := st in
            let t := track_of e in
            if decide (t ∈ seen) then (seen, out) else ({[t]} ∪ seen, out ++ [t]))
         (∅, []) tl).2.

Definition str_lt (a b : string) : bool :=
  match String.compare a b with Lt => true | _ => false end.

Definition entryLess (a b : Entry) : bool :=
  if negb (e_CapturedAtMicros a =? e_CapturedAtMicros b)
  then e_CapturedAtMicros a <? e_CapturedAtMicros b
  else if negb (bool_decide (e_TrackName a = e_TrackName b))
  then str_lt (e_TrackName a) (e_TrackName b)
  else e_Seq a <? e_Seq b.

Definition Frames (tl : list Entry) : list Entry := sort_less entryLess tl.

Definition snapshotAdd (micros : Z) (out : gmap RTrack Entry) (e : Entry) : gmap RTrack Entry :=
  if e_CapturedAtMicros e >? micros then out
  else
    let t := track_of e in
    match out !! t with
    | None => <[t := e]> out
    | Some prev =>
        if (e_CapturedAtMicros e >? e_CapturedAtMicros prev)
           || ((e_CapturedAtMicros e =? e_CapturedAtMicros prev) && (e_Seq e >? e_Seq prev))
        then <[t := e]> out else out
    end.

Definition SeekSnapshot (tl : list Entry) (micros : Z) : gmap RTrack Entry :=
  foldl (snapshotAdd micros) ∅ tl.

Definition au_of_frame (f : frame) : AccessUnit :=
  mkAU (fr_Payload f) (fr_Keyframe f) (fr_PTSMicros f) (fr_Seq f) (fr_Discontinuity f) 0 ∅ 0 0.

Definition ReadPayload (file : list byte) (e : Entry) : result AccessUnit :=
  match decodeFrame (mkReader (drop (Z.to_nat (e_Offset e)) file) EOF) with
  | (Ok f, _) => Ok (au_of_frame f)
  | (Err e, _) => Err e
  end.

(** ** The replayer *)

Definition Open (file : list byte) : result reader :=
  match readHeader (mkReader file EOF) with
  | (Ok _, r) => Ok r
  | (Err e, _) => Err e
  end.

Definition Next : rd frame :=
  fun r => match decodeFrame r with
           | (Err e, r') => (Err (if decide (e = ErrUnexpectedEOF) then EOF else e), r')
           | ok => ok
           end.

(** [PublishInto].  [route] is the callback, a state transformer that may
    fail.  In round [i], [ctx i] is what [ctx.Err] returns at the top, and
    [pause i f] is how the wait before frame [f] ends: [None] when no wait is
    due or the timer fires, the context's error when the context is done first.
    The result is the final state and the error returned. *)
Fixpoint PublishInto {S} (ctx : nat -> option error) (pause : nat -> frame -> option error)
    (route : S -> frame -> S * option error) (fuel i : nat) (s : S) (r : reader) : S * option error :=
  match fuel with
  | O => (s, None)
  | Datatypes.S fuel' =>
      match ctx i with
      | Some err => (s, Some err)
      | None =>
          match Next r with
          | (Err e, _) => (s, if decide (e = EOF) then None else Some e)
          | (Ok f, r') =>
              match pause i f with
              | Some err => (s, Some err)
              | None =>
                  match route s f with
                  | (s', Some err) => (s', Some err)
                  | (s', None) => PublishInto ctx pause route fuel' (Datatypes.S i) s' r'
                  end
              end
          end
      end
  end.

(** * The format's round trip *)

Definition frame_flags (f : frame) : byte :=
  let flags := x00 in
  let flags := if fr_Keyframe f then bor flags flagKeyframe else flags in
  if fr_Discontinuity f then bor flags flagDiscontinuity else flags.

Definition body_bytes (f : frame) : list byte :=
  be_bytes 2 (zlen (bytes_of (fr_TrackName f))) ++ bytes_of (fr_TrackName f) ++
  [byte_of_Z (zlen (bytes_of (fr_Kind f)))] ++ bytes_of (fr_Kind f) ++
  be_bytes 8 (fr_PTSMicros f) ++ be_bytes 4 (fr_Seq f) ++ [frame_flags f] ++
  be_bytes 8 (u64 (fr_CapturedAtMicros f)) ++ be_bytes 4 (zlen (fr_Payload f)) ++ fr_Payload f.

Definition rec_bytes (f : frame) : list byte := be_bytes 4 (zlen (body_bytes f)) ++ body_bytes f.

(** Field values within their Go types, and a body within [maxFrameLen]. *)
Record rec_ok (f : frame) : Prop := {
  rec_name : zlen (bytes_of (fr_TrackName f)) <= 65535;
  rec_kind : zlen (bytes_of (fr_Kind f)) <= 255;
  rec_pts : is_u 64 (fr_PTSMicros f);
  rec_seq : is_u 32 (fr_Seq f);
  rec_cap : is_s64 (fr_CapturedAtMicros f);
  rec_len : zlen (body_bytes f) <= maxFrameLen;
}.

Lemma body_len f :
  zlen (body_bytes f) = 28 + zlen (bytes_of (fr_TrackName f)) + zlen (bytes_of (fr_Kind f)) + zlen (fr_Payload f).
Proof.
  unfold body_bytes. rewrite !zlen_app, !zlen_be_bytes, !zlen_single. lia.
Qed.

Lemma encodeFrame_bytes f : rec_ok f -> encodeFrame f = Ok (rec_bytes f).
Proof.
  intros [Hn Hk Hp Hs Hc Hl]. unfold encodeFrame.
  pose proof (zlen_nonneg (bytes_of (fr_TrackName f))). pose proof (zlen_nonneg (bytes_of (fr_Kind f))).
  pose proof (zlen_nonneg (fr_Payload f)).
  rewrite body_len in Hl. unfold maxFrameLen in Hl. change (Z.shiftl 64 20) with 67108864 in Hl.
  destruct (zlen (bytes_of (fr_TrackName f)) >? 65535) eqn:E1; [lia|].
  destruct (zlen (bytes_of (fr_Kind f)) >? 255) eqn:E2; [lia|].
  unfold appendU16, appendU32, appendU64. fold (frame_flags f).
  assert (u16 (zlen (bytes_of (fr_TrackName f))) = zlen (bytes_of (fr_TrackName f))) as ->
    by (apply Z.mod_small; lia).
  assert (u32 (zlen (fr_Payload f)) = zlen (fr_Payload f)) as -> by (apply Z.mod_small; lia).
  rewrite <- !app_assoc. cbn [app]. change (byte_of_Z (zlen (bytes_of (fr_Kind f))) :: ?l) with
    ([byte_of_Z (zlen (bytes_of (fr_Kind f)))] ++ l).
  unfold rec_bytes. f_equal. unfold body_bytes at 2.
  match goal with |- be_bytes 4 (u32 (zlen ?b)) ++ _ = _ => change b with (body_bytes f) end.
  assert (u32 (zlen (body_bytes f)) = zlen (body_bytes f)) as ->
    by (rewrite body_len; apply Z.mod_small; lia). done.
Qed.

Lemma cut_at body a b c lo hi :
  body = a ++ b ++ c -> lo = zlen a -> hi = lo + zlen b -> cut body lo hi = b.
Proof.
  intros -> -> ->. unfold cut, zlen. apply slice_mid; lia.
Qed.

Lemma flags_bits (k d : bool) :
  let flags := (if d then bor (if k then bor x00 flagKeyframe else x00) flagDiscontinuity
                else if k then bor x00 flagKeyframe else x00) in
  negb (band flags flagKeyframe =? 0) = k /\ negb (band flags flagDiscontinuity =? 0) = d.
Proof. by destruct k, d. Qed.

Lemma be_value_singleton z : 0 <= z < 256 -> be_value [byte_of_Z z] = z.
Proof.
  intros Hz. rewrite be_value_cons, Z_of_byte_of_Z, Z.mod_small by lia.
  change (zlen []) with 0. change (be_value []) with 0. lia.
Qed.

(** The part [b] that follows the parts [pre] of a body [body] given by
    [Eb]. *)
Ltac part Eb lo n pre b :=
  match type of Eb with ?body = _ => assert (cut body lo (lo + n) = b) as -> end;
  [eapply (cut_at _ pre b);
   [rewrite Eb, <- ?app_assoc; reflexivity
   |rewrite ?zlen_app, ?zlen_single; first [reflexivity|lia]
   |lia]|].

Lemma parseBody_bytes f : rec_ok f -> parseBody (body_bytes f) = Ok f.
Proof.
  intros [Hn Hk Hp Hs Hc Hl].
  pose proof (body_len f) as Hlen. revert Hlen.
  set (nm := bytes_of (fr_TrackName f)) in *. set (kd := bytes_of (fr_Kind f)) in *.
  pose proof (zlen_nonneg nm) as Zn. pose proof (zlen_nonneg kd) as Zk.
  set (pl := fr_Payload f). pose proof (zlen_nonneg pl) as Zp. intros Hlen.
  unfold maxFrameLen in Hl. change (Z.shiftl 64 20) with 67108864 in Hl.
  set (p1 := be_bytes 2 (zlen nm)). set (p3 := [byte_of_Z (zlen kd)]).
  set (p5 := be_bytes 8 (fr_PTSMicros f)). set (p6 := be_bytes 4 (fr_Seq f)).
  set (p8 := be_bytes 8 (u64 (fr_CapturedAtMicros f))). set (p9 := be_bytes 4 (zlen pl)).
  assert (zlen p1 = 2) as L1 by apply zlen_be_bytes. assert (zlen p3 = 1) as L3 by done.
  assert (zlen p5 = 8) as L5 by apply zlen_be_bytes. assert (zlen p6 = 4) as L6 by apply zlen_be_bytes.
  assert (zlen p8 = 8) as L8 by apply zlen_be_bytes. assert (zlen p9 = 4) as L9 by apply zlen_be_bytes.
  assert (body_bytes f = p1 ++ nm ++ p3 ++ kd ++ p5 ++ p6 ++ [frame_flags f] ++ p8 ++ p9 ++ pl) as Eb by done.
  set (body := body_bytes f) in *. clearbody body. unfold parseBody. cbv zeta.
  rewrite (proj2 (Z.ltb_ge (zlen body) (0 + 2))) by lia.
  part Eb 0 2 (@nil byte) p1.
  assert (be_value p1 = zlen nm) as -> by (apply be_value_bytes_id; unfold is_u; simpl; lia).
  rewrite (proj2 (Z.ltb_ge (zlen body) (0 + 2 + zlen nm))) by lia.
  part Eb (0 + 2) (zlen nm) p1 nm.
  rewrite (proj2 (Z.ltb_ge (zlen body) (0 + 2 + zlen nm + 1))) by lia.
  part Eb (0 + 2 + zlen nm) 1 (p1 ++ nm) p3.
  assert (be_value p3 = zlen kd) as -> by (apply be_value_singleton; lia).
  set (o4 := 0 + 2 + zlen nm + 1).
  rewrite (proj2 (Z.ltb_ge (zlen body) (o4 + zlen kd))) by lia.
  part Eb o4 (zlen kd) (p1 ++ nm ++ p3) kd.
  set (o5 := o4 + zlen kd).
  rewrite (proj2 (Z.ltb_ge (zlen body) (o5 + 8 + 4 + 1 + 8 + 4))) by lia.
  part Eb o5 8 (p1 ++ nm ++ p3 ++ kd) p5.
  part Eb (o5 + 8) 4 (p1 ++ nm ++ p3 ++ kd ++ p5) p6.
  assert (nth (Z.to_nat (o5 + 8 + 4)) body x00 = frame_flags f) as ->.
  { assert (Z.to_nat (o5 + 8 + 4) = (length (p1 ++ nm ++ p3 ++ kd ++ p5 ++ p6) + 0)%nat) as ->.
    { rewrite !length_app. unfold zlen in *. lia. }
    rewrite Eb. replace (p1 ++ nm ++ p3 ++ kd ++ p5 ++ p6 ++ [frame_flags f] ++ p8 ++ p9 ++ pl)
      with ((p1 ++ nm ++ p3 ++ kd ++ p5 ++ p6) ++ [frame_flags f] ++ p8 ++ p9 ++ pl) by by rewrite <- !app_assoc.
    rewrite app_nth2_plus. done. }
  set (o8 := o5 + 8 + 4 + 1).
  part Eb o8 8 (p1 ++ nm ++ p3 ++ kd ++ p5 ++ p6 ++ [frame_flags f]) p8.
  part Eb (o8 + 8) 4 (p1 ++ nm ++ p3 ++ kd ++ p5 ++ p6 ++ [frame_flags f] ++ p8) p9.
  assert (be_value p9 = zlen pl) as -> by (apply be_value_bytes_id; unfold is_u; simpl; lia).
  rewrite (proj2 (Z.ltb_ge (zlen body) (o8 + 8 + 4 + zlen pl))) by lia.
  assert (cut body (o8 + 8 + 4) (o8 + 8 + 4 + zlen pl) = pl) as ->.
  { eapply (cut_at _ (p1 ++ nm ++ p3 ++ kd ++ p5 ++ p6 ++ [frame_flags f] ++ p8 ++ p9) pl []);
      [by rewrite Eb, <- !app_assoc, app_nil_r| |done].
    rewrite !zlen_app, zlen_single. lia. }
  unfold p5, p6, p8. rewrite !be_value_bytes_id;
    [|unfold is_u, u64; by apply Z.mod_pos_bound|done|done].
  rewrite s64_u64 by done. destruct (flags_bits (fr_Keyframe f) (fr_Discontinuity f)) as [E1 E2].
  unfold frame_flags. rewrite E1, E2. unfold nm, kd, pl. rewrite !string_of_bytes_of. by destruct f.
Qed.

Lemma decodeFrame_bytes f rest e :
  rec_ok f -> decodeFrame (mkReader (rec_bytes f ++ rest) e) = (Ok f, mkReader rest e).
Proof.
  intros Hok. pose proof (rec_len f Hok) as Hl. pose proof (zlen_nonneg (body_bytes f)) as H0.
  unfold maxFrameLen in Hl. change (Z.shiftl 64 20) with 67108864 in Hl.
  unfold decodeFrame, rec_bytes. rewrite <- app_assoc, ReadFull_bind by by rewrite zlen_be_bytes.
  assert (be_value (be_bytes 4 (zlen (body_bytes f))) = zlen (body_bytes f)) as Hv
    by (apply be_value_bytes_id; unfold is_u; simpl; lia).
  rewrite bool_decide_eq_false_2.
  2:{ intros E. rewrite E in Hv. assert (be_value eofMarker = 4294967295) as E' by by vm_compute. lia. }
  cbv zeta. rewrite Hv. unfold maxFrameLen. change (Z.shiftl 64 20) with 67108864.
  destruct (zlen (body_bytes f) >? 67108864) eqn:E; [lia|].
  rewrite ReadFull_bind by done. by rewrite parseBody_bytes.
Qed.

(** * Files *)

Definition file_header : list byte := FileMagic ++ be_bytes 4 FormatVersion.
Definition file_bytes (fs : list frame) : list byte :=
  file_header ++ concat (rec_bytes <$> fs) ++ eofMarker.

Lemma zlen_file_header : zlen file_header = 12.
Proof. by vm_compute. Qed.

Lemma readHeader_ok rest e : readHeader (mkReader (file_header ++ rest) e) = (Ok tt, mkReader rest e).
Proof.
  unfold readHeader. rewrite ReadFull_bind by by rewrite zlen_file_header.
  rewrite bool_decide_eq_true_2 by by vm_compute. cbn [negb].
  assert (be_value (slice file_header 8 12) = FormatVersion) as -> by by vm_compute. done.
Qed.

Fixpoint entries_from (off : Z) (fs : list frame) : list Entry :=
  match fs with
  | [] => []
  | f :: fs' => entry_of f off :: entries_from (off + zlen (rec_bytes f)) fs'
  end.

(** The data that ends a recording: the marker, nothing, or a torn frame. *)
Definition stops (tail : list byte) : Prop :=
  exists e r, decodeFrame (mkReader tail EOF) = (Err e, r) /\ (e = EOF \/ e = ErrUnexpectedEOF).

Lemma indexFrames_exact fs tail fuel n acc :
  Forall rec_ok fs -> stops tail -> (length fs < fuel)%nat ->
  indexFrames fuel (mkReader (concat (rec_bytes <$> fs) ++ tail) EOF) n acc =
    Ok (acc ++ entries_from n fs).
Proof.
  intros Hok Hst. revert fuel n acc. induction Hok as [|f fs Hf Hok IH]; intros [|fuel] n acc Hfuel; simpl in Hfuel; try lia.
  - destruct Hst as (e & r & E & He). cbn [indexFrames fmap list_fmap concat app]. unfold counted.
    rewrite E. by rewrite decide_True, app_nil_r.
  - cbn [indexFrames fmap list_fmap concat app]. unfold counted. rewrite <- app_assoc, decodeFrame_bytes by done.
    cbn [rd_data]. rewrite IH by lia. cbn [entries_from]. rewrite <- app_assoc. cbn [app].
    f_equal. do 3 f_equal. rewrite zlen_app. lia.
Qed.

Lemma stops_nil : stops [].
Proof. eexists EOF, _. split; [reflexivity|by left]. Qed.

Lemma stops_marker rest : stops (eofMarker ++ rest).
Proof.
  eexists EOF, _. split; [|by left]. unfold decodeFrame. by rewrite ReadFull_bind.
Qed.

Lemma stops_short l : (length l < 4)%nat -> stops l.
Proof.
  intros Hl. unfold stops, decodeFrame, rd_bind. destruct l as [|b l]; [eexists _, _; split; [reflexivity|by left]|].
  rewrite ReadFull_short; [|unfold zlen; simpl in *; lia].
  eexists _, _. split; [reflexivity|by right].
Qed.

Lemma stops_torn f k : rec_ok f -> (k < length (rec_bytes f))%nat -> stops (take k (rec_bytes f)).
Proof.
  intros Hok Hk. destruct (decide (k < 4)%nat) as [Hs|Hs].
  { apply stops_short. rewrite length_take. lia. }
  pose proof (rec_len f Hok) as Hl. pose proof (zlen_nonneg (body_bytes f)) as H0.
  unfold maxFrameLen in Hl. change (Z.shiftl 64 20) with 67108864 in Hl.
  unfold rec_bytes in *. rewrite length_app, length_be_bytes in Hk.
  rewrite take_app_ge by (rewrite length_be_bytes; lia). rewrite length_be_bytes.
  unfold stops, decodeFrame. rewrite ReadFull_bind by by rewrite zlen_be_bytes.
  assert (be_value (be_bytes 4 (zlen (body_bytes f))) = zlen (body_bytes f)) as Hv
    by (apply be_value_bytes_id; unfold is_u; simpl; lia).
  rewrite bool_decide_eq_false_2.
  2:{ intros E. rewrite E in Hv. assert (be_value eofMarker = 4294967295) as E' by by vm_compute. lia. }
  cbv zeta. rewrite Hv. unfold maxFrameLen. change (Z.shiftl 64 20) with 67108864.
  destruct (zlen (body_bytes f) >? 67108864) eqn:E; [lia|]. unfold rd_bind.
  destruct (take (k - 4) (body_bytes f)) as [|b l] eqn:Et.
  - rewrite ReadFull_nil by (unfold zlen in *; lia). eexists _, _. split; [reflexivity|by left].
  - rewrite <- Et. rewrite ReadFull_short.
    + eexists _, _. split; [reflexivity|by right].
    + unfold zlen. rewrite Et at 1. rewrite length_take. simpl. lia.
Qed.

(** The frames that are complete in the first [k] bytes after the header. *)
Fixpoint complete (k : nat) (fs : list frame) : list frame :=
  match fs with
  | [] => []
  | f :: fs' =>
      if (length (rec_bytes f) <=? k)%nat then f :: complete (k - length (rec_bytes f)) fs' else []
  end.

Lemma complete_prefix k fs : exists rest, fs = complete k fs ++ rest.
Proof.
  revert k; induction fs as [|f fs IH]; intros k; simpl; [by exists []|].
  destruct (_ <=? k)%nat; [|by exists (f :: fs)]. destruct (IH (k - length (rec_bytes f))%nat) as [rest E].
  exists rest. simpl. by rewrite <- E.
Qed.

Lemma take_complete k fs :
  Forall rec_ok fs ->
  exists tail, take k (concat (rec_bytes <$> fs) ++ eofMarker) =
    concat (rec_bytes <$> complete k fs) ++ tail /\ stops tail.
Proof.
  intros Hok. revert k. induction Hok as [|f fs Hf Hok IH]; intros k.
  - exists (take k eofMarker). split; [done|]. destruct (decide (k < 4)%nat).
    + apply stops_short. rewrite length_take. lia.
    + rewrite take_ge by (simpl; lia). rewrite <- (app_nil_r eofMarker). apply stops_marker.
  - cbn [fmap list_fmap concat complete]. rewrite <- app_assoc.
    destruct (length (rec_bytes f) <=? k)%nat eqn:E.
    + destruct (IH (k - length (rec_bytes f))%nat) as (tail & Et & Hst). exists tail. split; [|done].
      rewrite take_app_ge by lia. cbn [fmap list_fmap concat]. rewrite <- app_assoc. f_equal. exact Et.
    + exists (take k (rec_bytes f)). split; [|apply stops_torn; [done|lia]].
      rewrite take_app_le by lia. done.
Qed.

Lemma rec_bytes_pos f : (1 <= length (rec_bytes f))%nat.
Proof. unfold rec_bytes. rewrite length_app, length_be_bytes. lia. Qed.

Lemma frames_length fs : (length fs <= length (concat (rec_bytes <$> fs)))%nat.
Proof.
  induction fs as [|f fs IH]; cbn [fmap list_fmap concat length]; [lia|]. rewrite length_app. pose proof (rec_bytes_pos f). lia.
Qed.

Lemma build_exact fs tail :
  Forall rec_ok fs -> stops tail ->
  BuildTimeline (file_header ++ concat (rec_bytes <$> fs) ++ tail) = Ok (entries_from 12 fs).
Proof.
  intros Hok Hst. unfold BuildTimeline, counted. rewrite readHeader_ok. cbn [rd_data].
  set (X := concat _ ++ tail). assert (0 + (zlen (file_header ++ X) - zlen X) = 12) as ->
    by (rewrite zlen_app, zlen_file_header; lia). unfold X.
  rewrite indexFrames_exact; [done|done|done|]. pose proof (frames_length fs).
  rewrite !length_app. lia.
Qed.

Lemma entries_lookup off fs i e :
  entries_from off fs !! i = Some e ->
  exists f, fs !! i = Some f /\ e = entry_of f (off + zlen (concat (rec_bytes <$> take i fs))).
Proof.
  revert off i; induction fs as [|f fs IH]; intros off [|i] H; cbn [entries_from lookup list_lookup] in H;
    try discriminate; cbn [take fmap list_fmap concat lookup list_lookup].
  - injection H as <-. exists f. split; [done|]. f_equal. change (zlen []) with 0. lia.
  - apply IH in H as (f' & H1 & ->). exists f'. split; [done|]. f_equal. rewrite zlen_app. lia.
Qed.

Lemma entries_length off fs : length (entries_from off fs) = length fs.
Proof. revert off; induction fs as [|f fs IH]; intros off; simpl; [done|]. by rewrite IH. Qed.

(** * Claims on the format and the index *)

(** a frame whose fields are within their types and whose body fits the
    reader's limit is encoded, and decoding what was encoded gives it back and
    leaves the reader just after it, whatever follows. *)
Theorem record_frame_roundtrip f rest e :
  rec_ok f ->
  exists bs, encodeFrame f = Ok bs /\
    decodeFrame (mkReader (bs ++ rest) e) = (Ok f, mkReader rest e).
Proof.
  intros Hok. exists (rec_bytes f). split; [by apply encodeFrame_bytes|by apply decodeFrame_bytes].
Qed.

Definition frame0 (track : string) (seq cap : Z) : frame :=
  mkFrame track "tokens" 7 seq true false cap [x61; x62].

Lemma rec_ok_frame0 : rec_ok (frame0 "t" 1 (-5)).
Proof. split; vm_compute; intuition discriminate. Qed.

Lemma record_frame_roundtrip_witness :
  exists bs, encodeFrame (frame0 "t" 1 (-5)) = Ok bs /\
    decodeFrame (mkReader (bs ++ [x00]) EOF) = (Ok (frame0 "t" 1 (-5)), mkReader [x00] EOF).
Proof. apply (record_frame_roundtrip (frame0 "t" 1 (-5)) [x00] EOF rec_ok_frame0). Defined.

(** the index of a recording is exact: one entry per frame in file order,
    with the frame's metadata, and [ReadPayload] at an entry's offset reads
    back that frame's access unit. *)
Theorem timeline_exact fs :
  Forall rec_ok fs ->
  exists tl, BuildTimeline (file_bytes fs) = Ok tl /\ length tl = length fs /\
    forall i e, tl !! i = Some e ->
      exists f, fs !! i = Some f /\ e = entry_of f (e_Offset e) /\
        ReadPayload (file_bytes fs) e = Ok (au_of_frame f).
Proof.
  intros Hok. exists (entries_from 12 fs). split_and!.
  - apply build_exact; [done|]. rewrite <- (app_nil_r eofMarker). apply stops_marker.
  - apply entries_length.
  - intros i e He. destruct (entries_lookup _ _ _ _ He) as (f & Hf & ->).
    exists f. split; [done|]. split; [done|]. cbn [entry_of e_Offset]. unfold ReadPayload. cbn [e_Offset entry_of].
    assert (drop (Z.to_nat (12 + zlen (concat (rec_bytes <$> take i fs)))) (file_bytes fs) =
            rec_bytes f ++ concat (rec_bytes <$> drop (S i) fs) ++ eofMarker) as ->.
    { unfold file_bytes. rewrite <- (take_drop_middle fs i f Hf) at 2.
      rewrite fmap_app, concat_app. cbn [fmap list_fmap concat]. rewrite <- !app_assoc, app_assoc.
      rewrite drop_app_length'; [done|]. rewrite length_app.
      pose proof zlen_file_header. unfold zlen in *. lia. }
    rewrite decodeFrame_bytes; [done|]. rewrite Forall_forall in Hok. apply Hok. by eapply list_elem_of_lookup_2.
Qed.

Lemma timeline_exact_witness :
  exists tl, BuildTimeline (file_bytes [frame0 "a" 1 10; frame0 "b" 1 20]) = Ok tl /\ length tl = 2%nat.
Proof.
  destruct (timeline_exact [frame0 "a" 1 10; frame0 "b" 1 20]) as (tl & E & Hl & _).
  - constructor; [split; vm_compute; intuition discriminate|].
    constructor; [split; vm_compute; intuition discriminate|constructor].
  - exists tl. split; [exact E|exact Hl].
Defined.

(** A recording cut off at any byte after its header is salvaged: the index
    holds exactly the frames that are complete in what is left, where the comment
    of [BuildTimeline] announces an error. *)
Theorem torn_recording_salvaged fs k :
  Forall rec_ok fs ->
  BuildTimeline (take (12 + k) (file_bytes fs)) = Ok (entries_from 12 (complete k fs)) /\
  exists rest, fs = complete k fs ++ rest.
Proof.
  intros Hok. split; [|apply complete_prefix]. unfold file_bytes.
  assert (length file_header = 12%nat) as Hh by by vm_compute.
  rewrite take_app_ge by lia. replace (12 + k - length file_header)%nat with k by lia.
  destruct (take_complete k fs Hok) as (tail & -> & Hst).
  destruct (complete_prefix k fs) as [rest E]. apply build_exact; [|done].
  rewrite E in Hok. by apply Forall_app in Hok as [Hok _].
Qed.

Lemma torn_recording_salvaged_witness :
  BuildTimeline (take (12 + 50) (file_bytes [frame0 "a" 1 10; frame0 "b" 1 20])) =
    Ok (entries_from 12 [frame0 "a" 1 10]).
Proof.
  apply (torn_recording_salvaged [frame0 "a" 1 10; frame0 "b" 1 20] 50).
  constructor; [split; vm_compute; intuition discriminate|].
  constructor; [split; vm_compute; intuition discriminate|constructor].
Defined.

(** ** Corrupt recordings *)

Lemma cut_app body rest lo hi : hi <= zlen body -> cut (body ++ rest) lo hi = cut body lo hi.
Proof.
  intros Hh. unfold cut, slice, zlen in *. destruct (decide (Z.to_nat lo <= length body)%nat) as [Hl|Hl].
  - rewrite drop_app_le by done. rewrite take_app_le; [done|]. rewrite length_drop. lia.
  - replace (Z.to_nat hi - Z.to_nat lo)%nat with 0%nat by lia. done.
Qed.

Lemma zlen_cut body lo hi : 0 <= lo <= hi -> hi <= zlen body -> zlen (cut body lo hi) = hi - lo.
Proof. intros Hl Hh. unfold cut, slice, zlen in *. rewrite length_take, length_drop. lia. Qed.

(** A body that parses is as long as its fields, and what follows is ignored. *)
Lemma parseBody_prefix body g rest :
  parseBody body = Ok g -> parseBody (body ++ rest) = Ok g /\ zlen (body_bytes g) <= zlen body.
Proof.
  unfold parseBody. rewrite body_len, zlen_app. pose proof (zlen_nonneg rest).
  destruct (zlen body <? 0 + 2) eqn:E1; [done|]. set (tl := be_value (cut body 0 (0 + 2))) in *.
  destruct (zlen body <? 0 + 2 + tl) eqn:E2; [done|]. set (kl := be_value (cut body (0 + 2 + tl) (0 + 2 + tl + 1))) in *.
  destruct (zlen body <? 0 + 2 + tl + 1) eqn:E3; [done|]. destruct (zlen body <? 0 + 2 + tl + 1 + kl) eqn:E4; [done|].
  destruct (zlen body <? _ + 8 + 4 + 1 + 8 + 4) eqn:E5; [done|].
  set (o := 0 + 2 + tl + 1 + kl) in *. set (pl := be_value (cut body (o + 8 + 4 + 1 + 8) (o + 8 + 4 + 1 + 8 + 4))) in *.
  destruct (zlen body <? o + 8 + 4 + 1 + 8 + 4 + pl) eqn:E6; [done|]. intros [= <-].
  assert (0 <= tl /\ 0 <= kl /\ 0 <= pl) as (Ht & Hk & Hp) by (unfold tl, kl, pl; repeat split; apply be_value_bound).
  cbn [fr_TrackName fr_Kind fr_Payload]. rewrite !bytes_of_string_of, !zlen_cut by lia.
  split; [|lia]. rewrite (cut_app body rest 0) by lia. fold tl.
  rewrite (cut_app body rest (0 + 2 + tl) (0 + 2 + tl + 1)) by lia. fold kl. fold o.
  rewrite (cut_app body rest (o + 8 + 4 + 1 + 8) (o + 8 + 4 + 1 + 8 + 4)) by lia. fold pl.
  rewrite !cut_app by lia. rewrite app_nth1 by (unfold zlen in *; lia).
  repeat match goal with |- context [?a <? ?b] => destruct (Z.ltb_spec a b); [lia|] end. done.
Qed.

(** A body too short for its fields. *)
Lemma parseBody_short f k : rec_ok f -> (k < length (body_bytes f))%nat -> exists e, parseBody (take k (body_bytes f)) = Err e.
Proof.
  intros Hok Hk. destruct (parseBody (take k (body_bytes f))) as [g|e] eqn:E; [|by exists e].
  destruct (parseBody_prefix _ _ (drop k (body_bytes f)) E) as [E' Hl]. rewrite take_drop, parseBody_bytes in E' by done.
  injection E' as <-. unfold zlen in Hl. rewrite length_take in Hl. lia.
Qed.

Lemma parseBody_err body e : parseBody body = Err e -> e = ErrCorruptHeader.
Proof. unfold parseBody. repeat case_match; congruence. Qed.

(** What makes [decodeFrame] fail as corrupt. *)
Definition corrupt (tail : list byte) : Prop := exists r, decodeFrame (mkReader tail EOF) = (Err ErrCorruptHeader, r).

Lemma corrupt_length len rest :
  length len = 4%nat -> len <> eofMarker -> maxFrameLen < be_value len -> corrupt (len ++ rest).
Proof.
  intros Hl Hn Hm. unfold corrupt, decodeFrame. rewrite ReadFull_bind by (unfold zlen; lia).
  rewrite bool_decide_eq_false_2 by done. cbv zeta. destruct (be_value len >? maxFrameLen) eqn:E; [by eexists|lia].
Qed.

Lemma corrupt_body f k rest :
  rec_ok f -> (k < length (body_bytes f))%nat -> corrupt (be_bytes 4 (Z.of_nat k) ++ take k (body_bytes f) ++ rest).
Proof.
  intros Hok Hk. destruct (parseBody_short f k Hok Hk) as [e He]. pose proof (parseBody_err _ _ He) as ->.
  pose proof (rec_len f Hok) as Hm. unfold zlen, maxFrameLen in Hm. change (Z.shiftl 64 20) with 67108864 in Hm.
  unfold corrupt, decodeFrame. rewrite ReadFull_bind by by rewrite zlen_be_bytes.
  assert (be_value (be_bytes 4 (Z.of_nat k)) = Z.of_nat k) as Hv by (apply be_value_bytes_id; unfold is_u; simpl; lia).
  rewrite bool_decide_eq_false_2.
  2:{ intros E. rewrite E in Hv. assert (be_value eofMarker = 4294967295) as E' by by vm_compute. lia. }
  cbv zeta. rewrite Hv. unfold maxFrameLen. change (Z.shiftl 64 20) with 67108864. destruct (_ >? _) eqn:E; [lia|].
  rewrite ReadFull_bind by (unfold zlen; rewrite length_take; lia). rewrite He. by eexists.
Qed.

Lemma build_refuses fs tail :
  Forall rec_ok fs -> corrupt tail -> BuildTimeline (file_header ++ concat (rec_bytes <$> fs) ++ tail) = Err ErrCorruptHeader.
Proof.
  intros Hok [r Hc]. unfold BuildTimeline, counted. rewrite readHeader_ok. cbn [rd_data].
  assert (length fs < S (length (file_header ++ concat (rec_bytes <$> fs) ++ tail)))%nat as Hf
    by (pose proof (frames_length fs); rewrite !length_app; lia).
  revert Hf. generalize (S (length (file_header ++ concat (rec_bytes <$> fs) ++ tail))) as fuel.
  generalize (0 + (zlen (file_header ++ concat (rec_bytes <$> fs) ++ tail) - zlen (concat (rec_bytes <$> fs) ++ tail))) as n.
  generalize (@nil Entry) as acc. induction Hok as [|f fs Hf Hok IH]; intros acc n [|fuel] Hl; simpl in Hl; try lia.
  - cbn [indexFrames fmap list_fmap concat app]. unfold counted. rewrite Hc. by rewrite decide_False by naive_solver.
  - cbn [indexFrames fmap list_fmap concat app]. unfold counted. rewrite <- app_assoc, decodeFrame_bytes by done. apply IH. lia.
Qed.

Lemma header_refused file : take 12 file <> file_header -> exists e, BuildTimeline file = Err e.
Proof.
  intros Hne. unfold BuildTimeline, counted. destruct (readHeader (mkReader file EOF)) as [[u|e] r] eqn:E; [exfalso|by eexists].
  unfold readHeader in E. apply rd_bind_inv in E as (hdr & r1 & E1 & E2). apply ReadFull_ok in E1 as (Hl & Hd & _); [|lia].
  cbn [rd_data] in Hd. destruct (bool_decide (slice hdr 0 8 = FileMagic)) eqn:Em; [|done]. apply bool_decide_eq_true in Em.
  cbn [negb] in E2. destruct (be_value (slice hdr 8 12) =? FormatVersion) eqn:Ev; [|done]. apply Z.eqb_eq in Ev.
  apply Hne. subst file. unfold zlen in Hl. rewrite take_app_length' by lia. rewrite <- (take_drop 8 hdr). unfold file_header.
  f_equal; [exact Em|]. apply be_value_inj.
  - rewrite length_drop, length_be_bytes. lia.
  - rewrite be_value_bytes_id by (unfold is_u, FormatVersion; lia). rewrite <- Ev. f_equal. unfold slice. rewrite take_ge; [done|]. rewrite length_drop. lia.
Qed.



(** * Seeking and merging *)

(** [e] is at least as late as [e'] in capture time, then Seq. *)
Definition not_before (e e' : Entry) : Prop :=
  e_CapturedAtMicros e' < e_CapturedAtMicros e \/
  (e_CapturedAtMicros e' = e_CapturedAtMicros e /\ e_Seq e' <= e_Seq e).

(** What [SeekSnapshot] should have at a track. *)
Definition snapshot_spec (tl : list Entry) (micros : Z) (t : RTrack) (o : option Entry) : Prop :=
  match o with
  | Some e => e ∈ tl /\ track_of e = t /\ e_CapturedAtMicros e <= micros /\
      forall e', e' ∈ tl -> track_of e' = t -> e_CapturedAtMicros e' <= micros -> not_before e e'
  | None => forall e', e' ∈ tl -> track_of e' = t -> micros < e_CapturedAtMicros e'
  end.

Lemma snapshotAdd_spec tl micros m e :
  (forall t, snapshot_spec tl micros t (m !! t)) ->
  forall t, snapshot_spec (tl ++ [e]) micros t (snapshotAdd micros m e !! t).
Proof.
  intros Hm t. specialize (Hm t).
  assert (forall o, snapshot_spec tl micros t o ->
     (track_of e = t -> e_CapturedAtMicros e <= micros -> match o with Some p => not_before p e | None => False end) ->
     snapshot_spec (tl ++ [e]) micros t o) as Hkeep.
  { intros [p|] Hp Hnew; simpl in *.
    - destruct Hp as (H1 & H2 & H3 & H4). split_and!; [apply elem_of_app; by left|done|done|].
      intros e' [Hin| ->%list_elem_of_singleton]%elem_of_app Ht Hc; auto.
    - intros e' [Hin| ->%list_elem_of_singleton]%elem_of_app Ht; [auto|].
      destruct (decide (e_CapturedAtMicros e <= micros)) as [Hc|Hc]; [by destruct (Hnew Ht Hc)|lia]. }
  unfold snapshotAdd. destruct (e_CapturedAtMicros e >? micros) eqn:E1.
  { apply Hkeep; [done|lia]. }
  assert (track_of e = t -> match m !! t with Some p => not_before e p | None => True end ->
     snapshot_spec (tl ++ [e]) micros t (Some e)) as Hset.
  { intros Ht Hb. simpl. split_and!; [apply elem_of_app; right; by apply list_elem_of_singleton|done|lia|].
    intros e' [Hin| ->%list_elem_of_singleton]%elem_of_app Ht' Hc; [|right; lia].
    destruct (m !! t) as [p|]; simpl in Hm.
    - destruct Hm as (_ & _ & _ & Hmax). specialize (Hmax e' Hin Ht' Hc). unfold not_before in *. lia.
    - specialize (Hm e' Hin Ht'). lia. }
  destruct (decide (track_of e = t)) as [Ht|Ht].
  - rewrite Ht. destruct (m !! t) as [p|] eqn:Ep.
    + destruct (_ || _) eqn:E2.
      * rewrite lookup_insert_eq. apply Hset; [done|]. unfold not_before. lia.
      * rewrite Ep. apply Hkeep; [done|]. intros _ _. unfold not_before. lia.
    + rewrite lookup_insert_eq. by apply Hset.
  - assert (match m !! track_of e with
            | Some prev => if (e_CapturedAtMicros e >? e_CapturedAtMicros prev)
                 || ((e_CapturedAtMicros e =? e_CapturedAtMicros prev) && (e_Seq e >? e_Seq prev))
               then <[track_of e := e]> m else m
            | None => <[track_of e := e]> m end !! t = m !! t) as ->.
    { destruct (m !! track_of e); [destruct (_ || _)|]; rewrite ?lookup_insert_ne by done; done. }
    apply Hkeep; done.
Qed.

(** [SeekSnapshot] at a moment gives, for every track, a latest frame
    captured at or before it (ties broken by Seq), and a track is absent
    exactly when it has no frame yet. *)
Theorem seek_snapshot_latest tl micros t :
  snapshot_spec tl micros t (SeekSnapshot tl micros !! t).
Proof.
  revert t. unfold SeekSnapshot. induction tl as [|e tl IH] using rev_ind; intros t.
  - simpl. rewrite lookup_empty. by intros e' ?%elem_of_nil.
  - rewrite foldl_app. by apply snapshotAdd_spec.
Qed.

(** ** The replayer *)

(** The callback applied to the frames in order, up to its first error or to
    the moment the context is done. *)
Fixpoint route_all {S} (ctx : nat -> option error) (pause : nat -> frame -> option error)
    (route : S -> frame -> S * option error) (i : nat) (s : S) (fs : list frame) : S * option error :=
  match ctx i, fs with
  | Some err, _ => (s, Some err)
  | None, [] => (s, None)
  | None, f :: fs' =>
      match pause i f with
      | Some err => (s, Some err)
      | None => match route s f with
                | (s', Some err) => (s', Some err)
                | (s', None) => route_all ctx pause route (Datatypes.S i) s' fs'
                end
      end
  end.

Lemma PublishInto_exact {S} ctx pause (route : S -> frame -> S * option error) fs tail fuel i s :
  Forall rec_ok fs -> stops tail -> (length fs < fuel)%nat ->
  PublishInto ctx pause route fuel i s (mkReader (concat (rec_bytes <$> fs) ++ tail) EOF) =
  route_all ctx pause route i s fs.
Proof.
  intros Hok Hst. revert fuel i s.
  induction Hok as [|f fs Hf Hok IH]; intros [|fuel] i s Hfuel; simpl in Hfuel; try lia.
  - destruct Hst as (e & r & E & He). cbn [PublishInto fmap list_fmap concat app route_all]. unfold Next.
    rewrite E. destruct (ctx i); [done|]. destruct He as [-> | ->]; done.
  - cbn [PublishInto fmap list_fmap concat route_all]. unfold Next. rewrite <- app_assoc, decodeFrame_bytes by done.
    destruct (ctx i); [done|]. destruct (pause i f); [done|].
    destruct (route s f) as [s' [err|]]; [done|]. apply IH. lia.
Qed.

(** replaying a recording, complete or cut off at any byte after its
    header, hands every complete frame to the callback, once and in file
    order, and ends without an error of its own: only the callback's first
    error, or a context that is done, stops it. *)
Theorem replay_visits_every_frame {S} ctx pause (route : S -> frame -> S * option error) fs k s :
  Forall rec_ok fs ->
  exists r, Open (take (12 + k) (file_bytes fs)) = Ok r /\
    PublishInto ctx pause route (Datatypes.S (length (rd_data r))) 0 s r =
    route_all ctx pause route 0 s (complete k fs).
Proof.
  intros Hok. unfold file_bytes.
  assert (length file_header = 12%nat) as Hh by by vm_compute.
  rewrite take_app_ge by lia. replace (12 + k - length file_header)%nat with k by lia.
  destruct (take_complete k fs Hok) as (tail & -> & Hst).
  eexists. unfold Open. rewrite readHeader_ok. split; [done|].
  destruct (complete_prefix k fs) as [rest E]. apply PublishInto_exact; [|done|].
  - rewrite E in Hok. by apply Forall_app in Hok as [Hok _].
  - cbn [rd_data]. rewrite length_app. pose proof (frames_length (complete k fs)). lia.
Qed.

Lemma replay_visits_every_frame_witness :
  exists r, Open (take (12 + 1000) (file_bytes [frame0 "a" 1 10; frame0 "b" 1 20])) = Ok r /\
    PublishInto (fun _ => None) (fun _ _ => None) (fun s f => (s ++ [fr_CapturedAtMicros f], None))
      (S (length (rd_data r))) 0 [] r = ([10; 20], None).
Proof.
  destruct (replay_visits_every_frame (fun _ => None) (fun _ _ => None)
              (fun s f => (s ++ [fr_CapturedAtMicros f], None))
              [frame0 "a" 1 10; frame0 "b" 1 20] 1000 []) as (r & E & H).
  - constructor; [split; vm_compute; intuition discriminate|].
    constructor; [split; vm_compute; intuition discriminate|constructor].
  - exists r. split; [exact E|]. rewrite H. vm_compute. reflexivity.
Defined.

(** * The asynchronous recorder

    [Write] and the locked half of [Close] are atomic with respect to each
    other ([closeMu]); the writer goroutine takes one record at a time; the
    rest of [Close] runs after the goroutine has returned.  The buffered writer
    is the sequence of bytes handed to it; a device that fills up keeps a
    prefix of it, [rc_device]. *)

Definition DefaultChannelDepth : Z := 1024.

Record recordedAU := mkRecordedAU {
  ra_track : string; ra_kind : string; ra_au : AccessUnit; ra_bytes : list byte }.

Record fileRecorder := mkFileRecorder {
  rc_ch : chan recordedAU;
  rc_buf : list byte;        (* everything written to the bufio.Writer *)
  rc_dropped : Z;
  rc_closed : bool;
}.

Definition NewFileRecorderDepth (depth : Z) : fileRecorder :=
  let depth := if depth <=? 0 then DefaultChannelDepth else depth in
  mkFileRecorder (make_chan recordedAU (Z.to_nat depth)) (w_out (writeHeader (mkWriter [] [])).2) 0 false.

Definition recWrite (r : fileRecorder) (trackName kind : string) (au : AccessUnit) : option fileRecorder :=
  let rec := mkRecordedAU trackName kind au (au_Bytes au) in
  if rc_closed r
  then Some (mkFileRecorder (rc_ch r) (rc_buf r) (u64 (rc_dropped r + 1)) (rc_closed r))
  else match try_send (rc_ch r) rec with
       | SendPanic => None
       | Sent c => Some (mkFileRecorder c (rc_buf r) (rc_dropped r) (rc_closed r))
       | SendFull => Some (mkFileRecorder (rc_ch r) (rc_buf r) (u64 (rc_dropped r + 1)) (rc_closed r))
       end.

Definition recFrame (rec : recordedAU) (now : Z) : frame :=
  mkFrame (ra_track rec) (ra_kind rec) (au_PTSMicro (ra_au rec)) (au_Seq (ra_au rec))
    (au_Keyframe (ra_au rec)) (au_Discontinuity (ra_au rec)) now (ra_bytes rec).

Definition encoded (f : frame) : list byte :=
  match encodeFrame f with Ok bs => bs | Err _ => [] end.

(** One round of [run]: [None] while the channel is empty and open, [Some
    None] when the goroutine returns. *)
Definition recRun (r : fileRecorder) (now : Z) : option (option (frame * fileRecorder)) :=
  match try_recv (rc_ch r) with
  | RecvEmpty => None
  | RecvClosed => Some None
  | Got rec c =>
      let f := recFrame rec now in
      Some (Some (f, mkFileRecorder c (rc_buf r ++ encoded f) (rc_dropped r) (rc_closed r)))
  end.

(** The locked half of [Close]; the bool says whether the caller goes on. *)
Definition recCloseBegin (r : fileRecorder) : option (bool * fileRecorder) :=
  if rc_closed r then Some (false, r)
  else if ch_closed (rc_ch r) then None
  else Some (true, mkFileRecorder (close_chan (rc_ch r)) (rc_buf r) (rc_dropped r) true).

(** The rest of [Close] on a device that holds [room] bytes: the file's
    content and whether an error is returned. *)
Definition recCloseFinish (room : nat) (r : fileRecorder) : list byte * bool :=
  let buf := rc_buf r ++ eofMarker in
  (take room buf, (room <? length buf)%nat).

Record rconf := mkRconf {
  rk : fileRecorder;
  rk_accepted : list recordedAU; (* sent to the channel, in order *)
  rk_frames : list frame;        (* built by the writer goroutine, in order *)
  rk_attempts : nat;             (* calls of Write *)
  rk_done : bool;                (* the writer goroutine returned *)
}.

Inductive rcstep : rconf -> option rconf -> Prop :=
  | rc_write r acc fs n d track kind au :
      rcstep (mkRconf r acc fs n d)
        (r' ← recWrite r track kind au;
         Some (mkRconf r'
                 (if (length (ch_buf (rc_ch r)) <? length (ch_buf (rc_ch r')))%nat
                  then acc ++ [mkRecordedAU track kind au (au_Bytes au)] else acc)
                 fs (S n) d))
  | rc_run r acc fs n now f r' :
      recRun r now = Some (Some (f, r')) ->
      rcstep (mkRconf r acc fs n false) (Some (mkRconf r' acc (fs ++ [f]) n false))
  | rc_return r acc fs n now :
      recRun r now = Some None ->
      rcstep (mkRconf r acc fs n false) (Some (mkRconf r acc fs n true))
  | rc_close r acc fs n d :
      rcstep (mkRconf r acc fs n d)
        (res ← recCloseBegin r; Some (mkRconf res.2 acc fs n d)).

Definition rcsteps : rconf -> rconf -> Prop := rtc (fun c c' => rcstep c (Some c')).
Definition rinit (depth : Z) : rconf := mkRconf (NewFileRecorderDepth depth) [] [] 0 false.

(** The record a frame was built from, but for the capture clock. *)
Definition frame_matches (f : frame) (rec : recordedAU) : Prop :=
  exists now, f = recFrame rec now.

Record rec_inv (c : rconf) : Prop := {
  ri_closed : ch_closed (rc_ch (rk c)) = rc_closed (rk c);
  ri_cap : (1 <= ch_cap (rc_ch (rk c)))%nat;
  ri_len : (length (ch_buf (rc_ch (rk c))) <= ch_cap (rc_ch (rk c)))%nat;
  ri_buf : rc_buf (rk c) = file_header ++ concat (encoded <$> rk_frames c);
  ri_acc : exists taken, rk_accepted c = taken ++ ch_buf (rc_ch (rk c)) /\
             Forall2 frame_matches (rk_frames c) taken;
  ri_count : rc_dropped (rk c) = u64 (Z.of_nat (rk_attempts c) - zlen (rk_accepted c));
  ri_done : rk_done c = true -> rc_closed (rk c) = true /\ ch_buf (rc_ch (rk c)) = [];
}.

Lemma u64_succ z : u64 (u64 z + 1) = u64 (z + 1).
Proof. unfold u64. by rewrite Zplus_mod_idemp_l. Qed.

Lemma rec_write_ok r acc fs n d track kind au :
  rec_inv (mkRconf r acc fs n d) ->
  exists r', recWrite r track kind au = Some r' /\
    rec_inv (mkRconf r' (if (length (ch_buf (rc_ch r)) <? length (ch_buf (rc_ch r')))%nat
                  then acc ++ [mkRecordedAU track kind au (au_Bytes au)] else acc) fs (S n) d).
Proof.
  intros [H1 H2 H3 H4 (taken & H5 & H6) H7 H8]. cbn [rk rk_accepted rk_frames rk_attempts rk_done] in *.
  assert (forall c, ch_buf c = ch_buf (rc_ch r) -> c = rc_ch r ->
    rec_inv (mkRconf (mkFileRecorder c (rc_buf r) (u64 (rc_dropped r + 1)) (rc_closed r)) acc fs (S n) d)) as Hdrop.
  { intros c _ ->. split; cbn [rk rk_accepted rk_frames rk_attempts rk_done rc_ch rc_buf rc_dropped rc_closed]; eauto.
    rewrite H7, u64_succ. f_equal. lia. }
  unfold recWrite, try_send. rewrite H1. destruct (rc_closed r) eqn:Ec.
  { eexists. split; [done|]. cbn [rc_ch]. rewrite Nat.ltb_irrefl. by apply Hdrop. }
  destruct (length (ch_buf (rc_ch r)) <? ch_cap (rc_ch r))%nat eqn:El; eexists; (split; [done|]);
    cbn [rc_ch ch_buf]; [|rewrite Nat.ltb_irrefl; by apply Hdrop].
  rewrite length_app. cbn [length].
  assert ((length (ch_buf (rc_ch r)) <? length (ch_buf (rc_ch r)) + 1)%nat = true) as -> by (apply Nat.ltb_lt; lia).
  split; cbn [rk rk_accepted rk_frames rk_attempts rk_done rc_ch rc_buf rc_dropped rc_closed ch_buf ch_cap ch_closed];
    try done.
  - rewrite length_app; simpl; lia.
  - exists taken. split; [by rewrite H5, <- app_assoc|done].
  - rewrite H7. f_equal. rewrite zlen_app. unfold zlen at 3. simpl. lia.
  - intros Hd. by destruct (H8 Hd).
Qed.

Lemma rcstep_ok c oc : rec_inv c -> rcstep c oc -> exists c', oc = Some c' /\ rec_inv c'.
Proof.
  intros Hinv Hst. destruct Hst as [r acc fs n d track kind au|r acc fs n now f r' Hr|r acc fs n now Hr|r acc fs n d].
  - destruct (rec_write_ok r acc fs n d track kind au Hinv) as (r' & -> & H). eexists. split; [done|exact H].
  - eexists. split; [done|]. destruct Hinv as [H1 H2 H3 H4 (taken & H5 & H6) H7 H8].
    cbn [rk rk_accepted rk_frames rk_attempts rk_done] in *. unfold recRun, try_recv in Hr.
    destruct (ch_buf (rc_ch r)) as [|rec b] eqn:Eb; [by destruct (ch_closed (rc_ch r))|].
    injection Hr as <- <-.
    split; cbn [rk rk_accepted rk_frames rk_attempts rk_done rc_ch rc_buf rc_dropped rc_closed ch_buf ch_cap ch_closed];
      try done.
    + simpl in H3. lia.
    + rewrite H4, fmap_app, concat_app, <- app_assoc. cbn [fmap list_fmap concat]. by rewrite app_nil_r.
    + exists (taken ++ [rec]). split; [by rewrite H5, <- app_assoc|]. apply Forall2_app; [done|].
      constructor; [by exists now|constructor].
  - eexists. split; [done|]. destruct Hinv as [H1 H2 H3 H4 H5 H7 H8]. split; try done.
    intros _. cbn [rk]. unfold recRun, try_recv in Hr. cbn [rk] in H1.
    destruct (ch_buf (rc_ch r)) eqn:Eb; [|done]. rewrite <- H1. by destruct (ch_closed (rc_ch r)).
  - unfold recCloseBegin. pose proof Hinv as [H1 H2 H3 H4 H5 H7 H8]. cbn [rk] in H1. rewrite H1.
    destruct (rc_closed r) eqn:Ec; eexists; (split; [done|]); [done|]. split; try done.
    intros Hd. by destruct (H8 Hd) as [Hd' _]; cbn [rk] in Hd'; congruence.
Qed.

Lemma rinit_ok depth : rec_inv (rinit depth).
Proof.
  split; cbn [rk rinit NewFileRecorderDepth rc_ch]; try done.
  - unfold DefaultChannelDepth. cbn [ch_cap make_chan]. split_ifs; lia.
  - simpl. lia.
  - by exists [].
Qed.

Lemma rcsteps_ok depth c : rcsteps (rinit depth) c -> rec_inv c.
Proof.
  intros H. assert (rec_inv (rinit depth)) as H0 by apply rinit_ok.
  induction H as [|c1 c2 c3 Hst _ IH]; [done|]. apply IH.
  by destruct (rcstep_ok c1 (Some c2) H0 Hst) as (c' & [= <-] & Hc').
Qed.

(** Once the goroutine has returned, [Close] on a device with room leaves the
    file of the frames it built, which are the accepted units in order. *)
Lemma rec_done_file c room :
  rec_inv c -> rk_done c = true -> Forall rec_ok (rk_frames c) ->
  (length (rc_buf (rk c) ++ eofMarker) <= room)%nat ->
  recCloseFinish room (rk c) = (file_bytes (rk_frames c), false) /\
  BuildTimeline (file_bytes (rk_frames c)) = Ok (entries_from 12 (rk_frames c)) /\
  Forall2 frame_matches (rk_frames c) (rk_accepted c).
Proof.
  intros Hinv Hd Hok Hroom. destruct (ri_done _ Hinv Hd) as [_ Hb].
  destruct (ri_acc _ Hinv) as (taken & Ha & Hf). rewrite Hb, app_nil_r in Ha. subst taken.
  assert (encoded <$> rk_frames c = rec_bytes <$> rk_frames c) as Henc.
  { clear -Hok. induction Hok as [|f fs Hf _ IH]; [done|]. csimpl. rewrite IH. unfold encoded.
    by rewrite encodeFrame_bytes. }
  unfold recCloseFinish. split_and!; [| |done].
  - rewrite take_ge by done. destruct (_ <? _)%nat eqn:E; [lia|].
    rewrite (ri_buf _ Hinv), Henc, <- app_assoc. done.
  - apply build_exact; [done|]. rewrite <- (app_nil_r eofMarker). apply stops_marker.
Qed.

(** C16: the recorder never sends on its closed channel in any interleaving of
    writers, the writer goroutine and [Close]; every [Write] is either
    accepted or counted as dropped; and once the goroutine has returned, a
    [Close] on a device with room leaves a file whose index lists exactly the
    accepted units, in the order they were accepted. *)
Theorem recorder_file_complete depth c room :
  rcsteps (rinit depth) c ->
  (forall oc, rcstep c oc -> oc <> None) /\
  rc_dropped (rk c) = u64 (Z.of_nat (rk_attempts c) - zlen (rk_accepted c)) /\
  (rk_done c = true -> Forall rec_ok (rk_frames c) ->
   (length (rc_buf (rk c) ++ eofMarker) <= room)%nat ->
   recCloseFinish room (rk c) = (file_bytes (rk_frames c), false) /\
   BuildTimeline (file_bytes (rk_frames c)) = Ok (entries_from 12 (rk_frames c)) /\
   Forall2 frame_matches (rk_frames c) (rk_accepted c)).
Proof.
  intros Hr. apply rcsteps_ok in Hr as Hinv. split_and!.
  - intros oc Hst. by destruct (rcstep_ok c oc Hinv Hst) as (c' & -> & _).
  - apply (ri_count _ Hinv).
  - intros Hd Hok Hroom. by apply rec_done_file.
Qed.

(** One unit written, the recorder closed, the goroutine drained. *)
Definition demo_rec : recordedAU := mkRecordedAU "t" "tokens" (au0 3 true 2) [x00; x00].
Definition demo_frame : frame := recFrame demo_rec 17.
Definition demo_r (buf : list recordedAU) (fs : list frame) (closed : bool) : fileRecorder :=
  mkFileRecorder (mkChan buf 4 closed) (file_header ++ concat (encoded <$> fs)) 0 closed.

Lemma rcstep_eq c oc oc' : rcstep c oc -> oc = oc' -> rcstep c oc'.
Proof. by intros H <-. Qed.

Lemma demo_recording : rcsteps (rinit 4) (mkRconf (demo_r [] [demo_frame] true) [demo_rec] [demo_frame] 1 true).
Proof.
  apply rtc_l with (mkRconf (demo_r [demo_rec] [] false) [demo_rec] [] 1 false).
  { eapply rcstep_eq; [apply (rc_write _ _ _ _ _ "t" "tokens" (au0 3 true 2))|vm_compute; reflexivity]. }
  apply rtc_l with (mkRconf (demo_r [demo_rec] [] true) [demo_rec] [] 1 false).
  { eapply rcstep_eq; [apply rc_close|vm_compute; reflexivity]. }
  apply rtc_l with (mkRconf (demo_r [] [demo_frame] true) [demo_rec] [demo_frame] 1 false).
  { apply (rc_run _ _ [] _ 17 demo_frame). vm_compute; reflexivity. }
  apply rtc_once. apply (rc_return _ _ _ _ 0). reflexivity.
Qed.

Lemma recorder_file_complete_witness :
  BuildTimeline (file_bytes [demo_frame]) = Ok (entries_from 12 [demo_frame]).
Proof.
  destruct (recorder_file_complete 4 _ 200 demo_recording) as (_ & _ & H). apply H.
  - reflexivity.
  - constructor; [split; vm_compute; intuition discriminate|constructor].
  - apply Nat.leb_le. vm_compute. reflexivity.
Defined.
