(* ===== verification/SessionStore.v ===== *)
(** * Parked sessions

    The in-memory store of [server/session_store.go].  A parked session holds
    its receivers by address (as in [Pubsub.v]) and the closure to call when
    it is evicted; the evictions an operation performs are returned as the
    list of the entries evicted, in order.  The order in which a Go map is
    iterated is the argument [order]. *)

From S2P Require Import Prelude.
From Stdlib Require Strings.Ascii.

Section SessionStore.
Context {C : Type}. (* the onEvict closures *)

Record persistedSession := mkParked {
  ps_id : string;
  ps_receivers : gmap string nat;
  ps_expiresAt : Z;
  ps_onEvict : C;
}.

Record memorySessionStore := mkSessionStore {
  byID : gmap string persistedSession;
  resumeTTL : Z;
  maxParked : Z;
}.

Definition defaultResumeWindow : Z := 60 * 1000000000.
Definition defaultMaxParked : Z := 1024.

Definition NewMemorySessionStoreWithCap (ttl maxParked : Z) : memorySessionStore :=
  mkSessionStore ∅ (if ttl <=? 0 then defaultResumeWindow else ttl)
    (if maxParked <=? 0 then defaultMaxParked else maxParked).

Definition NewMemorySessionStore (ttl : Z) : memorySessionStore :=
  NewMemorySessionStoreWithCap ttl defaultMaxParked.

Definition NUL : string := String (Ascii.ascii_of_N 0) EmptyString.

Definition scopedKey (tenant sessionID : string) : string := (tenant +:+ NUL +:+ sessionID)%string.

Definition store_entry : Type := string * persistedSession.

(** How [range] may order a map. *)
Definition map_order : Type := gmap string persistedSession -> list store_entry.
Definition is_order (order : map_order) : Prop := forall m, order m ≡ₚ map_to_list m.

Context (order : map_order).

(** [evictExpiredLocked], the evicted entries in order; the count the source
    returns is their number. *)
Definition evictExpiredLocked (m : gmap string persistedSession) (now : Z)
    : gmap string persistedSession * list store_entry :=
  foldl (fun (st : gmap string persistedSession * list store_entry) kp =>
           let '(m, out) := st in
           let '(id, p) := kp in
           if now >? ps_expiresAt p then (delete id m, out ++ [(id, p)]) else (m, out))
        (m, []) (order m).

Definition EvictExpired (s : memorySessionStore) (now : Z) : memorySessionStore * list store_entry :=
  let '(m, out) := evictExpiredLocked (byID s) now in
  (mkSessionStore m (resumeTTL s) (maxParked s), out).

(** The inner loop of [Park]: the soonest-expiring entry. *)
Definition oldestEntry (m : gmap string persistedSession) : option store_entry :=
  foldl (fun oldest kp =>
           match oldest with
           | None => Some kp
           | Some (k0, p0) => if ps_expiresAt kp.2 <? ps_expiresAt p0 then Some kp else oldest
           end) None (order m).

(** The cap loop; each round removes an entry, so the map's size is fuel
    enough.  [None]: a nil dereference. *)
Fixpoint evictToCap (fuel : nat) (max : Z) (m : gmap string persistedSession) (out : list store_entry)
    : option (gmap string persistedSession * list store_entry) :=
  match fuel with
  | O => Some (m, out)
  | S fuel' =>
      if (max >? 0) && (Z.of_nat (size m) >=? max)
      then match oldestEntry m with
           | None => None
           | Some (k, p) => evictToCap fuel' max (delete k m) (out ++ [(k, p)])
           end
      else Some (m, out)
  end.

(** [now1] and [now2] are the two readings of the clock. *)
Definition Park (s : memorySessionStore) (now1 now2 : Z) (tenant sessionID : string)
    (receivers : gmap string nat) (onEvict : C) : option (memorySessionStore * list store_entry) :=
  let '(m, out) := evictExpiredLocked (byID s) now1 in
  res ← evictToCap (S (size m)) (maxParked s) m out;
  let '(m, out) := res in
  let m := <[scopedKey tenant sessionID :=
               mkParked sessionID receivers (now2 + resumeTTL s) onEvict]> m in
  Some (mkSessionStore m (resumeTTL s) (maxParked s), out).

Definition Resume (s : memorySessionStore) (now : Z) (tenant sessionID : string)
    : option (gmap string nat) * memorySessionStore * list store_entry :=
  let '(m, out) := evictExpiredLocked (byID s) now in
  let key := scopedKey tenant sessionID in
  match m !! key with
  | None => (None, mkSessionStore m (resumeTTL s) (maxParked s), out)
  | Some p => (Some (ps_receivers p), mkSessionStore (delete key m) (resumeTTL s) (maxParked s), out)
  end.

(** * Properties *)

Context (order_ok : is_order order).

Definition expired (now : Z) (kp : store_entry) : Prop := ps_expiresAt kp.2 < now.

#[global] Instance expired_dec now kp : Decision (expired now kp).
Proof. unfold expired. apply _. Defined.

Lemma evictExpired_fold now l m out :
  let r := foldl (fun (st : gmap string persistedSession * list store_entry) kp =>
           let '(m, out) := st in
           let '(id, p) := kp in
           if now >? ps_expiresAt p then (delete id m, out ++ [(id, p)]) else (m, out)) (m, out) l in
  r.2 = out ++ filter (expired now) l /\
  forall k, r.1 !! k = if decide (k ∈ (filter (expired now) l).*1) then None else m !! k.
Proof.
  revert m out; induction l as [|[k0 p0] l IH]; intros m out; simpl.
  { rewrite app_nil_r. split; [done|]. intros k. done. }
  rewrite filter_cons. destruct (now >? ps_expiresAt p0) eqn:E.
  - rewrite (decide_True (P := expired now (k0, p0))) by (unfold expired; simpl; lia).
    destruct (IH (delete k0 m) (out ++ [(k0, p0)])) as [H1 H2].
    cbn [fst snd] in *. split; [by rewrite H1, <- app_assoc|]. intros k. rewrite H2.
    change (((k0, p0) :: filter (expired now) l).*1) with (k0 :: (filter (expired now) l).*1).
    destruct (decide (k = k0)) as [-> | Hk].
    + rewrite lookup_delete_eq. set (L := (filter (expired now) l).*1).
      destruct (decide (k0 ∈ L)); (destruct (decide (k0 ∈ k0 :: L)) as [|Hn]; [done|exfalso; apply Hn; left]).
    + rewrite lookup_delete_ne by done. apply decide_ext. rewrite elem_of_cons. tauto.
  - rewrite (decide_False (P := expired now (k0, p0))) by (unfold expired; simpl; lia). apply IH.
Qed.

(** The sweep removes the expired entries, each evicted once. *)
Lemma evictExpired_spec m now :
  (evictExpiredLocked m now).2 ≡ₚ filter (expired now) (map_to_list m) /\
  (evictExpiredLocked m now).1 = filter (fun kp => ~ expired now kp) m.
Proof.
  unfold evictExpiredLocked. destruct (evictExpired_fold now (order m) m []) as [H1 H2].
  simpl in *. split; [rewrite H1; simpl; by rewrite (order_ok m)|].
  apply map_eq. intros k. rewrite H2. case_decide as Hd.
  - apply list_elem_of_fmap in Hd as ([k' p] & -> & Hin). apply list_elem_of_filter in Hin as [Hp Hin].
    rewrite (order_ok m) in Hin. apply elem_of_map_to_list in Hin.
    symmetry. apply map_lookup_filter_None. right. intros p' Hp'. simpl in *.
    assert (p = p') as <- by congruence. tauto.
  - destruct (m !! k) as [p|] eqn:Em.
    + symmetry. apply map_lookup_filter_Some. split; [done|]. intros Hx. apply Hd.
      apply list_elem_of_fmap. exists (k, p). split; [done|]. apply list_elem_of_filter. split; [done|].
      rewrite (order_ok m). by apply elem_of_map_to_list.
    + symmetry. apply map_lookup_filter_None. by left.
Qed.

Lemma map_filter_split (P : store_entry -> Prop) `{!forall x, Decision (P x)} (m : gmap string persistedSession) :
  map_to_list m ≡ₚ filter P (map_to_list m) ++ map_to_list (filter (fun kp => ~ P kp) m).
Proof.
  rewrite (map_filter_alt (fun kp => ~ P kp) m).
  assert (map_to_list (list_to_map (filter (fun kp => ~ P kp) (map_to_list m)) : gmap string persistedSession)
          ≡ₚ filter (fun kp => ~ P kp) (map_to_list m)) as ->.
  { apply map_to_list_to_map. apply (sublist_NoDup _ (map_to_list m).*1); [apply NoDup_fst_map_to_list|].
    generalize (map_to_list m). intros l. induction l as [|x l IH]; [done|]. rewrite filter_cons.
    destruct (decide _); by constructor. }
  generalize (map_to_list m). intros l. induction l as [|x l IH]; [done|]. rewrite !filter_cons.
  destruct (decide (P x)); [rewrite decide_False by tauto|rewrite decide_True by tauto].
  - simpl. by f_equiv.
  - rewrite <- Permutation_middle. by f_equiv.
Qed.

(** Nothing is lost by the sweep: an entry is kept or evicted. *)
Lemma evictExpired_split m now :
  map_to_list m ≡ₚ (evictExpiredLocked m now).2 ++ map_to_list (evictExpiredLocked m now).1.
Proof.
  destruct (evictExpired_spec m now) as [-> ->]. apply map_filter_split.
Qed.

Lemma oldest_fold l acc :
  match foldl (fun oldest (kp : store_entry) =>
           match oldest with
           | None => Some kp
           | Some (k0, p0) => if ps_expiresAt kp.2 <? ps_expiresAt p0 then Some kp else oldest
           end) acc l with
  | None => acc = None /\ l = []
  | Some kp => (acc = Some kp \/ kp ∈ l) /\
      (forall kp', acc = Some kp' \/ kp' ∈ l -> ps_expiresAt kp.2 <= ps_expiresAt kp'.2)
  end.
Proof.
  revert acc; induction l as [|x l IH]; intros acc; simpl.
  { destruct acc as [kp|]; [|done]. split; [by left|]. intros kp' [[= <-]|Hin]; [done|by apply elem_of_nil in Hin]. }
  match goal with |- context [foldl _ ?a l] => set (acc' := a) end. specialize (IH acc').
  destruct (foldl _ acc' l) as [kp|].
  2:{ destruct IH as [IH _]. unfold acc' in IH. destruct acc as [[k0 p0]|]; [|done]. by destruct (_ <? _). }
  destruct IH as [IH1 IH2]. unfold acc' in *. destruct acc as [[k0 p0]|].
  - destruct (ps_expiresAt x.2 <? ps_expiresAt p0) eqn:E.
    + split; [destruct IH1 as [[= <-]|IH1]; right; [left|by right]|].
      intros kp' [[= <-]|[-> | Hin]%elem_of_cons]; [|by apply IH2; left|by apply IH2; right].
      specialize (IH2 x (or_introl eq_refl)). simpl. lia.
    + split; [destruct IH1 as [IH1|IH1]; [by left|right; by right]|].
      intros kp' [Heq|[-> | Hin]%elem_of_cons]; [by apply IH2; left| |by apply IH2; right].
      specialize (IH2 (k0, p0) (or_introl eq_refl)). simpl in *. lia.
  - split; [destruct IH1 as [[= <-]|IH1]; right; [left|by right]|].
    intros kp' [?|[-> | Hin]%elem_of_cons]; [done|by apply IH2; left|by apply IH2; right].
Qed.

Lemma oldestEntry_spec m :
  m <> ∅ ->
  exists k p, oldestEntry m = Some (k, p) /\ m !! k = Some p /\
    forall k' p', m !! k' = Some p' -> ps_expiresAt p <= ps_expiresAt p'.
Proof.
  intros Hne. pose proof (oldest_fold (order m) None) as H. change (foldl _ None (order m)) with (oldestEntry m) in H.
  destruct (oldestEntry m) as [[k p]|].
  - destruct H as [[?|Hin] Hmin]; [done|]. rewrite (order_ok m) in Hin. apply elem_of_map_to_list in Hin.
    exists k, p. split_and!; [done|done|]. intros k' p' Hp'. apply (Hmin (k', p')). right.
    rewrite (order_ok m). by apply elem_of_map_to_list.
  - destruct H as [_ Hl]. exfalso. apply Hne. apply map_to_list_empty_iff.
    apply Permutation_nil_r. rewrite <- (order_ok m), Hl. done.
Qed.

(** The cap loop: it ends below the cap, loses nothing, and evicts only
    entries that expire no later than every entry it keeps. *)
Lemma evictToCap_spec fuel max m out :
  (size m < fuel)%nat -> 0 < max ->
  exists m' ev, evictToCap fuel max m out = Some (m', out ++ ev) /\
    Z.of_nat (size m') < max /\ map_to_list m ≡ₚ ev ++ map_to_list m' /\ m' ⊆ m /\
    (forall k p k' p', (k, p) ∈ ev -> m' !! k' = Some p' -> ps_expiresAt p <= ps_expiresAt p').
Proof.
  intros Hf Hmax. revert m out Hf. induction fuel as [|fuel IH]; intros m out Hf; [lia|]. simpl.
  destruct ((max >? 0) && (Z.of_nat (size m) >=? max)) eqn:E.
  - destruct (oldestEntry_spec m) as (k & p & -> & Hk & Hmin).
    { intros ->. rewrite map_size_empty in E. lia. }
    assert (size m = S (size (delete k m))) as Hsz.
    { rewrite map_size_delete_Some by eauto. assert (0 < size m)%nat; [|lia].
      apply Nat.neq_0_lt_0. intros H%map_size_empty_inv. rewrite H in Hk. done. }
    destruct (IH (delete k m) (out ++ [(k, p)])) as (m' & ev & -> & H1 & H2 & H3 & H4); [lia|].
    exists m', ((k, p) :: ev). rewrite <- app_assoc. split_and!; [done|done| | |].
    + rewrite <- (insert_delete_id m k p Hk) at 1. rewrite map_to_list_insert by apply lookup_delete_eq.
      simpl. by f_equiv.
    + etrans; [exact H3|apply delete_subseteq].
    + intros k1 p1 k2 p2 [[= -> ->]|Hin]%elem_of_cons Hp2; [|by eauto].
      eapply lookup_weaken in Hp2; [|exact H3]. apply lookup_delete_Some in Hp2 as [_ Hp2]. eauto.
  - exists m, []. rewrite app_nil_r. split_and!; [done|lia|done|done|].
    by intros k p k' p' []%elem_of_nil.
Qed.

Lemma park_spec s now1 now2 tenant id rs onEvict :
  0 < maxParked s ->
  exists s' ev kept, Park s now1 now2 tenant id rs onEvict = Some (s', ev) /\
    byID s' = <[scopedKey tenant id := mkParked id rs (now2 + resumeTTL s) onEvict]> kept /\
    resumeTTL s' = resumeTTL s /\ maxParked s' = maxParked s /\
    Z.of_nat (size kept) < maxParked s /\ kept ⊆ byID s /\
    map_to_list (byID s) ≡ₚ ev ++ map_to_list kept /\
    (forall k p, kept !! k = Some p -> now1 <= ps_expiresAt p) /\
    (forall k p k' p', (k, p) ∈ ev -> kept !! k' = Some p' ->
       ps_expiresAt p < now1 \/ ps_expiresAt p <= ps_expiresAt p').
Proof.
  intros Hmax. unfold Park. pose proof (evictExpired_spec (byID s) now1) as [He1 He2].
  pose proof (evictExpired_split (byID s) now1) as Hsp.
  destruct (evictExpiredLocked (byID s) now1) as [m out]. cbn [fst snd] in *.
  destruct (evictToCap_spec (S (size m)) (maxParked s) m out) as (m' & ev & -> & H1 & H2 & H3 & H4); [lia|done|].
  cbn [mbind option_bind]. exists (mkSessionStore (<[scopedKey tenant id :=
     mkParked id rs (now2 + resumeTTL s) onEvict]> m') (resumeTTL s) (maxParked s)), (out ++ ev), m'.
  split_and!; try done.
  - etrans; [exact H3|]. rewrite He2. apply map_filter_subseteq.
  - by rewrite Hsp, H2, app_assoc.
  - intros k p Hp. eapply lookup_weaken in Hp; [|exact H3]. rewrite He2 in Hp.
    apply map_lookup_filter_Some in Hp as [_ Hp]. unfold expired in Hp. simpl in Hp. lia.
  - intros k p k' p' [Hin|Hin]%elem_of_app Hp'; [left|right; eauto].
    rewrite He1 in Hin. apply list_elem_of_filter in Hin as [Hin _]. exact Hin.
Qed.
End SessionStore.
Arguments memorySessionStore : clear implicits.
Arguments persistedSession : clear implicits.
Arguments store_entry : clear implicits.

(** ** Claims *)

(** parking a session never fails and accounts for every entry: the
    entries present before are exactly the ones evicted (each handed to its
    callback once) and the ones kept; fewer than the cap are kept before the
    new entry is added; what is kept has not expired, and what is evicted had
    expired or expires no later than everything kept. *)
Theorem park_accounts_for_every_entry {C} (order : map_order) (s : memorySessionStore C)
    now1 now2 tenant id rs onEvict :
  is_order order -> 0 < maxParked s ->
  exists s' ev kept, Park order s now1 now2 tenant id rs onEvict = Some (s', ev) /\
    byID s' = <[scopedKey tenant id := mkParked id rs (now2 + resumeTTL s) onEvict]> kept /\
    map_to_list (byID s) ≡ₚ ev ++ map_to_list kept /\
    Z.of_nat (size (byID s')) <= maxParked s' /\
    (forall k p, kept !! k = Some p -> now1 <= ps_expiresAt p) /\
    (forall k p k' p', (k, p) ∈ ev -> kept !! k' = Some p' ->
       ps_expiresAt p < now1 \/ ps_expiresAt p <= ps_expiresAt p').
Proof.
  intros Ho Hmax. destruct (park_spec order Ho s now1 now2 tenant id rs onEvict Hmax)
    as (s' & ev & kept & E & H1 & H2 & H3 & H4 & H5 & H6 & H7 & H8).
  exists s', ev, kept. split_and!; try done. rewrite H1, H3, map_size_insert.
  destruct (kept !! scopedKey tenant id); unfold Datatypes.id; lia.
Qed.

Lemma park_accounts_for_every_entry_witness :
  exists s' ev kept, Park map_to_list (mkSessionStore {[ "k"%string := mkParked "k" ∅ 5 1%nat ]} 60 1) 9 9 "t" "id" ∅ 2%nat
      = Some (s', ev) /\
    map_to_list (byID (mkSessionStore {[ "k"%string := mkParked "k" ∅ 5 1%nat ]} 60 1)) ≡ₚ ev ++ map_to_list kept.
Proof.
  destruct (park_accounts_for_every_entry map_to_list
              (mkSessionStore {[ "k"%string := mkParked "k" ∅ 5 1%nat ]} 60 1) 9 9 "t" "id" ∅ 2%nat)
    as (s' & ev & kept & E & _ & H & _).
  - by intros m.
  - reflexivity.
  - exists s', ev, kept. split; [exact E|exact H].
Defined.

(** a parked session is resumed at most once: until its expiry [Resume]
    returns its receivers and takes the entry out without evicting it, a
    second [Resume] finds nothing, and after the expiry it is evicted and
    cannot be resumed. *)
Theorem park_then_resume {C} (order : map_order) (s s1 : memorySessionStore C)
    now1 now2 now3 now4 tenant id rs onEvict ev :
  is_order order -> 0 < maxParked s ->
  Park order s now1 now2 tenant id rs onEvict = Some (s1, ev) ->
  let '(res, s2, ev2) := Resume order s1 now3 tenant id in
  (now3 <= now2 + resumeTTL s ->
     res = Some rs /\ (forall p, (scopedKey tenant id, p) ∉ ev2) /\
     (Resume order s2 now4 tenant id).1.1 = None) /\
  (now2 + resumeTTL s < now3 -> res = None /\
     (scopedKey tenant id, mkParked id rs (now2 + resumeTTL s) onEvict) ∈ ev2).
Proof.
  intros Ho Hmax Hp. destruct (park_spec order Ho s now1 now2 tenant id rs onEvict Hmax)
    as (s' & ev' & kept & E & H1 & H2 & H3 & _). assert (s' = s1) as -> by congruence.
  set (key := scopedKey tenant id) in *. set (new := mkParked id rs (now2 + resumeTTL s) onEvict) in *.
  unfold Resume. fold key. destruct (evictExpired_spec order Ho (byID s1) now3) as [He1 He2].
  destruct (evictExpiredLocked order (byID s1) now3) as [m out]. cbn [fst snd] in *.
  assert (byID s1 !! key = Some new) as Hk by (rewrite H1; apply lookup_insert_eq).
  destruct (decide (now2 + resumeTTL s < now3)) as [Hx|Hx].
  - assert (m !! key = None) as ->.
    { rewrite He2. apply map_lookup_filter_None. right. intros p Hp'. assert (p = new) as -> by congruence.
      unfold expired. simpl. tauto. }
    split; [lia|]. intros _. split; [done|]. rewrite He1. apply list_elem_of_filter. split; [done|].
    by apply elem_of_map_to_list.
  - assert (m !! key = Some new) as ->.
    { rewrite He2. apply map_lookup_filter_Some. split; [done|]. unfold expired. simpl. lia. }
    split; [|lia]. intros _. split_and!; [done| |].
    + intros p Hin. rewrite He1 in Hin. apply list_elem_of_filter in Hin as [Hx' Hin].
      apply elem_of_map_to_list in Hin. assert (p = new) as -> by congruence. unfold expired in Hx'. simpl in Hx'. lia.
    + cbn [byID]. destruct (evictExpired_spec order Ho (delete key m) now4) as [_ He3].
      destruct (evictExpiredLocked order (delete key m) now4) as [m2 out2]. cbn [fst snd] in *.
      assert (m2 !! key = None) as ->; [|done]. rewrite He3. apply map_lookup_filter_None. left. apply lookup_delete_eq.
Qed.

Definition demo_parked : memorySessionStore nat :=
  from_option fst (NewMemorySessionStore 60)
    (Park map_to_list (NewMemorySessionStore 60) 0 1 "t" "id" {[ "video"%string := 3%nat ]} 7%nat).

Lemma park_then_resume_witness :
  (Resume map_to_list demo_parked 61 "t" "id").1.1 = Some {[ "video"%string := 3%nat ]}.
Proof.
  pose proof (park_then_resume map_to_list (NewMemorySessionStore 60) demo_parked 0 1 61 0 "t" "id"
                {[ "video"%string := 3%nat ]} 7%nat [] ltac:(by intros m) eq_refl
                ltac:(vm_compute; reflexivity)) as H.
  destruct (Resume map_to_list demo_parked 61 "t" "id") as [[res s2] ev2].
  destruct H as [H _]. apply H. vm_compute. discriminate.
Defined.

(** A string without the separator. *)
Fixpoint nul_free (s : string) : bool :=
  match s with
  | EmptyString => true
  | String c s' => negb (Ascii.eqb c (Ascii.ascii_of_N 0)) && nul_free s'
  end.

Lemma scopedKey_inj t1 t2 id1 id2 :
  nul_free t1 = true -> nul_free t2 = true -> scopedKey t1 id1 = scopedKey t2 id2 -> t1 = t2 /\ id1 = id2.
Proof.
  unfold scopedKey, NUL. revert t2; induction t1 as [|c1 t1 IH]; intros [|c2 t2] H1 H2 E; simpl in *.
  - injection E as E. split; [done|exact E].
  - injection E as Ec Et. apply andb_true_iff in H2 as [H2 _]. subst c2. by vm_compute in H2.
  - injection E as Ec Et. apply andb_true_iff in H1 as [H1 _]. subst c1. by vm_compute in H1.
  - injection E as -> Et. apply andb_true_iff in H1 as [_ H1]. apply andb_true_iff in H2 as [_ H2].
    destruct (IH t2 H1 H2 Et) as [-> ->]. done.
Qed.

Lemma nul_free_app s t : nul_free (s +:+ t) = nul_free s && nul_free t.
Proof. induction s as [|c s IH]; [done|]. simpl. by rewrite IH, andb_assoc. Qed.

(** The same with identifiers without the separator, whatever the tenants are. *)
Lemma scopedKey_inj_id t1 t2 id1 id2 :
  nul_free id1 = true -> nul_free id2 = true -> scopedKey t1 id1 = scopedKey t2 id2 -> t1 = t2 /\ id1 = id2.
Proof.
  assert (forall t id, nul_free (t +:+ NUL +:+ id) = false) as Hf.
  { intros t id. rewrite nul_free_app. by rewrite andb_false_r. }
  unfold scopedKey. revert t2; induction t1 as [|c1 t1 IH]; intros [|c2 t2] H1 H2 E; simpl in *.
  - by injection E as E.
  - injection E as _ Et. change (id1 = t2 +:+ NUL +:+ id2) in Et. rewrite Et, Hf in H1. discriminate.
  - injection E as _ Et. change (t1 +:+ NUL +:+ id1 = id2) in Et. rewrite <- Et, Hf in H2. discriminate.
  - injection E as -> Et. by destruct (IH t2 H1 H2 Et) as [-> ->].
Qed.

(** a resume cannot cross tenants: as long as no tenant name contains a
    NUL byte, a session parked by one tenant is untouched by a [Resume] of
    another tenant (or of another session), whatever session id the client
    sends, NUL bytes included. *)
Theorem resume_tenant_isolation {C} (order : map_order) (s : memorySessionStore C) now t1 id1 t2 id2 p :
  is_order order -> nul_free t1 = true -> nul_free t2 = true -> (t1, id1) <> (t2, id2) ->
  byID s !! scopedKey t1 id1 = Some p -> now <= ps_expiresAt p ->
  byID (Resume order s now t2 id2).1.2 !! scopedKey t1 id1 = Some p.
Proof.
  intros Ho Hn1 Hn2 Hne Hp Hx. unfold Resume. destruct (evictExpired_spec order Ho (byID s) now) as [_ He].
  destruct (evictExpiredLocked order (byID s) now) as [m out]. cbn [fst snd] in *.
  assert (m !! scopedKey t1 id1 = Some p) as Hm.
  { rewrite He. apply map_lookup_filter_Some. split; [done|]. unfold expired. simpl. lia. }
  destruct (m !! scopedKey t2 id2); cbn [fst snd byID]; [|done].
  rewrite lookup_delete_ne; [done|]. intros E. symmetry in E. apply scopedKey_inj in E as [-> ->]; done.
Qed.

Lemma resume_tenant_isolation_witness :
  byID (Resume map_to_list (mkSessionStore {[ scopedKey "a" "x" := mkParked "x" ∅ 50 1%nat ]} 60 10) 9 "b" "x").1.2
    !! scopedKey "a" "x" = Some (mkParked "x" ∅ 50 1%nat).
Proof.
  apply (resume_tenant_isolation map_to_list
          (mkSessionStore {[ scopedKey "a" "x" := mkParked "x" ∅ 50 1%nat ]} 60 10) 9 "a" "x" "b" "x").
  - by intros m.
  - reflexivity.
  - reflexivity.
  - discriminate.
  - vm_compute. reflexivity.
  - vm_compute. discriminate.
Defined.
