(* ===== verification/RateLimit.v ===== *)
(** * The inbound rate limiter

    [session/ratelimit.go].  A Go [float64] is IEEE 754 binary64, here the
    Standard Library's [spec_float] at precision 53; times and durations are
    in nanoseconds. *)

From S2P Require Import Prelude.
From Stdlib Require Import Floats.SpecFloat.

Definition float64 (z : Z) : spec_float := binary_normalize 53 1024 z 0 false.
Definition fadd : spec_float -> spec_float -> spec_float := SFadd 53 1024.
Definition fsub : spec_float -> spec_float -> spec_float := SFsub 53 1024.
Definition fmul : spec_float -> spec_float -> spec_float := SFmul 53 1024.
Definition fdiv : spec_float -> spec_float -> spec_float := SFdiv 53 1024.
Definition flt : spec_float -> spec_float -> bool := SFltb.
Definition fle : spec_float -> spec_float -> bool := SFleb.

(** [time.Duration.Seconds]. *)
Definition Seconds (d : Z) : spec_float :=
  fadd (float64 (Z.quot d 1000000000)) (fdiv (float64 (Z.rem d 1000000000)) (float64 1000000000)).

Record RateLimit := mkRateLimit {
  MaxAUsPerSecond : Z; MaxBytesPerSecond : Z; BurstAUs : Z; BurstBytes : Z }.

Record rateLimiter := mkRateLimiter {
  auTokens : spec_float; auCap : spec_float; auRate : spec_float;
  bytesTokens : spec_float; bytesCap : spec_float; bytesRate : spec_float;
  rl_last : Z;
}.

Definition newRateLimiter (cfg : RateLimit) (now : Z) : rateLimiter :=
  let burstAUs := if BurstAUs cfg <=? 0 then MaxAUsPerSecond cfg else BurstAUs cfg in
  let burstBytes := if BurstBytes cfg <=? 0 then MaxBytesPerSecond cfg else BurstBytes cfg in
  mkRateLimiter (float64 burstAUs) (float64 burstAUs) (float64 (MaxAUsPerSecond cfg))
    (float64 burstBytes) (float64 burstBytes) (float64 (MaxBytesPerSecond cfg)) now.

Definition fzero : spec_float := float64 0.

(** [tokens += elapsed * rate; if tokens > cap { tokens = cap }]. *)
Definition refill_tokens (tokens cap rate elapsed : spec_float) : spec_float :=
  let t := fadd tokens (fmul elapsed rate) in
  if flt cap t then cap else t.

Definition allow (l : rateLimiter) (now : Z) (auBytes : Z) : bool * rateLimiter :=
  let elapsed := Seconds (now - rl_last l) in
  let auTok := if flt fzero (auRate l) then refill_tokens (auTokens l) (auCap l) (auRate l) elapsed else auTokens l in
  if flt fzero (auRate l) && flt auTok (float64 1)
  then (false, mkRateLimiter auTok (auCap l) (auRate l) (bytesTokens l) (bytesCap l) (bytesRate l) now)
  else
    let byTok := if flt fzero (bytesRate l)
                 then refill_tokens (bytesTokens l) (bytesCap l) (bytesRate l) elapsed else bytesTokens l in
    if flt fzero (bytesRate l) && flt byTok (float64 auBytes)
    then (false, mkRateLimiter auTok (auCap l) (auRate l) byTok (bytesCap l) (bytesRate l) now)
    else (true, mkRateLimiter
                  (if flt fzero (auRate l) then fsub auTok (float64 1) else auTok) (auCap l) (auRate l)
                  (if flt fzero (bytesRate l) then fsub byTok (float64 auBytes) else byTok)
                  (bytesCap l) (bytesRate l) now).

Definition noLimits (l : rateLimiter) : bool := fle (auRate l) fzero && fle (bytesRate l) fzero.

(** * Properties *)

Lemma SFcompare_refl x : x <> S754_nan -> SFcompare x x = Some Eq.
Proof.
  destruct x as [[]|[]| |[] m e]; intros H; simpl; try done.
  - by rewrite Z.compare_refl, Pos.compare_refl.
  - by rewrite Z.compare_refl, Pos.compare_refl.
Qed.

(** The refill never exceeds the burst. *)
Lemma refill_capped tokens cap rate elapsed : flt cap (refill_tokens tokens cap rate elapsed) = false.
Proof.
  unfold refill_tokens. set (t := fadd _ _). destruct (flt cap t) eqn:E; [|done]. unfold flt, SFltb in *.
  assert (cap <> S754_nan) as H by (intros ->; by destruct t as [[]|[]| |[] ??]).
  by rewrite SFcompare_refl.
Qed.

(** a unit is admitted only if, after a refill capped at the burst, the
    unit bucket holds at least one token and the byte bucket at least the
    unit's size, for each limit that is set; a refused unit takes no token
    from either bucket. *)
Theorem rate_limit_admission l now n :
  (flt fzero (auRate l) = true ->
     flt (auCap l) (refill_tokens (auTokens l) (auCap l) (auRate l) (Seconds (now - rl_last l))) = false) /\
  (fst (allow l now n) = true <->
     (flt fzero (auRate l) = true ->
        flt (refill_tokens (auTokens l) (auCap l) (auRate l) (Seconds (now - rl_last l))) (float64 1) = false) /\
     (flt fzero (bytesRate l) = true ->
        flt (refill_tokens (bytesTokens l) (bytesCap l) (bytesRate l) (Seconds (now - rl_last l))) (float64 n) = false)) /\
  (fst (allow l now n) = false ->
     auTokens (snd (allow l now n)) =
       (if flt fzero (auRate l) then refill_tokens (auTokens l) (auCap l) (auRate l) (Seconds (now - rl_last l)) else auTokens l) /\
     (bytesTokens (snd (allow l now n)) = bytesTokens l \/
      bytesTokens (snd (allow l now n)) =
        refill_tokens (bytesTokens l) (bytesCap l) (bytesRate l) (Seconds (now - rl_last l)))).
Proof.
  split; [intros _; apply refill_capped|]. unfold allow.
  destruct (flt fzero (auRate l)); cbn [andb].
  - destruct (flt (refill_tokens (auTokens l) _ _ _) (float64 1)); cbn [fst snd auTokens bytesTokens].
    + split; [|by auto]. split; [done|]. intros [H _]. by specialize (H eq_refl).
    + destruct (flt fzero (bytesRate l)); cbn [andb]; [|split; [|done]; split; [split; done|done]].
      destruct (flt (refill_tokens (bytesTokens l) _ _ _) (float64 n)); cbn [fst snd auTokens bytesTokens].
      * split; [|by auto]. split; [done|]. intros [_ H]. by specialize (H eq_refl).
      * split; [|done]. split; [split; done|done].
  - destruct (flt fzero (bytesRate l)); cbn [andb]; [|split; [|done]; split; [split; done|done]].
    destruct (flt (refill_tokens (bytesTokens l) _ _ _) (float64 n)); cbn [fst snd auTokens bytesTokens].
    + split; [|by auto]. split; [done|]. intros [_ H]. by specialize (H eq_refl).
    + split; [|done]. split; [split; done|done].
Qed.

(** when the unit rate refuses a unit, the elapsed time is consumed but
    the byte bucket is not refilled for it: the byte credit of that interval
    is lost. *)
Theorem refused_unit_loses_byte_credit l now n :
  flt fzero (auRate l) = true ->
  flt (refill_tokens (auTokens l) (auCap l) (auRate l) (Seconds (now - rl_last l))) (float64 1) = true ->
  rl_last (snd (allow l now n)) = now /\ bytesTokens (snd (allow l now n)) = bytesTokens l.
Proof. intros H1 H2. unfold allow. by rewrite H1, H2. Qed.

(** One unit per second and 1000 bytes per second: after both buckets are
    drained, a refused unit half a second later leaves the byte bucket
    empty. *)
Lemma refused_unit_loses_byte_credit_witness :
  let l := snd (allow (newRateLimiter (mkRateLimit 1 1000 0 0) 0) 0 1000) in
  bytesTokens (snd (allow l 500000000 10)) = bytesTokens l /\ bytesTokens l = fzero.
Proof.
  split; [|vm_compute; reflexivity].
  apply (refused_unit_loses_byte_credit
           (snd (allow (newRateLimiter (mkRateLimit 1 1000 0 0) 0) 0 1000)) 500000000 10);
    vm_compute; reflexivity.
Defined.
