(* ===== verification/KindStats.v ===== *)
(** * Package client: receive statistics

    [client/kindstats.go]: per-kind counters fed by the drain goroutines and
    turned into [wire.KindStats] once a second.  Latencies are binary64 numbers
    ([SpecFloat], as in [RateLimit.v]).  [None] is a panic. *)

From Stdlib Require Import Floats.SpecFloat.
From S2P Require Import Prelude Wire RateLimit.

Definition kindStatsMaxSamples : Z := 4096.

Record kindAccumulator := mkKindAccumulator {
  ka_latMs : list spec_float;
  ka_lastSeq : Z;
  ka_haveSeq : bool;
  ka_dropped : Z;
}.

(** The map [acc] of a [kindStatsCollector]. *)
Definition kindStatsCollector : Type := gmap string kindAccumulator.
Definition newKindStatsCollector : kindStatsCollector := ∅.

Definition noSamples : kindAccumulator := mkKindAccumulator [] 0 false 0.

(** [observe] on the accumulator of the unit's kind. *)
Definition observeOne (seq pubWallMicro recvWallMicro : Z) (a : kindAccumulator) : kindAccumulator :=
  let dropped := if ka_haveSeq a && (seq >? u32 (ka_lastSeq a + 1))
                 then u64 (ka_dropped a + u32 (seq - ka_lastSeq a - 1)) else ka_dropped a in
  let '(lastSeq, haveSeq) := if negb (ka_haveSeq a) || (seq >? ka_lastSeq a)
                             then (seq, true) else (ka_lastSeq a, ka_haveSeq a) in
  let latMs := if negb (pubWallMicro =? 0) && (recvWallMicro >=? pubWallMicro)
                    && (zlen (ka_latMs a) <? kindStatsMaxSamples)
               then ka_latMs a ++ [fdiv (float64 (recvWallMicro - pubWallMicro)) (float64 1000)]
               else ka_latMs a in
  mkKindAccumulator latMs lastSeq haveSeq dropped.

Definition observe (kind : string) (seq pubWallMicro recvWallMicro : Z) (k : kindStatsCollector) : kindStatsCollector :=
  <[kind := observeOne seq pubWallMicro recvWallMicro (default noSamples (k !! kind))]> k.

(** Conversion of a finite float to an integer, toward zero. *)
Definition ftrunc (f : spec_float) : Z :=
  match f with
  | S754_finite s m e =>
      let z := if 0 <=? e then Z.shiftl (Z.pos m) e else Z.shiftr (Z.pos m) (- e) in
      if s then - z else z
  | _ => 0
  end.

Definition fhalf : spec_float := fdiv (float64 1) (float64 2).
Definition f99 : spec_float := fdiv (float64 99) (float64 100).

(** The index [percentile] computes for a slice of [n] > 1 elements. *)
Definition percentileIndex (n : Z) (p : spec_float) : Z :=
  let idx := ftrunc (fadd (fmul p (float64 (n - 1))) fhalf) in
  let idx := if idx <? 0 then 0 else idx in
  if idx >=? n then n - 1 else idx.

Definition percentile (sorted : list spec_float) (p : spec_float) : option spec_float :=
  if zlen sorted =? 1 then sorted !! 0%nat
  else sorted !! Z.to_nat (percentileIndex (zlen sorted) p).

(** [uint32(x + 0.5)]; beyond the range of the type the conversion is left to
    the implementation, and is taken modulo [2^32]. *)
Definition roundMs (f : spec_float) : Z := u32 (ftrunc (fadd f fhalf)).

(** [snapshot] on one accumulator. *)
Definition snapshotOne (kind : string) (a : kindAccumulator) : option (KindStats * kindAccumulator) :=
  if (length (ka_latMs a) =? 0)%nat
  then Some (mkKindStats kind (ka_lastSeq a) 0 0 (ka_dropped a), a)
  else
    let sorted := sort_less flt (ka_latMs a) in
    p50 ← percentile sorted fhalf;
    p99 ← percentile sorted f99;
    Some (mkKindStats kind (ka_lastSeq a) (roundMs p50) (roundMs p99) (ka_dropped a),
          mkKindAccumulator [] (ka_lastSeq a) (ka_haveSeq a) (ka_dropped a)).

(** [order] is the order in which the map is iterated. *)
Definition snapshot (order : kindStatsCollector -> list (string * kindAccumulator)) (k : kindStatsCollector)
    : option (list KindStats * kindStatsCollector) :=
  foldl (fun st ka =>
           st ← st;
           res ← snapshotOne ka.1 ka.2;
           Some (st.1 ++ [res.1], <[ka.1 := res.2]> st.2))
    (Some ([], k)) (order k).

(** * Properties *)

(** ** The percentile index *)

Definition index_ok (n : Z) : bool :=
  (percentileIndex n fhalf =? n / 2) && (percentileIndex n f99 =? (99 * (n - 1) + 50) / 100).

Fixpoint index_table (k : nat) (n : Z) : bool :=
  match k with O => true | S k' => index_ok n && index_table k' (n + 1) end.

Lemma index_table_ok : index_table 4095 2 = true.
Proof. vm_compute. reflexivity. Qed.

Lemma index_table_spec k : forall n m, index_table k n = true -> n <= m < n + Z.of_nat k -> index_ok m = true.
Proof.
  induction k as [|k IH]; intros n m Ht Hm; [lia|]. cbn in Ht. apply andb_true_iff in Ht as [H1 H2].
  destruct (decide (m = n)) as [-> | Hne]; [done|]. apply (IH (n + 1)); [done|lia].
Qed.

(** The window has at most [kindStatsMaxSamples] samples, so the table covers
    every slice [snapshot] sorts. *)
Lemma percentileIndex_spec m : 2 <= m <= 4096 ->
  percentileIndex m fhalf = m / 2 /\ percentileIndex m f99 = (99 * (m - 1) + 50) / 100.
Proof.
  intros Hm. pose proof (index_table_spec _ 2 m index_table_ok ltac:(lia)) as H.
  unfold index_ok in H. by apply andb_true_iff in H as [H1%Z.eqb_eq H2%Z.eqb_eq].
Qed.

Lemma percentile_spec (l : list spec_float) :
  1 <= zlen l <= kindStatsMaxSamples ->
  percentile l fhalf = l !! (length l / 2)%nat /\
  percentile l f99 = l !! ((99 * (length l - 1) + 50) / 100)%nat.
Proof.
  unfold percentile, kindStatsMaxSamples. intros Hl. destruct (zlen l =? 1) eqn:E1.
  { unfold zlen in *. assert (length l = 1%nat) as -> by lia. done. }
  destruct (percentileIndex_spec (zlen l)) as [-> ->]; [lia|]. unfold zlen in *.
  split; f_equal; apply Nat2Z.inj; rewrite Z2Nat.id; try (apply Z.div_pos; lia).
  - by rewrite Nat2Z.inj_div.
  - rewrite Nat2Z.inj_div. f_equal. lia.
Qed.

(** ** Sequence numbers *)

(** What the collector has observed: sequence number, publish time, receive
    time. *)
Definition sample : Type := Z * Z * Z.
Definition observeAll (l : list sample) (a : kindAccumulator) : kindAccumulator :=
  foldl (fun a (x : sample) => observeOne x.1.1 x.1.2 x.2 a) a l.

(** How often a sequence number was above all the earlier ones. *)
Fixpoint advances (last : Z) (l : list Z) : Z :=
  match l with
  | [] => 0
  | s :: l' => if s >? last then 1 + advances s l' else advances last l'
  end.

Lemma advances_bound l : forall last, Forall (fun s => 0 <= s) l -> 0 <= last ->
  0 <= advances last l <= foldl Z.max last l - last.
Proof.
  induction l as [|s l IH]; intros last Hl H0; cbn; [lia|]. apply Forall_cons in Hl as [Hs Hl].
  assert (forall a b, a <= b -> foldl Z.max a l <= foldl Z.max b l) as Hmono.
  { clear. induction l as [|y l IH]; intros a b Hab; cbn; [done|]. apply IH. lia. }
  destruct (s >? last) eqn:E.
  - rewrite Z.max_r by lia. specialize (IH s Hl Hs). lia.
  - rewrite Z.max_l by lia. by apply IH.
Qed.

Definition sample_ok (x : sample) : Prop := 0 <= x.1.1 < 2 ^ 32 - 1.

Lemma observe_seq x a :
  sample_ok x -> ka_haveSeq a = true -> 0 <= ka_lastSeq a < 2 ^ 32 - 1 -> 0 <= ka_dropped a <= ka_lastSeq a ->
  let a' := observeOne x.1.1 x.1.2 x.2 a in
  ka_haveSeq a' = true /\ ka_lastSeq a' = Z.max (ka_lastSeq a) x.1.1 /\
  ka_dropped a' = ka_dropped a + (if x.1.1 >? ka_lastSeq a then x.1.1 - ka_lastSeq a - 1 else 0).
Proof.
  intros Hx Hh Hl Hd. unfold observeOne, sample_ok in *. rewrite Hh. cbn [negb orb andb].
  unfold u32, u64. rewrite (Z.mod_small (ka_lastSeq a + 1)) by lia.
  destruct (x.1.1 >? ka_lastSeq a) eqn:E1; destruct (x.1.1 >? ka_lastSeq a + 1) eqn:E2; cbn;
    rewrite ?Z.mod_small by (rewrite ?Z.mod_small by lia; lia); split_and!; try done; try lia;
    rewrite ?Z.mod_small by lia; lia.
Qed.

Lemma observeAll_seq l : forall a,
  Forall sample_ok l -> ka_haveSeq a = true -> 0 <= ka_lastSeq a < 2 ^ 32 - 1 -> 0 <= ka_dropped a <= ka_lastSeq a ->
  let seqs := (fun x : sample => x.1.1) <$> l in
  let a' := observeAll l a in
  ka_haveSeq a' = true /\ ka_lastSeq a' = foldl Z.max (ka_lastSeq a) seqs /\
  ka_dropped a' = ka_dropped a + (ka_lastSeq a' - ka_lastSeq a) - advances (ka_lastSeq a) seqs.
Proof.
  induction l as [|x l IH]; intros a Hl Hh Hr Hd; [cbn; split_and!; [done|done|lia]|].
  cbn [fmap list_fmap advances]. change (foldl Z.max ?z (?y :: ?k)) with (foldl Z.max (Z.max z y) k).
  apply Forall_cons in Hl as [Hx Hl]. destruct (observe_seq x a Hx Hh Hr Hd) as (H1 & H2 & H3).
  set (a1 := observeOne x.1.1 x.1.2 x.2 a) in *. unfold sample_ok in Hx.
  destruct (IH a1 Hl H1) as (I1 & I2 & I3); [lia|destruct (x.1.1 >? ka_lastSeq a) eqn:E; lia|].
  change (observeAll (x :: l) a) with (observeAll l a1). rewrite H2 in I2.
  split_and!; [done|exact I2|]. rewrite I3, H3, H2. destruct (x.1.1 >? ka_lastSeq a) eqn:E; [|].
  - rewrite Z.max_r by lia. lia.
  - rewrite Z.max_l by lia. lia.
Qed.

Lemma observe_window x a :
  zlen (ka_latMs a) <= kindStatsMaxSamples -> zlen (ka_latMs (observeOne x.1.1 x.1.2 x.2 a)) <= kindStatsMaxSamples.
Proof.
  intros H. unfold observeOne. destruct (if negb (ka_haveSeq a) || _ then _ else _). cbn [ka_latMs].
  destruct (_ && _) eqn:E; [|done]. rewrite zlen_app, zlen_single. lia.
Qed.

Lemma observeAll_window l : forall a,
  zlen (ka_latMs a) <= kindStatsMaxSamples -> zlen (ka_latMs (observeAll l a)) <= kindStatsMaxSamples.
Proof. induction l as [|x l IH]; intros a H; [done|]. cbn. by apply IH, observe_window. Qed.

(** whatever the drain goroutines observe of one kind, in whatever order the
    units arrive, [LastSeq] is the highest sequence number seen and [Dropped]
    is the number of sequence numbers after the first that never were the next
    new highest (those skipped, or overtaken), as long as the numbers stay
    below [2^32 - 1]; the latency window stays within its cap. *)
Theorem kind_stats_exact x l :
  Forall sample_ok (x :: l) ->
  let seqs := (fun y : sample => y.1.1) <$> l in
  let a := observeAll (x :: l) noSamples in
  ka_lastSeq a = foldl Z.max x.1.1 seqs /\
  ka_dropped a = (ka_lastSeq a - x.1.1) - advances x.1.1 seqs /\
  zlen (ka_latMs a) <= kindStatsMaxSamples.
Proof.
  intros [Hx Hl]%Forall_cons. cbn zeta.
  set (a0 := observeOne x.1.1 x.1.2 x.2 noSamples).
  change (observeAll (x :: l) noSamples) with (observeAll l a0).
  assert (ka_haveSeq a0 = true /\ ka_lastSeq a0 = x.1.1 /\ ka_dropped a0 = 0) as (H1 & H2 & H3) by done.
  unfold sample_ok in Hx. destruct (observeAll_seq l a0 Hl H1) as (_ & I2 & I3); [lia|lia|].
  rewrite H2 in *. split_and!; [done|lia|]. apply observeAll_window, (observe_window x noSamples). by vm_compute.
Qed.

Lemma kind_stats_exact_witness :
  ka_dropped (observeAll [(5, 0, 0); (6, 0, 0); (9, 0, 0); (8, 0, 0); (10, 0, 0)] noSamples) = 2.
Proof.
  destruct (kind_stats_exact (5, 0, 0) [(6, 0, 0); (9, 0, 0); (8, 0, 0); (10, 0, 0)]) as (_ & E2 & _).
  - repeat constructor; cbn; lia.
  - etrans; [exact E2|]. vm_compute. reflexivity.
Defined.

(** the snapshot of a kind never indexes out of range and reports the
    nearest-rank median and 99th percentile of its sorted window (ranks
    [n / 2] and [(99 (n - 1) + 50) / 100]), which it then empties; the
    counters are kept. *)
Theorem snapshot_percentiles kind a :
  zlen (ka_latMs a) <= kindStatsMaxSamples ->
  exists ks a', snapshotOne kind a = Some (ks, a') /\ ks_Kind ks = kind /\
    ks_LastSeq ks = ka_lastSeq a /\ ks_Dropped ks = ka_dropped a /\
    ka_latMs a' = [] /\ ka_lastSeq a' = ka_lastSeq a /\ ka_dropped a' = ka_dropped a /\
    let sorted := sort_less flt (ka_latMs a) in
    sorted ≡ₚ ka_latMs a /\
    ks_RecvP50Ms ks = from_option roundMs 0 (sorted !! (length sorted / 2)%nat) /\
    ks_RecvP99Ms ks = from_option roundMs 0 (sorted !! ((99 * (length sorted - 1) + 50) / 100)%nat).
Proof.
  intros Hl. unfold snapshotOne. destruct (length (ka_latMs a) =? 0)%nat eqn:E.
  { destruct (ka_latMs a) eqn:El; [|done]. eexists _, _. split; [done|]. by rewrite El. }
  set (sorted := sort_less flt (ka_latMs a)). assert (sorted ≡ₚ ka_latMs a) as Hp by apply sort_less_perm.
  assert (length sorted = length (ka_latMs a)) as Hlen by (by rewrite Hp).
  destruct (percentile_spec sorted) as [-> ->]; [unfold zlen in *; lia|].
  destruct (lookup_lt_is_Some_2 sorted (length sorted / 2)%nat) as [p50 E50];
    [apply Nat.div_lt; lia|].
  destruct (lookup_lt_is_Some_2 sorted ((99 * (length sorted - 1) + 50) / 100)%nat) as [p99 E99];
    [apply Nat.Div0.div_lt_upper_bound; lia|].
  rewrite E50, E99. cbn. eexists _, _. split; [done|]. by rewrite ?E50, ?E99.
Qed.

Definition demo_window : kindAccumulator := mkKindAccumulator (float64 <$> [30; 10; 20]) 9 true 1.

Lemma snapshot_percentiles_witness :
  exists ks a', snapshotOne "video" demo_window = Some (ks, a') /\ ks_RecvP50Ms ks = 20 /\ ks_RecvP99Ms ks = 30.
Proof.
  destruct (snapshot_percentiles "video" demo_window) as (ks & a' & E & _ & _ & _ & _ & _ & _ & _ & H50 & H99).
  - by vm_compute.
  - exists ks, a'. split; [exact E|]. rewrite H50, H99. vm_compute. split; reflexivity.
Defined.

(** after the sequence number [2^32 - 1] the counter goes wrong: the units
    numbered from 0 on that arrive in order and without loss are reported as
    [k (k + 1) / 2] dropped units, because the highest number is kept. *)
Theorem seq_wrap_counts_phantom_drops (k : nat) t :
  Z.of_nat k < 2 ^ 31 ->
  let a := mkKindAccumulator [] (2 ^ 32 - 1) true 0 in
  let a' := observeAll ((fun i => (Z.of_nat i, 0, t)) <$> seq 0 (S k)) a in
  ka_lastSeq a' = 2 ^ 32 - 1 /\ 2 * ka_dropped a' = Z.of_nat k * (Z.of_nat k + 1).
Proof.
  intros Hk. cbn zeta. set (a0 := mkKindAccumulator [] (2 ^ 32 - 1) true 0).
  assert (forall j, (j <= S k)%nat ->
    let a' := observeAll ((fun i => (Z.of_nat i, 0, t)) <$> seq 0 j) a0 in
    ka_lastSeq a' = 2 ^ 32 - 1 /\ ka_haveSeq a' = true /\ 2 * ka_dropped a' = Z.of_nat j * (Z.of_nat j - 1)) as H.
  { induction j as [|j IH]; intros Hj; [done|]. rewrite seq_S, fmap_app. unfold observeAll. rewrite foldl_app. cbn [fmap list_fmap foldl].
    destruct IH as (I1 & I2 & I3); [lia|]. unfold observeAll in *. set (a := foldl _ _ _) in *.
    cbn [fst snd]. unfold observeOne. rewrite I1, I2. cbn [negb orb andb].
    change (u32 (2 ^ 32 - 1 + 1)) with 0. change (0 + j)%nat with j.
    destruct (Z.of_nat j >? 2 ^ 32 - 1) eqn:E1; [lia|]. cbn [ka_lastSeq ka_haveSeq ka_dropped]. split_and!; [done|done|].
    assert (u32 (Z.of_nat j - (2 ^ 32 - 1) - 1) = Z.of_nat j) as ->.
    { unfold u32. replace (Z.of_nat j - (2 ^ 32 - 1) - 1) with (Z.of_nat j + (-1) * 2 ^ 32) by lia.
      rewrite Z_mod_plus_full. apply Z.mod_small. lia. }
    destruct (Z.of_nat j >? 0) eqn:E2; [|lia]. unfold u64. rewrite Z.mod_small by nia. nia. }
  destruct (H (S k)) as (H1 & _ & H2); [lia|]. split; [done|]. rewrite H2. lia.
Qed.

Lemma seq_wrap_counts_phantom_drops_witness :
  2 * ka_dropped (observeAll ((fun i => (Z.of_nat i, 0, 7)) <$> seq 0 4) (mkKindAccumulator [] (2 ^ 32 - 1) true 0)) = 12.
Proof. apply (seq_wrap_counts_phantom_drops 3 7). lia. Defined.
