(* ===== verification/DataChannel.v ===== *)
(** * Package datachannel

    [datachannel/datachannel.go].  [Deliver] and [Close] run under
    [deliverMu]; a [select] with several ready cases may take any of them, so
    [Recv] is a relation. *)

From S2P Require Import Prelude.

Record Channel := mkChannel {
  dc_in : chan (list byte);
  dc_closed : bool; (* the closed channel is closed (closeOnce has run) *)
}.

Definition dc_New (inboundBuffer : Z) : Channel :=
  let inboundBuffer := if inboundBuffer <=? 0 then 64 else inboundBuffer in
  mkChannel (make_chan (list byte) (Z.to_nat inboundBuffer)) false.

(** [send] is the function given to [New]. *)
Definition dc_Send (send : list byte -> option error) (c : Channel) (msg : list byte) : option error :=
  if dc_closed c then Some ErrClosedPipe else send msg.

Definition dc_Deliver (c : Channel) (msg : list byte) : option Channel :=
  if dc_closed c then Some c
  else match try_send (dc_in c) msg with
       | SendPanic => None
       | Sent ch => Some (mkChannel ch (dc_closed c))
       | SendFull => Some c
       end.

Definition dc_Close (c : Channel) : option Channel :=
  if dc_closed c then Some c
  else if ch_closed (dc_in c) then None
  else Some (mkChannel (close_chan (dc_in c)) true).

Inductive dc_Recv : Channel -> result (list byte) -> Channel -> Prop :=
  | recv_msg c msg ch : try_recv (dc_in c) = Got msg ch -> dc_Recv c (Ok msg) (mkChannel ch (dc_closed c))
  | recv_eof c : try_recv (dc_in c) = RecvClosed -> dc_Recv c (Err EOF) c
  | recv_closed c : dc_closed c = true -> dc_Recv c (Err EOF) c
  | recv_ctx c e : dc_Recv c (Err e) c.

(** ** Properties *)

Inductive dc_event := DDeliver (msg : list byte) | DClose | DRecv (res : result (list byte)).

Inductive dc_step : Channel -> dc_event -> option Channel -> Prop :=
  | dstep_deliver c msg : dc_step c (DDeliver msg) (dc_Deliver c msg)
  | dstep_close c : dc_step c DClose (dc_Close c)
  | dstep_recv c res c' : dc_Recv c res c' -> dc_step c (DRecv res) (Some c').

Inductive dc_run : Channel -> list dc_event -> Channel -> Prop :=
  | dr_nil c : dc_run c [] c
  | dr_cons c e c1 es c2 : dc_step c e (Some c1) -> dc_run c1 es c2 -> dc_run c (e :: es) c2.

Definition delivered (es : list dc_event) : list (list byte) :=
  omap (fun e => match e with DDeliver m => Some m | _ => None end) es.
Definition received (es : list dc_event) : list (list byte) :=
  omap (fun e => match e with DRecv (Ok m) => Some m | _ => None end) es.

Definition dc_ok (c : Channel) : Prop := ch_closed (dc_in c) = dc_closed c.

Lemma dc_step_ok c e oc : dc_ok c -> dc_step c e oc -> exists c', oc = Some c' /\ dc_ok c'.
Proof.
  unfold dc_ok. intros Hok Hst. destruct Hst as [c msg|c|c res c' Hr].
  - unfold dc_Deliver, try_send. rewrite Hok. destruct (dc_closed c) eqn:E; [eauto|].
    destruct (_ <? _)%nat; eexists; (split; [done|]); simpl; congruence.
  - unfold dc_Close. rewrite Hok. destruct (dc_closed c) eqn:E; [eauto|]. eexists; by split.
  - destruct Hr as [c msg ch Hg|c Hg|c Hc|c e]; eexists; (split; [done|]); try done.
    simpl. unfold try_recv in Hg. destruct (ch_buf (dc_in c)); [by destruct (ch_closed (dc_in c))|].
    injection Hg as <- <-. done.
Qed.

Lemma delivered_cons e es :
  delivered (e :: es) = match e with DDeliver m => m :: delivered es | _ => delivered es end.
Proof. by destruct e. Qed.

Lemma received_cons e es :
  received (e :: es) = match e with DRecv (Ok m) => m :: received es | _ => received es end.
Proof. by destruct e as [| |[]]. Qed.

Lemma dc_run_queue c es c' :
  dc_run c es c' -> dc_ok c ->
  exists kept, kept `sublist_of` delivered es /\ received es ++ ch_buf (dc_in c') = ch_buf (dc_in c) ++ kept.
Proof.
  induction 1 as [c|c e c1 es c2 Hst Hrun IH]; intros Hok.
  { exists []. by rewrite app_nil_r. }
  destruct (dc_step_ok c e _ Hok Hst) as (c' & [= <-] & Hok1). destruct (IH Hok1) as (kept & Hk & E).
  inversion Hst as [c0 msg H1 H2 H3|c0 H1 H2 H3|c0 res c0' Hr H1 H2 H3]; subst;
    rewrite delivered_cons, received_cons.
  - unfold dc_Deliver, try_send in H3. rewrite Hok in H3. destruct (dc_closed c).
    { injection H3 as <-. exists kept. split; [by constructor|done]. }
    destruct (_ <? _)%nat; injection H3 as <-.
    + exists (msg :: kept). split; [by constructor|]. cbn [dc_in ch_buf] in E. rewrite E. by rewrite <- app_assoc.
    + exists kept. split; [by constructor|done].
  - unfold dc_Close in H3. rewrite Hok in H3. exists kept. split; [done|].
    destruct (dc_closed c); injection H3 as <-; done.
  - destruct Hr as [c msg ch Hg|c Hg|c Hc|c e]; exists kept; (split; [done|]); try exact E.
    unfold try_recv in Hg. destruct (ch_buf (dc_in c)) as [|x b] eqn:Eb; [by destruct (ch_closed (dc_in c))|].
    injection Hg as -> <-. cbn [dc_in ch_buf] in *. by rewrite <- !app_comm_cons, E.
Qed.

(** a data channel never panics, whatever the interleaving of deliveries,
    receives and closes, and it keeps order: what the application receives
    from a new channel, followed by what is still queued, is a subsequence of
    what was delivered, in order and without duplication. *)
Theorem data_channel_fifo buffer es c :
  dc_run (dc_New buffer) es c ->
  (forall e oc, dc_step c e oc -> oc <> None) /\
  received es ++ ch_buf (dc_in c) `sublist_of` delivered es.
Proof.
  intros Hrun. assert (dc_ok (dc_New buffer)) as Hok by done. split.
  - intros e oc Hst. assert (dc_ok c) as Hokc.
    { clear Hst. revert Hok. induction Hrun as [|c e' c1 es c2 Hst _ IH]; [done|]. intros Hok. apply IH.
      by destruct (dc_step_ok c e' _ Hok Hst) as (c' & [= <-] & H). }
    by destruct (dc_step_ok c e oc Hokc Hst) as (c' & -> & _).
  - destruct (dc_run_queue _ _ _ Hrun Hok) as (kept & Hk & ->). exact Hk.
Qed.

Lemma data_channel_fifo_witness :
  received [DDeliver [x01]; DRecv (Ok [x01]); DClose] `sublist_of` [[x01]].
Proof.
  assert (dc_run (dc_New 1) [DDeliver [x01]; DRecv (Ok [x01]); DClose] (mkChannel (mkChan [] 1 true) true)) as H.
  { apply (dr_cons _ _ (mkChannel (mkChan [[x01]] 1 false) false)); [exact (dstep_deliver (dc_New 1) [x01])|].
    apply (dr_cons _ _ (mkChannel (mkChan [] 1 false) false)); [by apply dstep_recv, recv_msg|].
    apply (dr_cons _ _ (mkChannel (mkChan [] 1 true) true)); [|apply dr_nil].
    exact (dstep_close (mkChannel (mkChan [] 1 false) false)). }
  apply (data_channel_fifo 1 _ _ H).
Defined.
