(* ===== verification/Inbound.v ===== *)
(** * Package session: inbound (PublishBack) tracks

    [session/session.go]: the inbound track table, [handleAnnounce] and
    [handleUnannounce], and the demultiplexer of subscriber-originated uni
    streams ([drainInboundStream]).

    The table maps names to track objects that drain goroutines keep using
    after the name is gone, so the objects live in a store and the table holds
    their addresses.  [t.ch] is never closed; [it_done] says whether [t.done]
    is.  [None] is a panic. *)

From S2P Require Import Prelude Wire Replay RateLimit Pump.

Record inboundTrack := mkInboundTrack {
  it_name : string;
  it_kind : string;
  it_codec : string;
  it_ch : chan AccessUnit;
  it_announced : bool;
  it_authorized : bool;
  it_done : bool;
}.

Record inbound := mkInbound {
  ib_tracks : gmap string nat;
  ib_heap : gmap nat inboundTrack;
}.

Definition no_inbound : inbound := mkInbound ∅ ∅.

Definition maxInboundTracks : Z := 256.

(** The composite literal of both constructors, stored under its name. *)
Definition newInboundTrack (name : string) (ib : inbound) : nat * inbound :=
  let a := fresh (dom (ib_heap ib)) in
  let t := mkInboundTrack name "" "" (make_chan AccessUnit 64) false false false in
  (a, mkInbound (<[name := a]> (ib_tracks ib)) (<[a := t]> (ib_heap ib))).

Definition inboundTrackChan (name : string) (ib : inbound) : nat * inbound :=
  match ib_tracks ib !! name with
  | Some a => (a, ib)
  | None => newInboundTrack name ib
  end.

Definition inboundTrackChanWire (name : string) (ib : inbound) : option nat * inbound :=
  match ib_tracks ib !! name with
  | Some a => (Some a, ib)
  | None =>
      if Z.of_nat (size (ib_tracks ib)) >=? maxInboundTracks then (None, ib)
      else let '(a, ib) := newInboundTrack name ib in (Some a, ib)
  end.

Definition isAnnounced (ib : inbound) (a : nat) : bool :=
  match ib_heap ib !! a with Some t => it_announced t | None => false end.

(** The names [InboundTracks] lists, as a set: the order of a map iteration
    is unspecified. *)
Definition InboundTracks (ib : inbound) : gset string :=
  dom (filter (fun kv => isAnnounced ib kv.2 = true) (ib_tracks ib)).

(** The locked update of [handleAnnounce]. *)
Definition setAnnounced (a : nat) (kind codec : string) (authorized : bool) (ib : inbound) : inbound :=
  mkInbound (ib_tracks ib)
    (alter (fun t => mkInboundTrack (it_name t) kind codec (it_ch t) true authorized (it_done t))
       a (ib_heap ib)).

Definition handleUnannounce (u : Unannounce) (ib : inbound) : option inbound :=
  match ib_tracks ib !! un_Name u with
  | None => Some ib
  | Some a =>
      t ← ib_heap ib !! a;
      if it_done t then None
      else
        let t := mkInboundTrack (it_name t) (it_kind t) (it_codec t) (it_ch t) (it_announced t)
                   (it_authorized t) true in
        Some (mkInbound (delete (un_Name u) (ib_tracks ib)) (<[a := t]> (ib_heap ib)))
  end.

Section Announce.
Context {W : Type} `{JSON ErrorPayload}.
(** [err.Error()]. *)
Context (Error : error -> string).
(** [Config.OnAnnounce]: tenant, session id, track name and kind; the
    application's state is a [W]. *)
Context (OnAnnounce : option (string -> string -> string -> string -> W -> option error * W)).

(** [payload, mErr := ep.Marshal(); if mErr == nil { _ = s.writer.Write(...) }]. *)
Definition writeError (ep : ErrorPayload) (out : writer) : writer :=
  match Marshal ep with
  | Ok payload => (WriteControlFrame TypeError payload out).2
  | Err _ => out
  end.

Definition tooManyTracks : ErrorPayload :=
  mkErrorPayload "too_many_tracks" "inbound track cap (256) reached".

(** The verdict of [OnAnnounce]; without one every announce is accepted. *)
Definition announceVerdict (tenant sessionID : string) (a : Announce) (w : W) : option error * W :=
  match OnAnnounce with
  | Some f => f tenant sessionID (a_Name a) (a_Kind a) w
  | None => (None, w)
  end.

(** [handleAnnounce] up to its last critical section: the track to update and
    the authorization to record, if any. *)
Definition announceBegin (tenant sessionID : string) (a : Announce) (ib : inbound) (out : writer) (w : W)
    : option (nat * bool) * inbound * writer * W :=
  let '(verdict, w) := announceVerdict tenant sessionID a w in
  match verdict with
  | Some err =>
      let out := writeError (mkErrorPayload "track_unauthorized" (Error err)) out in
      match inboundTrackChanWire (a_Name a) ib with
      | (None, ib) => (None, ib, out, w)
      | (Some t, ib) => (Some (t, false), ib, out, w)
      end
  | None =>
      match inboundTrackChanWire (a_Name a) ib with
      | (None, ib) => (None, ib, writeError tooManyTracks out, w)
      | (Some t, ib) => (Some (t, true), ib, out, w)
      end
  end.

Definition handleAnnounce (tenant sessionID : string) (a : Announce) (ib : inbound) (out : writer) (w : W)
    : inbound * writer * W :=
  let '(res, ib, out, w) := announceBegin tenant sessionID a ib out w in
  match res with
  | Some (t, authorized) => (setAnnounced t (a_Kind a) (a_Codec a) authorized ib, out, w)
  | None => (ib, out, w)
  end.
End Announce.

(** ** The demultiplexer *)

(** A byte already read, put back in front of the rest of the stream. *)
Definition peekedReader (first : byte) (rest : reader) : reader :=
  mkReader (first :: rd_data rest) (rd_end rest).

(** The read deadline set after the first byte shows up, if it fires, as the
    stream's terminal error. *)
Definition readInboundFrame : rd FeedFrame :=
  fun src =>
    match ReadFull 1 src with
    | (Ok [b], rest) => ReadFeedFrame (peekedReader b rest)
    | (Ok _, rest) => (Err ErrUnexpectedEOF, rest)
    | (Err e, rest) => (Err e, rest)
    end.

Definition inboundAU (f : FeedFrame) : AccessUnit :=
  mkAU (ff_Payload f) (IsKeyframe f) (ff_PTSMicro f) (ff_Seq f)
    (negb (band (ff_Flags f) FlagDiscontinuity =? 0)) 0 ∅ 0 0.

(** The first part of [drainInboundStream]: the track name and what is left
    to read, or nothing when the header cannot be read. *)
Definition drainHeader (stream : reader) : option (string * reader) :=
  match PeekStreamHeader stream with
  | (Err _, _) => None
  | (Ok (trackName, firstByte), rest) =>
      if decide (trackName = ""%string) then Some ("primary"%string, peekedReader firstByte rest)
      else Some (trackName, rest)
  end.

(** The authorization gate, in a critical section of its own. *)
Definition drainGate (onAnnounce : bool) (trackName : string) (ib : inbound) : bool :=
  if onAnnounce then
    match ib_tracks ib !! trackName with
    | Some a => match ib_heap ib !! a with
                | Some t => it_announced t && it_authorized t
                | None => false
                end
    | None => false
    end
  else true.

Inductive inbound_outcome := ISent (t : inboundTrack) | IStop | IDropped.

(** The [select] on [t.ch], [t.done] and [ctx.Done()].  When a send and an
    exit are both ready the runtime may take either; [exit] says which. *)
Definition inboundSelect (ctxDone exit : bool) (t : inboundTrack) (au : AccessUnit)
    : option inbound_outcome :=
  match try_send (it_ch t) au with
  | SendPanic => None
  | Sent c =>
      if (it_done t || ctxDone) && exit then Some IStop
      else Some (ISent (mkInboundTrack (it_name t) (it_kind t) (it_codec t) c (it_announced t)
                          (it_authorized t) (it_done t)))
  | SendFull => if it_done t || ctxDone then Some IStop else Some IDropped
  end.

(** What a drain goroutine shares with the rest of the session: the track
    store, the rate limiter, [lastFeedNano], and the calls of
    [OnInboundDropped] so far. *)
Record dstate := mkDState {
  d_ib : inbound;
  d_rl : rateLimiter;
  d_lastFeed : Z;
  d_dropped : list string;
}.

Definition with_ib (st : dstate) (ib : inbound) : dstate :=
  mkDState ib (d_rl st) (d_lastFeed st) (d_dropped st).

(** [InboundRecv] on the track object at [a], after [inboundTrackChan]: a
    buffered unit, the end of an unannounced track with an empty queue, or the
    context's error. *)
Inductive InboundRecv (a : nat) (st : dstate) : result AccessUnit -> dstate -> Prop :=
  | ir_unit t au c :
      ib_heap (d_ib st) !! a = Some t -> try_recv (it_ch t) = Got au c ->
      InboundRecv a st (Ok au)
        (with_ib st (mkInbound (ib_tracks (d_ib st))
           (<[a := mkInboundTrack (it_name t) (it_kind t) (it_codec t) c (it_announced t)
                     (it_authorized t) (it_done t)]> (ib_heap (d_ib st)))))
  | ir_done t :
      ib_heap (d_ib st) !! a = Some t -> it_done t = true -> try_recv (it_ch t) = RecvEmpty ->
      InboundRecv a st (Err EOF) st
  | ir_closed t :
      ib_heap (d_ib st) !! a = Some t -> try_recv (it_ch t) = RecvClosed -> InboundRecv a st (Err EOF) st
  | ir_ctx e : InboundRecv a st (Err e) st.

(** The rate limiter's part of the loop body; the clock is read by [allow] and
    again by [touchFeed]. *)
Definition drainAdmit (now : Z) (au : AccessUnit) (st : dstate) : bool * dstate :=
  if noLimits (d_rl st) then (true, mkDState (d_ib st) (d_rl st) now (d_dropped st))
  else
    let '(ok, rl) := allow (d_rl st) now (auLen au) in
    (ok, mkDState (d_ib st) rl (if ok : bool then now else d_lastFeed st) (d_dropped st)).

(** The send at the end of the loop body: [Some (continue, state)]. *)
Definition drainSend (ctxDone exit : bool) (a : nat) (name : string) (au : AccessUnit) (st : dstate)
    : option (bool * dstate) :=
  t ← ib_heap (d_ib st) !! a;
  o ← inboundSelect ctxDone exit t au;
  Some (match o with
        | ISent t => (true, mkDState (mkInbound (ib_tracks (d_ib st)) (<[a := t]> (ib_heap (d_ib st))))
                              (d_rl st) (d_lastFeed st) (d_dropped st))
        | IStop => (false, st)
        | IDropped => (true, mkDState (d_ib st) (d_rl st) (d_lastFeed st) (d_dropped st ++ [name]))
        end).

(** The loop, run without interruption by other goroutines; [clock] gives the
    time of each round.  Every round but the last consumes bytes. *)
Fixpoint drainLoop (fuel : nat) (clock : nat -> Z) (a : nat) (name : string) (src : reader) (st : dstate)
    : option dstate :=
  match fuel with
  | O => Some st
  | S fuel' =>
      match readInboundFrame src with
      | (Err _, _) => Some st
      | (Ok f, src) =>
          let au := inboundAU f in
          match drainAdmit (clock fuel') au st with
          | (false, st) => drainLoop fuel' clock a name src st
          | (true, st) =>
              res ← drainSend false false a name au st;
              match res with
              | (true, st) => drainLoop fuel' clock a name src st
              | (false, st) => Some st
              end
          end
      end
  end.

Definition drainInboundStream (onAnnounce : bool) (clock : nat -> Z) (stream : reader) (st : dstate)
    : option dstate :=
  match drainHeader stream with
  | None => Some st
  | Some (trackName, src) =>
      if negb (drainGate onAnnounce trackName (d_ib st)) then Some st
      else
        match inboundTrackChanWire trackName (d_ib st) with
        | (None, _) => Some st
        | (Some a, ib) =>
            drainLoop (S (length (rd_data src))) clock a trackName src
              (mkDState ib (d_rl st) (d_lastFeed st) (d_dropped st))
        end
  end.

(** * Properties *)

(** The stall guard does not change what is read. *)
Lemma readInboundFrame_eq src : readInboundFrame src = ReadFeedFrame src.
Proof.
  destruct src as [data e]. unfold readInboundFrame. destruct data as [|b data].
  - unfold ReadFeedFrame, rd_bind. by rewrite !ReadFull_nil by (vm_compute; done).
  - change (b :: data) with ([b] ++ data). by rewrite ReadFull_app.
Qed.

(** ** What one stream delivers *)

(** The unit a receiver of the frame gets: the wire carries bytes, timestamp,
    sequence number and the two flags. *)
Definition received_au (au : AccessUnit) : AccessUnit :=
  mkAU (au_Bytes au) (au_Keyframe au) (au_PTSMicro au) (au_Seq au) (au_Discontinuity au) 0 ∅ 0 0.

(** A unit and a clock reading within the wire's field widths. *)
Definition sendable (x : AccessUnit * Z) : Prop :=
  is_u 64 (au_PTSMicro x.1) /\ is_u 32 (au_Seq x.1) /\ is_u 64 (au_PubWallMicro x.1) /\
  zlen (au_Bytes x.1) <= MaxFeedPayload.

(** The frame a GOP pump writes for a unit. *)
Definition sent_frame (cfg : Config) (x : AccessUnit * Z) : FeedFrame :=
  let '(au, now) := x in
  let wall := pubWall cfg au now in
  mkFeedFrame (if au_Keyframe au then TypeKeyframe else TypePFrame) (au_PTSMicro au) (au_Seq au)
    (wall_flags (au_flags (au_Keyframe au) (au_Discontinuity au)) wall) wall (au_Bytes au).

Lemma pubWall_u64 cfg au now : is_u 64 (au_PubWallMicro au) -> is_u 64 (pubWall cfg au now).
Proof.
  intros Hw. unfold pubWall. split_ifs; [by vm_compute|done|]. apply Z.mod_pos_bound. lia.
Qed.

Lemma sent_flags kf disc wall :
  band (wall_flags (au_flags kf disc) wall) FlagPublishWall = (if wall =? 0 then 0 else 4) /\
  band (wall_flags (au_flags kf disc) wall) FlagDiscontinuity = (if disc then 2 else 0) /\
  band (wall_flags (au_flags kf disc) wall) FlagKeyframe = (if kf then 1 else 0).
Proof. unfold wall_flags. destruct (wall =? 0), kf, disc; by vm_compute. Qed.

Lemma sent_frame_bytes cfg x : frame_of cfg x = frame_bytes (sent_frame cfg x).
Proof.
  destruct x as [au now]. unfold frame_of, frame_bytes, wall_of, sent_frame.
  cbn [ff_Type ff_PTSMicro ff_Seq ff_Flags ff_PubWallMicro ff_Payload].
  destruct (sent_flags (au_Keyframe au) (au_Discontinuity au) (pubWall cfg au now)) as (-> & _ & _).
  unfold wall_opt. by destruct (_ =? 0).
Qed.

Lemma sent_frame_wf cfg x : sendable x -> frame_wf (sent_frame cfg x).
Proof.
  destruct x as [au now]. intros (Hp & Hs & Hw & Hl). unfold frame_wf, sent_frame.
  cbn [ff_Type ff_PTSMicro ff_Seq ff_Flags ff_PubWallMicro ff_Payload].
  split_and!; try done; [by apply pubWall_u64|].
  destruct (sent_flags (au_Keyframe au) (au_Discontinuity au) (pubWall cfg au now)) as (-> & _ & _).
  split_ifs; lia.
Qed.

Lemma sent_frame_au cfg x : inboundAU (sent_frame cfg x) = received_au x.1.
Proof.
  destruct x as [au now]. unfold inboundAU, sent_frame, received_au, IsKeyframe.
  cbn [ff_Type ff_PTSMicro ff_Seq ff_Flags ff_PubWallMicro ff_Payload fst].
  destruct (sent_flags (au_Keyframe au) (au_Discontinuity au) (pubWall cfg au now)) as (_ & -> & ->).
  by destruct (au_Keyframe au), (au_Discontinuity au).
Qed.

Lemma readInboundFrame_sent cfg x rest e :
  sendable x ->
  readInboundFrame (mkReader (frame_of cfg x ++ rest) e) = (Ok (sent_frame cfg x), mkReader rest e).
Proof.
  intros Hx. rewrite readInboundFrame_eq, sent_frame_bytes.
  by apply ReadFeedFrame_bytes, sent_frame_wf.
Qed.

(** Appending units to a track's queue, and the progress clock after them. *)
Definition enqueue (a : nat) (l : list AccessUnit) (st : dstate) (now : Z) : dstate :=
  mkDState (mkInbound (ib_tracks (d_ib st))
      (alter (fun t => mkInboundTrack (it_name t) (it_kind t) (it_codec t)
                (mkChan (ch_buf (it_ch t) ++ l) (ch_cap (it_ch t)) (ch_closed (it_ch t)))
                (it_announced t) (it_authorized t) (it_done t)) a (ib_heap (d_ib st))))
    (d_rl st) now (d_dropped st).

Lemma alter_at {A} (f : A -> A) (m : gmap nat A) i x : m !! i = Some x -> alter f i m = <[i := f x]> m.
Proof.
  intros H. apply map_eq. intros j. destruct (decide (i = j)) as [<- | Hj].
  - by rewrite lookup_alter, lookup_insert_eq, decide_True, H.
  - by rewrite lookup_alter_ne, lookup_insert_ne.
Qed.

Lemma drainSend_room ctxDone a name au st t :
  ib_heap (d_ib st) !! a = Some t -> ch_closed (it_ch t) = false ->
  (length (ch_buf (it_ch t)) < ch_cap (it_ch t))%nat ->
  drainSend ctxDone false a name au st = Some (true, enqueue a [au] st (d_lastFeed st)).
Proof.
  intros Ht Hc Hr. unfold drainSend, enqueue. rewrite Ht. simpl. unfold inboundSelect, try_send.
  rewrite Hc. destruct (_ <? _)%nat eqn:E; [|lia]. rewrite andb_false_r. simpl. do 4 f_equal.
  by rewrite (alter_at _ _ _ t Ht), Hc.
Qed.

Lemma enqueue_nil a st : enqueue a [] st (d_lastFeed st) = st.
Proof.
  destruct st as [[tr h] rl lf dr]. unfold enqueue. cbn. do 2 f_equal. apply map_eq. intros j.
  destruct (decide (a = j)) as [<- | Hj]; [|by rewrite lookup_alter_ne].
  rewrite lookup_alter, decide_True by done. destruct (h !! a) as [[nm k c [b cp cl] an au dn]|]; [|done].
  simpl. by rewrite app_nil_r.
Qed.

Lemma enqueue_app a l k st n1 n2 : enqueue a k (enqueue a l st n1) n2 = enqueue a (l ++ k) st n2.
Proof.
  unfold enqueue. cbn. do 2 f_equal. apply map_eq. intros j.
  destruct (decide (a = j)) as [<- | Hj]; [|by rewrite !lookup_alter_ne].
  rewrite !lookup_alter, !decide_True by done. destruct (ib_heap (d_ib st) !! a); [|done]. cbn.
  by rewrite <- app_assoc.
Qed.

Lemma enqueue_lookup a l st now t :
  ib_heap (d_ib st) !! a = Some t ->
  exists t', ib_heap (d_ib (enqueue a l st now)) !! a = Some t' /\
    it_ch t' = mkChan (ch_buf (it_ch t) ++ l) (ch_cap (it_ch t)) (ch_closed (it_ch t)).
Proof. intros Ht. cbn. rewrite lookup_alter, decide_True, Ht by done. by eexists. Qed.

Lemma drainLoop_sent cfg clock a name xs : forall fuel e st t,
  Forall sendable xs -> ib_heap (d_ib st) !! a = Some t -> ch_closed (it_ch t) = false ->
  (length (ch_buf (it_ch t)) + length xs <= ch_cap (it_ch t))%nat ->
  noLimits (d_rl st) = true -> (length xs < fuel)%nat ->
  exists now, drainLoop fuel clock a name (mkReader (concat (frame_of cfg <$> xs)) e) st =
              Some (enqueue a ((fun x => received_au x.1) <$> xs) st now).
Proof.
  induction xs as [|x xs IH]; intros [|fuel] e st t Hs Ht Hc Hr Hl Hf; simpl in Hf; try lia.
  - exists (d_lastFeed st). cbn [fmap list_fmap concat drainLoop]. rewrite readInboundFrame_eq. unfold ReadFeedFrame, rd_bind.
    rewrite ReadFull_nil by done. by rewrite enqueue_nil.
  - apply Forall_cons in Hs as [Hx Hs]. cbn [fmap list_fmap concat drainLoop].
    rewrite readInboundFrame_sent by done. cbv zeta.
    rewrite sent_frame_au. unfold drainAdmit. rewrite Hl. set (st1 := mkDState _ _ _ _).
    rewrite (drainSend_room false a name (received_au x.1) st1 t Ht Hc) by (simpl in Hr; lia).
    cbn [mbind option_bind].
    destruct (enqueue_lookup a [received_au x.1] st1 (d_lastFeed st1) t Ht) as (t' & Ht' & Ech).
    destruct (IH fuel e (enqueue a [received_au x.1] st1 (d_lastFeed st1)) t') as (now & E);
      try done; try (rewrite Ech; simpl in *; rewrite ?length_app; simpl; lia || done); try lia.
    exists now. rewrite E, enqueue_app. done.
Qed.

(** The name under which a pump's streams arrive. *)
Definition arrives_as (cfg : Config) : string :=
  if decide (cfg_TrackName cfg = ""%string) then "primary" else cfg_TrackName cfg.

Lemma drainHeader_gop cfg seg e :
  zlen (bytes_of (cfg_TrackName cfg)) <= MaxStreamHeader -> seg <> [] ->
  drainHeader (mkReader (gop_bytes cfg seg) e) =
  Some (arrives_as cfg, mkReader (concat (frame_of cfg <$> seg)) e).
Proof.
  intros Hn Hs. unfold drainHeader, gop_bytes, stream_prefix, arrives_as.
  destruct (decide (cfg_TrackName cfg = ""%string)) as [E|E].
  - destruct seg as [|[au now] seg]; [done|].
    cbn [fmap list_fmap concat]. unfold frame_of at 1, feed_bytes. rewrite app_nil_l, <- app_comm_cons.
    rewrite PeekStreamHeader_legacy by (by destruct (au_Keyframe au)). by rewrite decide_True.
  - rewrite PeekStreamHeader_bytes by done. by rewrite decide_False.
Qed.

Lemma drain_gop_exact cfg seg e onAnnounce clock st a ib t :
  zlen (bytes_of (cfg_TrackName cfg)) <= MaxStreamHeader -> seg <> [] -> Forall sendable seg ->
  drainGate onAnnounce (arrives_as cfg) (d_ib st) = true ->
  inboundTrackChanWire (arrives_as cfg) (d_ib st) = (Some a, ib) ->
  ib_heap ib !! a = Some t -> ch_closed (it_ch t) = false ->
  (length (ch_buf (it_ch t)) + length seg <= ch_cap (it_ch t))%nat ->
  noLimits (d_rl st) = true ->
  exists now, drainInboundStream onAnnounce clock (mkReader (gop_bytes cfg seg) e) st =
    Some (enqueue a ((fun x => received_au x.1) <$> seg)
            (mkDState ib (d_rl st) (d_lastFeed st) (d_dropped st)) now).
Proof.
  intros Hn Hne Hs Hg Hw Ht Hc Hr Hl. unfold drainInboundStream.
  rewrite drainHeader_gop by done. rewrite Hg, Hw. cbn [negb rd_data].
  apply (drainLoop_sent cfg clock a _ seg _ e (mkDState ib (d_rl st) (d_lastFeed st) (d_dropped st)) t);
    try done.
  enough (length seg <= length (concat (frame_of cfg <$> seg)))%nat by lia.
  clear. induction seg as [|[au now] seg IH]; csimpl; [done|]. unfold feed_bytes. simpl. rewrite length_app. lia.
Qed.

(** what a stream-per-GOP pump writes is what the peer's session
    receives: when the complete stream of a run of units is drained into a
    track that the gate admits and that has room, without a rate limit, the
    track's queue gains exactly the units, in order, with their bytes,
    timestamps, sequence numbers and flags; no other track changes, nothing is
    dropped, and the progress clock is the time of the last unit. *)
Theorem inbound_stream_exact cfg seg e onAnnounce clock st a ib t :
  zlen (bytes_of (cfg_TrackName cfg)) <= MaxStreamHeader -> seg <> [] -> Forall sendable seg ->
  drainGate onAnnounce (arrives_as cfg) (d_ib st) = true ->
  inboundTrackChanWire (arrives_as cfg) (d_ib st) = (Some a, ib) ->
  ib_heap ib !! a = Some t -> ch_closed (it_ch t) = false ->
  (length (ch_buf (it_ch t)) + length seg <= ch_cap (it_ch t))%nat ->
  noLimits (d_rl st) = true ->
  exists now, drainInboundStream onAnnounce clock (mkReader (gop_bytes cfg seg) e) st =
    Some (enqueue a ((fun x => received_au x.1) <$> seg)
            (mkDState ib (d_rl st) (d_lastFeed st) (d_dropped st)) now).
Proof. apply drain_gop_exact. Qed.

Definition demo_seg : list (AccessUnit * Z) := [(au0 1 true 2, 0); (au0 2 false 3, 0)].

Lemma inbound_stream_exact_witness :
  exists st, drainInboundStream false (fun _ => 7) (mkReader (gop_bytes (cfg0 false) demo_seg) EOF)
      (mkDState no_inbound (newRateLimiter (mkRateLimit 0 0 0 0) 0) 0 []) = Some st /\
    (exists t, ib_heap (d_ib st) !! 0%nat = Some t /\
       ch_buf (it_ch t) = (fun x => received_au x.1) <$> demo_seg).
Proof.
  destruct (inbound_stream_exact (cfg0 false) demo_seg EOF false (fun _ => 7)
    (mkDState no_inbound (newRateLimiter (mkRateLimit 0 0 0 0) 0) 0 []) 0
    (newInboundTrack (arrives_as (cfg0 false)) no_inbound).2
    (mkInboundTrack (arrives_as (cfg0 false)) "" "" (make_chan AccessUnit 64) false false false))
    as (now & E).
  - vm_compute. discriminate.
  - discriminate.
  - repeat constructor; vm_compute; intuition discriminate.
  - reflexivity.
  - reflexivity.
  - reflexivity.
  - reflexivity.
  - vm_compute. lia.
  - vm_compute. reflexivity.
  - eexists. split; [exact E|]. eexists. split; reflexivity.
Defined.

(** ** Interleavings

    The control goroutine handles announces and unannounces, one drain
    goroutine runs per accepted uni stream, and the application receives.
    Every critical section of [inboundMu] and every channel operation is a
    step of its own. *)

Inductive drain :=
  | DPeek (stream : reader)
  | DGate (name : string) (src : reader)
  | DLookup (name : string) (src : reader)
  | DRead (a : nat) (name : string) (src : reader)
  | DSend (a : nat) (name : string) (au : AccessUnit) (src : reader)
  | DExit.

Inductive ctl := CIdle | CMark (a : nat) (ann : Announce) (authorized : bool).

Section Interleaving.
Context {W : Type} `{JSON ErrorPayload} (Error : error -> string).
Context (OnAnnounce : option (string -> string -> string -> string -> W -> option error * W)).
Context (tenant sessionID : string).

Record iconf := mkIConf {
  ic_st : dstate;
  ic_out : writer;
  ic_world : W;
  ic_ctl : ctl;
  ic_drains : list drain;
  ic_accepted : gset string; (* names OnAnnounce has accepted so far *)
  ic_app : gset string;      (* names the application has asked for *)
}.

(** One step of the drain goroutine in state [d]. *)
Definition drainStep (now : Z) (ctxDone exit : bool) (d : drain) (st : dstate) : option (drain * dstate) :=
  match d with
  | DPeek stream => Some (match drainHeader stream with
                          | None => DExit
                          | Some (name, src) => DGate name src
                          end, st)
  | DGate name src =>
      Some (if drainGate (bool_decide (is_Some OnAnnounce)) name (d_ib st) then DLookup name src else DExit, st)
  | DLookup name src =>
      match inboundTrackChanWire name (d_ib st) with
      | (None, ib) => Some (DExit, with_ib st ib)
      | (Some a, ib) => Some (DRead a name src, with_ib st ib)
      end
  | DRead a name src =>
      match readInboundFrame src with
      | (Err _, _) => Some (DExit, st)
      | (Ok f, src) =>
          match drainAdmit now (inboundAU f) st with
          | (false, st) => Some (DRead a name src, st)
          | (true, st) => Some (DSend a name (inboundAU f) src, st)
          end
      end
  | DSend a name au src =>
      res ← drainSend ctxDone exit a name au st;
      Some (if res.1 : bool then DRead a name src else DExit, res.2)
  | DExit => Some (DExit, st)
  end.

Inductive istep : iconf -> option iconf -> Prop :=
  | is_announce st out w ds acc app a :
      istep (mkIConf st out w CIdle ds acc app)
        (let '(res, ib, out', w') := announceBegin Error OnAnnounce tenant sessionID a (d_ib st) out w in
         let acc := match announceVerdict OnAnnounce tenant sessionID a w with
                    | (None, _) => {[a_Name a]} ∪ acc
                    | (Some _, _) => acc
                    end in
         Some (mkIConf (with_ib st ib) out' w'
                 (match res with Some (t, auth) => CMark t a auth | None => CIdle end) ds acc app))
  | is_mark st out w ds acc app t a auth :
      istep (mkIConf st out w (CMark t a auth) ds acc app)
        (Some (mkIConf (with_ib st (setAnnounced t (a_Kind a) (a_Codec a) auth (d_ib st))) out w CIdle ds acc app))
  | is_unannounce st out w ds acc app u :
      istep (mkIConf st out w CIdle ds acc app)
        (ib ← handleUnannounce u (d_ib st); Some (mkIConf (with_ib st ib) out w CIdle ds acc app))
  | is_ask st out w c ds acc app name :
      istep (mkIConf st out w c ds acc app)
        (Some (mkIConf (with_ib st (inboundTrackChan name (d_ib st)).2) out w c ds acc ({[name]} ∪ app)))
  | is_receive st out w c ds acc app a res st' :
      InboundRecv a st res st' ->
      istep (mkIConf st out w c ds acc app) (Some (mkIConf st' out w c ds acc app))
  | is_accept st out w c ds acc app stream :
      istep (mkIConf st out w c ds acc app) (Some (mkIConf st out w c (ds ++ [DPeek stream]) acc app))
  | is_drain st out w c ds acc app i d now ctxDone exit :
      ds !! i = Some d ->
      istep (mkIConf st out w c ds acc app)
        (res ← drainStep now ctxDone exit d st;
         Some (mkIConf res.2 out w c (<[i := res.1]> ds) acc app)).

Definition isteps : iconf -> iconf -> Prop := rtc (fun c c' => istep c (Some c')).

Definition iinit (rl : rateLimiter) (now : Z) (out : writer) (w : W) : iconf :=
  mkIConf (mkDState no_inbound rl now []) out w CIdle [] ∅ ∅.

(** *** The invariant *)

Record inb_ok (acc : gset string) (ib : inbound) : Prop := {
  io_table : forall name a, ib_tracks ib !! name = Some a ->
    exists t, ib_heap ib !! a = Some t /\ it_name t = name /\ it_done t = false;
  io_chan : forall a t, ib_heap ib !! a = Some t -> ch_closed (it_ch t) = false;
  io_auth : forall a t, ib_heap ib !! a = Some t -> is_Some OnAnnounce ->
    it_authorized t = true \/ ch_buf (it_ch t) <> [] -> it_name t ∈ acc;
}.

(** Objects stay where they are and keep their name. *)
Definition ib_le (ib ib' : inbound) : Prop :=
  forall a t, ib_heap ib !! a = Some t -> exists t', ib_heap ib' !! a = Some t' /\ it_name t' = it_name t.

Definition named (ib : inbound) (a : nat) (name : string) : Prop :=
  exists t, ib_heap ib !! a = Some t /\ it_name t = name.

Definition drain_ok (acc : gset string) (ib : inbound) (d : drain) : Prop :=
  match d with
  | DLookup name _ => is_Some OnAnnounce -> name ∈ acc
  | DRead a name _ | DSend a name _ _ => named ib a name /\ (is_Some OnAnnounce -> name ∈ acc)
  | _ => True
  end.

Definition ctl_ok (acc : gset string) (ib : inbound) (c : ctl) : Prop :=
  match c with
  | CIdle => True
  | CMark a ann auth => named ib a (a_Name ann) /\ (is_Some OnAnnounce -> auth = true -> a_Name ann ∈ acc)
  end.

Definition cap_ok (app : gset string) (ib : inbound) : Prop :=
  (size (dom (ib_tracks ib) ∖ app) <= 256)%nat.

Record iconf_ok (c : iconf) : Prop := {
  ico_inb : inb_ok (ic_accepted c) (d_ib (ic_st c));
  ico_drains : Forall (drain_ok (ic_accepted c) (d_ib (ic_st c))) (ic_drains c);
  ico_ctl : ctl_ok (ic_accepted c) (d_ib (ic_st c)) (ic_ctl c);
  ico_cap : cap_ok (ic_app c) (d_ib (ic_st c));
}.

Lemma ib_le_refl ib : ib_le ib ib.
Proof. intros a t Ha. by exists t. Qed.

Lemma named_le ib ib' a name : ib_le ib ib' -> named ib a name -> named ib' a name.
Proof. intros Hle (t & Ht & <-). destruct (Hle a t Ht) as (t' & Ht' & Hn). by exists t'. Qed.

Lemma drain_ok_le acc acc' ib ib' d :
  ib_le ib ib' -> acc ⊆ acc' -> drain_ok acc ib d -> drain_ok acc' ib' d.
Proof.
  intros Hle Hacc. destruct d; simpl; try done; [auto|..]; intros [Hn Ha]; split; eauto using named_le.
Qed.

Lemma drains_ok_le acc acc' ib ib' ds :
  ib_le ib ib' -> acc ⊆ acc' -> Forall (drain_ok acc ib) ds -> Forall (drain_ok acc' ib') ds.
Proof. intros Hle Hacc Hds. eapply Forall_impl; [exact Hds|]. eauto using drain_ok_le. Qed.

Lemma ctl_ok_le acc acc' ib ib' c : ib_le ib ib' -> acc ⊆ acc' -> ctl_ok acc ib c -> ctl_ok acc' ib' c.
Proof. intros Hle Hacc. destruct c; simpl; [done|]. intros [Hn Ha]. split; eauto using named_le. Qed.

Lemma inb_ok_acc acc acc' ib : acc ⊆ acc' -> inb_ok acc ib -> inb_ok acc' ib.
Proof. intros Hacc [Ht Hc Ha]. split; eauto. Qed.

Lemma newInboundTrack_ok acc name ib :
  inb_ok acc ib -> ib_tracks ib !! name = None ->
  let '(a, ib') := newInboundTrack name ib in
  inb_ok acc ib' /\ ib_le ib ib' /\ named ib' a name.
Proof.
  intros [Ht Hc Ha] Hn. unfold newInboundTrack. set (a := fresh _).
  assert (ib_heap ib !! a = None) as Hfr by (apply not_elem_of_dom, is_fresh).
  assert (forall b t, ib_heap ib !! b = Some t -> a <> b) as Hne by (intros b t Hb <-; congruence).
  split_and!; [split; cbn [ib_tracks ib_heap]| |].
  - intros n b Hb. apply lookup_insert_Some in Hb as [[<- <-] | [Hnn Hb]].
    + rewrite lookup_insert_eq. by eexists.
    + destruct (Ht n b Hb) as (t & Hbt & Hr). exists t. by rewrite lookup_insert_ne by eauto.
  - intros b t Hb. apply lookup_insert_Some in Hb as [[<- <-] | [_ Hb]]; [done|eauto].
  - intros b t Hb Hon Hor. apply lookup_insert_Some in Hb as [[<- <-] | [_ Hb]]; [|by eapply Ha].
    destruct Hor as [? | Hb]; [discriminate|by destruct Hb].
  - intros b t Hb. exists t. cbn. by rewrite lookup_insert_ne by eauto.
  - eexists. cbn. by rewrite lookup_insert_eq.
Qed.

Lemma inboundTrackChanWire_ok acc name ib ib' r :
  inb_ok acc ib -> inboundTrackChanWire name ib = (r, ib') ->
  inb_ok acc ib' /\ ib_le ib ib' /\ (forall a, r = Some a -> named ib' a name).
Proof.
  intros Hok. unfold inboundTrackChanWire. destruct (ib_tracks ib !! name) as [a|] eqn:E.
  - intros [= <- <-]. split_and!; [done|apply ib_le_refl|]. intros ? [= <-].
    destruct (io_table _ _ Hok name a E) as (t & Ht & Hn & _). by exists t.
  - destruct (_ >=? _); [intros [= <- <-]; split_and!; [done|apply ib_le_refl|done]|].
    pose proof (newInboundTrack_ok acc name ib Hok E) as Hnew. destruct (newInboundTrack name ib) as [a ib1].
    intros [= <- <-]. destruct Hnew as (H1 & H2 & H3). split_and!; [done|done|by intros ? [= <-]].
Qed.

(** A change of one object that keeps its name, its open channel and its
    [done] flag. *)
Lemma alter_ok acc ib a (f : inboundTrack -> inboundTrack) :
  (forall t, ib_heap ib !! a = Some t -> it_name (f t) = it_name t /\ it_done (f t) = it_done t /\
     (ch_closed (it_ch t) = false -> ch_closed (it_ch (f t)) = false) /\
     (is_Some OnAnnounce -> it_authorized (f t) = true \/ ch_buf (it_ch (f t)) <> [] ->
        it_authorized t = true \/ ch_buf (it_ch t) <> [] \/ it_name t ∈ acc)) ->
  inb_ok acc ib ->
  let ib' := mkInbound (ib_tracks ib) (alter f a (ib_heap ib)) in inb_ok acc ib' /\ ib_le ib ib'.
Proof.
  intros Hf [Ht Hc Ha]. split; [split; cbn [ib_tracks ib_heap]|].
  - intros n b Hb. destruct (Ht n b Hb) as (t & Hbt & Hn & Hd). destruct (decide (a = b)) as [<- | Hne].
    + rewrite lookup_alter, decide_True, Hbt by done. exists (f t). destruct (Hf t Hbt) as (-> & -> & _).
      by split_and!.
    + rewrite lookup_alter_ne by done. eauto.
  - intros b t Hb. apply lookup_alter_Some in Hb as [(<- & t0 & Hb & ->) | [_ Hb]]; [|eauto].
    destruct (Hf t0 Hb) as (_ & _ & Hcl & _). eauto.
  - intros b t Hb Hon Hor. apply lookup_alter_Some in Hb as [(<- & t0 & Hb & ->) | [_ Hb]]; [|by eapply Ha].
    destruct (Hf t0 Hb) as (-> & _ & _ & Hau). destruct (Hau Hon Hor) as [H1 | [H1 | H1]]; [..|done];
      eapply Ha; eauto.
  - intros b t Hb. cbn. destruct (decide (a = b)) as [<- | Hne].
    + rewrite lookup_alter, decide_True, Hb by done. exists (f t). destruct (Hf t Hb) as (? & _). eauto.
    + rewrite lookup_alter_ne by done. eauto.
Qed.

Lemma setAnnounced_ok acc ib a kind codec auth name :
  named ib a name -> (is_Some OnAnnounce -> auth = true -> name ∈ acc) -> inb_ok acc ib ->
  inb_ok acc (setAnnounced a kind codec auth ib) /\ ib_le ib (setAnnounced a kind codec auth ib).
Proof.
  intros (t0 & Ht0 & Hn) Hauth Hok. apply alter_ok; [|done]. intros t Ht. cbn. rewrite Ht0 in Ht.
  injection Ht as <-. split_and!; [done|done|done|]. intros Hon [-> | Hb]; [|by right; left].
  right; right. rewrite Hn. auto.
Qed.

Lemma handleUnannounce_ok acc u ib :
  inb_ok acc ib -> exists ib', handleUnannounce u ib = Some ib' /\ inb_ok acc ib' /\ ib_le ib ib' /\
    ib_tracks ib' = delete (un_Name u) (ib_tracks ib).
Proof.
  intros Hok. unfold handleUnannounce. destruct (ib_tracks ib !! un_Name u) as [a|] eqn:E.
  - destruct (io_table _ _ Hok _ a E) as (t & Ht & Hn & Hd). rewrite Ht. simpl. rewrite Hd.
    eexists. split; [done|]. split_and!; [split; cbn [ib_tracks ib_heap]| |done].
    + intros n b Hb. apply lookup_delete_Some in Hb as [Hne Hb].
      destruct (io_table _ _ Hok n b Hb) as (t' & Ht' & Hn' & Hd'). exists t'.
      rewrite lookup_insert_ne; [done|]. intros <-. congruence.
    + intros b t' Hb. apply lookup_insert_Some in Hb as [[<- <-] | [_ Hb]]; [|by eapply io_chan].
      cbn. by eapply io_chan.
    + intros b t' Hb Hon Hor. apply lookup_insert_Some in Hb as [[<- <-] | [_ Hb]]; [|by eapply io_auth].
      by apply (io_auth _ _ Hok a t Ht Hon Hor).
    + intros b t' Hb. cbn. destruct (decide (a = b)) as [<- | Hne].
      * rewrite lookup_insert_eq. eexists. split; [done|]. cbn. congruence.
      * rewrite lookup_insert_ne by done. eauto.
  - exists ib. split_and!; [done|done|apply ib_le_refl|]. by rewrite delete_id.
Qed.

Lemma drainSend_ok acc ctxDone exit a name au st :
  inb_ok acc (d_ib st) -> named (d_ib st) a name -> (is_Some OnAnnounce -> name ∈ acc) ->
  exists b st', drainSend ctxDone exit a name au st = Some (b, st') /\ inb_ok acc (d_ib st') /\
    ib_le (d_ib st) (d_ib st') /\ ib_tracks (d_ib st') = ib_tracks (d_ib st).
Proof.
  intros Hok (t & Ht & Hn) Hacc. pose proof (io_chan _ _ Hok a t Ht) as Hc. unfold drainSend. rewrite Ht.
  cbn [mbind option_bind]. unfold inboundSelect, try_send. rewrite Hc. destruct (_ <? _)%nat.
  - destruct ((it_done t || ctxDone) && exit); cbn [mbind option_bind].
    { eexists _, _. split_and!; [done|done|apply ib_le_refl|done]. }
    eexists _, _. split; [done|]. cbn [d_ib]. set (t' := mkInboundTrack _ _ _ _ _ _ _).
    rewrite <- (alter_at (fun _ => t') _ a t) by done.
    destruct (alter_ok acc (d_ib st) a (fun _ => t')) as [H1 H2]; [|done|by split_and!].
    intros t0 Ht0. rewrite Ht in Ht0. injection Ht0 as <-. split_and!; [done|done|done|].
    intros Hon _. right; right. rewrite Hn. auto.
  - destruct (it_done t || ctxDone); cbn [mbind option_bind]; eexists _, _;
      (split_and!; [done|done|apply ib_le_refl|done]).
Qed.

Lemma drainGate_accepted acc name ib :
  inb_ok acc ib -> drainGate (bool_decide (is_Some OnAnnounce)) name ib = true ->
  is_Some OnAnnounce -> name ∈ acc.
Proof.
  intros Hok Hg Hon. unfold drainGate in Hg. rewrite bool_decide_true in Hg by done.
  destruct (ib_tracks ib !! name) as [a|] eqn:E; [|done].
  destruct (io_table _ _ Hok name a E) as (t & Ht & <- & _). rewrite Ht in Hg.
  apply andb_prop in Hg as [_ Hg]. eapply io_auth; eauto.
Qed.

Lemma cap_wire app name ib r ib' :
  cap_ok app ib -> inboundTrackChanWire name ib = (r, ib') -> cap_ok app ib'.
Proof.
  unfold cap_ok, inboundTrackChanWire. intros Hc. destruct (ib_tracks ib !! name) eqn:E; [by intros [= _ <-]|].
  destruct (_ >=? _) eqn:Es; [by intros [= _ <-]|]. unfold newInboundTrack. intros [= _ <-]. cbn.
  etransitivity; [apply subseteq_size, subseteq_difference_l; reflexivity|].
  rewrite dom_insert_L, size_union_alt, size_singleton.
  assert (size (dom (ib_tracks ib) ∖ {[name]}) <= size (ib_tracks ib))%nat.
  { rewrite <- (size_dom (D := gset string)). apply subseteq_size. set_solver. }
  unfold maxInboundTracks in Es. lia.
Qed.

Lemma cap_sub app app' ib ib' :
  cap_ok app ib -> dom (ib_tracks ib') ∖ app' ⊆ dom (ib_tracks ib) ∖ app -> cap_ok app' ib'.
Proof. unfold cap_ok. intros Hc Hs. etransitivity; [by apply subseteq_size|done]. Qed.

Lemma drainStep_ok acc app now ctxDone exit d st :
  inb_ok acc (d_ib st) -> cap_ok app (d_ib st) -> drain_ok acc (d_ib st) d ->
  exists d' st', drainStep now ctxDone exit d st = Some (d', st') /\ inb_ok acc (d_ib st') /\
    cap_ok app (d_ib st') /\ ib_le (d_ib st) (d_ib st') /\ drain_ok acc (d_ib st') d'.
Proof.
  intros Hok Hcap Hd. destruct d as [stream|name src|name src|a name src|a name au src|]; cbn [drainStep].
  - destruct (drainHeader stream) as [[name src]|]; eexists _, st;
      (split_and!; try done; apply ib_le_refl).
  - eexists _, st. split_and!; [done|done|done|apply ib_le_refl|].
    destruct (drainGate _ name (d_ib st)) eqn:E; [|done]. cbn. by eapply drainGate_accepted.
  - destruct (inboundTrackChanWire name (d_ib st)) as [r ib] eqn:E.
    destruct (inboundTrackChanWire_ok acc _ _ _ _ Hok E) as (H1 & H2 & H3).
    pose proof (cap_wire app _ _ _ _ Hcap E) as H4.
    destruct r as [a|]; eexists _, _; (split; [done|]); cbn; eauto 6.
  - destruct Hd as [Hn Ha]. destruct (readInboundFrame src) as [[f|e] src'].
    + unfold drainAdmit. destruct (noLimits (d_rl st)).
      { eexists _, _. split_and!; try done. apply ib_le_refl. }
      destruct (allow _ _ _) as [ok rl]. destruct ok; eexists _, _;
        (split_and!; try done; apply ib_le_refl).
    + eexists _, st. split_and!; try done. apply ib_le_refl.
  - destruct Hd as [Hn Ha]. destruct (drainSend_ok acc ctxDone exit a name au st Hok Hn Ha)
      as (b & st' & -> & H1 & H2 & H3).
    cbn [mbind option_bind fst snd]. eexists _, st'. split; [done|]. split_and!; [done| |done|].
    + eapply cap_sub; [done|]. by rewrite H3.
    + destruct b; [|done]. split; [|done]. by eapply named_le.
  - eexists _, st. split_and!; try done. apply ib_le_refl.
Qed.

Lemma announceBegin_ok acc app a st out w :
  inb_ok acc (d_ib st) -> cap_ok app (d_ib st) ->
  let '(res, ib, _, _) := announceBegin Error OnAnnounce tenant sessionID a (d_ib st) out w in
  let acc' := match announceVerdict OnAnnounce tenant sessionID a w with
              | (None, _) => {[a_Name a]} ∪ acc
              | (Some _, _) => acc
              end in
  inb_ok acc' ib /\ cap_ok app ib /\ ib_le (d_ib st) ib /\ acc ⊆ acc' /\
  ctl_ok acc' ib (match res with Some (t, auth) => CMark t a auth | None => CIdle end).
Proof.
  intros Hok Hcap. unfold announceBegin.
  destruct (announceVerdict OnAnnounce tenant sessionID a w) as [[err|] w'];
    destruct (inboundTrackChanWire (a_Name a) (d_ib st)) as [r ib] eqn:E;
    destruct (inboundTrackChanWire_ok acc _ _ _ _ Hok E) as (H1 & H2 & H3);
    pose proof (cap_wire app _ _ _ _ Hcap E) as H4;
    destruct r as [t|]; cbn; split_and!;
    first [done | by eauto | by intros | (eapply inb_ok_acc; [|done]); set_solver | set_solver].
Qed.

Lemma istep_ok c oc : iconf_ok c -> istep c oc -> exists c', oc = Some c' /\ iconf_ok c'.
Proof.
  intros [Hi Hd Hc Hcap] Hst.
  destruct Hst as [st out w ds acc app a|st out w ds acc app t a auth|st out w ds acc app u
    |st out w c ds acc app name|st out w c ds acc app a res st' Hrecv|st out w c ds acc app stream
    |st out w c ds acc app i d now ctxDone exit Hl]; cbn in Hi, Hd, Hc, Hcap.
  - pose proof (announceBegin_ok acc app a st out w Hi Hcap) as H1.
    destruct (announceBegin _ _ _ _ _ _ _ _) as [[[res ib] out'] w']. cbv zeta in H1.
    destruct H1 as (H1 & H2 & H3 & H4 & H5). eexists. split; [done|].
    split; cbn; [done|by eapply drains_ok_le|done|done].
  - destruct Hc as [Hn Ha].
    destruct (setAnnounced_ok acc (d_ib st) t (a_Kind a) (a_Codec a) auth (a_Name a) Hn Ha Hi) as [H1 H2].
    eexists. split; [done|]. split; cbn; [done|by eapply drains_ok_le|done|]. by eapply cap_sub.
  - destruct (handleUnannounce_ok acc u (d_ib st) Hi) as (ib & -> & H1 & H2 & H3). simpl.
    eexists. split; [done|]. split; cbn; [done|by eapply drains_ok_le|done|].
    eapply cap_sub; [done|]. rewrite H3, dom_delete_L. set_solver.
  - eexists. split; [done|]. unfold inboundTrackChan. destruct (ib_tracks (d_ib st) !! name) as [a|] eqn:E.
    { split; cbn; [done|done|done|]. eapply cap_sub; [done|]. set_solver. }
    pose proof (newInboundTrack_ok acc name (d_ib st) Hi E) as H1. unfold newInboundTrack in *.
    destruct H1 as (H1 & H2 & _). split; cbn; [done|by eapply drains_ok_le|by eapply ctl_ok_le|].
    eapply cap_sub; [done|]. cbn. rewrite dom_insert_L. set_solver.
  - eexists. split; [done|]. destruct Hrecv as [t au c' Ht Hg|t Ht Hdn Hg|t Ht Hg|e]; [|by split..].
    set (t' := mkInboundTrack _ _ _ _ _ _ _). rewrite <- (alter_at (fun _ => t') _ a t) by done.
    destruct (alter_ok acc (d_ib st) a (fun _ => t')) as [H1 H2]; [|done|].
    { intros t0 Ht0. rewrite Ht in Ht0. injection Ht0 as <-. unfold try_recv in Hg. subst t'. cbn.
      destruct (ch_buf (it_ch t)) as [|x b] eqn:Eb; [by destruct (ch_closed (it_ch t))|].
      injection Hg as -> <-. split_and!; [done|done|done|]. intros _ _. by right; left. }
    split; cbn; [done|by eapply drains_ok_le|by eapply ctl_ok_le|by eapply cap_sub].
  - eexists. split; [done|]. split; cbn; [done| |done|done]. apply Forall_app. split; [done|]. by constructor.
  - pose proof (Forall_lookup_1 _ _ _ _ Hd Hl) as Hdi.
    destruct (drainStep_ok acc app now ctxDone exit d st Hi Hcap Hdi) as (d' & st' & -> & H1 & H2 & H3 & H4).
    simpl. eexists. split; [done|]. split; cbn; [done| |by eapply ctl_ok_le|done].
    apply Forall_insert; [by eapply drains_ok_le|done].
Qed.

Lemma iinit_ok rl now out w : iconf_ok (iinit rl now out w).
Proof.
  split; cbn; [|by constructor|done|].
  - split; cbn; intros *; by rewrite lookup_empty.
  - unfold cap_ok. cbn. vm_compute. lia.
Qed.

Lemma isteps_ok c0 c : isteps c0 c -> iconf_ok c0 -> iconf_ok c.
Proof.
  induction 1 as [|c0 c1 c Hst _ IH]; [done|]. intros Hok. apply IH.
  by destruct (istep_ok c0 _ Hok Hst) as (c' & [= <-] & H').
Qed.

(** in every interleaving of the control goroutine, any number of drain
    goroutines and the application, no goroutine panics: no send on a closed
    queue, no second close of a track's [done]; and the peer cannot make the
    session hold more than [maxInboundTracks] tracks beyond the ones the
    application itself asked for. *)
Theorem inbound_bounded_and_safe rl now out w c :
  isteps (iinit rl now out w) c ->
  (forall oc, istep c oc -> oc <> None) /\
  Z.of_nat (size (ib_tracks (d_ib (ic_st c)))) <= maxInboundTracks + Z.of_nat (size (ic_app c)).
Proof.
  intros Hr. pose proof (isteps_ok _ _ Hr (iinit_ok rl now out w)) as Hok. split.
  - intros oc Hst ->. by destruct (istep_ok c None Hok Hst) as (c' & ? & _).
  - pose proof (ico_cap _ Hok) as Hc. unfold cap_ok in Hc. unfold maxInboundTracks.
    rewrite <- (size_dom (D := gset string)).
    assert (dom (ib_tracks (d_ib (ic_st c))) ⊆ (dom (ib_tracks (d_ib (ic_st c))) ∖ ic_app c) ∪ ic_app c) as Hs.
    { intros x Hx. destruct (decide (x ∈ ic_app c)); set_solver. }
    apply subseteq_size in Hs. rewrite size_union in Hs by set_solver. lia.
Qed.

(** with [OnAnnounce] set, a unit is queued for the application only on a
    track whose name that callback accepted earlier in this session, whatever
    the interleaving of announces, unannounces and streams: a stream that
    overtakes its announce, and a stream of a rejected track, deliver
    nothing. *)
Theorem inbound_only_accepted_tracks rl now out w c a t :
  is_Some OnAnnounce -> isteps (iinit rl now out w) c ->
  ib_heap (d_ib (ic_st c)) !! a = Some t -> ch_buf (it_ch t) <> [] ->
  it_name t ∈ ic_accepted c.
Proof.
  intros Hon Hr Ht Hb. pose proof (isteps_ok _ _ Hr (iinit_ok rl now out w)) as Hok.
  apply (io_auth _ _ (ico_inb _ Hok) a t Ht Hon). by right.
Qed.
End Interleaving.

(** *** A concrete session *)

Module InboundDemo.
#[local] Instance demo_json : JSON ErrorPayload :=
  {| Marshal ep := Ok (bytes_of (ep_Code ep)); Unmarshal _ := Err EOF |}.
Definition accept_all : option (string -> string -> string -> string -> unit -> option error * unit) :=
  Some (fun _ _ _ _ w => (None, w)).
Definition demo_rl : rateLimiter := newRateLimiter (mkRateLimit 0 0 0 0) 0.
Definition demo_bytes : list byte := gop_bytes (cfg0 false) [(au0 1 true 2, 0)].
Definition demo_name : string := arrives_as (cfg0 false).
Definition demo_ann : Announce := mkAnnounce demo_name "video" "".
Definition demo_src : reader := mkReader (concat (frame_of (cfg0 false) <$> [(au0 1 true 2, 0)])) EOF.
Definition demo_unit : AccessUnit := received_au (au0 1 true 2).

(** A run of the session: the peer's frames and the schedule. *)
Inductive act :=
  | AAnnounce (a : Announce) | AMark | AUnannounce (u : Unannounce) | AAsk (name : string)
  | AAccept (stream : reader) | ADrain (i : nat).

Definition exec (c : iconf (W := unit)) (x : act) : option (iconf (W := unit)) :=
  let '(mkIConf st out w k ds acc app) := c in
  match x, k with
  | AAnnounce a, CIdle =>
      let '(res, ib, out', w') := announceBegin (fun _ => ""%string) accept_all "t" "s" a (d_ib st) out w in
      Some (mkIConf (with_ib st ib) out' w'
              (match res with Some (t, auth) => CMark t a auth | None => CIdle end) ds
              ({[a_Name a]} ∪ acc) app)
  | AMark, CMark t a auth =>
      Some (mkIConf (with_ib st (setAnnounced t (a_Kind a) (a_Codec a) auth (d_ib st))) out w CIdle ds acc app)
  | AUnannounce u, CIdle =>
      ib ← handleUnannounce u (d_ib st); Some (mkIConf (with_ib st ib) out w CIdle ds acc app)
  | AAsk name, _ =>
      Some (mkIConf (with_ib st (inboundTrackChan name (d_ib st)).2) out w k ds acc ({[name]} ∪ app))
  | AAccept stream, _ => Some (mkIConf st out w k (ds ++ [DPeek stream]) acc app)
  | ADrain i, _ =>
      d ← ds !! i;
      res ← drainStep accept_all 5 false false d st;
      Some (mkIConf res.2 out w k (<[i := res.1]> ds) acc app)
  | _, _ => None
  end.

Lemma exec_istep c x c' :
  exec c x = Some c' -> istep (fun _ => ""%string) accept_all "t" "s" c (Some c').
Proof.
  destruct c as [st out w k ds acc app].
  destruct x, k; cbn [exec]; try discriminate; intros E; try (injection E as <-).
  - pose proof (is_announce (fun _ => ""%string) accept_all "t" "s" st out w ds acc app a) as H.
    destruct (announceBegin _ _ _ _ _ _ _ _) as [[[res ib] out'] w']. injection E as <-. exact H.
  - apply is_mark.
  - destruct (handleUnannounce u (d_ib st)) as [ib|] eqn:Eu; [|discriminate]. injection E as <-.
    pose proof (is_unannounce (fun _ => ""%string) accept_all "t" "s" st out w ds acc app u) as H.
    by rewrite Eu in H.
  - apply is_ask.
  - apply is_ask.
  - apply is_accept.
  - apply is_accept.
  - destruct (ds !! i) as [d|] eqn:Ed; [|discriminate]. cbn [mbind option_bind] in E.
    pose proof (is_drain (fun _ => ""%string) accept_all "t" "s" st out w CIdle ds acc app i d 5 false false Ed) as H.
    destruct (drainStep _ _ _ _ d st) as [res|]; [|discriminate]. injection E as <-. exact H.
  - destruct (ds !! i) as [d|] eqn:Ed; [|discriminate]. cbn [mbind option_bind] in E.
    pose proof (is_drain (fun _ => ""%string) accept_all "t" "s" st out w (CMark a ann authorized)
      ds acc app i d 5 false false Ed) as H.
    destruct (drainStep _ _ _ _ d st) as [res|]; [|discriminate]. injection E as <-. exact H.
Qed.

Fixpoint exec_all (c : iconf (W := unit)) (xs : list act) : option (iconf (W := unit)) :=
  match xs with [] => Some c | x :: xs => c' ← exec c x; exec_all c' xs end.

Lemma exec_all_isteps xs c c' :
  exec_all c xs = Some c' -> isteps (fun _ => ""%string) accept_all "t" "s" c c'.
Proof.
  revert c. induction xs as [|x xs IH]; intros c E; simpl in E; [injection E as <-; apply rtc_refl|].
  destruct (exec c x) as [c1|] eqn:E1; [|discriminate].
  apply (rtc_l _ c c1 c'); [by apply (exec_istep c x c1)|by apply IH].
Qed.

Definition demo_init : iconf (W := unit) := iinit demo_rl 0 (mkWriter [] []) tt.

(** Announce, mark, open a stream, peek, gate, look up, read, send. *)
Definition good_run : list act :=
  [AAnnounce demo_ann; AMark; AAccept (mkReader demo_bytes EOF);
   ADrain 0; ADrain 0; ADrain 0; ADrain 0; ADrain 0].

(** The same with an unannounce between the gate and the look-up. *)
Definition race_run : list act :=
  [AAnnounce demo_ann; AMark; AAccept (mkReader demo_bytes EOF);
   ADrain 0; ADrain 0; AUnannounce (mkUnannounce demo_name); ADrain 0; ADrain 0; ADrain 0].

Definition queue_after (xs : list act) (a : nat) : option (list AccessUnit * bool * bool) :=
  c ← exec_all demo_init xs;
  t ← ib_heap (d_ib (ic_st c)) !! a;
  Some (ch_buf (it_ch t), it_announced t, it_authorized t).

Lemma inbound_bounded_and_safe_witness :
  exists c, exec_all demo_init good_run = Some c /\
    Z.of_nat (size (ib_tracks (d_ib (ic_st c)))) <= maxInboundTracks + Z.of_nat (size (ic_app c)).
Proof.
  destruct (exec_all demo_init good_run) as [c|] eqn:E; [|vm_compute in E; discriminate].
  exists c. split; [reflexivity|].
  apply (inbound_bounded_and_safe (fun _ => ""%string) accept_all "t" "s" demo_rl 0 (mkWriter [] []) tt c).
  apply (exec_all_isteps good_run). exact E.
Defined.

Lemma inbound_only_accepted_tracks_witness :
  exists c t, exec_all demo_init good_run = Some c /\ ib_heap (d_ib (ic_st c)) !! 0%nat = Some t /\
    ch_buf (it_ch t) = [demo_unit] /\ it_name t ∈ ic_accepted c.
Proof.
  destruct (exec_all demo_init good_run) as [c|] eqn:E; [|vm_compute in E; discriminate].
  assert (queue_after good_run 0 = Some ([demo_unit], true, true)) as Hq by (vm_compute; reflexivity).
  unfold queue_after in Hq. rewrite E in Hq. cbn [mbind option_bind] in Hq.
  destruct (ib_heap (d_ib (ic_st c)) !! 0%nat) as [t|] eqn:Et; [|discriminate].
  cbn [mbind option_bind] in Hq. injection Hq as Hb _ _.
  exists c, t. split_and!; [reflexivity|exact Et|exact Hb|].
  apply (inbound_only_accepted_tracks (fun _ => ""%string) accept_all "t" "s" demo_rl 0 (mkWriter [] []) tt c 0 t).
  - eexists; reflexivity.
  - apply (exec_all_isteps good_run). exact E.
  - exact Et.
  - rewrite Hb. discriminate.
Defined.

(** the gate and the look-up of [drainInboundStream] are two critical
    sections, and an unannounce between them is not noticed: the look-up
    recreates the track, neither announced nor authorized, and with
    [OnAnnounce] set the stream's units are still queued on it. *)
Theorem unannounce_race_delivers_unauthorized :
  exists c t, isteps (fun _ => ""%string) accept_all "t" "s" demo_init c /\
    ib_heap (d_ib (ic_st c)) !! 1%nat = Some t /\
    ib_tracks (d_ib (ic_st c)) !! it_name t = Some 1%nat /\
    ch_buf (it_ch t) = [demo_unit] /\ it_announced t = false /\ it_authorized t = false.
Proof.
  destruct (exec_all demo_init race_run) as [c|] eqn:E; [|vm_compute in E; discriminate].
  assert (ib_tracks (d_ib (ic_st c)) !! demo_name = Some 1%nat /\
          (fun t => (it_name t, ch_buf (it_ch t), it_announced t, it_authorized t)) <$>
             ib_heap (d_ib (ic_st c)) !! 1%nat = Some (demo_name, [demo_unit], false, false)) as [Ht Hq].
  { vm_compute in E. injection E as <-. split; vm_compute; reflexivity. }
  destruct (ib_heap (d_ib (ic_st c)) !! 1%nat) as [t|] eqn:Et; [|discriminate]. cbn in Hq.
  injection Hq as Hn Hb Ha Hu. exists c, t. split_and!; [|exact Et|by rewrite Hn|done|done|done].
  by apply (exec_all_isteps race_run).
Qed.
End InboundDemo.
