(* ===== verification/Session.v ===== *)
(** * Package session: the per-connection state machine

    [session/session.go]: the outbound track set, the handshake, the control
    reader, the idle watchdog.  The inbound side is [Inbound.v], the data
    channel [DataChannel.v], the rate limiter [RateLimit.v], and the pumps that
    the session launches [Pump.v].

    Callbacks of the application act on a state [W] of its own.  A receiver is
    the address of a [Pubsub.Receiver].  A track's pump object is referenced by
    the track table and by the goroutine that runs it, so pump objects live in
    a store; [ob_launched] lists the objects handed to a goroutine.  The
    iteration order of a map is the parameter [order].  [None] is a panic. *)

From S2P Require Import Prelude Wire Track Replay RateLimit Pump DataChannel Inbound.

Definition minPingInterval : Z := 1000000000.
Definition featureKindStats : string := "kind-stats".

(** ** Feature negotiation *)

Definition hasFeature (features : list string) (feat : string) : bool :=
  existsb (fun f => bool_decide (f = feat)) features.

Definition intersectFeatures (a b : list string) : list string :=
  if (length a =? 0)%nat || (length b =? 0)%nat then []
  else
    let bset : gset string := list_to_set b in
    filter (fun x => x ∈ bset) a.

(** ** Outbound tracks *)

Record trackPump := mkTrackPump {
  tp_name : string;
  tp_recv : nat;
  tp_cfg : Config;
  tp_stop : bool; (* the channel is closed *)
}.

Record outbound := mkOutbound {
  ob_tracks : gmap string nat;
  ob_pumps : gmap nat trackPump;
  ob_runStarted : bool;
  ob_launched : list nat;
  ob_resumedLeading : gset string;
}.

Definition no_outbound : outbound := mkOutbound ∅ ∅ false [] ∅.

(** The per-track configuration [AttachTrackWithKind] derives from the
    session's [FeedConfig]. *)
Definition pumpConfig (base : Config) (features : list string) (leading : gset string)
    (name : string) (kind : Kind) (priority : Z) (trackID : byte) : Config :=
  mkPumpConfig (cfg_OpenDeadlineKeyframe base) (cfg_WriteDeadline base) name priority
    (cfg_Scheduler base)
    (if decide (kind = ""%string) then cfg_Delivery base else DefaultDeliveryClass kind)
    (cfg_DatagramSender base) (cfg_FallbackOpener base) trackID (cfg_BidiOpener base)
    (cfg_BidiCallTimeout base) (cfg_MaxBidiResponse base)
    (if decide (name ∈ leading) then true else cfg_AllowLeadingPFrames base)
    (if hasFeature features featureKindStats then true else cfg_StampPublishWall base)
    (cfg_OnBidiResponse base).

Definition AttachTrackWithKind (base : Config) (features : list string) (name : string) (kind : Kind)
    (recv : nat) (priority : Z) (trackID : byte) (ob : outbound) : outbound :=
  match ob_tracks ob !! name with
  | Some _ => ob
  | None =>
      let tp := mkTrackPump name recv
                  (pumpConfig base features (ob_resumedLeading ob) name kind priority trackID) false in
      let a := fresh (dom (ob_pumps ob)) in
      mkOutbound (<[name := a]> (ob_tracks ob)) (<[a := tp]> (ob_pumps ob)) (ob_runStarted ob)
        (if ob_runStarted ob then ob_launched ob ++ [a] else ob_launched ob) (ob_resumedLeading ob)
  end.

Definition AttachTrackWithTrackID (OnLookupKind : option (string -> Kind)) (base : Config)
    (features : list string) (name : string) (recv : nat) (priority : Z) (trackID : byte)
    (ob : outbound) : outbound :=
  let kind := match OnLookupKind with Some f => f name | None => ""%string end in
  AttachTrackWithKind base features name kind recv priority trackID ob.

Definition AttachTrackWithPriority OnLookupKind base features (name : string) (recv : nat) (priority : Z)
    (ob : outbound) : outbound :=
  AttachTrackWithTrackID OnLookupKind base features name recv priority x00 ob.

Definition AttachTrack OnLookupKind base features (name : string) (recv : nat) (ob : outbound) : outbound :=
  AttachTrackWithPriority OnLookupKind base features name recv 4 ob.

Definition Receivers (name : string) (ob : outbound) : list nat :=
  match ob_tracks ob !! name with
  | Some a => match ob_pumps ob !! a with Some tp => [tp_recv tp] | None => [] end
  | None => []
  end.

Definition DetachTrack (name : string) (ob : outbound) : option outbound :=
  match ob_tracks ob !! name with
  | None => Some ob
  | Some a =>
      tp ← ob_pumps ob !! a;
      if tp_stop tp then None
      else Some (mkOutbound (delete name (ob_tracks ob))
                   (<[a := mkTrackPump (tp_name tp) (tp_recv tp) (tp_cfg tp) true]> (ob_pumps ob))
                   (ob_runStarted ob) (ob_launched ob) (ob_resumedLeading ob))
  end.

(** The locked section of [Run] that marks the session as started, and the
    launches that follow it; [order] is the iteration order of [s.tracks]. *)
Definition startPumps (order : gmap string nat -> list (string * nat)) (ob : outbound) : outbound :=
  mkOutbound (ob_tracks ob) (ob_pumps ob) true
    (ob_launched ob ++ (snd <$> order (ob_tracks ob))) (ob_resumedLeading ob).

(** ** The session *)

Section Session.
Context {W : Type}.
Context `{JSON Hello, JSON SDP, JSON Announce, JSON Unannounce, JSON Backpressure, JSON KindStats,
          JSON ErrorPayload}.
Context (Error : error -> string).

Record SessionConfig := mkSessionConfig {
  sc_ExpectSlug : string;
  sc_AuthValidator : option (string -> result string);
  sc_OnBackpressure : option (string -> string -> Z -> W -> W);
  sc_OnKeyframeRequest : option (string -> string -> W -> W);
  sc_InboundRateLimit : RateLimit;
  sc_SupportedFeatures : list string;
  sc_SDP : SDP;
  sc_AcceptTimeout : Z;
  sc_ReadHelloTimeout : Z;
  sc_IdleTimeout : Z;
  sc_FeedConfig : Config;
  sc_DataInboundBuffer : Z;
  sc_OnAnnounce : option (string -> string -> string -> string -> W -> option error * W);
  sc_OnKindStats : option (string -> KindStats -> W -> W);
  sc_OnProtocolError : option (string -> byte -> error -> W -> W);
}.

Definition applyDefaults (c : SessionConfig) : SessionConfig :=
  mkSessionConfig (sc_ExpectSlug c) (sc_AuthValidator c) (sc_OnBackpressure c) (sc_OnKeyframeRequest c)
    (sc_InboundRateLimit c) (sc_SupportedFeatures c) (sc_SDP c)
    (if sc_AcceptTimeout c =? 0 then 5 * 1000000000 else sc_AcceptTimeout c)
    (if sc_ReadHelloTimeout c =? 0 then 3 * 1000000000 else sc_ReadHelloTimeout c)
    (if sc_IdleTimeout c =? 0 then 60 * 1000000000 else sc_IdleTimeout c)
    (sc_FeedConfig c)
    (if sc_DataInboundBuffer c =? 0 then 64 else sc_DataInboundBuffer c)
    (sc_OnAnnounce c) (sc_OnKindStats c) (sc_OnProtocolError c).

(** The callbacks that the server sets on the session. *)
Record Hooks := mkHooks {
  OnAllocateID : option (W -> string * W);
  OnResume : option (string -> string -> gmap string Z -> W -> option (gmap string nat) * W);
  OnFreshSession : option (W -> gmap string nat * W);
  OnLookupPriority : option (string -> Z);
  OnLookupTrackID : option (string -> byte);
  OnLookupKind : option (string -> Kind);
}.

(** What the handshake establishes. *)
Record identity := mkIdentity {
  SessionID : string;
  NegotiatedFeatures : list string;
  NegotiatedVersion : string;
  Tenant : string;
  HelloSessionID : string;
  HelloLastSeenSeq : gmap string Z;
}.

Record session := mkSession {
  ss_id : identity;
  ss_ob : outbound;
  ss_in : dstate;         (* inbound tracks, rate limiter, lastFeedNano *)
  ss_dc : Channel;
  ss_bytesOut : Z;
  ss_lastAttempt : Z;
  ss_lastPing : Z;
  ss_ctl : reader;        (* the control stream, read side *)
  ss_out : writer;        (* the control stream, write side, behind ctlWriter *)
  ss_world : W;
}.

Definition newSession (cfg : SessionConfig) (now : Z) (ctl : reader) (out : writer) (w : W) : session :=
  let cfg := applyDefaults cfg in
  mkSession (mkIdentity "" [] "" "" "" ∅) no_outbound
    (mkDState no_inbound (newRateLimiter (sc_InboundRateLimit cfg) now) 0 [])
    (dc_New (sc_DataInboundBuffer cfg)) 0 0 0 ctl out w.

Definition with_id (s : session) (i : identity) : session :=
  mkSession i (ss_ob s) (ss_in s) (ss_dc s) (ss_bytesOut s) (ss_lastAttempt s) (ss_lastPing s) (ss_ctl s) (ss_out s) (ss_world s).
Definition with_ob (s : session) (ob : outbound) : session :=
  mkSession (ss_id s) ob (ss_in s) (ss_dc s) (ss_bytesOut s) (ss_lastAttempt s) (ss_lastPing s) (ss_ctl s) (ss_out s) (ss_world s).
Definition with_in (s : session) (d : dstate) : session :=
  mkSession (ss_id s) (ss_ob s) d (ss_dc s) (ss_bytesOut s) (ss_lastAttempt s) (ss_lastPing s) (ss_ctl s) (ss_out s) (ss_world s).
Definition with_dc (s : session) (c : Channel) : session :=
  mkSession (ss_id s) (ss_ob s) (ss_in s) c (ss_bytesOut s) (ss_lastAttempt s) (ss_lastPing s) (ss_ctl s) (ss_out s) (ss_world s).
Definition with_ping (s : session) (n : Z) : session :=
  mkSession (ss_id s) (ss_ob s) (ss_in s) (ss_dc s) (ss_bytesOut s) (ss_lastAttempt s) n (ss_ctl s) (ss_out s) (ss_world s).
Definition with_ctl (s : session) (r : reader) : session :=
  mkSession (ss_id s) (ss_ob s) (ss_in s) (ss_dc s) (ss_bytesOut s) (ss_lastAttempt s) (ss_lastPing s) r (ss_out s) (ss_world s).
Definition with_out (s : session) (w : writer) : session :=
  mkSession (ss_id s) (ss_ob s) (ss_in s) (ss_dc s) (ss_bytesOut s) (ss_lastAttempt s) (ss_lastPing s) (ss_ctl s) w (ss_world s).
Definition with_world (s : session) (w : W) : session :=
  mkSession (ss_id s) (ss_ob s) (ss_in s) (ss_dc s) (ss_bytesOut s) (ss_lastAttempt s) (ss_lastPing s) (ss_ctl s) (ss_out s) w.

(** [ctlWriter.Write]. *)
Definition ctlWrite (typ : byte) (payload : list byte) (s : session) : option error * session :=
  let '(err, out) := WriteControlFrame typ payload (ss_out s) in (err, with_out s out).

Definition bestEffortError (msg : string) (s : session) : session := (ctlWrite TypeError (bytes_of msg) s).2.

Definition SendAnnounce (name kind codec : string) (s : session) : session :=
  match Marshal (mkAnnounce name kind codec) with
  | Err _ => s
  | Ok body => (ctlWrite TypeAnnounce body s).2
  end.

Definition SendUnannounce (name : string) (s : session) : session :=
  match Marshal (mkUnannounce name) with
  | Err _ => s
  | Ok body => (ctlWrite TypeUnannounce body s).2
  end.

Definition SendClose (reason : string) (s : session) : session := (ctlWrite TypeClose (bytes_of reason) s).2.

(** *** Progress *)

Definition touchFeed (now : Z) (s : session) : session :=
  with_in s (mkDState (d_ib (ss_in s)) (d_rl (ss_in s)) now (d_dropped (ss_in s))).

Definition touchAttempt (now : Z) (s : session) : session :=
  mkSession (ss_id s) (ss_ob s) (ss_in s) (ss_dc s) (ss_bytesOut s) now (ss_lastPing s) (ss_ctl s) (ss_out s) (ss_world s).

Definition touchFeedAndCount (n now : Z) (s : session) : session :=
  touchFeed now
    (mkSession (ss_id s) (ss_ob s) (ss_in s) (ss_dc s) (u64 (ss_bytesOut s + n)) (ss_lastAttempt s)
       (ss_lastPing s) (ss_ctl s) (ss_out s) (ss_world s)).

(** [withFeedHook]: what a pump's callbacks do to the session. *)
Definition feedHook (now : Z) (e : event) (s : session) : session :=
  match e with
  | EvAttempt => touchAttempt now s
  | EvWriteBytes n => touchFeedAndCount n now s
  | _ => s
  end.
End Session.
Arguments SessionConfig : clear implicits.
Arguments Hooks : clear implicits.
Arguments session : clear implicits.

(** ** The handshake *)

Section Handshake.
Context {W : Type}.
Context `{JSON Hello, JSON SDP}.
Context (cfg : SessionConfig W) (hooks : Hooks W).
Context (order : gmap string nat -> list (string * nat)).

(** The version range a HELLO offers. *)
Definition helloVersions (hello : Hello) : string * string :=
  let clientMin := if decide (h_MinVersion hello = ""%string) then h_Version hello else h_MinVersion hello in
  let clientMax := if decide (h_MaxVersion hello = ""%string) then h_Version hello else h_MaxVersion hello in
  if decide (clientMin = ""%string /\ clientMax = ""%string) then (CurrentVersion, CurrentVersion)
  else (clientMin, clientMax).

(** The credential check; [Ok None] leaves the session's tenant as it is.
    [subtle.ConstantTimeCompare] is 1 exactly on equal byte strings. *)
Definition authenticate (slug : string) : result (option string) :=
  match sc_AuthValidator cfg with
  | Some validator => match validator slug with
                      | Ok tenant => Ok (Some tenant)
                      | Err _ => Err ErrAuth
                      end
  | None => if decide (slug = sc_ExpectSlug cfg) then Ok None else Err ErrAuth
  end.

(** The resume attempt: [true] when the tracks of a parked session were
    attached. *)
Definition tryResume (hello : Hello) (s : session W) : bool * session W :=
  match OnResume hooks with
  | Some onResume =>
      if decide (h_SessionID hello = ""%string) then (false, s)
      else
        match onResume (Tenant (ss_id s)) (h_SessionID hello) (h_LastSeenSeq hello) (ss_world s) with
        | (None, w) => (false, with_world s w)
        | (Some receivers, w) =>
            let i := ss_id s in
            let s := with_world s w in
            let s := with_id s (mkIdentity (h_SessionID hello) (NegotiatedFeatures i) (NegotiatedVersion i)
                                  (Tenant i) (HelloSessionID i) (HelloLastSeenSeq i)) in
            let ob := ss_ob s in
            let ob := if (size (h_LastSeenSeq hello) =? 0)%nat then ob
                      else mkOutbound (ob_tracks ob) (ob_pumps ob) (ob_runStarted ob) (ob_launched ob)
                             (dom (h_LastSeenSeq hello)) in
            (true, with_ob s
               (foldl (fun ob nr => AttachTrack (OnLookupKind hooks) (sc_FeedConfig cfg)
                                      (NegotiatedFeatures i) nr.1 nr.2 ob) ob (order receivers)))
        end
  | None => (false, s)
  end.

(** The attach of one track of a fresh session. *)
Definition attachFresh (features : list string) (ob : outbound) (nr : string * nat) : outbound :=
  let '(name, r) := nr in
  let priority := match OnLookupPriority hooks with Some f => f name | None => 4 end in
  let trackID := match OnLookupTrackID hooks with Some f => f name | None => x00 end in
  let kind := match OnLookupKind hooks with Some f => f name | None => ""%string end in
  AttachTrackWithKind (sc_FeedConfig cfg) features name kind r priority trackID ob.

Definition startFresh (s : session W) : session W :=
  let s := match OnAllocateID hooks with
           | Some f =>
               let '(id, w) := f (ss_world s) in
               let i := ss_id s in
               with_id (with_world s w)
                 (mkIdentity id (NegotiatedFeatures i) (NegotiatedVersion i) (Tenant i)
                    (HelloSessionID i) (HelloLastSeenSeq i))
           | None => s
           end in
  match OnFreshSession hooks with
  | Some f =>
      let '(receivers, w) := f (ss_world s) in
      let s := with_world s w in
      with_ob s (foldl (attachFresh (NegotiatedFeatures (ss_id s))) (ss_ob s) (order receivers))
  | None => s
  end.

(** The SDP answer. *)
Definition answer (hello : Hello) (i : identity) : SDP :=
  let d := sc_SDP cfg in
  mkSDP (sdp_Codec d) (sdp_Width d) (sdp_Height d) (sdp_FPS d) (sdp_ScreenW d) (sdp_ScreenH d)
    (SessionID i) (intersectFeatures (h_Features hello) (sc_SupportedFeatures cfg)) (NegotiatedVersion i).

Definition sendSDP (hello : Hello) (s : session W) : option error * session W :=
  let i := ss_id s in
  let sdpVal := answer hello i in
  let s := with_id s (mkIdentity (SessionID i) (sdp_Features sdpVal) (NegotiatedVersion i) (Tenant i)
                        (HelloSessionID i) (HelloLastSeenSeq i)) in
  match Marshal sdpVal with
  | Err e => (Some e, s)
  | Ok sdp => ctlWrite TypeSDP sdp s
  end.

(** Everything after a successful HELLO check. *)
Definition startSession (hello : Hello) (s : session W) : option error * session W :=
  let i := ss_id s in
  let s := with_id s (mkIdentity (SessionID i) (NegotiatedFeatures i) (NegotiatedVersion i) (Tenant i)
                        (h_SessionID hello) (h_LastSeenSeq hello)) in
  let '(resumed, s) := tryResume hello s in
  sendSDP hello (if resumed : bool then s else startFresh s).

(** [deadline] is the result of [SetReadDeadline]. *)
Definition handshake (deadline : option error) (s : session W) : option error * session W :=
  match deadline with
  | Some e => (Some e, s)
  | None =>
  match ReadControlFrame (ss_ctl s) with
  | (Err e, r) => (Some e, with_ctl s r)
  | (Ok (t, payload), r) =>
  let s := with_ctl s r in
  if negb (bool_decide (t = TypeHello)) then (Some ErrBadHello, bestEffortError "expected HELLO" s)
  else match Unmarshal payload with
  | Err _ => (Some ErrBadHello, bestEffortError "bad hello json" s)
  | Ok hello =>
  let '(clientMin, clientMax) := helloVersions hello in
  match NegotiateVersion clientMin clientMax MinSupportedVersion CurrentVersion with
  | (_, false) => (Some ErrBadHello, bestEffortError "version" s)
  | (negotiated, true) =>
  let i := ss_id s in
  let s := with_id s (mkIdentity (SessionID i) (NegotiatedFeatures i) negotiated (Tenant i)
                        (HelloSessionID i) (HelloLastSeenSeq i)) in
  match authenticate (h_Slug hello) with
  | Err e => (Some e, bestEffortError "auth" s)
  | Ok tenant =>
  let s := with_id s (mkIdentity (SessionID i) (NegotiatedFeatures i) negotiated (default (Tenant i) tenant)
                        (HelloSessionID i) (HelloLastSeenSeq i)) in
  if decide (h_Role hello <> ""%string /\ h_Role hello <> "recv"%string)
  then (Some ErrBadHello, bestEffortError "bad role" s)
  else startSession hello s
  end end end end end.
End Handshake.

(** ** The control reader *)

Section Control.
Context {W : Type}.
Context `{JSON Announce, JSON Unannounce, JSON Backpressure, JSON KindStats, JSON ErrorPayload}.
Context (Error : error -> string).
Context (cfg : SessionConfig W).

Definition protocolError (frameType : byte) (err : error) (s : session W) : session W :=
  match sc_OnProtocolError cfg with
  | Some f => with_world s (f (SessionID (ss_id s)) frameType err (ss_world s))
  | None => s
  end.

(** The error [controlReader] returns for a peer's error frame. *)
Definition peerError (ep : ErrorPayload) : error :=
  if decide (ep_Code ep <> ""%string /\ ep_Reason ep <> ""%string)
  then ErrMsg ("peer error: " +:+ ep_Code ep +:+ ": " +:+ ep_Reason ep)
  else if decide (ep_Code ep <> ""%string) then ErrMsg ("peer error: " +:+ ep_Code ep)
  else ErrMsg ("peer error: " +:+ ep_Reason ep).

Definition handleBackpressure (bp : Backpressure) (s : session W) : session W :=
  let sid := SessionID (ss_id s) in
  let s := match sc_OnKeyframeRequest cfg with
           | Some f => if bp_NeedsKeyframe bp then with_world s (f sid (bp_TrackName bp) (ss_world s)) else s
           | None => s
           end in
  match sc_OnBackpressure cfg with
  | Some f => with_world s (f sid (bp_TrackName bp) (bp_Level bp) (ss_world s))
  | None => s
  end.

(** What one frame makes of the reader: it goes on, or returns. *)
Inductive ctl_outcome := CContinue (s : session W) | CReturn (err : option error) (s : session W).

(** One round of [controlReader], the frame being [(t, payload)]. *)
Definition controlFrame (now : Z) (t : byte) (payload : list byte) (s : session W) : option ctl_outcome :=
  if bool_decide (t = TypePing) then
    let last := ss_lastPing s in
    if negb (last =? 0) && (now - last <? minPingInterval) then Some (CContinue s)
    else
      let s := with_ping s now in
      match ctlWrite TypePong payload s with
      | (Some err, s) => Some (CReturn (Some err) s)
      | (None, s) => Some (CContinue s)
      end
  else if bool_decide (t = TypeClose) then Some (CReturn None s)
  else if bool_decide (t = TypeError) then
    Some (CReturn (Some (peerError (UnmarshalError Unmarshal payload).1)) s)
  else if bool_decide (t = TypeData) then
    c ← dc_Deliver (ss_dc s) payload; Some (CContinue (with_dc s c))
  else if bool_decide (t = TypeAnnounce) then
    match Unmarshal payload with
    | Err err => Some (CContinue (protocolError t err s))
    | Ok a =>
        let '(ib, out, w) := handleAnnounce Error (sc_OnAnnounce cfg) (Tenant (ss_id s)) (SessionID (ss_id s))
                               a (d_ib (ss_in s)) (ss_out s) (ss_world s) in
        Some (CContinue (with_world (with_out (with_in s (with_ib (ss_in s) ib)) out) w))
    end
  else if bool_decide (t = TypeUnannounce) then
    match Unmarshal payload with
    | Err err => Some (CContinue (protocolError t err s))
    | Ok u => ib ← handleUnannounce u (d_ib (ss_in s)); Some (CContinue (with_in s (with_ib (ss_in s) ib)))
    end
  else if bool_decide (t = TypeKindStats) then
    match sc_OnKindStats cfg with
    | None => Some (CContinue s)
    | Some f =>
        match Unmarshal payload with
        | Err err => Some (CContinue (protocolError t err s))
        | Ok ks => Some (CContinue (with_world s (f (SessionID (ss_id s)) ks (ss_world s))))
        end
    end
  else if bool_decide (t = TypeBackpressure) then
    match Unmarshal payload with
    | Err err => Some (CContinue (protocolError t err s))
    | Ok bp => Some (CContinue (handleBackpressure bp s))
    end
  else Some (CContinue s).

(** The loop: one round per element of [rounds], which gives the context's
    state at the top of the round and the clock; with [rounds] used up the
    goroutine is waiting for the next frame ([CContinue]). *)
Fixpoint controlReader (rounds : list (option error * Z)) (s : session W) : option ctl_outcome :=
  match rounds with
  | [] => Some (CContinue s)
  | (Some err, _) :: _ => Some (CReturn (Some err) s)
  | (None, now) :: rounds' =>
      match ReadControlFrame (ss_ctl s) with
      | (Err err, r) => Some (CReturn (Some err) (with_ctl s r))
      | (Ok (t, payload), r) =>
          o ← controlFrame now t payload (with_ctl s r);
          match o with
          | CContinue s => controlReader rounds' s
          | CReturn err s => Some (CReturn err s)
          end
      end
  end.
End Control.

(** ** The idle watchdog *)

Section Watchdog.
Context {W : Type} (cfg : SessionConfig W).

Definition watchdogPeriod : Z :=
  let period := Z.quot (sc_IdleTimeout cfg) 4 in
  let period := if period <=? 0 then 5 * 1000000000 else period in
  if period >? 5 * 1000000000 then 5 * 1000000000 else period.

(** One tick of the poll loop. *)
Definition idleWatchdog (now : Z) (s : session W) : option error :=
  let lastProgress := d_lastFeed (ss_in s) in
  let lastAttempt := ss_lastAttempt s in
  if (lastAttempt >? lastProgress) && (now - lastProgress >? sc_IdleTimeout cfg)
  then Some ErrIdle else None.
End Watchdog.

(** ** [Run] up to the wait: the clock is started, the handshake done, and the
    pumps launched. *)
Definition runBegin {W} `{JSON Hello, JSON SDP} (cfg : SessionConfig W) (hooks : Hooks W)
    (OnHandshakeComplete : option (session W -> W -> W))
    (order : gmap string nat -> list (string * nat)) (now : Z) (deadline : option error) (s : session W)
    : option error * session W :=
  let s := touchFeed now s in
  match handshake cfg hooks order deadline s with
  | (Some err, s) => (Some err, s)
  | (None, s) =>
      let s := match OnHandshakeComplete with Some f => with_world s (f s (ss_world s)) | None => s end in
      (None, with_ob s (startPumps order (ss_ob s)))
  end.

(** The announce burst that [Run] sends for the tracks of [names]. *)
Definition announceTracks {W} `{JSON Announce} (hooks : Hooks W) (names : list string) (s : session W)
    : session W :=
  foldl (fun s n => SendAnnounce n (match OnLookupKind hooks with Some f => f n | None => ""%string end) "" s)
    s names.

(** * Properties of the outbound track set *)

(** The track set as the table's client sees it. *)
Definition view (ob : outbound) : gmap string trackPump := omap (fun a => ob_pumps ob !! a) (ob_tracks ob).

Record ob_ok (ob : outbound) : Prop := {
  ok_table : forall name a, ob_tracks ob !! name = Some a ->
    exists tp, ob_pumps ob !! a = Some tp /\ tp_name tp = name /\ tp_stop tp = false;
  ok_live : forall a tp, ob_pumps ob !! a = Some tp -> tp_stop tp = false -> ob_tracks ob !! tp_name tp = Some a;
  ok_launched : forall a, a ∈ ob_launched ob -> is_Some (ob_pumps ob !! a);
  ok_once : NoDup (ob_launched ob);
  ok_started : ob_runStarted ob = true -> forall name a, ob_tracks ob !! name = Some a -> a ∈ ob_launched ob;
  ok_unstarted : ob_runStarted ob = false -> ob_launched ob = [];
}.

Lemma no_outbound_ok : ob_ok no_outbound.
Proof. split; cbn; try (intros *; rewrite lookup_empty); try done; [set_solver|constructor]. Qed.

Definition new_pump base features ob name kind recv priority trackID : trackPump :=
  mkTrackPump name recv (pumpConfig base features (ob_resumedLeading ob) name kind priority trackID) false.

Lemma attach_ok base features name kind recv priority trackID ob :
  ob_ok ob -> ob_ok (AttachTrackWithKind base features name kind recv priority trackID ob).
Proof.
  intros [Ht Hl Hla Ho Hs Hu]. unfold AttachTrackWithKind.
  destruct (ob_tracks ob !! name) as [a|] eqn:E; [by split|].
  set (a := fresh _). assert (ob_pumps ob !! a = None) as Hfr by (apply not_elem_of_dom, is_fresh).
  assert (forall b tp, ob_pumps ob !! b = Some tp -> a <> b) as Hne by (intros b tp Hb <-; congruence).
  assert (a ∉ ob_launched ob) as Hna by (intros Hin; apply Hla in Hin; rewrite Hfr in Hin; by destruct Hin).
  split; cbn.
  - intros n b Hb. apply lookup_insert_Some in Hb as [[<- <-] | [Hnn Hb]].
    + rewrite lookup_insert_eq. by eexists.
    + destruct (Ht n b Hb) as (tp & Hp & ?). exists tp. by rewrite lookup_insert_ne by eauto.
  - intros b tp Hb Hst. apply lookup_insert_Some in Hb as [[<- <-] | [Hnn Hb]]; [by rewrite lookup_insert_eq|].
    rewrite lookup_insert_ne; [by eapply Hl|]. intros Hn. pose proof (Hl b tp Hb Hst) as Hl'. congruence.
  - intros b Hb. destruct (decide (a = b)) as [<- | Hab]; [by rewrite lookup_insert_eq|].
    rewrite lookup_insert_ne by done. destruct (ob_runStarted ob); [|by apply Hla].
    apply elem_of_app in Hb as [Hb | Hb]; [by apply Hla|]. by apply list_elem_of_singleton in Hb.
  - destruct (ob_runStarted ob); [|done]. apply NoDup_app. split_and!; [done| |apply NoDup_singleton].
    intros b Hb ->%list_elem_of_singleton. done.
  - intros Hst n b Hb. rewrite Hst. apply elem_of_app.
    apply lookup_insert_Some in Hb as [[<- <-] | [_ Hb]]; [right; by constructor|left; by eapply Hs].
  - intros Hst. rewrite Hst. auto.
Qed.

Lemma detach_ok name ob : ob_ok ob -> exists ob', DetachTrack name ob = Some ob' /\ ob_ok ob' /\
  view ob' = delete name (view ob).
Proof.
  intros Hok. pose proof Hok as [Ht Hl Hla Ho Hs Hu]. unfold DetachTrack.
  destruct (ob_tracks ob !! name) as [a|] eqn:E.
  - destruct (Ht name a E) as (tp & Hp & Hn & Hst). rewrite Hp. simpl. rewrite Hst. eexists. split; [done|].
    assert (forall n b, ob_tracks ob !! n = Some b -> n <> name -> a <> b) as Hinj.
    { intros n b Hb Hnn <-. destruct (Ht n a Hb) as (tp' & Hp' & Hn' & _). congruence. }
    split; [split; cbn|].
    + intros n b Hb. apply lookup_delete_Some in Hb as [Hnn Hb].
      destruct (Ht n b Hb) as (tp' & Hp' & ?). exists tp'. by rewrite lookup_insert_ne by eauto.
    + intros b tp' Hb Hst'. apply lookup_insert_Some in Hb as [[<- <-] | [Hnn Hb]]; [discriminate|].
      pose proof (Hl b tp' Hb Hst') as Hb'. rewrite lookup_delete_ne; [done|]. intros Hn'. congruence.
    + intros b Hb. destruct (decide (a = b)) as [<- | Hab]; [by rewrite lookup_insert_eq|].
      rewrite lookup_insert_ne by done. by apply Hla.
    + done.
    + intros Hrun n b Hb. apply lookup_delete_Some in Hb as [_ Hb]. by eapply Hs.
    + done.
    + apply map_eq. intros n. unfold view. rewrite lookup_omap. cbn. destruct (decide (name = n)) as [<- | Hnn].
      * by rewrite !lookup_delete_eq.
      * rewrite !lookup_delete_ne, lookup_omap by done. destruct (ob_tracks ob !! n) as [b|] eqn:Eb; [|done].
        cbn. by rewrite lookup_insert_ne by (eapply Hinj; eauto).
  - exists ob. split_and!; [done|done|]. rewrite delete_id; [done|]. unfold view. by rewrite lookup_omap, E.
Qed.

Lemma start_ok order ob :
  (forall m, order m ≡ₚ map_to_list m) -> ob_ok ob -> ob_runStarted ob = false -> ob_ok (startPumps order ob).
Proof.
  intros Hord [Ht Hl Hla Ho Hs Hu] Hst. unfold startPumps.
  assert (forall a, a ∈ (snd <$> order (ob_tracks ob)) <-> exists n, ob_tracks ob !! n = Some a) as Hin.
  { intros a. rewrite Hord, list_elem_of_fmap. split.
    - intros ([n b] & -> & Hb). exists n. by apply elem_of_map_to_list.
    - intros (n & Hb). exists (n, a). split; [done|]. by apply elem_of_map_to_list. }
  split; cbn; rewrite ?(Hu Hst); try done.
  - intros a Ha. apply Hin in Ha as (n & Hn). destruct (Ht n a Hn) as (tp & -> & _). done.
  - simpl. rewrite Hord. clear Hin. pose proof (NoDup_map_to_list (ob_tracks ob)) as Hnd.
    assert (forall n b, (n, b) ∈ map_to_list (ob_tracks ob) -> ob_tracks ob !! n = Some b) as Hm
      by (intros n b; apply elem_of_map_to_list).
    revert Hnd Hm. generalize (map_to_list (ob_tracks ob)) as l. induction l as [|[n b] l IH]; csimpl;
      intros Hnd Hm; [constructor|]. apply NoDup_cons in Hnd as [Hni Hnd]. constructor.
    + intros Hb. apply list_elem_of_fmap in Hb as ([n' b'] & Hbb & Hb). simpl in Hbb. subst b'. apply Hni.
      destruct (Ht n b) as (tp & Hp & Hn & _); [apply Hm; by left|].
      destruct (Ht n' b) as (tp' & Hp' & Hn' & _); [apply Hm; by right|].
      rewrite Hp in Hp'. injection Hp' as <-. rewrite Hn in Hn'. by subst.
    + apply IH; [done|]. intros n' b' Hb. apply Hm. by right.
  - intros _ n a Ha. apply Hin. eauto.
Qed.

(** The operations on the track set, in any order; [Run] starts the pumps
    once. *)
Inductive obstep : outbound -> option outbound -> Prop :=
  | obs_attach ob base features name kind recv priority trackID :
      obstep ob (Some (AttachTrackWithKind base features name kind recv priority trackID ob))
  | obs_detach ob name : obstep ob (DetachTrack name ob)
  | obs_start ob order :
      ob_runStarted ob = false -> (forall m, order m ≡ₚ map_to_list m) ->
      obstep ob (Some (startPumps order ob)).

Definition obsteps : outbound -> outbound -> Prop := rtc (fun a b => obstep a (Some b)).

Lemma obstep_ok ob o : ob_ok ob -> obstep ob o -> exists ob', o = Some ob' /\ ob_ok ob'.
Proof.
  intros Hok Hstep.
  destruct Hstep as [ob base features name kind recv priority trackID|ob name|ob order Hst Hord].
  - eexists. split; [done|]. by apply attach_ok.
  - destruct (detach_ok name ob Hok) as (ob'' & -> & H' & _). eauto.
  - eexists. split; [done|]. by apply start_ok.
Qed.

Lemma obsteps_ok ob0 ob : obsteps ob0 ob -> ob_ok ob0 -> ob_ok ob.
Proof.
  induction 1 as [|ob0 ob1 ob Hst _ IH]; [done|]. intros Hok. apply IH.
  by destruct (obstep_ok ob0 _ Hok Hst) as (? & [= <-] & ?).
Qed.

(** however attaches, detaches and the start of [Run] interleave, no
    detach closes a stop channel twice, every pump is handed to a goroutine at
    most once, once the session runs every attached track's pump has been
    handed to one, and every pump that has not been told to stop belongs to an
    attached track. *)
Theorem track_pumps_launched_once ob :
  obsteps no_outbound ob ->
  (forall o, obstep ob o -> o <> None) /\ NoDup (ob_launched ob) /\
  (ob_runStarted ob = true -> forall name a, ob_tracks ob !! name = Some a -> a ∈ ob_launched ob) /\
  (forall a tp, ob_pumps ob !! a = Some tp -> tp_stop tp = false -> ob_tracks ob !! tp_name tp = Some a).
Proof.
  intros Hr. pose proof (obsteps_ok _ _ Hr no_outbound_ok) as Hok. split_and!; try apply Hok.
  intros o Hst ->. by destruct (obstep_ok ob None Hok Hst) as (? & ? & _).
Qed.

Definition demo_feed : Config := cfg0 false.

Lemma track_pumps_launched_once_witness :
  let ob := startPumps map_to_list (AttachTrackWithKind demo_feed [] "a" KindVideo 7 4 x00 no_outbound) in
  NoDup (ob_launched ob) /\ (forall name a, ob_tracks ob !! name = Some a -> a ∈ ob_launched ob).
Proof.
  set (ob := startPumps _ _).
  assert (obsteps no_outbound ob) as Hr.
  { eapply rtc_l; [apply (obs_attach no_outbound demo_feed [] "a" KindVideo 7 4 x00)|].
    eapply rtc_l; [|apply rtc_refl]. apply (obs_start _ map_to_list); [reflexivity|done]. }
  destruct (track_pumps_launched_once ob Hr) as (_ & H1 & H2 & _). split; [exact H1|].
  apply H2. reflexivity.
Defined.

(** ** Attaching a whole receiver map *)

Lemma attach_view base features name kind recv priority trackID ob :
  ob_ok ob ->
  view (AttachTrackWithKind base features name kind recv priority trackID ob) =
  view ob ∪ {[name := new_pump base features ob name kind recv priority trackID]}.
Proof.
  intros Hok. unfold AttachTrackWithKind. apply map_eq. intros n. unfold view.
  destruct (ob_tracks ob !! name) as [a|] eqn:E.
  - rewrite lookup_union, lookup_omap. destruct (decide (n = name)) as [-> | Hn].
    + rewrite E. destruct (ok_table _ Hok name a E) as (tp & Hp & _). cbn. rewrite Hp. by rewrite union_Some_l.
    + rewrite lookup_singleton_ne by done. by destruct (ob_tracks ob !! n ≫= _).
  - set (a := fresh _). assert (ob_pumps ob !! a = None) as Hfr by (apply not_elem_of_dom, is_fresh).
    rewrite lookup_union, !lookup_omap. cbn. destruct (decide (n = name)) as [-> | Hn].
    + rewrite lookup_insert_eq, E, lookup_singleton_eq. cbn. by rewrite lookup_insert_eq.
    + rewrite lookup_insert_ne, lookup_singleton_ne by done. destruct (ob_tracks ob !! n) as [b|] eqn:Eb; [|done].
      cbn. destruct (ok_table _ Hok n b Eb) as (tp & Hp & _). rewrite lookup_insert_ne by (intros <-; congruence).
      by rewrite Hp.
Qed.

Lemma attach_leading base features name kind recv priority trackID ob :
  ob_resumedLeading (AttachTrackWithKind base features name kind recv priority trackID ob) = ob_resumedLeading ob.
Proof. unfold AttachTrackWithKind. by destruct (ob_tracks ob !! name). Qed.

(** Attaching the receivers of a map one by one, with a priority and a track id
    per name, in any order. *)
Section AttachAll.
Context (base : Config) (features : list string).
Context (kind : string -> Kind) (priority : string -> Z) (trackID : string -> byte).

Definition attachOne (ob : outbound) (nr : string * nat) : outbound :=
  AttachTrackWithKind base features nr.1 (kind nr.1) nr.2 (priority nr.1) (trackID nr.1) ob.

Definition pump_for (leading : gset string) (name : string) (r : nat) : trackPump :=
  mkTrackPump name r (pumpConfig base features leading name (kind name) (priority name) (trackID name)) false.

Lemma attach_list_view l ob :
  ob_ok ob -> NoDup l.*1 ->
  ob_ok (foldl attachOne ob l) /\ ob_resumedLeading (foldl attachOne ob l) = ob_resumedLeading ob /\
  view (foldl attachOne ob l) =
  view ob ∪ list_to_map ((fun nr => (nr.1, pump_for (ob_resumedLeading ob) nr.1 nr.2)) <$> l).
Proof.
  revert ob. induction l as [|[n r] l IH]; intros ob Hok Hnd; csimpl.
  { split_and!; [done|done|]. by rewrite map_union_empty. }
  apply NoDup_cons in Hnd as [Hni Hnd].
  destruct (IH (attachOne ob (n, r))) as (H1 & H2 & H3); [by apply attach_ok|done|].
  assert (ob_resumedLeading (attachOne ob (n, r)) = ob_resumedLeading ob) as Hlead by apply attach_leading.
  rewrite Hlead in H2, H3. split_and!; [done|done|]. rewrite H3.
  change (view (attachOne ob (n, r))) with
    (view (AttachTrackWithKind base features n (kind n) r (priority n) (trackID n) ob)).
  rewrite attach_view by done. rewrite <- map_union_assoc. f_equal. by rewrite <- insert_union_singleton_l.
Qed.

Lemma attach_list_started l ob : ob_runStarted (foldl attachOne ob l) = ob_runStarted ob.
Proof.
  revert ob. induction l as [|x l IH]; intros ob; [done|]. cbn [foldl]. rewrite IH. unfold attachOne.
  unfold AttachTrackWithKind. cbn. by destruct (ob_tracks ob !! x.1).
Qed.

Lemma attach_map_view order m ob :
  (forall m, order m ≡ₚ map_to_list m) -> ob_ok ob ->
  view (foldl attachOne ob (order m)) =
  view ob ∪ map_imap (fun n r => Some (pump_for (ob_resumedLeading ob) n r)) m /\
  ob_ok (foldl attachOne ob (order m)).
Proof.
  intros Hord Hok.
  assert (NoDup (order m).*1) as Hnd by (rewrite Hord; apply NoDup_fst_map_to_list).
  destruct (attach_list_view (order m) ob Hok Hnd) as (H1 & _ & ->). split; [|done]. f_equal.
  apply map_eq. intros n. rewrite map_lookup_imap. destruct (m !! n) as [r|] eqn:E; cbn.
  - apply elem_of_list_to_map_1; [by rewrite <- list_fmap_compose|].
    rewrite Hord. apply list_elem_of_fmap. exists (n, r). split; [done|]. by apply elem_of_map_to_list.
  - apply not_elem_of_list_to_map_1. rewrite <- list_fmap_compose. intros Hin.
    apply list_elem_of_fmap in Hin as ([n' r] & -> & Hin). rewrite Hord in Hin.
    apply elem_of_map_to_list in Hin. cbn in E. congruence.
Qed.
End AttachAll.

(** * Properties of the handshake *)

(** What a control write can leave on the stream: a prefix of one frame. *)
Lemma WriteControlFrame_prefix typ p w :
  exists k, w_out (WriteControlFrame typ p w).2 = w_out w ++ take k (control_bytes typ p).
Proof.
  unfold WriteControlFrame. destruct (_ >? _). { exists O. simpl. by rewrite app_nil_r. }
  unfold wr_seq, control_bytes.
  set (hdr := typ :: be_bytes 3 (zlen p)).
  destruct (Write hdr w) as [[e|] w1] eqn:E1; destruct (Write_prefix _ _ _ _ E1) as (k1 & H1 & H1').
  - change (typ :: be_bytes 3 (zlen p) ++ p) with (hdr ++ p). cbn [snd].
    destruct (decide (k1 <= length hdr)%nat) as [Hk|Hk].
    + exists k1. by rewrite H1, take_app_le.
    + exists (length hdr). rewrite H1, take_app_length, take_ge; [done|lia].
  - rewrite H1' in H1 by done. destruct (zlen p =? 0) eqn:Ep.
    { exists (length hdr). change (typ :: be_bytes 3 (zlen p) ++ p) with (hdr ++ p).
      by rewrite take_app_length. }
    destruct (Write p w1) as [e w2] eqn:E2. destruct (Write_prefix _ _ _ _ E2) as (k2 & H2 & _).
    exists (length hdr + k2)%nat. change (typ :: be_bytes 3 (zlen p) ++ p) with (hdr ++ p).
    cbn [snd]. by rewrite H2, H1, <- app_assoc, take_app_add.
Qed.

Section HandshakeProperties.
Context {W : Type} `{JSON Hello, JSON SDP}.
Context (cfg : SessionConfig W) (hooks : Hooks W).
Context (order : gmap string nat -> list (string * nat)).
Context (order_ok : forall m, order m ≡ₚ map_to_list m).

(** A control stream that starts with an acceptable HELLO. *)
Record hello_ok (ctl : reader) (hello : Hello) (negotiated : string) (tenant : option string) (rest : reader)
    : Prop := {
  ho_frame : exists payload, ReadControlFrame ctl = (Ok (TypeHello, payload), rest) /\
                             Unmarshal payload = Ok hello;
  ho_version : NegotiateVersion (helloVersions hello).1 (helloVersions hello).2
                 MinSupportedVersion CurrentVersion = (negotiated, true);
  ho_auth : authenticate cfg (h_Slug hello) = Ok tenant;
  ho_role : h_Role hello = ""%string \/ h_Role hello = "recv"%string;
}.

(** The session after the checks. *)
Definition checked (s : session W) (negotiated : string) (tenant : option string) (rest : reader) : session W :=
  let i := ss_id s in
  with_id (with_ctl s rest)
    (mkIdentity (SessionID i) (NegotiatedFeatures i) negotiated (default (Tenant i) tenant)
       (HelloSessionID i) (HelloLastSeenSeq i)).

Lemma handshake_checked s hello negotiated tenant rest :
  hello_ok (ss_ctl s) hello negotiated tenant rest ->
  handshake cfg hooks order None s = startSession cfg hooks order hello (checked s negotiated tenant rest).
Proof.
  intros [(payload & Hf & Hu) Hv Ha Hr]. unfold handshake. rewrite Hf, bool_decide_true, Hu by done. cbn [negb].
  destruct (helloVersions hello) as [lo hi]. cbn in Hv. rewrite Hv, Ha.
  rewrite decide_False by (intros [H1 H2]; by destruct Hr). done.
Qed.

(** What a refused peer has caused. *)
Definition untouched (s s' : session W) : Prop :=
  ss_ob s' = ss_ob s /\ ss_in s' = ss_in s /\ ss_dc s' = ss_dc s /\ ss_world s' = ss_world s /\
  SessionID (ss_id s') = SessionID (ss_id s) /\
  exists k msg, w_out (ss_out s') = w_out (ss_out s) ++ take k (control_bytes TypeError msg).

Lemma bestEffortError_untouched s s' msg :
  ss_ob s' = ss_ob s -> ss_in s' = ss_in s -> ss_dc s' = ss_dc s -> ss_world s' = ss_world s ->
  SessionID (ss_id s') = SessionID (ss_id s) -> ss_out s' = ss_out s ->
  untouched s (bestEffortError msg s').
Proof.
  intros H1 H2 H3 H4 H5 H6. unfold bestEffortError, ctlWrite.
  destruct (WriteControlFrame_prefix TypeError (bytes_of msg) (ss_out s')) as (k & Hk).
  destruct (WriteControlFrame TypeError (bytes_of msg) (ss_out s')) as [e out]. cbn in *.
  unfold untouched; cbn. split_and!; try done. exists k, (bytes_of msg). by rewrite Hk, H6.
Qed.

Lemma handshake_cases deadline s :
  (deadline = None /\ exists hello negotiated tenant rest, hello_ok (ss_ctl s) hello negotiated tenant rest) \/
  (exists err, (handshake cfg hooks order deadline s).1 = Some err) /\
  untouched s (handshake cfg hooks order deadline s).2.
Proof.
  assert (forall s', ss_ob s' = ss_ob s -> ss_in s' = ss_in s -> ss_dc s' = ss_dc s ->
    ss_world s' = ss_world s -> ss_id s' = ss_id s -> ss_out s' = ss_out s -> untouched s s') as Hsame.
  { intros s' H1 H2 H3 H4 H5 H6. unfold untouched. rewrite H1, H2, H3, H4, H5, H6. split_and!; try done.
    exists 0%nat, []. by rewrite app_nil_r. }
  unfold handshake. destruct deadline as [e|]; [right; split; [eauto|by apply Hsame]|].
  destruct (ReadControlFrame (ss_ctl s)) as [[[t payload]|e] rest] eqn:Hf; [|right; split; [eauto|by apply Hsame]].
  destruct (bool_decide (t = TypeHello)) eqn:Et; cbn [negb];
    [apply bool_decide_eq_true in Et; subst t|right; split; [eauto|by apply bestEffortError_untouched]].
  destruct (Unmarshal payload) as [hello|e] eqn:Hu; [|right; split; [eauto|by apply bestEffortError_untouched]].
  destruct (helloVersions hello) as [lo hi] eqn:Ev.
  destruct (NegotiateVersion lo hi MinSupportedVersion CurrentVersion) as [neg []] eqn:En;
    [|right; split; [eauto|by apply bestEffortError_untouched]].
  destruct (authenticate cfg (h_Slug hello)) as [tenant|e] eqn:Ea;
    [|right; split; [eauto|by apply bestEffortError_untouched]].
  destruct (decide (h_Role hello <> ""%string /\ h_Role hello <> "recv"%string)) as [Hr|Hr];
    [right; split; [eauto|by apply bestEffortError_untouched]|].
  left. split; [done|]. exists hello, neg, tenant, rest. split; [eauto|by rewrite Ev|done|].
  destruct (decide (h_Role hello = ""%string)); [by left|right].
  destruct (decide (h_Role hello = "recv"%string)); [done|]. by destruct Hr.
Qed.
End HandshakeProperties.

(** C24: a peer that does not present an acceptable HELLO (the right frame
    type, well-formed, a version in range, a credential the validator or the
    slug comparison accepts, a subscriber role) gets an error and causes
    nothing: no track is attached, no resume, allocation or fresh-session
    callback runs, no session id is assigned, and at most one error frame is
    written to it. *)
Theorem handshake_gate {W} `{JSON Hello, JSON SDP} (cfg : SessionConfig W) hooks order deadline s :
  let '(err, s') := handshake cfg hooks order deadline s in
  (exists hello negotiated tenant rest, hello_ok cfg (ss_ctl s) hello negotiated tenant rest) \/
  (err <> None /\ untouched s s').
Proof.
  destruct (handshake_cases cfg hooks order deadline s) as [[_ Hok] | [[err He] Hu]];
    destruct (handshake cfg hooks order deadline s) as [err' s']; [by left|right].
  cbn in He, Hu. by rewrite He.
Qed.

Section HandshakeOutcome.
Context {W : Type} `{JSON Hello, JSON SDP}.
Context (cfg : SessionConfig W) (hooks : Hooks W).
Context (order : gmap string nat -> list (string * nat)).
Context (order_ok : forall m, order m ≡ₚ map_to_list m).

Definition kindOf (name : string) : Kind := match OnLookupKind hooks with Some f => f name | None => ""%string end.
Definition priorityOf (name : string) : Z := match OnLookupPriority hooks with Some f => f name | None => 4 end.
Definition trackIDOf (name : string) : byte := match OnLookupTrackID hooks with Some f => f name | None => x00 end.

(** What the server answers to a resume request. *)
Definition resumeResult (hello : Hello) (tenant : string) (w : W) : option (gmap string nat) * W :=
  match OnResume hooks with
  | Some f => if decide (h_SessionID hello = ""%string) then (None, w)
              else f tenant (h_SessionID hello) (h_LastSeenSeq hello) w
  | None => (None, w)
  end.

Lemma attachFresh_all features l ob :
  foldl (attachFresh cfg hooks features) ob l =
  foldl (attachOne (sc_FeedConfig cfg) features kindOf priorityOf trackIDOf) ob l.
Proof. revert ob. induction l as [|[n r] l IH]; intros ob; csimpl; [done|]. by rewrite IH. Qed.

Lemma attachResumed_all features l ob :
  foldl (fun ob nr => AttachTrack (OnLookupKind hooks) (sc_FeedConfig cfg) features nr.1 nr.2 ob) ob l =
  foldl (attachOne (sc_FeedConfig cfg) features kindOf (fun _ => 4) (fun _ => x00)) ob l.
Proof. revert ob. induction l as [|[n r] l IH]; intros ob; csimpl; [done|]. by rewrite IH. Qed.

Lemma intersectFeatures_filter a b : intersectFeatures a b = filter (fun x => x ∈ b) a.
Proof.
  unfold intersectFeatures. destruct (_ || _) eqn:Elen.
  - apply orb_prop in Elen as [El%Nat.eqb_eq | El%Nat.eqb_eq]; apply length_zero_iff_nil in El; rewrite El; [done|].
    clear. induction a as [|x l IH]; [done|]. rewrite filter_cons, decide_False by set_solver. done.
  - apply list_filter_iff. intros x. by rewrite elem_of_list_to_set.
Qed.

Lemma sendSDP_ok hello s sdp :
  Marshal (answer cfg hello (ss_id s)) = Ok sdp -> zlen sdp <= MaxControlPayload -> w_script (ss_out s) = [] ->
  exists s', sendSDP cfg hello s = (None, s') /\ ss_ob s' = ss_ob s /\ ss_world s' = ss_world s /\
    SessionID (ss_id s') = SessionID (ss_id s) /\ Tenant (ss_id s') = Tenant (ss_id s) /\
    NegotiatedVersion (ss_id s') = NegotiatedVersion (ss_id s) /\
    NegotiatedFeatures (ss_id s') = intersectFeatures (h_Features hello) (sc_SupportedFeatures cfg) /\
    w_out (ss_out s') = w_out (ss_out s) ++ control_bytes TypeSDP sdp.
Proof.
  intros Hm Hl Hs. unfold sendSDP. rewrite Hm. unfold ctlWrite. destruct s as [i ob din dc bo la lp ctl [out scr] w].
  cbn in Hs. subst scr. cbn [ss_out with_id]. rewrite WriteControlFrame_accept by done.
  eexists. split; [done|]. by cbn.
Qed.

Lemma tryResume_none hello s w :
  resumeResult hello (Tenant (ss_id s)) (ss_world s) = (None, w) ->
  tryResume cfg hooks order hello s = (false, with_world s w).
Proof.
  unfold resumeResult, tryResume. destruct (OnResume hooks) as [f|].
  - destruct (decide _); [intros [= <-]; by destruct s|]. by intros ->.
  - intros [= <-]. by destruct s.
Qed.
End HandshakeOutcome.

(** a fresh session.  After an acceptable HELLO whose resume request, if
    any, is declined, the handshake succeeds with a newly allocated session id;
    the negotiated features are the common ones in the client's order; exactly
    the receivers of [OnFreshSession] are attached (tracks attached before win),
    each with the priority, track id and delivery class of the server's
    registry; and the peer gets one SDP frame that carries the session id, the
    version and the features. *)
Theorem handshake_fresh {W} `{JSON Hello, JSON SDP} (cfg : SessionConfig W) hooks order s
    hello negotiated tenant rest w1 alloc fresh sdp :
  (forall m, order m ≡ₚ map_to_list m) -> ob_ok (ss_ob s) -> w_script (ss_out s) = [] ->
  hello_ok cfg (ss_ctl s) hello negotiated tenant rest ->
  resumeResult hooks hello (default (Tenant (ss_id s)) tenant) (ss_world s) = (None, w1) ->
  OnAllocateID hooks = Some alloc -> OnFreshSession hooks = Some fresh ->
  Marshal (answer cfg hello (mkIdentity (alloc w1).1 [] negotiated "" "" ∅)) = Ok sdp ->
  zlen sdp <= MaxControlPayload ->
  exists s', handshake cfg hooks order None s = (None, s') /\
    SessionID (ss_id s') = (alloc w1).1 /\ Tenant (ss_id s') = default (Tenant (ss_id s)) tenant /\
    NegotiatedVersion (ss_id s') = negotiated /\
    NegotiatedFeatures (ss_id s') = filter (fun x => x ∈ sc_SupportedFeatures cfg) (h_Features hello) /\
    ss_world s' = (fresh (alloc w1).2).2 /\
    view (ss_ob s') = view (ss_ob s) ∪
      map_imap (fun n r => Some (mkTrackPump n r
        (pumpConfig (sc_FeedConfig cfg) (NegotiatedFeatures (ss_id s)) (ob_resumedLeading (ss_ob s)) n
           (kindOf hooks n) (priorityOf hooks n) (trackIDOf hooks n)) false)) (fresh (alloc w1).2).1 /\
    w_out (ss_out s') = w_out (ss_out s) ++ control_bytes TypeSDP sdp /\
    ob_ok (ss_ob s') /\ ob_runStarted (ss_ob s') = ob_runStarted (ss_ob s).
Proof.
  intros Hord Hob Hw Hh Hres Hal Hfr Hm Hl. rewrite (handshake_checked cfg hooks order s _ _ _ _ Hh).
  unfold startSession. set (s1 := with_id _ _).
  rewrite (tryResume_none cfg hooks order hello s1 w1) by exact Hres. unfold startFresh. rewrite Hal, Hfr.
  cbn [ss_world with_world]. destruct (alloc w1) as [id w2]. cbn [fst snd] in *. cbn [ss_world with_world with_id].
  destruct (fresh w2) as [receivers w3] eqn:Ef. set (s2 := with_ob _ _).
  destruct (sendSDP_ok cfg hello s2 sdp Hm Hl Hw) as (s' & E & H1 & H2 & H3 & H4 & H5 & H6 & H7).
  exists s'. split; [exact E|]. rewrite H1, H2, H3, H4, H5, H6, H7. split_and!; try done.
  - apply intersectFeatures_filter.
  - subst s2 s1. unfold checked. cbn [ss_ob ss_id with_ob with_world with_id with_ctl NegotiatedFeatures].
    rewrite attachFresh_all.
    by destruct (attach_map_view (sc_FeedConfig cfg) (NegotiatedFeatures (ss_id s)) (kindOf hooks)
      (priorityOf hooks) (trackIDOf hooks) order receivers (ss_ob s) Hord Hob) as [-> _].
  - subst s2 s1. unfold checked. cbn [ss_ob ss_id with_ob with_world with_id with_ctl NegotiatedFeatures].
    rewrite attachFresh_all. by apply attach_map_view.
  - subst s2 s1. unfold checked. cbn [ss_ob ss_id with_ob with_world with_id with_ctl NegotiatedFeatures].
    rewrite attachFresh_all. apply attach_list_started.
Qed.

(** a resumed session.  When the server hands back the receivers of a
    parked session, the session keeps the id the client asked for, nothing is
    allocated and no fresh receiver is subscribed; exactly the parked receivers
    are attached, the tracks for which the client sent a cursor may continue in
    the middle of a group of pictures; but every track gets the default
    priority 4 and track id 0, whatever the registry says. *)
Theorem handshake_resume {W} `{JSON Hello, JSON SDP} (cfg : SessionConfig W) hooks order s
    hello negotiated tenant rest receivers w1 sdp :
  (forall m, order m ≡ₚ map_to_list m) -> ob_ok (ss_ob s) -> w_script (ss_out s) = [] ->
  hello_ok cfg (ss_ctl s) hello negotiated tenant rest ->
  resumeResult hooks hello (default (Tenant (ss_id s)) tenant) (ss_world s) = (Some receivers, w1) ->
  Marshal (answer cfg hello (mkIdentity (h_SessionID hello) [] negotiated "" "" ∅)) = Ok sdp ->
  zlen sdp <= MaxControlPayload ->
  exists s', handshake cfg hooks order None s = (None, s') /\
    SessionID (ss_id s') = h_SessionID hello /\ ss_world s' = w1 /\
    view (ss_ob s') = view (ss_ob s) ∪
      map_imap (fun n r => Some (mkTrackPump n r
        (pumpConfig (sc_FeedConfig cfg) (NegotiatedFeatures (ss_id s))
           (if (size (h_LastSeenSeq hello) =? 0)%nat then ob_resumedLeading (ss_ob s)
            else dom (h_LastSeenSeq hello)) n
           (kindOf hooks n) 4 x00) false)) receivers /\
    w_out (ss_out s') = w_out (ss_out s) ++ control_bytes TypeSDP sdp /\
    NegotiatedFeatures (ss_id s') = filter (fun x => x ∈ sc_SupportedFeatures cfg) (h_Features hello) /\
    ob_ok (ss_ob s') /\ ob_runStarted (ss_ob s') = ob_runStarted (ss_ob s).
Proof.
  intros Hord Hob Hw Hh Hres Hm Hl. rewrite (handshake_checked cfg hooks order s _ _ _ _ Hh).
  unfold startSession. set (s1 := with_id _ _). unfold resumeResult in Hres. unfold tryResume.
  destruct (OnResume hooks) as [f|]; [|done]. destruct (decide (h_SessionID hello = ""%string)); [done|].
  change (Tenant (ss_id s1)) with (default (Tenant (ss_id s)) tenant).
  change (ss_world s1) with (ss_world s). rewrite Hres. set (s2 := with_ob _ _).
  destruct (sendSDP_ok cfg hello s2 sdp Hm Hl Hw) as (s' & E & H1 & H2 & H3 & H4 & H5 & H6 & H7).
  exists s'. split; [exact E|]. rewrite H1, H2, H3, H6, H7.
  subst s2 s1. unfold checked. cbn [ss_ob ss_id ss_world ss_out SessionID with_ob with_world with_id with_ctl NegotiatedFeatures].
  set (ob1 := if (size _ =? 0)%nat then _ else _).
  assert (ob_ok ob1 /\ view ob1 = view (ss_ob s) /\ ob_runStarted ob1 = ob_runStarted (ss_ob s) /\
    ob_resumedLeading ob1 = (if (size (h_LastSeenSeq hello) =? 0)%nat then ob_resumedLeading (ss_ob s)
                             else dom (h_LastSeenSeq hello))) as (Hob1 & Hv & Hst & <-).
  { subst ob1. destruct (size _ =? 0)%nat; [done|]. split_and!; [|done..]. by destruct Hob. }
  rewrite attachResumed_all, <- Hv, <- Hst.
  destruct (attach_map_view (sc_FeedConfig cfg) (NegotiatedFeatures (ss_id s)) (kindOf hooks)
    (fun _ => 4) (fun _ => x00) order receivers ob1 Hord Hob1) as [-> Hok].
  split_and!; [done|done|done|done|apply intersectFeatures_filter|exact Hok|apply attach_list_started].
Qed.

(** Attaching changes what the pumps of a track set satisfy only through the
    new configuration. *)
Lemma attach_forall (P : trackPump -> Prop) base features name kind recv priority trackID ob :
  (forall a tp, ob_pumps ob !! a = Some tp -> P tp) ->
  P (new_pump base features ob name kind recv priority trackID) ->
  forall a tp, ob_pumps (AttachTrackWithKind base features name kind recv priority trackID ob) !! a = Some tp -> P tp.
Proof.
  intros Hall Hnew a tp. unfold AttachTrackWithKind. destruct (ob_tracks ob !! name); [apply Hall|].
  cbn. intros Hl. by apply lookup_insert_Some in Hl as [[<- <-] | [_ Hl]]; [|eapply Hall].
Qed.

Lemma attachOne_forall (P : trackPump -> Prop) base features kind priority trackID l : forall ob,
  (forall a tp, ob_pumps ob !! a = Some tp -> P tp) ->
  (forall ob n r, P (new_pump base features ob n (kind n) r (priority n) (trackID n))) ->
  forall a tp, ob_pumps (foldl (attachOne base features kind priority trackID) ob l) !! a = Some tp -> P tp.
Proof.
  induction l as [|[n r] l IH]; intros ob Hall Hnew a tp; csimpl; [apply Hall|].
  apply IH; [|done]. intros a' tp'. by apply (attach_forall P).
Qed.

(** the tracks that the handshake attaches are attached before the
    negotiated features are stored, so their pumps are never asked to stamp the
    publish wall-clock, also when the peers have agreed on "kind-stats". *)
Theorem handshake_tracks_never_stamped {W} `{JSON Hello, JSON SDP} (cfg : SessionConfig W) hooks order
    deadline now ctl out w a tp :
  let s' := (handshake cfg hooks order deadline (newSession cfg now ctl out w)).2 in
  ob_pumps (ss_ob s') !! a = Some tp -> cfg_StampPublishWall (tp_cfg tp) = cfg_StampPublishWall (sc_FeedConfig cfg).
Proof.
  cbv zeta. set (s := newSession cfg now ctl out w).
  destruct (handshake_cases cfg hooks order deadline s) as [(-> & hello & neg & tenant & rest & Hh) | [_ Hu]];
    [|by rewrite (proj1 Hu)].
  rewrite (handshake_checked cfg hooks order s _ _ _ _ Hh). unfold startSession. set (s1 := with_id _ _).
  assert (forall s2, ss_ob (sendSDP cfg hello s2).2 = ss_ob s2) as Hsdp.
  { intros s2. unfold sendSDP, ctlWrite. destruct (Marshal _); [|done]. by destruct (WriteControlFrame _ _ _). }
  assert (forall (kind : string -> Kind) prio tid l ob,
    (forall b tp, ob_pumps ob !! b = Some tp -> cfg_StampPublishWall (tp_cfg tp) = cfg_StampPublishWall (sc_FeedConfig cfg)) ->
    forall b tp, ob_pumps (foldl (attachOne (sc_FeedConfig cfg) [] kind prio tid) ob l) !! b = Some tp ->
      cfg_StampPublishWall (tp_cfg tp) = cfg_StampPublishWall (sc_FeedConfig cfg)) as Hall.
  { intros kind prio tid l ob Hob. by apply (attachOne_forall
      (fun tp => cfg_StampPublishWall (tp_cfg tp) = cfg_StampPublishWall (sc_FeedConfig cfg))). }
  assert (forall w', forall b tp, ob_pumps (ss_ob (startFresh cfg hooks order (with_world s1 w'))) !! b = Some tp ->
    cfg_StampPublishWall (tp_cfg tp) = cfg_StampPublishWall (sc_FeedConfig cfg)) as Hfresh.
  { intros w' b tp'. unfold startFresh. cbn [ss_world with_world].
    destruct (OnAllocateID hooks) as [al|]; [destruct (al w') as [id w2]|];
      (destruct (OnFreshSession hooks) as [fr|]; [destruct (fr _) as [rs w3]; cbn; rewrite attachFresh_all; by apply Hall|done]). }
  destruct (tryResume cfg hooks order hello s1) as [resumed s2] eqn:Er. rewrite Hsdp.
  unfold tryResume in Er. destruct (OnResume hooks) as [f|]; [|injection Er as <- <-; apply (Hfresh (ss_world s1))].
  destruct (decide _); [injection Er as <- <-; apply (Hfresh (ss_world s1))|].
  destruct (f _ _ _ _) as [[receivers|] w1]; injection Er as <- <-; [|apply (Hfresh w1)].
  cbn. rewrite attachResumed_all. apply Hall. by destruct (size _ =? 0)%nat.
Qed.

(** * Properties of the control reader *)

Section ControlProperties.
Context {W : Type} {JA : JSON Announce} {JU : JSON Unannounce} {JB : JSON Backpressure} {JK : JSON KindStats}
  {JE : JSON ErrorPayload}.
Context (Error : error -> string) (cfg : SessionConfig W).

Definition outcome_session (o : ctl_outcome (W := W)) : session W :=
  match o with CContinue s => s | CReturn _ s => s end.

(** The data-plane state that control frames must not touch. *)
Definition same_plane (s s' : session W) : Prop :=
  ss_ob s' = ss_ob s /\ d_lastFeed (ss_in s') = d_lastFeed (ss_in s) /\ d_rl (ss_in s') = d_rl (ss_in s) /\
  ss_lastAttempt s' = ss_lastAttempt s /\ ss_bytesOut s' = ss_bytesOut s /\ ss_id s' = ss_id s.

(** Nothing on the inbound side or the data channel can make a frame panic. *)
Definition ctl_safe (s : session W) : Prop :=
  dc_ok (ss_dc s) /\ exists acc, inb_ok (sc_OnAnnounce cfg) acc (d_ib (ss_in s)).

Lemma handleAnnounce_safe tenant sid a ib out w acc :
  inb_ok (sc_OnAnnounce cfg) acc ib ->
  let '(ib', _, _) := handleAnnounce Error (sc_OnAnnounce cfg) tenant sid a ib out w in
  exists acc', inb_ok (sc_OnAnnounce cfg) acc' ib'.
Proof.
  intros Hok. set (st := mkDState ib (newRateLimiter (mkRateLimit 0 0 0 0) 0) 0 []).
  assert (cap_ok (dom (ib_tracks ib)) ib) as Hcap.
  { unfold cap_ok. rewrite difference_diag_L, size_empty. lia. }
  pose proof (announceBegin_ok Error (sc_OnAnnounce cfg) tenant sid acc _ a st out w Hok Hcap) as Hb.
  unfold handleAnnounce. cbn [d_ib st] in Hb. subst st. cbn [d_ib] in Hb.
  destruct (announceBegin _ _ _ _ _ _ _ _) as [[[res ib'] out'] w']. cbv zeta in Hb.
  destruct Hb as (H1 & _ & _ & _ & H5). destruct res as [[t auth]|]; [|eauto].
  destruct H5 as [Hn Ha]. eexists. by eapply setAnnounced_ok.
Qed.

Lemma ctlWrite_plane typ p s :
  same_plane s (ctlWrite typ p s).2 /\ (ctl_safe s -> ctl_safe (ctlWrite typ p s).2).
Proof. unfold ctlWrite. by destruct (WriteControlFrame typ p (ss_out s)). Qed.

Lemma same_plane_refl s : same_plane s s.
Proof. by unfold same_plane. Qed.

Lemma same_plane_trans s s1 s2 : same_plane s s1 -> same_plane s1 s2 -> same_plane s s2.
Proof. unfold same_plane. intuition congruence. Qed.

Lemma protocolError_plane t e s :
  same_plane s (protocolError cfg t e s) /\ (ctl_safe s -> ctl_safe (protocolError cfg t e s)).
Proof. unfold protocolError. by destruct (sc_OnProtocolError cfg). Qed.

Lemma handleBackpressure_plane bp s :
  same_plane s (handleBackpressure cfg bp s) /\ (ctl_safe s -> ctl_safe (handleBackpressure cfg bp s)).
Proof.
  unfold handleBackpressure. destruct (sc_OnKeyframeRequest cfg), (sc_OnBackpressure cfg); try done;
    by destruct (bp_NeedsKeyframe bp).
Qed.

Ltac plane := by repeat split.

Lemma controlFrame_plane now t payload s :
  ctl_safe s ->
  exists o, controlFrame Error cfg now t payload s = Some o /\
    same_plane s (outcome_session o) /\ ctl_safe (outcome_session o).
Proof.
  intros Hs. unfold controlFrame.
  assert (forall f, (exists o, Some (CContinue (protocolError cfg t f s)) = Some o /\
    same_plane s (outcome_session o) /\ ctl_safe (outcome_session o))) as Hpe.
  { intros f. eexists. split; [done|]. destruct (protocolError_plane t f s) as [H1' H2']. split; [done|auto]. }
  destruct (bool_decide (t = TypePing)).
  { destruct (negb _ && _); [eexists; split_and!; [done|plane|done]|].
    destruct (ctlWrite_plane TypePong payload (with_ping s now)) as [H1' H2'].
    destruct (ctlWrite TypePong payload (with_ping s now)) as [[e|] s'] eqn:E; eexists;
      (split_and!; [done|by eapply same_plane_trans; [|exact H1']|by apply H2']). }
  destruct (bool_decide (t = TypeClose)); [eexists; split_and!; [done|plane|done]|].
  destruct (bool_decide (t = TypeError)); [eexists; split_and!; [done|plane|done]|].
  destruct (bool_decide (t = TypeData)).
  { destruct Hs as [Hdc Hin].
    destruct (dc_step_ok (ss_dc s) _ _ Hdc (dstep_deliver (ss_dc s) payload)) as (c & Ec & Hc).
    rewrite Ec. cbn. eexists. split_and!; [done|plane|by split]. }
  destruct (bool_decide (t = TypeAnnounce)).
  { destruct (Unmarshal payload) as [a|e]; [|apply Hpe]. destruct Hs as [Hdc [acc Hin]].
    pose proof (handleAnnounce_safe (Tenant (ss_id s)) (SessionID (ss_id s)) a _ (ss_out s) (ss_world s) acc Hin) as Ha.
    destruct (handleAnnounce _ _ _ _ _ _ _ _) as [[ib out] w]. eexists. split_and!; [done|plane|by split]. }
  destruct (bool_decide (t = TypeUnannounce)).
  { destruct (Unmarshal payload) as [u|e]; [|apply Hpe]. destruct Hs as [Hdc [acc Hin]].
    destruct (handleUnannounce_ok (sc_OnAnnounce cfg) acc u _ Hin) as (ib & -> & Hi & _). cbn.
    eexists. split_and!; [done|plane|split; [done|by exists acc]]. }
  destruct (bool_decide (t = TypeKindStats)).
  { destruct (sc_OnKindStats cfg) as [f|]; [|eexists; split_and!; [done|plane|done]].
    destruct (Unmarshal payload) as [ks|e]; [|apply Hpe]. eexists. split_and!; [done|plane|done]. }
  destruct (bool_decide (t = TypeBackpressure)).
  { destruct (Unmarshal payload) as [bp|e]; [|apply Hpe]. eexists. split; [done|].
    destruct (handleBackpressure_plane bp s) as [H1' H2']. split; [done|auto]. }
  eexists. split_and!; [done|plane|done].
Qed.

Lemma controlReader_plane rounds : forall s, ctl_safe s ->
  exists o, controlReader Error cfg rounds s = Some o /\ same_plane s (outcome_session o).
Proof.
  induction rounds as [|[[err|] now] rounds IH]; intros s Hs; cbn [controlReader].
  - eexists. split; [done|plane].
  - eexists. split; [done|plane].
  - destruct (ReadControlFrame (ss_ctl s)) as [[[t payload]|err] r]; [|eexists; split; [done|plane]].
    destruct (controlFrame_plane now t payload (with_ctl s r)) as (o & -> & Hp & Hs'); [by destruct s|].
    cbn [mbind option_bind]. destruct o as [s'|err s']; [|eexists; split; [done|exact Hp]].
    destruct (IH s' Hs') as (o & -> & Ho). eexists. split; [done|]. by eapply same_plane_trans.
Qed.
End ControlProperties.

(** control frames are not progress.  Whatever a peer sends on the control
    stream, in any quantity, the control reader does not panic and leaves the
    progress clock, the attempt clock, the byte counter, the rate limiter and
    the outbound tracks as they were, so the idle watchdog decides as if
    nothing had been received. *)
Theorem control_is_not_progress {W}
    `{JSON Announce, JSON Unannounce, JSON Backpressure, JSON KindStats, JSON ErrorPayload}
    (Error : error -> string) (cfg : SessionConfig W) rounds s :
  ctl_safe cfg s ->
  exists o, controlReader Error cfg rounds s = Some o /\ same_plane s (outcome_session o) /\
    forall now, idleWatchdog cfg now (outcome_session o) = idleWatchdog cfg now s.
Proof.
  intros Hs. destruct (controlReader_plane Error cfg rounds s Hs) as (o & E & Hp).
  exists o. split_and!; [exact E|exact Hp|]. intros now. unfold idleWatchdog.
  destruct Hp as (_ & -> & _ & -> & _ & _). done.
Qed.

Section PingFlood.
Context {W : Type} {JA : JSON Announce} {JU : JSON Unannounce} {JB : JSON Backpressure} {JK : JSON KindStats}
  {JE : JSON ErrorPayload}.
Context (Error : error -> string) (cfg : SessionConfig W).

(** The bytes of a sequence of PING frames, and their rounds. *)
Definition ping_bytes (pings : list (Z * list byte)) : list byte :=
  concat ((fun p => control_bytes TypePing p.2) <$> pings).
Definition ping_rounds (pings : list (Z * list byte)) : list (option error * Z) :=
  (fun p => (None, p.1)) <$> pings.

Lemma ping_gated pings : forall s rest e,
  Forall (fun p => zlen p.2 <= MaxControlPayload /\ p.1 - ss_lastPing s < minPingInterval) pings ->
  ss_lastPing s <> 0 -> ss_ctl s = mkReader (ping_bytes pings ++ rest) e ->
  controlReader Error cfg (ping_rounds pings) s = Some (CContinue (with_ctl s (mkReader rest e))).
Proof.
  induction pings as [|[now p] pings IH]; intros s rest e Hp Hl Hc.
  - cbn. do 2 f_equal. destruct s. cbn in *. by rewrite Hc.
  - apply Forall_cons in Hp as [[Hz Ht] Hp]. cbn [ping_rounds fmap list_fmap controlReader fst].
    rewrite Hc. unfold ping_bytes. cbn [fmap list_fmap concat snd]. rewrite <- app_assoc, ReadControlFrame_bytes by done.
    unfold controlFrame at 1. rewrite bool_decide_true by done. cbn [ss_lastPing with_ctl]. cbn [fst snd] in Ht.
    replace (negb (ss_lastPing s =? 0) && (now - ss_lastPing s <? minPingInterval)) with true by lia.
    cbn [mbind option_bind]. rewrite (IH (with_ctl s _) rest e); done.
Qed.

Lemma ping_flood pings : forall s rest e t0,
  Forall (fun p => zlen p.2 <= MaxControlPayload /\ t0 <= p.1 < t0 + minPingInterval) pings ->
  0 < t0 -> w_script (ss_out s) = [] -> ss_ctl s = mkReader (ping_bytes pings ++ rest) e ->
  exists s', controlReader Error cfg (ping_rounds pings) s = Some (CContinue s') /\
    (ss_out s' = ss_out s \/
     exists p, p ∈ pings /\ w_out (ss_out s') = w_out (ss_out s) ++ control_bytes TypePong p.2).
Proof.
  induction pings as [|[now p] pings IH]; intros s rest e t0 Hp Ht0 Hw Hc; [eexists; split; [done|by left]|].
  apply Forall_cons in Hp as [[Hz Ht] Hp]. cbn [ping_rounds fmap list_fmap controlReader fst]. rewrite Hc.
  unfold ping_bytes. cbn [fmap list_fmap concat snd]. rewrite <- app_assoc, ReadControlFrame_bytes by done.
  unfold controlFrame at 1. rewrite bool_decide_true by done. cbn [ss_lastPing with_ctl]. cbn [fst snd] in Ht, Hz.
  destruct (negb (ss_lastPing s =? 0) && (now - ss_lastPing s <? minPingInterval)) eqn:Eg; cbn [mbind option_bind].
  - destruct (IH (with_ctl s (mkReader (ping_bytes pings ++ rest) e)) rest e t0) as (s' & E & Ho); try done.
    exists s'. split; [exact E|]. destruct Ho as [Ho | (q & Hq & Ho)]; [by left|right]. exists q. split; [by right|done].
  - destruct s as [i ob din dc bo la lp ctl [out scr] w]. cbn in Hw. subst scr. unfold ctlWrite.
    cbn [with_ping with_ctl ss_out]. rewrite WriteControlFrame_accept by done.
    eexists. split; [apply (ping_gated pings _ rest e)|].
    + eapply Forall_impl; [exact Hp|]. intros q [Hq1 Hq2]. cbn. split; [done|lia].
    + cbn. lia.
    + done.
    + right. exists (now, p). split; [by left|done].
Qed.
End PingFlood.

(** a flood of PINGs is answered at most once per [minPingInterval]:
    whatever PING frames arrive within one interval, the reader keeps running
    and writes no PONG or one PONG, the answer to one of them. *)
Theorem ping_flood_contained {W}
    `{JSON Announce, JSON Unannounce, JSON Backpressure, JSON KindStats, JSON ErrorPayload}
    (Error : error -> string) (cfg : SessionConfig W) pings s rest e t0 :
  Forall (fun p => zlen p.2 <= MaxControlPayload /\ t0 <= p.1 < t0 + minPingInterval) pings ->
  0 < t0 -> w_script (ss_out s) = [] -> ss_ctl s = mkReader (ping_bytes pings ++ rest) e ->
  exists s', controlReader Error cfg (ping_rounds pings) s = Some (CContinue s') /\
    (ss_out s' = ss_out s \/
     exists p, p ∈ pings /\ w_out (ss_out s') = w_out (ss_out s) ++ control_bytes TypePong p.2).
Proof. apply ping_flood. Qed.

(** * Properties of the watchdog *)

Section WatchdogProperties.
Context {W : Type} (cfg : SessionConfig W).

(** The pumps' callbacks, with their times. *)
Definition feed_run (s : session W) (evs : list (Z * event)) : session W :=
  foldl (fun s te => feedHook te.1 te.2 s) s evs.

Definition is_write (te : Z * event) : bool := match te.2 with EvWriteBytes _ => true | _ => false end.
Definition is_attempt (te : Z * event) : bool := match te.2 with EvAttempt => true | _ => false end.

(** The last progress of a run is at [p]; what follows it is [post]. *)
Definition last_progress (t0 : Z) (evs : list (Z * event)) (p : Z) (post : list (Z * event)) : Prop :=
  Forall (fun te => is_write te = false) post /\
  ((evs = post /\ p = t0) \/ exists pre n, evs = pre ++ (p, EvWriteBytes n) :: post).

(** Times do not go backwards. *)
Definition clocked (t0 : Z) (evs : list (Z * event)) : Prop := StronglySorted Z.le (t0 :: evs.*1).

Lemma feed_run_progress evs : forall s t0 post p,
  last_progress t0 evs p post -> d_lastFeed (ss_in (feed_run (touchFeed t0 s) evs)) = p.
Proof.
  assert (forall post s, Forall (fun te => is_write te = false) post ->
    d_lastFeed (ss_in (feed_run s post)) = d_lastFeed (ss_in s)) as Hpost.
  { induction post as [|[t e] post IH]; intros s Hp; [done|]. apply Forall_cons in Hp as [He Hp].
    cbn. unfold feed_run in IH. rewrite IH by done. by destruct e. }
  intros s t0 post p [Hp [[-> ->] | (pre & n & ->)]]; [by rewrite Hpost|].
  unfold feed_run. rewrite foldl_app. cbn. fold (feed_run (touchFeed t0 s) pre).
  change (foldl _ ?x post) with (feed_run x post). by rewrite Hpost.
Qed.

Lemma feed_run_attempt evs : forall s,
  (ss_lastAttempt (feed_run s evs) = ss_lastAttempt s /\ Forall (fun te => is_attempt te = false) evs) \/
  exists pre post ta, evs = pre ++ (ta, EvAttempt) :: post /\ ss_lastAttempt (feed_run s evs) = ta /\
    Forall (fun te => is_attempt te = false) post.
Proof.
  induction evs as [|[t e] evs IH] using rev_ind; intros s; [by left|].
  unfold feed_run. rewrite foldl_app. cbn. fold (feed_run s evs).
  destruct (is_attempt (t, e)) eqn:Ea.
  - right. exists evs, [], t. by destruct e.
  - assert (ss_lastAttempt (feedHook t e (feed_run s evs)) = ss_lastAttempt (feed_run s evs)) as -> by (by destruct e).
    destruct (IH s) as [[H1 H2] | (pre & post & ta & -> & H1 & H2)].
    + left. split; [done|]. apply Forall_app. split; [done|]. by repeat constructor.
    + right. exists pre, (post ++ [(t, e)]), ta. split_and!; [by rewrite <- app_assoc|done|].
      apply Forall_app. split; [done|]. by repeat constructor.
Qed.

Lemma last_progress_exists t0 evs : exists p post, last_progress t0 evs p post.
Proof.
  induction evs as [|[t e] evs (p & post & Hp & Hc)] using rev_ind.
  { exists t0, []. split; [constructor|by left]. }
  destruct (is_write (t, e)) eqn:Ew.
  - exists t, []. split; [constructor|]. right. destruct e; try discriminate. by exists evs, n.
  - exists p, (post ++ [(t, e)]). split; [apply Forall_app; split; [done|by repeat constructor]|].
    destruct Hc as [[-> ->] | (pre & n & ->)]; [by left|right]. exists pre, n. by rewrite <- app_assoc.
Qed.

(** In a clocked run every event before the last progress is not later than
    it, and every event after it not earlier. *)
Lemma last_progress_times t0 evs p post t e :
  clocked t0 evs -> last_progress t0 evs p post -> (t, e) ∈ evs -> (t, e) ∈ post \/ t <= p.
Proof.
  intros Hc [_ [[-> ->] | (pre & n & ->)]] Hin; [by left|]. apply elem_of_app in Hin as [Hin | Hin].
  - right. unfold clocked in Hc. apply StronglySorted_inv in Hc as [Hc _]. rewrite fmap_app in Hc. csimpl in Hc.
    assert (t ∈ pre.*1) as Ht by (apply list_elem_of_fmap; by exists (t, e)).
    clear Hin. induction pre.*1 as [|x l IH]; [set_solver|]. cbn in Hc. apply StronglySorted_inv in Hc as [Hc Hx].
    apply elem_of_cons in Ht as [-> | Ht]; [|by apply IH]. rewrite Forall_forall in Hx. apply Hx. set_solver.
  - apply elem_of_cons in Hin as [[= -> ->] | Hin]; [by right|by left].
Qed.

Lemma last_progress_after t0 evs p post :
  clocked t0 evs -> last_progress t0 evs p post -> t0 <= p /\ forall t e, (t, e) ∈ post -> p <= t.
Proof.
  intros Hc [_ Hp]. unfold clocked in Hc.
  apply StronglySorted_inv in Hc as [Hs H0]. rewrite Forall_forall in H0.
  destruct Hp as [[-> ->] | (pre & n & ->)].
  - split; [lia|]. intros t e Hin. apply H0, list_elem_of_fmap. by exists (t, e).
  - split; [apply H0, list_elem_of_fmap; exists (p, EvWriteBytes n); set_solver|].
    intros t e Hin. rewrite fmap_app in Hs. clear H0. induction pre as [|x pre IH]; csimpl in Hs.
    + apply StronglySorted_inv in Hs as [_ Hs]. rewrite Forall_forall in Hs. apply Hs, list_elem_of_fmap. by exists (t, e).
    + apply StronglySorted_inv in Hs as [Hs _]. by apply IH.
Qed.
End WatchdogProperties.

Lemma watchdogPeriod_range {W} (cfg : SessionConfig W) :
  0 <= sc_IdleTimeout cfg -> 0 < watchdogPeriod cfg <= 5 * 1000000000 /\
  (4 <= sc_IdleTimeout cfg -> 4 * watchdogPeriod cfg <= sc_IdleTimeout cfg).
Proof.
  intros Hi. unfold watchdogPeriod. rewrite Z.quot_div_nonneg by lia.
  pose proof (Z.div_mod (sc_IdleTimeout cfg) 4 ltac:(lia)).
  pose proof (Z.mod_pos_bound (sc_IdleTimeout cfg) 4 ltac:(lia)).
  generalize dependent (sc_IdleTimeout cfg / 4). intros q Hq. cbv zeta.
  destruct (q <=? 0) eqn:E1; [|destruct (q >? 5 * 1000000000) eqn:E2]; [|lia|lia].
  replace (5 * 1000000000 >? 5 * 1000000000) with false by done. lia.
Qed.


(** * A concrete session *)

Module SessionDemo.
Definition hello_fresh : Hello := mkHello "recv" "slug" "1" "" "" "" ["kind-stats"; "other"] ∅.
Definition hello_back : Hello := mkHello "recv" "slug" "1" "" "" "sid" ["kind-stats"] {[ "a"%string := 5 ]}.

#[local] Instance json_hello : JSON Hello :=
  {| Marshal h := Ok (if decide (h_SessionID h = ""%string) then [x01] else [x02]);
     Unmarshal b := if decide (b = [x01]) then Ok hello_fresh
                    else if decide (b = [x02]) then Ok hello_back else Err EOF |}.
#[local] Instance json_sdp : JSON SDP :=
  {| Marshal d := Ok (bytes_of (sdp_SessionID d)); Unmarshal _ := Err EOF |}.
#[local] Instance json_announce : JSON Announce :=
  {| Marshal a := Ok (bytes_of (a_Name a)); Unmarshal b := Ok (mkAnnounce (string_of b) "video" "") |}.
#[local] Instance json_unannounce : JSON Unannounce :=
  {| Marshal u := Ok (bytes_of (un_Name u)); Unmarshal b := Ok (mkUnannounce (string_of b)) |}.
#[local] Instance json_backpressure : JSON Backpressure :=
  {| Marshal b := Ok (bytes_of (bp_TrackName b)); Unmarshal b := Ok (mkBackpressure (string_of b) 50 false) |}.
#[local] Instance json_kindstats : JSON KindStats :=
  {| Marshal k := Ok (bytes_of (ks_Kind k)); Unmarshal _ := Err EOF |}.
#[local] Instance json_error : JSON ErrorPayload :=
  {| Marshal e := Ok (bytes_of (ep_Code e)); Unmarshal _ := Err EOF |}.

Definition demo_cfg : SessionConfig nat :=
  applyDefaults (mkSessionConfig "slug" None None None (mkRateLimit 0 0 0 0) ["resume"; "kind-stats"]
    (mkSDP "h264" 0 0 0 (float64 0) (float64 0) "" [] "") 0 0 0 demo_feed 0 None None None).

Definition demo_hooks : Hooks nat :=
  mkHooks (Some (fun w => ("new"%string, S w)))
    (Some (fun _ sid _ w => (if decide (sid = "sid"%string) then Some {[ "a"%string := 9%nat ]} else None, w)))
    (Some (fun w => ({[ "a"%string := 7%nat ]}, w))) (Some (fun _ => 2)) (Some (fun _ => x05))
    (Some (fun _ => KindTokens)).

Definition demo_session (payload : list byte) : session nat :=
  newSession demo_cfg 0 (mkReader (control_bytes TypeHello payload) EOF) (mkWriter [] []) 0%nat.

Lemma demo_hello_ok payload hello :
  payload = [x01] /\ hello = hello_fresh \/ payload = [x02] /\ hello = hello_back ->
  hello_ok demo_cfg (ss_ctl (demo_session payload)) hello "1" None (mkReader [] EOF).
Proof.
  intros [[-> ->] | [-> ->]]; (split; [eexists; split; [by vm_compute|by vm_compute]|by vm_compute|by vm_compute|by right]).
Qed.

Lemma handshake_fresh_witness :
  exists s', handshake demo_cfg demo_hooks map_to_list None (demo_session [x01]) = (None, s') /\
    SessionID (ss_id s') = "new"%string /\ NegotiatedFeatures (ss_id s') = ["kind-stats"%string] /\
    ss_world s' = 1%nat.
Proof.
  destruct (handshake_fresh demo_cfg demo_hooks map_to_list (demo_session [x01]) hello_fresh "1" None
    (mkReader [] EOF) 0%nat (fun w => ("new"%string, S w)) (fun w => ({[ "a"%string := 7%nat ]}, w))
    (bytes_of "new")) as (s' & E & H1 & _ & _ & H2 & H3 & _).
  - done.
  - apply no_outbound_ok.
  - reflexivity.
  - apply demo_hello_ok. by left.
  - reflexivity.
  - reflexivity.
  - reflexivity.
  - reflexivity.
  - vm_compute. discriminate.
  - exists s'. split; [exact E|]. split; [exact H1|]. split; [rewrite H2; reflexivity|exact H3].
Defined.

Lemma handshake_resume_witness :
  exists s', handshake demo_cfg demo_hooks map_to_list None (demo_session [x02]) = (None, s') /\
    SessionID (ss_id s') = "sid"%string /\ ss_world s' = 0%nat /\
    (fun tp => (tp_recv tp, cfg_Priority (tp_cfg tp), cfg_TrackID (tp_cfg tp))) <$>
      view (ss_ob s') !! "a"%string = Some (9%nat, 4, x00).
Proof.
  destruct (handshake_resume demo_cfg demo_hooks map_to_list (demo_session [x02]) hello_back "1" None
    (mkReader [] EOF) {[ "a"%string := 9%nat ]} 0%nat (bytes_of "sid")) as (s' & E & H1 & H2 & H3 & _).
  - done.
  - apply no_outbound_ok.
  - reflexivity.
  - apply demo_hello_ok. by right.
  - reflexivity.
  - reflexivity.
  - vm_compute. discriminate.
  - exists s'. split; [exact E|]. split; [exact H1|]. split; [exact H2|]. rewrite H3. reflexivity.
Defined.

Lemma handshake_tracks_never_stamped_witness :
  exists s', handshake demo_cfg demo_hooks map_to_list None (demo_session [x01]) = (None, s') /\
    hasFeature (NegotiatedFeatures (ss_id s')) featureKindStats = true /\
    (forall tp, ob_pumps (ss_ob s') !! 0%nat = Some tp -> cfg_StampPublishWall (tp_cfg tp) = false) /\
    is_Some (ob_pumps (ss_ob s') !! 0%nat).
Proof.
  destruct (handshake demo_cfg demo_hooks map_to_list None (demo_session [x01])) as [err s'] eqn:E.
  exists s'. split_and!.
  - vm_compute in E. by injection E as <- <-.
  - vm_compute in E. by injection E as <- <-.
  - intros tp Htp.
    apply (handshake_tracks_never_stamped demo_cfg demo_hooks map_to_list None 0
      (mkReader (control_bytes TypeHello [x01]) EOF) (mkWriter [] []) 0%nat 0%nat tp).
    change (newSession demo_cfg 0 (mkReader (control_bytes TypeHello [x01]) EOF) (mkWriter [] []) 0%nat)
      with (demo_session [x01]). rewrite E. exact Htp.
  - vm_compute in E. injection E as <- <-. by eexists.
Defined.

Lemma demo_safe payload : ctl_safe demo_cfg (demo_session payload).
Proof. split; [done|]. exists ∅. split; cbn; intros *; by rewrite lookup_empty. Qed.

Lemma control_is_not_progress_witness :
  exists o, controlReader (fun _ => ""%string) demo_cfg [(None, 5); (None, 6)]
      (with_ctl (demo_session []) (mkReader (control_bytes TypePing [] ++ control_bytes TypeAnnounce [x61]) EOF)) = Some o /\
    d_lastFeed (ss_in (outcome_session o)) = 0.
Proof.
  destruct (control_is_not_progress (fun _ => ""%string) demo_cfg [(None, 5); (None, 6)]
    (with_ctl (demo_session []) (mkReader (control_bytes TypePing [] ++ control_bytes TypeAnnounce [x61]) EOF)))
    as (o & E & (_ & H & _) & _); [apply (demo_safe [])|].
  exists o. split; [exact E|exact H].
Defined.

Definition demo_pings : list (Z * list byte) := [(10, [x01]); (20, [x02]); (30, [x03])].

Lemma ping_flood_contained_witness :
  exists s', controlReader (fun _ => ""%string) demo_cfg (ping_rounds demo_pings)
      (with_ctl (demo_session []) (mkReader (ping_bytes demo_pings) EOF)) = Some (CContinue s') /\
    (ss_out s' = mkWriter [] [] \/
     exists p, p ∈ demo_pings /\ w_out (ss_out s') = control_bytes TypePong p.2).
Proof.
  apply (ping_flood_contained (fun _ => ""%string) demo_cfg demo_pings
    (with_ctl (demo_session []) (mkReader (ping_bytes demo_pings) EOF)) [] EOF 10).
  - repeat constructor; vm_compute; discriminate.
  - reflexivity.
  - reflexivity.
  - by rewrite app_nil_r.
Defined.

End SessionDemo.
