(* ===== verification/SessionRun.v ===== *)
(** * A running session

    [Run] of [session/session.go] after the handshake: the control reader, the
    idle watchdog, the pumps, the loop that accepts uni streams with its drain
    goroutines, the calls of the server and of the application, and the wait
    that ends the session, as steps of one relation.  [None] is a panic. *)

From S2P Require Import Prelude Wire Track Replay Pubsub RateLimit Pump DataChannel Inbound KindStats Session.

(** The control reader between two frames, between the two critical sections of
    an announce, or done with its result in [readerDone]. *)
Inductive readerState :=
  | RRead
  | RMark (a : nat) (ann : Announce) (authorized : bool)
  | RDone (err : option error).

Definition pumpDoneCap : nat := 16.

Section Run.
Context {W : Type} {JH : JSON Hello} {JS : JSON SDP} {JA : JSON Announce} {JU : JSON Unannounce}
  {JB : JSON Backpressure} {JK : JSON KindStats} {JE : JSON ErrorPayload}.
Context (Error : error -> string) (cfg : SessionConfig W) (hooks : Hooks W).

Record running := mkRunning {
  ru_s : session W;
  ru_parent : option error;               (* the error of the parent context, once it is done *)
  ru_reader : readerState;
  ru_drains : list drain;
  ru_accepting : bool;                    (* [uniAcceptLoop] has not returned *)
  ru_exited : list (nat * option error);  (* pump goroutines that ended, with the pump's error *)
  ru_pumpDone : list error;
  ru_idle : option error;                 (* [idleDone] *)
  ru_result : option (option error);      (* what [Run] has returned *)
  ru_accepted : gset string;              (* ghost: names [OnAnnounce] has accepted *)
  ru_app : gset string;                   (* ghost: names the application has asked for *)
}.

Definition set_s (s : session W) (r : running) : running :=
  mkRunning s (ru_parent r) (ru_reader r) (ru_drains r) (ru_accepting r) (ru_exited r) (ru_pumpDone r) (ru_idle r)
    (ru_result r) (ru_accepted r) (ru_app r).
Definition set_reader (st : readerState) (r : running) : running :=
  mkRunning (ru_s r) (ru_parent r) st (ru_drains r) (ru_accepting r) (ru_exited r) (ru_pumpDone r) (ru_idle r)
    (ru_result r) (ru_accepted r) (ru_app r).
Definition set_idle (e : option error) (r : running) : running :=
  mkRunning (ru_s r) (ru_parent r) (ru_reader r) (ru_drains r) (ru_accepting r) (ru_exited r) (ru_pumpDone r) e
    (ru_result r) (ru_accepted r) (ru_app r).
Definition set_drains (ds : list drain) (r : running) : running :=
  mkRunning (ru_s r) (ru_parent r) (ru_reader r) ds (ru_accepting r) (ru_exited r) (ru_pumpDone r) (ru_idle r)
    (ru_result r) (ru_accepted r) (ru_app r).
Definition set_ghost (acc app : gset string) (r : running) : running :=
  mkRunning (ru_s r) (ru_parent r) (ru_reader r) (ru_drains r) (ru_accepting r) (ru_exited r) (ru_pumpDone r)
    (ru_idle r) (ru_result r) acc app.

(** The error of the session's context: it ends with its parent, and when [Run]
    has returned. *)
Definition ctxErr (r : running) : option error :=
  match ru_parent r, ru_result r with
  | Some e, _ => Some e
  | None, Some _ => Some ErrCanceled
  | None, None => None
  end.

(** One round of [controlReader]; an announce stops between its two critical
    sections. *)
Definition controlRead (ctx : option error) (now : Z) (s : session W) : option (readerState * session W) :=
  match ctx with
  | Some err => Some (RDone (Some err), s)
  | None =>
      match ReadControlFrame (ss_ctl s) with
      | (Err err, rd) => Some (RDone (Some err), with_ctl s rd)
      | (Ok (t, payload), rd) =>
          let s := with_ctl s rd in
          if bool_decide (t = TypeAnnounce) then
            match Unmarshal payload with
            | Err err => Some (RRead, protocolError cfg t err s)
            | Ok a =>
                let '(res, ib, out, w) := announceBegin Error (sc_OnAnnounce cfg) (Tenant (ss_id s))
                                            (SessionID (ss_id s)) a (d_ib (ss_in s)) (ss_out s) (ss_world s) in
                Some (match res with Some (t, auth) => RMark t a auth | None => RRead end,
                      with_world (with_out (with_in s (with_ib (ss_in s) ib)) out) w)
            end
          else
            o ← controlFrame Error cfg now t payload s;
            Some (match o with CContinue s => (RRead, s) | CReturn err s => (RDone err, s) end)
      end
  end.

(** The second critical section of an announce. *)
Definition markAnnounced (a : nat) (ann : Announce) (auth : bool) (s : session W) : session W :=
  with_in s (with_ib (ss_in s) (setAnnounced a (a_Kind ann) (a_Codec ann) auth (d_ib (ss_in s)))).

(** The name that the announce the reader is about to handle has got accepted. *)
Definition acceptedNow (ctx : option error) (s : session W) : gset string :=
  match ctx, ReadControlFrame (ss_ctl s) with
  | None, (Ok (t, payload), _) =>
      if bool_decide (t = TypeAnnounce) then
        match Unmarshal payload with
        | Ok a => match announceVerdict (sc_OnAnnounce cfg) (Tenant (ss_id s)) (SessionID (ss_id s)) a (ss_world s) with
                  | (None, _) => {[a_Name a]}
                  | (Some _, _) => ∅
                  end
        | Err _ => ∅
        end
      else ∅
  | _, _ => ∅
  end.

(** The end of [runOnePump]: what a pump's error adds to [pumpDone]. *)
Definition runOnePump (ctx err : option error) (pumpDone : list error) : list error :=
  match err, ctx with
  | Some e, Some _ => if (length pumpDone <? pumpDoneCap)%nat then pumpDone ++ [e] else pumpDone
  | _, _ => pumpDone
  end.

(** What the wait of [Run] can take: any ready case of its [select]. *)
Inductive selectRun (r : running) : option error -> Prop :=
  | sel_ctx err : ru_parent r = Some err -> selectRun r (Some err)
  | sel_pump err l : ru_pumpDone r = err :: l -> selectRun r (Some err)
  | sel_reader err : ru_reader r = RDone err -> selectRun r err
  | sel_idle err : ru_idle r = Some err -> selectRun r (Some err).

(** [Run] returns: the deferred calls cancel the context and close the data
    channel. *)
Definition finishRun (err : option error) (r : running) : option running :=
  dc ← dc_Close (ss_dc (ru_s r));
  Some (mkRunning (with_dc (ru_s r) dc) (ru_parent r) (ru_reader r) (ru_drains r) (ru_accepting r) (ru_exited r)
          (ru_pumpDone r) (ru_idle r) (Some err) (ru_accepted r) (ru_app r)).

Definition liveTrackPump (r : running) (a : nat) : Prop :=
  a ∈ ob_launched (ss_ob (ru_s r)) /\ a ∉ (ru_exited r).*1.

Inductive runstep : running -> option running -> Prop :=
  | rn_cancel r err :
      ru_parent r = None ->
      runstep r (Some (mkRunning (ru_s r) (Some err) (ru_reader r) (ru_drains r) (ru_accepting r) (ru_exited r)
                         (ru_pumpDone r) (ru_idle r) (ru_result r) (ru_accepted r) (ru_app r)))
  | rn_control r ctx now :
      (* the context is looked at before the read, which may block while it ends *)
      ru_reader r = RRead -> ctx = None \/ ctx = ctxErr r ->
      runstep r (res ← controlRead ctx now (ru_s r);
                 Some (set_ghost (acceptedNow ctx (ru_s r) ∪ ru_accepted r) (ru_app r)
                         (set_reader res.1 (set_s res.2 r))))
  | rn_mark r a ann auth :
      ru_reader r = RMark a ann auth ->
      runstep r (Some (set_reader RRead (set_s (markAnnounced a ann auth (ru_s r)) r)))
  | rn_idle_ctx r err :
      ru_idle r = None -> ctxErr r = Some err -> runstep r (Some (set_idle (Some err) r))
  | rn_idle_tick r now :
      ru_idle r = None -> runstep r (Some (set_idle (idleWatchdog cfg now (ru_s r)) r))
  | rn_feed r a now e :
      liveTrackPump r a -> runstep r (Some (set_s (feedHook now e (ru_s r)) r))
  | rn_pump_exit r a err :
      liveTrackPump r a ->
      runstep r (Some (mkRunning (ru_s r) (ru_parent r) (ru_reader r) (ru_drains r) (ru_accepting r)
                         (ru_exited r ++ [(a, err)]) (runOnePump (ctxErr r) err (ru_pumpDone r)) (ru_idle r)
                         (ru_result r) (ru_accepted r) (ru_app r)))
  | rn_attach r name kind recv priority trackID :
      runstep r (Some (set_s (with_ob (ru_s r)
        (AttachTrackWithKind (sc_FeedConfig cfg) (NegotiatedFeatures (ss_id (ru_s r))) name kind recv priority trackID
           (ss_ob (ru_s r)))) r))
  | rn_detach r name :
      runstep r (ob ← DetachTrack name (ss_ob (ru_s r)); Some (set_s (with_ob (ru_s r) ob) r))
  | rn_accept r stream :
      ru_accepting r = true -> runstep r (Some (set_drains (ru_drains r ++ [DPeek stream]) r))
  | rn_accept_error r :
      runstep r (Some (mkRunning (ru_s r) (ru_parent r) (ru_reader r) (ru_drains r) false (ru_exited r)
                         (ru_pumpDone r) (ru_idle r) (ru_result r) (ru_accepted r) (ru_app r)))
  | rn_drain r i d now exit :
      ru_drains r !! i = Some d ->
      runstep r (res ← drainStep (sc_OnAnnounce cfg) now (bool_decide (is_Some (ctxErr r))) exit d (ss_in (ru_s r));
                 Some (set_drains (<[i := res.1]> (ru_drains r)) (set_s (with_in (ru_s r) res.2) r)))
  | rn_ask r name :
      runstep r (Some (set_ghost (ru_accepted r) ({[name]} ∪ ru_app r) (set_s
        (with_in (ru_s r) (with_ib (ss_in (ru_s r)) (inboundTrackChan name (d_ib (ss_in (ru_s r)))).2)) r)))
  | rn_inbound_recv r a res st :
      InboundRecv a (ss_in (ru_s r)) res st -> runstep r (Some (set_s (with_in (ru_s r) st) r))
  | rn_data_recv r res dc :
      dc_Recv (ss_dc (ru_s r)) res dc -> runstep r (Some (set_s (with_dc (ru_s r) dc) r))
  | rn_write r typ payload :
      (* [Send] of the data channel, the announces, the close of a shutdown *)
      runstep r (Some (set_s (ctlWrite typ payload (ru_s r)).2 r))
  | rn_return r err :
      ru_result r = None -> selectRun r err -> runstep r (finishRun err r).

(** [Run] past its handshake; [uni] says whether a receiver of uni streams was
    set. *)
Definition startRun (uni : bool) (s : session W) : running :=
  mkRunning s None RRead [] uni [] [] None None ∅ ∅.

Inductive runs (uni : bool) (s0 : session W) : running -> Prop :=
  | runs_start : runs uni s0 (startRun uni s0)
  | runs_step r r' : runs uni s0 r -> runstep r (Some r') -> runs uni s0 r'.

(** * The invariant *)

(** The inbound side of a running session, as a configuration of [Inbound.v]. *)
Definition inboundOf (r : running) : iconf (W := W) :=
  mkIConf (ss_in (ru_s r)) (ss_out (ru_s r)) (ss_world (ru_s r))
    (match ru_reader r with RMark a ann auth => CMark a ann auth | _ => CIdle end)
    (ru_drains r) (ru_accepted r) (ru_app r).

Record running_ok (r : running) : Prop := {
  rok_ob : ob_ok (ss_ob (ru_s r));
  rok_started : ob_runStarted (ss_ob (ru_s r)) = true;
  rok_dc : dc_ok (ss_dc (ru_s r));
  rok_in : iconf_ok (sc_OnAnnounce cfg) (inboundOf r);
  rok_exited : NoDup (ru_exited r).*1 /\ (ru_exited r).*1 ⊆ ob_launched (ss_ob (ru_s r));
  rok_closed : ru_result r <> None -> dc_closed (ss_dc (ru_s r)) = true;
}.

(** A session that [Run] has brought past its handshake. *)
Record started (s : session W) : Prop := {
  sd_ob : ob_ok (ss_ob s);
  sd_started : ob_runStarted (ss_ob s) = true;
  sd_dc : ss_dc s = dc_New (sc_DataInboundBuffer (applyDefaults cfg));
  sd_in : d_ib (ss_in s) = no_inbound;
}.

(** The invariant of the inbound side is about its tracks and goroutines only. *)
Lemma iconf_ok_frame st st' out out' w w' c ds acc app :
  d_ib st' = d_ib st -> iconf_ok (sc_OnAnnounce cfg) (mkIConf st out w c ds acc app) ->
  iconf_ok (sc_OnAnnounce cfg) (mkIConf st' out' w' c ds acc app).
Proof. intros E [H1 H2 H3 H4]. split; cbn in *; by rewrite E. Qed.

Lemma start_running_ok uni s : started s -> running_ok (startRun uni s).
Proof.
  intros [H1 H2 H3 H4]. split; cbn; try done; [by rewrite H3| |split; [constructor|set_solver]].
  destruct (iinit_ok (sc_OnAnnounce cfg) (d_rl (ss_in s)) 0 (ss_out s) (ss_world s)) as [Ha Hb Hc Hd].
  split; cbn in *; try done; by rewrite H4.
Qed.

Lemma dc_step_closed c e c' : dc_step c e (Some c') -> dc_closed c = true -> dc_closed c' = true.
Proof.
  intros Hst Hc. inversion Hst as [c0 msg H1 H2 H3|c0 H1 H2 H3|c0 res c0' Hr H1 H2 H3]; subst.
  - unfold dc_Deliver in H3. rewrite Hc in H3. by injection H3 as <-.
  - unfold dc_Close in H3. rewrite Hc in H3. by injection H3 as <-.
  - by destruct Hr.
Qed.

(** What a control frame other than an announce does to the data channel and to
    the inbound tracks. *)
Lemma controlFrame_parts now t payload s o :
  t <> TypeAnnounce -> controlFrame Error cfg now t payload s = Some o ->
  (ss_dc (outcome_session o) = ss_dc s \/ dc_Deliver (ss_dc s) payload = Some (ss_dc (outcome_session o))) /\
  (d_ib (ss_in (outcome_session o)) = d_ib (ss_in s) \/
   exists u, handleUnannounce u (d_ib (ss_in s)) = Some (d_ib (ss_in (outcome_session o)))).
Proof.
  intros Ht Hc. unfold controlFrame in Hc. rewrite (bool_decide_false (t = TypeAnnounce)) in Hc by done.
  assert (forall e, ss_dc (protocolError cfg t e s) = ss_dc s /\ ss_in (protocolError cfg t e s) = ss_in s) as Hpe
    by (intros e; unfold protocolError; by destruct (sc_OnProtocolError cfg)).
  destruct (bool_decide (t = TypePing)).
  { destruct (negb _ && _); [injection Hc as <-; auto|]. unfold ctlWrite in Hc.
    destruct (WriteControlFrame _ _ _) as [[e|] out]; injection Hc as <-; cbn; auto. }
  destruct (bool_decide (t = TypeClose)); [injection Hc as <-; auto|].
  destruct (bool_decide (t = TypeError)); [injection Hc as <-; auto|].
  destruct (bool_decide (t = TypeData)).
  { destruct (dc_Deliver (ss_dc s) payload) as [c|] eqn:E; [|done]. injection Hc as <-. cbn. auto. }
  destruct (bool_decide (t = TypeUnannounce)).
  { destruct (Unmarshal payload) as [u|e]; [|injection Hc as <-; cbn; destruct (Hpe e) as [-> ->]; auto].
    destruct (handleUnannounce u _) as [ib|] eqn:E; [|done]. injection Hc as <-. cbn. eauto. }
  destruct (bool_decide (t = TypeKindStats)).
  { destruct (sc_OnKindStats cfg); [|injection Hc as <-; auto].
    destruct (Unmarshal payload) as [u|e]; injection Hc as <-; cbn; [auto|]. destruct (Hpe e) as [-> ->]. auto. }
  destruct (bool_decide (t = TypeBackpressure)); [|injection Hc as <-; auto].
  destruct (Unmarshal payload) as [u|e]; injection Hc as <-; cbn; [|destruct (Hpe e) as [-> ->]; auto].
  unfold handleBackpressure. destruct (sc_OnKeyframeRequest cfg), (sc_OnBackpressure cfg), (bp_NeedsKeyframe u); auto.
Qed.

(** A round of the reader keeps the invariant. *)
Lemma controlRead_ok r ctx now :
  running_ok r -> ru_reader r = RRead ->
  exists st s, controlRead ctx now (ru_s r) = Some (st, s) /\
    running_ok (set_ghost (acceptedNow ctx (ru_s r) ∪ ru_accepted r) (ru_app r) (set_reader st (set_s s r))).
Proof.
  intros Hok Hr. destruct Hok as [Hob Hst Hdc Hin Hex Hcl].
  assert (forall st s, ss_ob s = ss_ob (ru_s r) -> dc_ok (ss_dc s) ->
    (dc_closed (ss_dc (ru_s r)) = true -> dc_closed (ss_dc s) = true) ->
    iconf_ok (sc_OnAnnounce cfg) (inboundOf (set_ghost (acceptedNow ctx (ru_s r) ∪ ru_accepted r) (ru_app r)
      (set_reader st (set_s s r)))) ->
    running_ok (set_ghost (acceptedNow ctx (ru_s r) ∪ ru_accepted r) (ru_app r) (set_reader st (set_s s r)))) as Hmk.
  { intros st s E1 E2 E3 E4. split; cbn; rewrite ?E1; auto. }
  unfold inboundOf in Hin. rewrite Hr in Hin.
  unfold acceptedNow in *. unfold controlRead. destruct ctx as [err|].
  { eexists _, _. split; [done|]. apply Hmk; try done. unfold inboundOf; cbn. by rewrite union_empty_l_L. }
  destruct (ReadControlFrame (ss_ctl (ru_s r))) as [[[t payload]|err] rd] eqn:Ef.
  2:{ eexists _, _. split; [done|]. apply Hmk; try done. unfold inboundOf; cbn. by rewrite union_empty_l_L. }
  destruct (bool_decide (t = TypeAnnounce)) eqn:Et.
  - destruct (Unmarshal payload) as [a|err].
    + pose proof (istep_ok Error (sc_OnAnnounce cfg) (Tenant (ss_id (ru_s r))) (SessionID (ss_id (ru_s r)))
        _ _ Hin (is_announce _ _ _ _ _ _ _ _ _ _ a)) as (c & Ec & Hc).
      cbn [ss_id ss_in ss_out ss_world with_ctl].
      destruct (announceBegin _ _ _ _ _ _ _ _) as [[[res ib] out] w]. injection Ec as <-.
      eexists _, _. split; [done|]. apply Hmk; try done. unfold inboundOf. cbn in Hc |- *.
      destruct (announceVerdict _ _ _ a _) as [[e|] w2]; rewrite ?union_empty_l_L; by destruct res as [[t' auth]|].
    + eexists _, _. split; [done|]. unfold protocolError.
      destruct (sc_OnProtocolError cfg); (apply Hmk; try done; unfold inboundOf; cbn; rewrite union_empty_l_L;
        by eapply iconf_ok_frame; [|exact Hin]).
  - apply bool_decide_eq_false in Et.
    destruct (controlFrame_plane Error cfg now t payload (with_ctl (ru_s r) rd)) as (o & Eo & Hp & Hs).
    { split; [done|]. exists (ru_accepted r). apply Hin. }
    rewrite Eo. cbn [mbind option_bind].
    destruct (controlFrame_parts now t payload _ o Et Eo) as [Hd Hu]. cbn in Hd, Hu.
    assert (dc_closed (ss_dc (ru_s r)) = true -> dc_closed (ss_dc (outcome_session o)) = true) as Hcl'.
    { destruct Hd as [-> | Hd]; [done|]. apply (dc_step_closed _ (DDeliver payload)). rewrite <- Hd. constructor. }
    assert (iconf_ok (sc_OnAnnounce cfg) (mkIConf (ss_in (outcome_session o)) (ss_out (outcome_session o))
      (ss_world (outcome_session o)) CIdle (ru_drains r) (ru_accepted r) (ru_app r))) as Hic.
    { destruct Hu as [Hu | (u & Hu)]; [by eapply iconf_ok_frame; [|exact Hin]|].
      pose proof (istep_ok Error (sc_OnAnnounce cfg) ""%string ""%string _ _ Hin (is_unannounce _ _ _ _ _ _ _ _ _ _ u))
        as (c & Ec & Hc). rewrite Hu in Ec. injection Ec as <-. by eapply iconf_ok_frame; [|exact Hc]. }
    destruct o as [s|err s]; eexists _, _; (split; [done|]); (apply Hmk; [apply Hp|apply Hs|done|]);
      unfold inboundOf; cbn; by rewrite union_empty_l_L.
Qed.

(** A change of the session that leaves its tracks, its data channel and its
    inbound tracks alone keeps the invariant. *)
Lemma set_s_ok s r :
  ss_ob s = ss_ob (ru_s r) -> ss_dc s = ss_dc (ru_s r) -> d_ib (ss_in s) = d_ib (ss_in (ru_s r)) ->
  running_ok r -> running_ok (set_s s r).
Proof.
  intros E1 E2 E3 [Hob Hst Hdc Hin Hex Hcl]. split; cbn; rewrite ?E1, ?E2; try done.
  by eapply iconf_ok_frame; [exact E3|exact Hin].
Qed.

(** A step of the inbound side that is not the control reader's. *)
Lemma set_inbound_ok r st ds acc app :
  running_ok r ->
  iconf_ok (sc_OnAnnounce cfg) (mkIConf st (ss_out (ru_s r)) (ss_world (ru_s r)) (ic_ctl (inboundOf r)) ds acc app) ->
  running_ok (set_ghost acc app (set_drains ds (set_s (with_in (ru_s r) st) r))).
Proof. intros [Hob Hst Hdc Hin Hex Hcl] Hic. by split. Qed.

Lemma attach_launched base features name kind recv priority trackID ob :
  ob_launched ob ⊆ ob_launched (AttachTrackWithKind base features name kind recv priority trackID ob) /\
  ob_runStarted (AttachTrackWithKind base features name kind recv priority trackID ob) = ob_runStarted ob.
Proof. unfold AttachTrackWithKind. destruct (ob_tracks ob !! name); [done|]. cbn. destruct (ob_runStarted ob); set_solver. Qed.

Lemma detach_launched name ob ob' :
  DetachTrack name ob = Some ob' -> ob_launched ob' = ob_launched ob /\ ob_runStarted ob' = ob_runStarted ob.
Proof.
  unfold DetachTrack. destruct (ob_tracks ob !! name) as [a|]; [|by intros [= <-]].
  destruct (ob_pumps ob !! a) as [tp|]; [|done]. cbn. destruct (tp_stop tp); [done|]. by intros [= <-].
Qed.

Lemma runstep_ok r o : running_ok r -> runstep r o -> exists r', o = Some r' /\ running_ok r'.
Proof.
  intros Hok Hst. pose proof Hok as [Hob Hrs Hdc Hin Hex Hcl].
  destruct Hst as [r err Hp|r ctx now Hr Hctx|r a ann auth Hr|r err Hi Hc|r now Hi|r a now e Ha|r a err Ha
    |r name kind recv priority trackID|r name|r stream Hac|r|r i d now exit Hl|r name|r a res st Hrecv|r res dc Hrecv
    |r typ payload|r err Hres Hsel]; try (eexists; split; [done|]; by split).
  - destruct (controlRead_ok r ctx now Hok Hr) as (st & s & -> & H). eexists. by split.
  - eexists. split; [done|]. split; cbn; try done. unfold inboundOf in *. rewrite Hr in Hin. cbn.
    by destruct (istep_ok Error _ ""%string ""%string _ _ Hin (is_mark _ _ _ _ _ _ _ _ _ _ a ann auth)) as (c & [= <-] & Hc).
  - eexists. split; [done|]. apply set_s_ok; try done; by destruct e.
  - destruct Ha as [Ha Hn]. eexists. split; [done|]. split; cbn; try done. rewrite fmap_app. split.
    + apply NoDup_app. split_and!; [apply Hex| |apply NoDup_singleton].
      intros b Hb ->%list_elem_of_singleton. done.
    + intros b [Hb | ->%list_elem_of_singleton]%elem_of_app; [by apply Hex|done].
  - destruct (attach_launched (sc_FeedConfig cfg) (NegotiatedFeatures (ss_id (ru_s r))) name kind recv priority
      trackID (ss_ob (ru_s r))) as [H1 H2].
    eexists. split; [done|]. split; cbn; try done; [by apply attach_ok|by rewrite H2|].
    split; [apply Hex|]. etransitivity; [apply Hex|done].
  - destruct (detach_ok name (ss_ob (ru_s r)) Hob) as (ob' & E & Hob' & _). rewrite E. cbn.
    destruct (detach_launched _ _ _ E) as [H1 H2]. eexists. split; [done|]. split; cbn; try done; [by rewrite H2|].
    by rewrite H1.
  - eexists. split; [done|]. split; cbn; try done.
    by destruct (istep_ok Error _ ""%string ""%string _ _ Hin (is_accept _ _ _ _ _ _ _ _ _ _ _ stream)) as (c & [= <-] & Hc).
  - destruct (istep_ok Error _ ""%string ""%string _ _ Hin
      (is_drain _ _ _ _ _ _ _ _ _ _ _ i d now (bool_decide (is_Some (ctxErr r))) exit Hl)) as (c & Ec & Hc).
    destruct (drainStep _ _ _ _ _ _) as [[d' st']|]; [|done]. injection Ec as <-. cbn.
    eexists. split; [done|]. by apply (set_inbound_ok r st' (<[i := d']> (ru_drains r)) (ru_accepted r) (ru_app r)).
  - eexists. split; [done|]. 
    apply (set_inbound_ok r (with_ib (ss_in (ru_s r)) (inboundTrackChan name (d_ib (ss_in (ru_s r)))).2)
      (ru_drains r) (ru_accepted r) ({[name]} ∪ ru_app r)); [done|].
    by destruct (istep_ok Error _ ""%string ""%string _ _ Hin (is_ask _ _ _ _ _ _ _ _ _ _ _ name)) as (c & [= <-] & Hc).
  - eexists. split; [done|]. apply (set_inbound_ok r st (ru_drains r) (ru_accepted r) (ru_app r)); [done|].
    by destruct (istep_ok Error _ ""%string ""%string _ _ Hin (is_receive _ _ _ _ _ _ _ _ _ _ _ a res st Hrecv))
      as (c & [= <-] & Hc).
  - destruct (dc_step_ok _ _ _ Hdc (dstep_recv _ res dc Hrecv)) as (c & [= <-] & Hc).
    eexists. split; [done|]. split; cbn; try done. intros Hn.
    by apply (dc_step_closed _ _ _ (dstep_recv _ res dc Hrecv)), Hcl.
  - eexists. split; [done|]. unfold ctlWrite. destruct (WriteControlFrame _ _ _). by apply set_s_ok.
  - unfold finishRun. destruct (dc_step_ok _ _ _ Hdc (dstep_close _)) as (c & Ec & Hc). rewrite Ec. cbn.
    eexists. split; [done|]. split; cbn; try done. intros _. unfold dc_Close in Ec.
    destruct (dc_closed (ss_dc (ru_s r))) eqn:E; [by injection Ec as <-|].
    destruct (ch_closed _); [done|]. by injection Ec as <-.
Qed.

Lemma runs_ok uni s0 r : started s0 -> runs uni s0 r -> running_ok r.
Proof.
  intros Hs. induction 1 as [|r r' _ IH Hst]; [by apply start_running_ok|].
  by destruct (runstep_ok r _ IH Hst) as (? & [= <-] & ?).
Qed.

(** * Why a session ends *)

(** The control reader returned [e] for what the peer did: for a close frame
    when [e] is nil. *)
Definition peer_cause (uni : bool) (s0 : session W) (e : option error) : Prop :=
  exists r now s, runs uni s0 r /\ controlRead None now (ru_s r) = Some (RDone e, s) /\
    (e = None -> exists payload rest, ReadControlFrame (ss_ctl (ru_s r)) = (Ok (TypeClose, payload), rest)).

(** The watchdog found the session stalled. *)
Definition idle_cause (uni : bool) (s0 : session W) (e : option error) : Prop :=
  e = Some ErrIdle /\ exists r now, runs uni s0 r /\ idleWatchdog cfg now (ru_s r) = Some ErrIdle.

(** The parent context ended; [e] is its error, or that of a pump that failed
    after. *)
Definition parent_cause (r : running) (e : option error) : Prop :=
  is_Some (ru_parent r) /\ (ru_parent r = e \/ exists a, (a, e) ∈ ru_exited r /\ e <> None).

Definition ends_for (uni : bool) (s0 : session W) (r : running) (e : option error) : Prop :=
  peer_cause uni s0 e \/ idle_cause uni s0 e \/ parent_cause r e.

Definition history_ok (uni : bool) (s0 : session W) (r : running) : Prop :=
  match ru_result r with
  | Some e => ends_for uni s0 r e
  | None =>
      (forall e, ru_reader r = RDone e -> ends_for uni s0 r e) /\
      (forall e, ru_idle r = Some e -> ends_for uni s0 r (Some e)) /\
      (forall e, e ∈ ru_pumpDone r -> parent_cause r (Some e))
  end.

Lemma controlRead_nil now s s' :
  controlRead None now s = Some (RDone None, s') ->
  exists payload rest, ReadControlFrame (ss_ctl s) = (Ok (TypeClose, payload), rest).
Proof.
  unfold controlRead. destruct (ReadControlFrame (ss_ctl s)) as [[[t payload]|err] rd]; [|done].
  destruct (bool_decide (t = TypeAnnounce)).
  { destruct (Unmarshal payload) as [a|]; [|done].
    destruct (announceBegin _ _ _ _ _ _ _ _) as [[[[[t' auth]|] ib] out] w]; done. }
  unfold controlFrame. destruct (bool_decide (t = TypePing)).
  { destruct (negb _ && _); [done|]. by destruct (ctlWrite _ _ _) as [[e|] s1]. }
  destruct (bool_decide (t = TypeClose)) eqn:E; [apply bool_decide_eq_true in E as ->; eauto|].
  destruct (bool_decide (t = TypeError)); [done|].
  destruct (bool_decide (t = TypeData)); [by destruct (dc_Deliver _ _)|].
  destruct (bool_decide (t = TypeAnnounce)).
  { destruct (Unmarshal payload) as [a|]; [|done]. by destruct (handleAnnounce _ _ _ _ _ _ _ _) as [[ib out] w]. }
  destruct (bool_decide (t = TypeUnannounce)).
  { destruct (Unmarshal payload) as [u|]; [|done]. by destruct (handleUnannounce _ _). }
  destruct (bool_decide (t = TypeKindStats)).
  { destruct (sc_OnKindStats cfg); [|done]. by destruct (Unmarshal payload). }
  destruct (bool_decide (t = TypeBackpressure)); [|done]. by destruct (Unmarshal payload).
Qed.

(** Facts about the parent and the pumps, once true, stay. *)
Lemma ends_for_le uni s0 r r' e :
  (forall x, ru_parent r = Some x -> ru_parent r' = Some x) -> ru_exited r ⊆ ru_exited r' ->
  (ends_for uni s0 r e -> ends_for uni s0 r' e) /\ (parent_cause r e -> parent_cause r' e).
Proof.
  intros Hp Hx. assert (parent_cause r e -> parent_cause r' e) as Hpc.
  { intros [[x Hs] Hor]. rewrite Hs in Hor. split; [rewrite (Hp x Hs); eauto|].
    destruct Hor as [<- | (a & Ha & Hn)]; [left; by apply Hp|right; eauto]. }
  split; [|done]. unfold ends_for. naive_solver.
Qed.

(** What a step must show: the reasons it adds. *)
Lemma history_le uni s0 r r' :
  (forall x, ru_parent r = Some x -> ru_parent r' = Some x) -> ru_exited r ⊆ ru_exited r' ->
  ru_result r' = ru_result r ->
  (ru_result r = None ->
   (forall e, ru_reader r' = RDone e -> ru_reader r = RDone e \/ ends_for uni s0 r' e) /\
   (forall e, ru_idle r' = Some e -> ru_idle r = Some e \/ ends_for uni s0 r' (Some e)) /\
   (forall e, e ∈ ru_pumpDone r' -> e ∈ ru_pumpDone r \/ parent_cause r' (Some e))) ->
  history_ok uni s0 r -> history_ok uni s0 r'.
Proof.
  intros Hp Hx Er Hnew. assert (forall e, (ends_for uni s0 r e -> ends_for uni s0 r' e) /\
    (parent_cause r e -> parent_cause r' e)) as Hle by (intros e; by apply ends_for_le).
  unfold history_ok. rewrite Er. destruct (ru_result r) as [e|]; [by apply Hle|].
  destruct (Hnew eq_refl) as (N1 & N2 & N3). intros (H1 & H2 & H3).
  split_and!; intros e He; [destruct (N1 e He)|destruct (N2 e He)|destruct (N3 e He)]; try done; apply Hle; auto.
Qed.

Lemma history_control uni s0 r ctx now st s :
  runs uni s0 r -> ctx = None \/ ctx = ctxErr r -> controlRead ctx now (ru_s r) = Some (st, s) ->
  ru_result r = None -> forall r' e, ru_parent r' = ru_parent r -> st = RDone e -> ends_for uni s0 r' e.
Proof.
  intros Hruns Hctx Ec Er r' e Hp' ->.
  assert (ctx = None -> ends_for uni s0 r' e) as Hpeer.
  { intros ->. left. exists r, now, s. split_and!; [done|done|]. intros ->. by eapply controlRead_nil. }
  destruct Hctx as [-> | ->]; [by apply Hpeer|]. unfold ctxErr in *. rewrite Er in *.
  destruct (ru_parent r) as [err|] eqn:Ep; [|by apply Hpeer].
  injection Ec as <- <-. right; right. split; rewrite Hp'; [eauto|by left].
Qed.

Lemma history_step uni s0 r r' :
  runs uni s0 r -> history_ok uni s0 r -> runstep r (Some r') -> history_ok uni s0 r'.
Proof.
  intros Hruns Hh Hst. remember (Some r') as o eqn:Eo.
  destruct Hst as [r err Hp|r ctx now Hr Hctx|r a ann auth Hr|r err Hi Hc|r now Hi|r a now e Ha|r a err Ha
    |r name kind recv priority trackID|r name|r stream Hac|r|r i d now exit Hl|r name|r a res st Hrecv|r res dc Hrecv
    |r typ payload|r err Hres Hsel]; try (injection Eo as <-);
    try (eapply history_le; [..|exact Hh]; [done|done|done|by intros _; split_and!; auto]).
  - eapply history_le; [..|exact Hh]; cbn; [congruence|done|done|by intros _; split_and!; auto].
  - apply bind_Some in Eo as ([st s] & Ec & [= <-]). eapply history_le; [..|exact Hh]; [done|done|done|].
    intros Er. split_and!; [|by auto..]. intros e He. right. by eapply history_control.
  - eapply history_le; [..|exact Hh]; [done|done|done|]. intros Er. unfold ctxErr in Hc. rewrite Er in Hc.
    destruct (ru_parent r) as [x|] eqn:Ep; [|done].
    split_and!; [by auto| |by auto]. intros e [= <-]. right; right; right.
    split; cbn; rewrite Ep; [eauto|left; congruence].
  - eapply history_le; [..|exact Hh]; [done|done|done|]. intros Er. split_and!; [by auto| |by auto]. cbn. intros e He.
    right; right; left. assert (e = ErrIdle) as ->; [|split; [done|eauto]].
    unfold idleWatchdog in He. destruct (_ && _); congruence.
  - eapply history_le; [..|exact Hh]; cbn; [done|set_solver|done|]. intros Er. split_and!; [by auto..|].
    intros e He. unfold runOnePump, ctxErr in He. rewrite Er in He.
    destruct err as [x|], (ru_parent r) as [p|] eqn:Ep; auto. destruct (_ <? _)%nat; [|auto].
    apply elem_of_app in He as [He | ->%list_elem_of_singleton]; [auto|]. right.
    split; cbn; rewrite ?Ep; [eauto|]. right. exists a. split; [cbn; set_solver|done].
  - apply bind_Some in Eo as (ob & Ec & [= <-]). eapply history_le; [..|exact Hh]; [done|done|done|by intros _; split_and!; auto].
  - apply bind_Some in Eo as ([d' st] & Ec & [= <-]).
    eapply history_le; [..|exact Hh]; [done|done|done|by intros _; split_and!; auto].
  - unfold finishRun in Eo. apply bind_Some in Eo as (dc & Ec & [= <-]).
    set (r2 := mkRunning _ _ _ _ _ _ _ _ _ _ _).
    assert (forall e, (ends_for uni s0 r e -> ends_for uni s0 r2 e) /\ (parent_cause r e -> parent_cause r2 e)) as Hle
      by (intros e; by apply ends_for_le).
    unfold history_ok in *. cbn. rewrite Hres in Hh. destruct Hh as (H1 & H2 & H3).
    destruct Hsel as [x Hx|x l Hx|x Hx|x Hx]; [|by right; right; apply Hle, H3; rewrite Hx; left|by apply Hle, H1|by apply Hle, H2].
    right; right. split; cbn; rewrite Hx; [eauto|by left].
Qed.

Lemma runs_history uni s0 r : runs uni s0 r -> history_ok uni s0 r.
Proof.
  induction 1 as [|r r' Hr IH Hst]; [|by eapply history_step].
  unfold history_ok. cbn. split_and!; set_solver.
Qed.

(** ** From the handshake *)

Lemma handshake_parts order deadline s :
  (forall m, order m ≡ₚ map_to_list m) -> ob_ok (ss_ob s) ->
  let s' := (handshake cfg hooks order deadline s).2 in
  ob_ok (ss_ob s') /\ ob_runStarted (ss_ob s') = ob_runStarted (ss_ob s) /\ ss_dc s' = ss_dc s /\ ss_in s' = ss_in s.
Proof.
  intros Hord Hob. cbv zeta.
  destruct (handshake_cases cfg hooks order deadline s) as [(-> & hello & neg & tenant & rest & Hh) | [_ Hu]];
    [|by destruct Hu as (-> & -> & -> & _)].
  rewrite (handshake_checked cfg hooks order s _ _ _ _ Hh). unfold startSession. set (s1 := with_id _ _).
  assert (forall s2, ss_ob (sendSDP cfg hello s2).2 = ss_ob s2 /\ ss_dc (sendSDP cfg hello s2).2 = ss_dc s2 /\
    ss_in (sendSDP cfg hello s2).2 = ss_in s2) as Hsdp.
  { intros s2. unfold sendSDP, ctlWrite. destruct (Marshal _); [|done]. by destruct (WriteControlFrame _ _ _). }
  assert (forall w', let s2 := startFresh cfg hooks order (with_world s1 w') in
    ob_ok (ss_ob s2) /\ ob_runStarted (ss_ob s2) = ob_runStarted (ss_ob s) /\ ss_dc s2 = ss_dc s /\ ss_in s2 = ss_in s) as Hfr.
  { intros w'. unfold startFresh. cbn [ss_world with_world].
    destruct (OnAllocateID hooks) as [al|]; [destruct (al w') as [id w2]|];
      (destruct (OnFreshSession hooks) as [fr|]; [|by split_and!]); destruct (fr _) as [rs w3]; cbn;
      rewrite attachFresh_all; (split_and!; [by apply attach_map_view|apply attach_list_started|done|done]). }
  destruct (tryResume cfg hooks order hello s1) as [resumed s2] eqn:Er.
  destruct (Hsdp (if resumed then s2 else startFresh cfg hooks order s2)) as (-> & -> & ->).
  unfold tryResume in Er. destruct (OnResume hooks) as [f|]; [|injection Er as <- <-; apply (Hfr (ss_world s1))].
  destruct (decide _); [injection Er as <- <-; apply (Hfr (ss_world s1))|].
  destruct (f _ _ _ _) as [[receivers|] w1]; injection Er as <- <-; [|apply (Hfr w1)].
  cbn. rewrite attachResumed_all.
  destruct (size _ =? 0)%nat; (split_and!; [|by rewrite attach_list_started|done|done]); apply attach_map_view; try done.
  by destruct Hob.
Qed.

Lemma runBegin_started onHandshake order now deadline t0 ctl out w s :
  (forall m, order m ≡ₚ map_to_list m) ->
  runBegin cfg hooks onHandshake order now deadline (newSession cfg t0 ctl out w) = (None, s) -> started s.
Proof.
  intros Hord. unfold runBegin.
  destruct (handshake_parts order deadline (touchFeed now (newSession cfg t0 ctl out w)) Hord no_outbound_ok)
    as (H1 & H2 & H3 & H4).
  destruct (handshake _ _ _ _ _) as [[err|] s1]; [done|]. cbn [snd] in *. intros [= <-].
  split; cbn; destruct onHandshake; cbn; rewrite ?H3, ?H4; try done; apply start_ok; try done; by rewrite H2.
Qed.
End Run.

(** * Theorems *)

(** C8: a running session is safe.  Whatever the peer sends on the control stream
    and on its uni streams, and however the pumps, the watchdog, the server's
    attaches and detaches and the application's calls interleave with it, before
    and after [Run] returns: no goroutine panics; the pump of every attached
    track was started, no pump twice, and none ends twice; the peer has at most
    256 inbound tracks, and where an announce must be accepted only tracks that
    were hold data; the data channel of a session that has ended is closed. *)
Theorem running_session_safe {W} `{JSON Hello, JSON SDP, JSON Announce, JSON Unannounce, JSON Backpressure,
      JSON KindStats, JSON ErrorPayload} Error (cfg : SessionConfig W) hooks onHandshake order now deadline t0 ctl
    out w s0 uni r :
  (forall m, order m ≡ₚ map_to_list m) ->
  runBegin cfg hooks onHandshake order now deadline (newSession cfg t0 ctl out w) = (None, s0) ->
  runs Error cfg uni s0 r ->
  (forall o, runstep Error cfg r o -> o <> None) /\
  (forall name a, ob_tracks (ss_ob (ru_s r)) !! name = Some a -> a ∈ ob_launched (ss_ob (ru_s r))) /\
  NoDup (ob_launched (ss_ob (ru_s r))) /\ NoDup (ru_exited r).*1 /\
  (size (dom (ib_tracks (d_ib (ss_in (ru_s r)))) ∖ ru_app r) <= 256)%nat /\
  (is_Some (sc_OnAnnounce cfg) -> forall a t, ib_heap (d_ib (ss_in (ru_s r))) !! a = Some t ->
     ch_buf (it_ch t) <> [] -> it_name t ∈ ru_accepted r) /\
  (ru_result r <> None -> dc_closed (ss_dc (ru_s r)) = true).
Proof.
  intros Hord Hb Hr. pose proof (runs_ok Error cfg uni s0 r (runBegin_started cfg hooks _ _ _ _ _ _ _ _ _ Hord Hb) Hr) as Hok.
  destruct Hok as [Hob Hst Hdc Hin Hex Hcl] eqn:E; clear E. split_and!; try done.
  - intros o Hs ->. by destruct (runstep_ok Error cfg r None Hok Hs) as (? & ? & _).
  - intros name a Ha. by eapply (ok_started _ Hob).
  - apply Hob.
  - apply Hex.
  - apply Hin.
  - intros Hon a t Ha Hb'. destruct Hin as [Hi _ _ _]. apply (io_auth _ _ _ Hi a t Ha Hon). by right.
Qed.


(** a pump that fails while the session is alive is lost without a trace:
    the goroutine ends, its track stays attached and keeps its place in the
    table, so a new attach of the same name starts nothing, and [Run] has
    nothing more to return than before; the comment of [Run] promises the first
    error of the handshake, the pump or the reader. *)
Theorem pump_failure_is_silent {W} `{JSON Announce, JSON Unannounce, JSON Backpressure, JSON KindStats,
      JSON ErrorPayload} Error (cfg : SessionConfig W) r a err :
  liveTrackPump r a -> ru_parent r = None -> ru_result r = None ->
  exists r', runstep Error cfg r (Some r') /\ ru_s r' = ru_s r /\ ru_exited r' = ru_exited r ++ [(a, err)] /\
    (forall e, selectRun r' e <-> selectRun r e) /\
    (forall name kind recv priority trackID, is_Some (ob_tracks (ss_ob (ru_s r')) !! name) ->
       AttachTrackWithKind (sc_FeedConfig cfg) (NegotiatedFeatures (ss_id (ru_s r'))) name kind recv priority trackID
         (ss_ob (ru_s r')) = ss_ob (ru_s r')).
Proof.
  intros Ha Hp Hres. eexists. split; [by apply (rn_pump_exit Error cfg r a err)|]. cbn. split_and!; try done.
  - assert (runOnePump (ctxErr r) err (ru_pumpDone r) = ru_pumpDone r) as ->.
    { unfold ctxErr. rewrite Hp, Hres. by destruct err. }
    intros e. split; (intros Hs; destruct Hs;
      [by eapply sel_ctx|by eapply sel_pump|by eapply sel_reader|by eapply sel_idle]).
  - intros name kind recv priority trackID [b Hb]. unfold AttachTrackWithKind. by rewrite Hb.
Qed.

(** * A concrete run *)

Module RunDemo.
Import SessionDemo.
#[local] Existing Instances json_hello json_sdp json_announce json_unannounce json_backpressure json_kindstats json_error.

Definition noText (e : error) : string := "".

(** A subscriber that says hello and closes. *)
Definition demo_new : session nat :=
  newSession demo_cfg 0 (mkReader (control_bytes TypeHello [x01] ++ control_bytes TypeClose []) EOF) (mkWriter [] []) 0%nat.

Definition demo_s0 : session nat := (runBegin demo_cfg demo_hooks None map_to_list 1 None demo_new).2.

Lemma demo_begins : runBegin demo_cfg demo_hooks None map_to_list 1 None demo_new = (None, demo_s0).
Proof. vm_compute. reflexivity. Qed.

(** The close frame is read. *)
Definition demo_read : running (W := nat) :=
  set_reader (RDone None) (set_s (with_ctl demo_s0 (mkReader [] EOF)) (startRun true demo_s0)).

Definition demo_ended : running (W := nat) := default demo_read (finishRun None demo_read).

Lemma demo_reads : controlRead noText demo_cfg None 5 demo_s0 = Some (RDone None, with_ctl demo_s0 (mkReader [] EOF)).
Proof. vm_compute. reflexivity. Qed.

Lemma demo_runs_read : runs noText demo_cfg true demo_s0 demo_read.
Proof.
  eapply runs_step; [apply runs_start|].
  pose proof (rn_control noText demo_cfg (startRun true demo_s0) None 5 eq_refl (or_introl eq_refl)) as H.
  change (ru_s (startRun true demo_s0)) with demo_s0 in H. rewrite demo_reads in H. exact H.
Qed.

Lemma demo_runs : runs noText demo_cfg true demo_s0 demo_ended.
Proof.
  eapply runs_step; [exact demo_runs_read|].
  assert (finishRun None demo_read = Some demo_ended) as <- by (vm_compute; reflexivity).
  apply rn_return; [done|by apply sel_reader].
Qed.

Lemma running_session_safe_witness :
  (ru_result demo_ended <> None -> dc_closed (ss_dc (ru_s demo_ended)) = true) /\
  ob_tracks (ss_ob (ru_s demo_ended)) !! "a"%string = Some 0%nat /\ 0%nat ∈ ob_launched (ss_ob (ru_s demo_ended)).
Proof.
  destruct (running_session_safe noText demo_cfg demo_hooks None map_to_list 1 None 0
    (mkReader (control_bytes TypeHello [x01] ++ control_bytes TypeClose []) EOF) (mkWriter [] []) 0%nat demo_s0 true
    demo_ended (fun m => reflexivity _) demo_begins demo_runs) as (_ & H2 & _ & _ & _ & _ & H7).
  split; [exact H7|]. split; [reflexivity|]. apply (H2 "a"%string). reflexivity.
Defined.


Lemma pump_failure_is_silent_witness :
  exists r', runstep noText demo_cfg (startRun true demo_s0) (Some r') /\ ru_exited r' = [(0%nat, Some ErrClosedPipe)].
Proof.
  destruct (pump_failure_is_silent noText demo_cfg (startRun true demo_s0) 0%nat (Some ErrClosedPipe))
    as (r' & H1 & _ & H3 & _).
  - split; [vm_compute; by left|apply not_elem_of_nil].
  - reflexivity.
  - reflexivity.
  - exists r'. split; [exact H1|exact H3].
Defined.
End RunDemo.
