(* ===== verification/Server.v ===== *)
(** * Package server: tracks, resumption and admission

    [server/server.go]: the track registry, the callbacks with which a session
    is resumed or started, the parking of a session that has ended, the
    admission of connections and the origin check.  The broadcasters are those
    of [Pubsub.v], the parked sessions those of [SessionStore.v], the sessions
    those of [Session.v].

    A broadcaster object has an address, since parked receivers and evicted
    entries keep referring to it after its track is removed; a receiver is named
    by its broadcaster and its address there, and [recv_id] numbers these pairs.
    [None] is a panic.  Orders in which maps are iterated are parameters. *)

From S2P Require Import Prelude Wire Track Replay Pubsub PubsubCalls RateLimit Pump DataChannel Inbound SessionStore Session.

Record trackEntry := mkTrackEntry {
  te_kind : Kind;
  te_priority : Z;
  te_trackID : byte;
  te_bc : nat;
}.

Definition rref : Type := nat * nat.
Definition recv_id (x : rref) : nat := encode_nat x.
Definition recv_ref (n : nat) : option rref := decode_nat n.

Lemma recv_ref_id x : recv_ref (recv_id x) = Some x.
Proof. apply decode_encode_nat. Qed.

Record TrackSpec := mkTrackSpec {
  spec_Name : string; spec_Kind : Kind; spec_Priority : Z; spec_TrackID : byte }.

Section Server.
Context {W : Type}. (* the state of the recorders *)

(** A broadcaster object and its receivers. *)
Record bobj := mkBobj { bo_heap : gmap nat Receiver; bo_bc : Broadcaster W }.

(** [Write] of a recorder, whose error the server drops. *)
Definition recorder : Type := string -> string -> AccessUnit -> W -> W.

(** A detacher is the closure [AddInterceptor] returned: the broadcaster and the
    interceptor's identifier. *)
Record recorderEntry := mkRecorderEntry {
  re_rec : option recorder;
  re_detachers : gmap string (nat * option Z);
}.

Record core := mkCore {
  sv_tracks : gmap string trackEntry;
  sv_bcs : gmap nat bobj;
  sv_parked : memorySessionStore (list rref);
  sv_recorders : list recorderEntry;
  sv_world : W;
}.

Definition with_tracks (c : core) m : core := mkCore m (sv_bcs c) (sv_parked c) (sv_recorders c) (sv_world c).
Definition with_parked (c : core) p : core := mkCore (sv_tracks c) (sv_bcs c) p (sv_recorders c) (sv_world c).

(** The store of one broadcaster, with the recorders' shared state. *)
Definition storeAt (b : nat) (c : core) : option (store W) :=
  o ← sv_bcs c !! b; Some (mkStore (bo_heap o) (bo_bc o) (sv_world c)).

Definition putStore (b : nat) (s : store W) (c : core) : core :=
  mkCore (sv_tracks c) (<[b := mkBobj (heap s) (bc s)]> (sv_bcs c)) (sv_parked c) (sv_recorders c) (world s).

(** ** Look-ups *)

Definition trackIDFor (c : core) (name : string) : byte :=
  match sv_tracks c !! name with Some t => te_trackID t | None => x00 end.

Definition priorityFor (c : core) (name : string) : Z :=
  match sv_tracks c !! name with Some t => te_priority t | None => 4 end.

Definition kindFor (c : core) (name : string) : Kind :=
  match sv_tracks c !! name with
  | Some t => if decide (te_kind t = ""%string) then KindVideo else te_kind t
  | None => KindVideo
  end.

(** ** Adding and removing tracks *)

(** What [AddTrackSpec] registers. *)
Definition specKind (spec : TrackSpec) : Kind :=
  if decide (spec_Kind spec = ""%string) then KindVideo else spec_Kind spec.

Definition specPriority (spec : TrackSpec) : Z :=
  if spec_Priority spec =? 0 then DefaultPriority (specKind spec) else spec_Priority spec.

(** The interceptor with which a recorder is attached to a track. *)
Definition recorderHook (rec : recorder) (name kind : string) : Interceptor W :=
  fun w au => (rec name kind au w, Ok au).

(** [attachRecordersToTrack] for the broadcaster [b] at the address [a]. *)
Fixpoint attachRecordersToTrack (name kind : string) (a : nat) (b : Broadcaster W) (recs : list recorderEntry)
    : Broadcaster W * list recorderEntry :=
  match recs with
  | [] => (b, [])
  | e :: recs' =>
      match re_rec e with
      | None =>
          let '(b, recs') := attachRecordersToTrack name kind a b recs' in (b, e :: recs')
      | Some rec =>
          let '(rmv, b) := AddInterceptor b (Some (recorderHook rec name kind)) in
          let '(b, recs') := attachRecordersToTrack name kind a b recs' in
          (b, mkRecorderEntry (Some rec) (<[name := (a, rmv)]> (re_detachers e)) :: recs')
      end
  end.

(** The locked part of [addTrackInternal]: [true] when the track is new. *)
Definition registerTrack (buffer : Z) (name : string) (kind : Kind) (priority : Z) (trackID : byte)
    (c : core) : bool * core :=
  match sv_tracks c !! name with
  | Some _ => (false, c)
  | None =>
      let b := NewBroadcaster buffer in
      let b := if decide (kind <> KindVideo /\ kind <> ""%string) then SetSelfContained true b else b in
      let a := fresh (dom (sv_bcs c)) in
      let '(b, recs) := attachRecordersToTrack name kind a b (sv_recorders c) in
      (true, mkCore (<[name := mkTrackEntry kind priority trackID a]> (sv_tracks c))
               (<[a := mkBobj ∅ b]> (sv_bcs c)) (sv_parked c) recs (sv_world c))
  end.

(** [bc.Subscribe()] on the broadcaster at [b]. *)
Definition subscribeAt (b : nat) (c : core) : option (rref * core) :=
  s ← storeAt b c;
  res ← Subscribe s;
  Some ((b, res.1), putStore b res.2 c).

Definition subscribeCapAt (cap : Z) (b : nat) (c : core) : option (rref * core) :=
  s ← storeAt b c;
  res ← SubscribeWithCapacity s cap;
  Some ((b, res.1), putStore b res.2 c).

(** [bc.Unsubscribe(r)]. *)
Definition unsubscribeAt (x : rref) (c : core) : option core :=
  s ← storeAt x.1 c;
  s' ← Unsubscribe s x.2;
  Some (putStore x.1 s' c).

Definition unsubscribeAll (l : list rref) (c : core) : option core :=
  foldl (fun oc x => c ← oc; unsubscribeAt x c) (Some c) l.

(** [Publisher.Publish] on the broadcaster at [b]; [order] and [sched] as in
    [Pubsub.Publish]. *)
Definition publishAt (b : nat) (au : AccessUnit) (order : list nat) (sched : nat -> nat * nat) (c : core)
    : option core :=
  s ← storeAt b c;
  s' ← Publish s au order sched;
  Some (putStore b s' c).

(** ** Recorders *)

Definition attachRecorderTo (rec : recorder) (st : gmap nat bobj * gmap string (nat * option Z))
    (nt : string * trackEntry) : option (gmap nat bobj * gmap string (nat * option Z)) :=
  let '(bcs, detachers) := st in
  o ← bcs !! te_bc nt.2;
  let '(rmv, b) := AddInterceptor (bo_bc o) (Some (recorderHook rec nt.1 (te_kind nt.2))) in
  Some (<[te_bc nt.2 := mkBobj (bo_heap o) b]> bcs, <[nt.1 := (te_bc nt.2, rmv)]> detachers).

(** [AttachRecorder]; [tracks] is the track map as it is iterated. *)
Definition AttachRecorder (rec : recorder) (tracks : list (string * trackEntry)) (c : core) : option core :=
  res ← foldl (fun st nt => st ← st; attachRecorderTo rec st nt) (Some (sv_bcs c, ∅)) tracks;
  Some (mkCore (sv_tracks c) res.1 (sv_parked c)
          (sv_recorders c ++ [mkRecorderEntry (Some rec) res.2]) (sv_world c)).

Definition runDetacher (bcs : gmap nat bobj) (d : nat * option Z) : option (gmap nat bobj) :=
  o ← bcs !! d.1;
  b ← removeInterceptor (bo_bc o) d.2;
  Some (<[d.1 := mkBobj (bo_heap o) b]> bcs).

(** The function [AttachRecorder] returned for the entry [idx]; [order] iterates
    the detachers.  A second call finds the slot cleared, as [detachOnce] would
    have it. *)
Definition detachRecorder (order : gmap string (nat * option Z) -> list (string * (nat * option Z)))
    (idx : nat) (c : core) : option core :=
  match sv_recorders c !! idx with
  | None => Some c
  | Some e =>
      bcs ← foldl (fun m nd => m ← m; runDetacher m nd.2) (Some (sv_bcs c)) (order (re_detachers e));
      Some (mkCore (sv_tracks c) bcs (sv_parked c)
              (<[idx := mkRecorderEntry None ∅]> (sv_recorders c)) (sv_world c))
  end.

(** A registered session, as [addTrackInternal] and [RemoveTrack] use it: its
    outbound tracks, its control stream, and what [AttachTrackWithKind] reads. *)
Section Sessions.
Context {W' : Type} {JA : JSON Announce} {JU : JSON Unannounce}.

Definition attachToSession (base : Config) (name : string) (kind : Kind) (priority : Z) (trackID : byte)
    (r : rref) (s : session W') : session W' :=
  let ob := AttachTrackWithKind base (NegotiatedFeatures (ss_id s)) name kind (recv_id r) priority trackID (ss_ob s) in
  SendAnnounce name kind "" (with_ob s ob).

(** The loop over the registered sessions. *)
Fixpoint notifySessions (base : Config) (name : string) (kind : Kind) (priority : Z) (trackID : byte) (b : nat)
    (c : core) (ss : list (session W')) : option (core * list (session W')) :=
  match ss with
  | [] => Some (c, [])
  | s :: ss' =>
      res ← subscribeAt b c;
      let s := attachToSession base name kind priority trackID res.1 s in
      rest ← notifySessions base name kind priority trackID b res.2 ss';
      Some (rest.1, s :: rest.2)
  end.

Definition addTrackInternal (base : Config) (buffer : Z) (name : string) (kind : Kind) (priority : Z)
    (trackID : byte) (c : core) (ss : list (session W')) : option (core * list (session W')) :=
  match registerTrack buffer name kind priority trackID c with
  | (false, c) => Some (c, ss)
  | (true, c) =>
      t ← sv_tracks c !! name;
      notifySessions base name kind priority trackID (te_bc t) c ss
  end.

Definition AddTrackSpec (base : Config) (buffer : Z) (spec : TrackSpec) (c : core)
    (ss : list (session W')) : option (core * list (session W')) :=
  addTrackInternal base buffer (spec_Name spec) (specKind spec) (specPriority spec) (spec_TrackID spec) c ss.

Definition AddTrack base buffer (name : string) c ss :=
  AddTrackSpec base buffer (mkTrackSpec name "" 0 x00) c ss.

Definition AddTrackWithTrackID base buffer (name : string) (priority : Z) (trackID : byte) c ss :=
  AddTrackSpec base buffer (mkTrackSpec name "" priority trackID) c ss.

Definition AddTrackWithPriority base buffer (name : string) (priority : Z) c ss :=
  AddTrackSpec base buffer (mkTrackSpec name "" priority x00) c ss.

(** [r.sess.DetachTrack(name); r.sess.SendUnannounce(name)] for every session. *)
Fixpoint detachSessions (name : string) (ss : list (session W')) : option (list (session W')) :=
  match ss with
  | [] => Some []
  | s :: ss' =>
      ob ← DetachTrack name (ss_ob s);
      rest ← detachSessions name ss';
      Some (SendUnannounce name (with_ob s ob) :: rest)
  end.

(** [closeOrder] is the order in which the broadcaster's receivers are closed. *)
Definition RemoveTrack (closeOrder : gset nat -> list nat) (name : string) (c : core) (ss : list (session W'))
    : option (core * list (session W')) :=
  match sv_tracks c !! name with
  | None => Some (c, ss)
  | Some t =>
      ss ← detachSessions name ss;
      s ← storeAt (te_bc t) c;
      s' ← Pubsub.Close s (closeOrder (b_receivers (bc s)));
      Some (putStore (te_bc t) s' (with_tracks c (delete name (sv_tracks c))), ss)
  end.
End Sessions.

(** ** Starting and resuming a session *)

Context (tracks_order : gmap string trackEntry -> list (string * trackEntry)).
Context (park_order : @map_order (list rref)).
Context (seen_order : gmap string Z -> list (string * Z)).
Context (values : gmap Z AccessUnit -> list AccessUnit).

(** [OnFreshSession] over [trackSnapshot]. *)
Definition freshReceivers (c : core) : option (gmap string nat * core) :=
  foldl (fun st nt =>
           st ← st;
           res ← subscribeAt (te_bc nt.2) st.2;
           Some (<[nt.1 := recv_id res.1]> st.1, res.2))
    (Some (∅, c)) (tracks_order (sv_tracks c)).

(** The evicted entries' callbacks. *)
Definition runEvictions (out : list (@store_entry (list rref))) (c : core) : option core :=
  foldl (fun oc kp => c ← oc; unsubscribeAll (ps_onEvict kp.2) c) (Some c) out.

(** A tick of the eviction loop of [ListenAndServe]. *)
Definition evictTick (now : Z) (c : core) : option core :=
  let '(parked, out) := EvictExpired park_order (sv_parked c) now in
  runEvictions out (with_parked c parked).

(** A change of one receiver object. *)
Definition on_receiver (x : rref) (f : Receiver -> option Receiver) (c : core) : option core :=
  s ← storeAt x.1 c;
  r ← heap s !! x.2;
  r' ← f r;
  Some (putStore x.1 (with_heap s (<[x.2 := r']> (heap s))) c).

(** The loop body of [OnResume] for a track the client has a cursor for. *)
Definition resumeTrack (recvs : gmap string nat) (c : core) (nf : string * Z) : option core :=
  let '(name, fromSeq) := nf in
  match recvs !! name with
  | None => Some c
  | Some n =>
      x ← recv_ref n;
      match sv_tracks c !! name with
      | None => Some c
      | Some te =>
          s ← storeAt (te_bc te) c;
          let '(replay, available) := ReplaySince (b_replay (bc s)) (u32 (fromSeq + 1)) in
          if negb available then
            if decide (te_kind te = KindVideo \/ te_kind te = ""%string)
            then on_receiver x (fun r => Some (RequestKeyframe r)) c
            else Some c
          else if (length replay =? 0)%nat then Some c
          else on_receiver x (fun r => SpliceFront values r replay) c
      end
  end.

Definition resumeSession (now : Z) (tenant id : string) (lastSeen : gmap string Z) (c : core)
    : option (option (gmap string nat) * core) :=
  let '(recvs, parked, out) := SessionStore.Resume park_order (sv_parked c) now tenant id in
  c ← runEvictions out (with_parked c parked);
  match recvs with
  | None => Some (None, c)
  | Some recvs =>
      c ← foldl (fun oc nf => c ← oc; resumeTrack recvs c nf) (Some c) (seen_order lastSeen);
      Some (Some recvs, c)
  end.

(** ** The end of a session *)

Definition parkedChanCap : Z := Z.of_nat DefaultReplayCap + 64.

(** Fresh receivers for the parked session, one per track. *)
Definition parkReceivers (tracks : list (string * trackEntry)) (c : core)
    : option (gmap string nat * list rref * core) :=
  foldl (fun st nt =>
           st ← st;
           let '(parked, refs, c) := st in
           res ← subscribeCapAt parkedChanCap (te_bc nt.2) c;
           Some (<[nt.1 := recv_id res.1]> parked, refs ++ [res.1], res.2))
    (Some (∅, [], c)) tracks.

(** [t.bc.Unsubscribe(r)] for the session's receivers of the tracks [tracks]. *)
Definition unsubscribeSession (tracks : list (string * trackEntry)) (ob : outbound) (c : core) : option core :=
  foldl (fun oc nt =>
           c ← oc;
           foldl (fun oc n =>
                    c ← oc;
                    match recv_ref n with
                    | Some x => if decide (x.1 = te_bc nt.2) then unsubscribeAt x c else Some c
                    | None => Some c
                    end)
             (Some c) (Receivers nt.1 ob))
    (Some c) tracks.

(** The deferred function of [runSession]; [stopping] is
    [ctx.Err() != nil || s.draining.Load()]. *)
Definition endSession (stopping : bool) (now1 now2 : Z) (i : identity) (ob : outbound) (c : core) : option core :=
  let tracks := tracks_order (sv_tracks c) in
  if bool_decide (SessionID i = ""%string) || stopping then unsubscribeSession tracks ob c
  else
    res ← parkReceivers tracks c;
    let '(parked, refs, c) := res in
    c ← unsubscribeSession tracks ob c;
    res ← Park park_order (sv_parked c) now1 now2 (Tenant i) (SessionID i) parked refs;
    runEvictions res.2 (with_parked c res.1).
End Server.
Arguments core : clear implicits.

(** [Shutdown], after the flag is set: the reason every registered session is
    sent, and the wait, a round being the reading of the session count and
    whether [drainCtx] is then done.  [None]: still waiting. *)
Definition shutdownNotify {W} (ss : list (session W)) : list (session W) :=
  SendClose "server-shutdown" <$> ss.

Fixpoint drainWait (rounds : list (Z * option error)) : option (option error) :=
  match rounds with
  | [] => None
  | (current, done) :: rounds' =>
      if current =? 0 then Some None
      else match done with Some e => Some (Some e) | None => drainWait rounds' end
  end.

(** ** Admission *)

Record gate := mkGate { gt_current : Z; gt_draining : bool }.

(** What the [/wt] handler reads of a request. *)
Record wtRequest := mkWtRequest {
  rq_path : string; rq_rawQuery : string; rq_session : string; rq_tenant : string }.

Inductive wtVerdict := WTUnavailable (msg : string) | WTRedirect (target : string) | WTUpgrade.

(** The [/wt] handler up to the upgrade; [lookup] is [LookupInstance] of a
    distributed store. *)
Definition wtHandle (maxSessions : Z) (instanceAddr : string)
    (lookup : option (string -> string -> option string)) (rq : wtRequest) (g : gate) : wtVerdict :=
  if gt_draining g then WTUnavailable "draining"
  else if gt_current g >=? maxSessions then WTUnavailable "too many sessions"
  else if decide (rq_session rq <> ""%string /\ instanceAddr <> ""%string) then
    match lookup with
    | None => WTUpgrade
    | Some f =>
        match f (rq_tenant rq) (rq_session rq) with
        | Some addr =>
            if decide (addr <> instanceAddr) then
              let target := (addr +:+ rq_path rq)%string in
              WTRedirect (if decide (rq_rawQuery rq <> ""%string)
                          then (target +:+ "?" +:+ rq_rawQuery rq)%string else target)
            else WTUpgrade
        | None => WTUpgrade
        end
    end
  else WTUpgrade.

Definition maxSessionsOf (configured : Z) : Z := if configured <=? 0 then 16 else configured.

Definition makeOriginCheck (allowed : list string) (origin : string) : bool :=
  if (length allowed =? 0)%nat then true
  else bool_decide (origin ∈ (list_to_set allowed : gset string)).

Definition deadlineOrDefault (d def : Z) : Z := if d <=? 0 then def else d.

(** * Recorders *)

Section RecorderProofs.
Context {W : Type}.
Implicit Types c : core W.

(** The interceptors a track should have: one per attached recorder, in the
    order in which the recorders were attached. *)
Definition live (recs : list (recorderEntry (W := W))) : list (recorder (W := W)) := omap re_rec recs.
Definition hooks_for (recs : list (recorderEntry (W := W))) (name kind : string) : list (Interceptor W) :=
  (fun rec => recorderHook rec name kind) <$> live recs.

(** The identifiers of these interceptors, as the detachers hold them. *)
Definition detacher_id (name : string) (e : recorderEntry (W := W)) : option Z :=
  match re_rec e with
  | None => None
  | Some _ => match re_detachers e !! name with Some (_, id) => id | None => None end
  end.
Definition ids_for (recs : list (recorderEntry (W := W))) (name : string) : list Z := omap (detacher_id name) recs.

Lemma take_drop_middle_app {A} (l1 : list A) x l2 i :
  i = length l1 -> take i (l1 ++ x :: l2) = l1 /\ drop (S i) (l1 ++ x :: l2) = l2.
Proof.
  intros ->. split; [apply take_app_length|].
  change (l1 ++ x :: l2) with (l1 ++ ([x] ++ l2)). rewrite app_assoc. apply drop_app_length'.
  rewrite length_app. simpl. lia.
Qed.

Lemma removeInterceptor_split (b : Broadcaster W) H1 h H2 I1 id I2 :
  b_interceptors b = H1 ++ h :: H2 -> b_interceptorIDs b = I1 ++ id :: I2 ->
  length H1 = length I1 -> id ∉ I1 ->
  removeInterceptor b (Some id) = Some (with_interceptors b (H1 ++ H2) (I1 ++ I2) (b_nextInterceptorID b)).
Proof.
  intros Hh Hi Hl Hn. unfold removeInterceptor. rewrite Hh, Hi.
  assert (list_find (fun g => g = id) (I1 ++ id :: I2) = Some (length I1, id)) as ->.
  { apply list_find_Some. split_and!; [by rewrite lookup_app_r, Nat.sub_diag by lia|done|].
    intros j y Hy Hlt ->. rewrite lookup_app_l in Hy by done. by apply list_elem_of_lookup_2 in Hy. }
  rewrite length_app. destruct (_ <? _)%nat eqn:E; [|simpl in E; lia].
  destruct (take_drop_middle_app H1 h H2 (length I1) (eq_sym Hl)) as [-> ->].
  by destruct (take_drop_middle_app I1 id I2 (length I1) eq_refl) as [-> ->].
Qed.

(** What [attachRecordersToTrack] does to one entry. *)
Definition entry_attached (name : string) (a : nat) (e0 e : recorderEntry (W := W)) : Prop :=
  match re_rec e0 with
  | None => e = e0
  | Some rec => re_rec e = Some rec /\ exists id, re_detachers e = <[name := (a, Some id)]> (re_detachers e0)
  end.

Lemma with_interceptors_same (b : Broadcaster W) : with_interceptors b (b_interceptors b) (b_interceptorIDs b) (b_nextInterceptorID b) = b.
Proof. by destruct b. Qed.

Lemma hooks_for_cons e recs name kind :
  hooks_for (e :: recs) name kind =
  match re_rec e with Some rec => recorderHook rec name kind :: hooks_for recs name kind | None => hooks_for recs name kind end.
Proof. unfold hooks_for, live. cbn. by destruct (re_rec e). Qed.

Lemma ids_for_cons e recs name :
  ids_for (e :: recs) name =
  match detacher_id name e with Some id => id :: ids_for recs name | None => ids_for recs name end.
Proof. done. Qed.

(** [attachRecordersToTrack] puts every live recorder at the end of the chain. *)
Lemma attachRecorders_spec name kind a recs : forall b,
  0 <= b_nextInterceptorID b -> b_nextInterceptorID b + Z.of_nat (length recs) < 2 ^ 64 ->
  exists recs', let n := Z.of_nat (length (live recs)) in
  attachRecordersToTrack name kind a b recs =
    (with_interceptors b (b_interceptors b ++ hooks_for recs name kind)
       (b_interceptorIDs b ++ ids_for recs' name) (b_nextInterceptorID b + n), recs') /\
  ids_for recs' name = seqZ (b_nextInterceptorID b + 1) n /\
  Forall2 (entry_attached name a) recs recs'.
Proof.
  induction recs as [|e recs IH]; intros b Hb Hlt; cbn [attachRecordersToTrack length] in *.
  { exists []. cbn. rewrite !app_nil_r, Z.add_0_r, with_interceptors_same. by rewrite seqZ_nil by lia. }
  rewrite hooks_for_cons. unfold live in *. cbn [omap list_omap].
  destruct (re_rec e) as [rec|] eqn:Er.
  - cbn [AddInterceptor length]. unfold u64. rewrite Z.mod_small by lia. set (id := b_nextInterceptorID b + 1) in *.
    destruct (IH (with_interceptors b (b_interceptors b ++ [recorderHook rec name kind])
                    (b_interceptorIDs b ++ [id]) id)) as (recs' & Heq & Hids & Hall); cbn; [lia..|].
    rewrite Heq. exists (mkRecorderEntry (Some rec) (<[name:=(a, Some id)]> (re_detachers e)) :: recs').
    rewrite ids_for_cons. unfold detacher_id. cbn [re_rec re_detachers]. rewrite lookup_insert_eq.
    cbn in *. split_and!.
    + f_equal. rewrite <- !app_assoc. cbn. unfold with_interceptors. cbn. f_equal. lia.
    + rewrite seqZ_cons by lia. f_equal. rewrite Hids. f_equal; lia.
    + constructor; [|done]. unfold entry_attached. rewrite Er. cbn. eauto.
  - destruct (IH b) as (recs' & -> & Hids & Hall); [lia..|]. exists (e :: recs').
    rewrite ids_for_cons. unfold detacher_id. rewrite Er. split_and!; [done|done|].
    constructor; [|done]. unfold entry_attached. by rewrite Er.
Qed.

(** ** The server's invariant *)

Definition bobj_ok (o : bobj (W := W)) : Prop :=
  b_maxAUBytes (bo_bc o) = Z.shiftl 16 20 /\ forall w, store_ok (mkStore (bo_heap o) (bo_bc o) w).

(** A receiver that has been allocated. *)
Definition allocated c (x : rref) : Prop := exists o, sv_bcs c !! x.1 = Some o /\ x.2 ∈ dom (bo_heap o).

(** The receivers of a parked session, and those its callback unsubscribes. *)
Definition parked_ok c (p : persistedSession (list rref)) : Prop :=
  Forall (allocated c) (ps_onEvict p) /\
  forall name i, ps_receivers p !! name = Some i -> exists x, recv_ref i = Some x /\ allocated c x.

Lemma parked_ok_mono c c' p : (forall x, allocated c x -> allocated c' x) -> parked_ok c p -> parked_ok c' p.
Proof.
  intros H [H1 H2]. split; [by eapply Forall_impl|]. intros name i Hi. destruct (H2 name i Hi) as (x & ? & ?). eauto.
Qed.

(** The chain of a track's broadcaster is that of the attached recorders. *)
Definition chain_ok (recs : list (recorderEntry (W := W))) (name : string) (t : trackEntry) (o : bobj (W := W)) : Prop :=
  b_interceptors (bo_bc o) = hooks_for recs name (te_kind t) /\
  b_interceptorIDs (bo_bc o) = ids_for recs name.

(** [own] gives the name of the track a broadcaster was made for; [n] bounds the
    number of recorders there have been. *)
Record core_ok (n : nat) (own : nat -> string) c : Prop := {
  co_track : forall name t, sv_tracks c !! name = Some t -> own (te_bc t) = name /\
    exists o, sv_bcs c !! te_bc t = Some o /\ chain_ok (sv_recorders c) name t o;
  co_detach : forall e name t, e ∈ sv_recorders c -> re_rec e <> None -> sv_tracks c !! name = Some t ->
    exists id, re_detachers e !! name = Some (te_bc t, Some id);
  co_own : forall e name a id, e ∈ sv_recorders c -> re_detachers e !! name = Some (a, id) ->
    own a = name /\ is_Some (sv_bcs c !! a);
  co_bcs : forall a o, sv_bcs c !! a = Some o -> bobj_ok o /\
    StronglySorted Z.lt (b_interceptorIDs (bo_bc o)) /\
    Forall (fun id => id <= b_nextInterceptorID (bo_bc o)) (b_interceptorIDs (bo_bc o)) /\
    0 <= b_nextInterceptorID (bo_bc o) <= Z.of_nat n;
  co_dead : forall e, e ∈ sv_recorders c -> re_rec e = None -> re_detachers e = ∅;
  co_count : (length (sv_recorders c) <= n)%nat;
  co_max : 0 < maxParked (sv_parked c);
  co_parked : forall k p, byID (sv_parked c) !! k = Some p -> parked_ok c p;
}.

Lemma storeAt_ok n own c b s : core_ok n own c -> storeAt b c = Some s -> store_ok s.
Proof. intros Hok (o & Ho & [= <-])%bind_Some. destruct (co_bcs _ _ _ Hok b o Ho) as [[_ H] _]. apply H. Qed.

Lemma allocated_put c b s s' x :
  storeAt b c = Some s -> dom (heap s) ⊆ dom (heap s') -> allocated c x -> allocated (putStore b s' c) x.
Proof.
  intros (o & Ho & [= <-])%bind_Some Hd (o' & Ho' & Hx). unfold allocated. cbn in *.
  destruct (decide (x.1 = b)) as [E | Hne].
  - rewrite E in *. rewrite lookup_insert_eq. eexists. split; [done|]. cbn. rewrite Ho in Ho'. injection Ho' as <-. set_solver.
  - rewrite lookup_insert_ne by done. eauto.
Qed.

(** A call on one broadcaster. *)
Lemma core_ok_call n own c b s s' :
  core_ok n own c -> storeAt b c = Some s -> call_ok s s' -> core_ok n own (putStore b s' c).
Proof.
  intros Hok Hs [Hinv Hch Hdom]. pose proof Hs as (o & Ho & [= E])%bind_Some.
  destruct Hch as (Hi & Hids & Hnx & Hmax & _). rewrite <- E in Hi, Hids, Hnx, Hmax. cbn in Hi, Hids, Hnx, Hmax.
  destruct Hok as [H1 H2 H3 H4 H4' H5 H5' H6]. split; cbn; try done.
  - intros name t Ht. destruct (H1 name t Ht) as (Hn & o' & Ho' & Hc1 & Hc2). split; [done|].
    destruct (decide (te_bc t = b)) as [Eb | Hne].
    + rewrite Eb, lookup_insert_eq. eexists. split; [done|]. rewrite Eb, Ho in Ho'. injection Ho' as <-.
      unfold chain_ok. cbn. by rewrite Hi, Hids.
    + rewrite lookup_insert_ne by done. exists o'. by split.
  - intros e name a id He Hd. destruct (H3 e name a id He Hd) as [? ?]. split; [done|].
    destruct (decide (a = b)) as [-> | Hne]; [by rewrite lookup_insert_eq|by rewrite lookup_insert_ne].
  - intros a o' Ha. apply lookup_insert_Some in Ha as [[<- <-] | [Hne Ha]]; [|by apply (H4 a)].
    destruct (H4 b o Ho) as ([Hm _] & Hs1 & Hs2 & Hs3). cbn. rewrite Hids, Hnx. split_and!; try done; try lia.
    split; [cbn; by rewrite Hmax|]. intros w. destruct s'. by eapply store_ok_world.
  - intros k p Hp. eapply parked_ok_mono; [|by eapply H6]. intros x Hx. by eapply allocated_put.
Qed.
(** ** Calls on the broadcasters *)

Definition receivers c (b : nat) : gset nat :=
  match sv_bcs c !! b with Some o => b_receivers (bo_bc o) | None => ∅ end.
Definition receiverAt c (x : rref) : option Receiver := o ← sv_bcs c !! x.1; bo_heap o !! x.2.

(** What no call on a broadcaster changes. *)
Definition same_registry c c' : Prop :=
  sv_tracks c' = sv_tracks c /\ sv_parked c' = sv_parked c /\ sv_recorders c' = sv_recorders c /\
  forall b, is_Some (sv_bcs c !! b) -> is_Some (sv_bcs c' !! b).

#[global] Instance same_registry_preorder : PreOrder same_registry.
Proof.
  split; [by intros c; repeat split|]. intros c1 c2 c3 (A1 & A2 & A3 & A4) (B1 & B2 & B3 & B4).
  unfold same_registry. rewrite B1, B2, B3. repeat split; auto.
Qed.

Lemma same_registry_put c b s : same_registry c (putStore b s c).
Proof.
  repeat split. intros b'. cbn. destruct (decide (b = b')) as [-> | Hne]; [by rewrite lookup_insert_eq|].
  by rewrite lookup_insert_ne.
Qed.

Lemma storeAt_Some c b : is_Some (sv_bcs c !! b) -> exists o, sv_bcs c !! b = Some o /\
  storeAt b c = Some (mkStore (bo_heap o) (bo_bc o) (sv_world c)).
Proof. intros [o Ho]. exists o. split; [done|]. unfold storeAt. by rewrite Ho. Qed.

Lemma receivers_put c b s b' :
  receivers (putStore b s c) b' = if decide (b' = b) then b_receivers (bc s) else receivers c b'.
Proof.
  unfold receivers. cbn. case_decide as E; [by rewrite E, lookup_insert_eq|by rewrite lookup_insert_ne].
Qed.

Lemma receiverAt_put c b s x :
  receiverAt (putStore b s c) x = if decide (x.1 = b) then heap s !! x.2 else receiverAt c x.
Proof.
  unfold receiverAt. cbn. case_decide as E; [by rewrite E, lookup_insert_eq|by rewrite lookup_insert_ne].
Qed.

Lemma subscribeCapAt_ok n own c cap b :
  core_ok n own c -> is_Some (sv_bcs c !! b) ->
  exists a r c', subscribeCapAt cap b c = Some ((b, a), c') /\ core_ok n own c' /\ same_registry c c' /\
    receiverAt c (b, a) = None /\ receiverAt c' (b, a) = Some r /\ r_closed r = false /\
    cap <= Z.of_nat (ch_cap (r_ch r)) /\
    (forall x, x <> (b, a) -> receiverAt c' x = receiverAt c x) /\
    (forall b', receivers c' b' = if decide (b' = b) then {[a]} ∪ receivers c b else receivers c b').
Proof.
  intros Hok Hb. destruct (storeAt_Some c b Hb) as (o & Ho & Hs).
  destruct (subscribe_call _ cap (storeAt_ok _ _ _ _ _ Hok Hs)) as (a & s' & r & E & Hcall & Hw & Hfr & Hh & Hbc & Hop & Hcap).
  exists a, r, (putStore b s' c). unfold subscribeCapAt. rewrite Hs. cbn [mbind option_bind]. rewrite E. cbn [mbind option_bind].
  split_and!; try done.
  - by eapply core_ok_call.
  - apply same_registry_put.
  - unfold receiverAt. cbn. by rewrite Ho.
  - rewrite receiverAt_put. cbn. by rewrite decide_True, Hh, lookup_insert_eq.
  - lia.
  - intros [b' a'] Hne. rewrite receiverAt_put. cbn. case_decide as Eb; [|done]. subst b'.
    rewrite Hh. cbn. rewrite lookup_insert_ne by congruence. unfold receiverAt. cbn. by rewrite Ho.
  - intros b'. rewrite receivers_put. case_decide; [|done]. rewrite Hbc. unfold receivers. by rewrite Ho.
Qed.

Lemma subscribeAt_cap c b :
  subscribeAt b c = subscribeCapAt (match sv_bcs c !! b with Some o => b_chanSize (bo_bc o) | None => 0 end) b c.
Proof.
  unfold subscribeAt, subscribeCapAt, storeAt. destruct (sv_bcs c !! b) as [o|]; [|done]. cbn [mbind option_bind].
  by rewrite Subscribe_capacity.
Qed.

Lemma unsubscribeAt_ok n own c x :
  core_ok n own c -> is_Some (sv_bcs c !! x.1) ->
  exists c', unsubscribeAt x c = Some c' /\ core_ok n own c' /\ same_registry c c' /\
    (forall y, y <> x -> receiverAt c' y = receiverAt c y) /\
    (forall b, receivers c' b = if decide (b = x.1) then receivers c b ∖ {[x.2]} else receivers c b) /\
    (forall y, is_Some (receiverAt c y) -> is_Some (receiverAt c' y)).
Proof.
  intros Hok Hb. destruct x as [b a]. cbn in Hb. destruct (storeAt_Some c b Hb) as (o & Ho & Hs).
  destruct (unsubscribe_call _ a (storeAt_ok _ _ _ _ _ Hok Hs)) as (s' & E & Hcall & Hw & Hbc & Hd & Hh).
  exists (putStore b s' c). unfold unsubscribeAt. cbn [fst snd]. rewrite Hs. cbn [mbind option_bind]. rewrite E. cbn [mbind option_bind].
  split_and!; try done.
  - by eapply core_ok_call.
  - apply same_registry_put.
  - intros [b' a'] Hne. rewrite receiverAt_put. cbn. case_decide as Eb; [|done]. subst b'.
    rewrite Hh by congruence. unfold receiverAt. cbn. by rewrite Ho.
  - intros b'. rewrite receivers_put. cbn. case_decide as Eb; [|done]. subst b'. rewrite Hbc. unfold receivers. by rewrite Ho.
  - intros [b' a']. rewrite receiverAt_put. cbn. case_decide as Eb; [|done]. subst b'. unfold receiverAt. cbn.
    rewrite Ho. cbn. cbn in Hd. rewrite <- !elem_of_dom, Hd. done.
Qed.

Lemma unsubscribeAll_ok n own l : forall c,
  core_ok n own c -> Forall (fun x : rref => is_Some (sv_bcs c !! x.1)) l ->
  exists c', unsubscribeAll l c = Some c' /\ core_ok n own c' /\ same_registry c c' /\
    (forall y, y ∉ l -> receiverAt c' y = receiverAt c y) /\
    (forall b a, a ∈ receivers c' b <-> a ∈ receivers c b /\ (b, a) ∉ l) /\
    (forall y, is_Some (receiverAt c y) -> is_Some (receiverAt c' y)).
Proof.
  induction l as [|x l IH]; intros c Hok Hl.
  { exists c. split_and!; try done. intros b a. split; [|tauto]. intros Ha. split; [done|apply not_elem_of_nil]. }
  apply Forall_cons in Hl as [Hx Hl].
  destruct (unsubscribeAt_ok n own c x Hok Hx) as (c1 & E1 & Hok1 & Hreg1 & Hat1 & Hrec1 & Hal1).
  destruct (IH c1 Hok1) as (c2 & E2 & Hok2 & Hreg2 & Hat2 & Hrec2 & Hal2).
  { eapply Forall_impl; [exact Hl|]. intros y. apply Hreg1. }
  exists c2. split_and!; [|done|by etrans| | |by auto].
  - unfold unsubscribeAll in *. cbn. by rewrite E1.
  - intros y [Hy1 Hy2]%not_elem_of_cons. by rewrite Hat2, Hat1.
  - intros b a. rewrite Hrec2, Hrec1, not_elem_of_cons. destruct x as [bx ax]. cbn. case_decide as E.
    + subst bx. rewrite elem_of_difference, elem_of_singleton. naive_solver.
    + naive_solver.
Qed.
(** ** A new track *)

Lemma entries_attached name a recs recs' :
  Forall2 (entry_attached name a) recs recs' ->
  live recs' = live recs /\ forall name', name' <> name -> ids_for recs' name' = ids_for recs name'.
Proof.
  induction 1 as [|e e' l l' He Hl [IH1 IH2]]; [done|]. unfold live in *. cbn [omap list_omap].
  assert (re_rec e' = re_rec e /\ forall name', name' <> name -> detacher_id name' e' = detacher_id name' e) as [-> Hd].
  { unfold entry_attached in He. destruct (re_rec e) as [rec|] eqn:Er.
    - destruct He as (He & id & Hid). split; [done|]. intros name' Hne. unfold detacher_id.
      by rewrite Hid, lookup_insert_ne, He, Er by done.
    - by subst e'. }
  rewrite IH1. split; [done|]. intros name' Hne. rewrite !ids_for_cons, Hd, IH2 by done. done.
Qed.

Lemma entries_attached_in name a recs recs' e :
  Forall2 (entry_attached name a) recs recs' -> e ∈ recs' -> exists e0, e0 ∈ recs /\ entry_attached name a e0 e.
Proof.
  intros Hall [i Hi]%list_elem_of_lookup. destruct (Forall2_lookup_r _ _ _ _ _ Hall Hi) as (e0 & He0 & He).
  exists e0. split; [by eapply list_elem_of_lookup_2|done].
Qed.

Lemma hooks_for_live recs recs' name kind : live recs' = live recs -> hooks_for recs' name kind = hooks_for recs name kind.
Proof. unfold hooks_for. by intros ->. Qed.

Lemma seqZ_sorted m k : StronglySorted Z.lt (seqZ m k).
Proof.
  destruct (decide (0 <= k)) as [Hk|Hk]; [|rewrite seqZ_nil by lia; constructor].
  revert m. pattern k. apply natlike_ind; [|intros x Hx IH m|done].
  - intros m. rewrite seqZ_nil by lia. constructor.
  - rewrite seqZ_cons by lia. constructor; [by rewrite Z.pred_succ|].
    apply Forall_forall. intros y Hy. apply elem_of_seqZ in Hy. lia.
Qed.

Lemma new_bobj_ok chanSize sc fns ids next :
  length ids = length fns ->
  bobj_ok (mkBobj ∅ (with_interceptors
             (if sc : bool then SetSelfContained true (NewBroadcaster chanSize) else NewBroadcaster chanSize) fns ids next)).
Proof.
  intros Hl. split; [by destruct sc|]. intros w. assert (store_ok (mkStore ∅ (NewBroadcaster (W := W) chanSize) w)) as H0.
  { apply (initial_ok chanSize (Z.shiftl 16 20) w). }
  destruct H0 as [H1 H2 H3 H4 H5 H6 H7 H8 H9 H10]. destruct sc; split; try done.
Qed.

Lemma registerTrack_ok n own c buffer name kind priority trackID new c' :
  core_ok n own c -> Z.of_nat n < 2 ^ 64 ->
  registerTrack buffer name kind priority trackID c = (new, c') ->
  exists own', core_ok n own' c' /\
    (if new : bool then sv_tracks c !! name = None /\
                 exists a, sv_tracks c' = <[name := mkTrackEntry kind priority trackID a]> (sv_tracks c) /\
                   receivers c' a = ∅ /\ is_Some (sv_bcs c' !! a)
     else c' = c /\ is_Some (sv_tracks c !! name)).
Proof.
  intros Hok Hn. unfold registerTrack. destruct (sv_tracks c !! name) as [t0|] eqn:Et.
  { intros [= <- <-]. eauto. }
  set (a := fresh (dom (sv_bcs c))). assert (sv_bcs c !! a = None) as Hfr by (apply not_elem_of_dom, is_fresh).
  set (b0 := if decide (kind <> KindVideo /\ kind <> ""%string) then _ else _).
  assert (exists sc : bool, b0 = if sc then SetSelfContained true (NewBroadcaster buffer) else NewBroadcaster buffer) as [sc Hb0].
  { unfold b0. case_decide; [by exists true|by exists false]. }
  assert (b_nextInterceptorID b0 = 0 /\ b_interceptors b0 = [] /\ b_interceptorIDs b0 = []) as (Hb1 & Hb2 & Hb3)
    by (rewrite Hb0; by destruct sc).
  pose proof (co_count _ _ _ Hok) as Hcount.
  destruct (attachRecorders_spec name kind a (sv_recorders c) b0) as (recs' & -> & Hids & Hall); [lia..|].
  rewrite Hb1, Hb2, Hb3 in *. cbn [app]. intros [= <- <-].
  destruct (entries_attached _ _ _ _ Hall) as [Hlive Hother].
  assert (length (ids_for recs' name) = length (live (sv_recorders c))) as Hlen by (rewrite Hids, length_seqZ; lia).
  assert (length (live (sv_recorders c)) <= length (sv_recorders c))%nat as Hll.
  { unfold live. clear. induction (sv_recorders c) as [|e l IH]; [done|]. cbn. destruct (re_rec e); cbn in *; lia. }
  exists (fun x => if decide (x = a) then name else own x). split.
  2:{ split; [done|]. exists a. unfold receivers. cbn. rewrite lookup_insert_eq. cbn. split_and!; try done.
      rewrite Hb0. by destruct sc. }
  assert (forall x, is_Some (sv_bcs c !! x) -> x <> a) as Hna by (intros x [o Ho] ->; congruence).
  destruct Hok as [H1 H2 H3 H4 H4' H5 H5' H6]. split; cbn.
  - intros name' t. rewrite lookup_insert_Some. intros [[<- <-] | [Hne Ht]]; cbn.
    + rewrite decide_True by done. split; [done|]. rewrite lookup_insert_eq. eexists. split; [done|]. split; [|done].
      cbn. by rewrite (hooks_for_live _ _ name kind Hlive).
    + destruct (H1 name' t Ht) as (Hown & o & Ho & Hc1 & Hc2).
      assert (te_bc t <> a) as Hta by (apply Hna; eauto). rewrite decide_False by done. split; [done|].
      rewrite lookup_insert_ne by done. exists o. split; [done|]. split.
      * by rewrite (hooks_for_live _ _ _ _ Hlive).
      * by rewrite Hother.
  - intros e name' t He Hlv Ht. destruct (entries_attached_in _ _ _ _ _ Hall He) as (e0 & He0 & Hea).
    unfold entry_attached in Hea. destruct (re_rec e0) as [rec|] eqn:Er; [|by subst e].
    destruct Hea as (Her & id & Hd). rewrite Hd. apply lookup_insert_Some in Ht as [[<- <-] | [Hne Ht]].
    + rewrite lookup_insert_eq. by eexists.
    + rewrite lookup_insert_ne by done. eapply (H2 e0); [done|by rewrite Er|done].
  - intros e name' a' id He Hd. destruct (entries_attached_in _ _ _ _ _ Hall He) as (e0 & He0 & Hea).
    assert (re_detachers e0 !! name' = Some (a', id) -> (if decide (a' = a) then name else own a') = name' /\
            is_Some (<[a := mkBobj ∅ (with_interceptors b0 (hooks_for (sv_recorders c) name kind)
              (ids_for recs' name) (0 + Z.of_nat (length (live (sv_recorders c)))))]> (sv_bcs c) !! a')) as Hold.
    { intros Hd0. destruct (H3 e0 name' a' id He0 Hd0) as [Hown Hb]. rewrite decide_False by auto. split; [done|].
      rewrite lookup_insert_ne by (intros <-; by eapply Hna). done. }
    unfold entry_attached in Hea. destruct (re_rec e0) as [rec|] eqn:Er; [|subst e; by apply Hold].
    destruct Hea as (Her & id' & Hd'). rewrite Hd' in Hd. apply lookup_insert_Some in Hd as [[<- [= <- <-]] | [Hne Hd]].
    + rewrite decide_True by done. by rewrite lookup_insert_eq.
    + by apply Hold.
  - intros a' o. rewrite lookup_insert_Some. intros [[<- <-] | [Hne Ho]]; [|by eapply H4].
    cbn. split_and!.
    + rewrite Hb0. apply new_bobj_ok. unfold hooks_for. by rewrite length_fmap.
    + rewrite Hids. apply seqZ_sorted.
    + rewrite Hids. apply Forall_forall. intros y Hy. apply elem_of_seqZ in Hy. lia.
    + lia.
    + lia.
  - intros e He Hdead. destruct (entries_attached_in _ _ _ _ _ Hall He) as (e0 & He0 & Hea).
    unfold entry_attached in Hea. destruct (re_rec e0) eqn:Er; [destruct Hea; congruence|]. subst e. by apply H4'.
  - by rewrite <- (Forall2_length _ _ _ Hall).
  - done.
  - intros k p Hp. eapply parked_ok_mono; [|by eapply H6]. intros x (o & Ho & Hx). exists o. cbn.
    split; [|done]. rewrite lookup_insert_ne; [done|]. intros E. by eapply (Hna x.1).
Qed.
(** ** A new recorder *)

Definition next_id (o : bobj (W := W)) : Z := b_nextInterceptorID (bo_bc o) + 1.

Definition attach_bobj (rec : recorder) (name kind : string) (o : bobj (W := W)) : bobj :=
  mkBobj (bo_heap o) (with_interceptors (bo_bc o) (b_interceptors (bo_bc o) ++ [recorderHook rec name kind])
                        (b_interceptorIDs (bo_bc o) ++ [next_id o]) (next_id o)).

Lemma attach_fold rec l : forall bcs det,
  NoDup l.*1 -> NoDup ((fun nt : string * trackEntry => te_bc nt.2) <$> l) ->
  (forall n t, (n, t) ∈ l -> exists o, bcs !! te_bc t = Some o /\ 0 <= b_nextInterceptorID (bo_bc o) /\ next_id o < 2 ^ 64) ->
  exists bcs' det',
    foldl (fun st nt => st ← st; attachRecorderTo rec st nt) (Some (bcs, det)) l = Some (bcs', det') /\
    (forall a, a ∉ ((fun nt : string * trackEntry => te_bc nt.2) <$> l) -> bcs' !! a = bcs !! a) /\
    (forall n, n ∉ l.*1 -> det' !! n = det !! n) /\
    (forall n t, (n, t) ∈ l -> exists o, bcs !! te_bc t = Some o /\
       bcs' !! te_bc t = Some (attach_bobj rec n (te_kind t) o) /\ det' !! n = Some (te_bc t, Some (next_id o))).
Proof.
  induction l as [|[n0 t0] l IH]; intros bcs det Hn Ha Hb; csimpl in *.
  { exists bcs, det. split_and!; try done. intros n t Hin. by apply elem_of_nil in Hin. }
  apply NoDup_cons in Hn as [Hn0 Hn]. apply NoDup_cons in Ha as [Ha0 Ha].
  destruct (Hb n0 t0) as (o0 & Ho0 & Hnx & Hlt); [by left|].
  assert (forall n t, (n, t) ∈ l -> te_bc t0 <> te_bc t) as Hne.
  { intros n t Hin E. apply Ha0. apply list_elem_of_fmap. by exists (n, t). }
  rewrite Ho0. cbn. unfold u64. rewrite Z.mod_small by (unfold next_id in Hlt; lia).
  fold (next_id o0). fold (attach_bobj rec n0 (te_kind t0) o0).
  destruct (IH (<[te_bc t0 := attach_bobj rec n0 (te_kind t0) o0]> bcs) (<[n0 := (te_bc t0, Some (next_id o0))]> det))
    as (bcs' & det' & Hf & H1 & H2 & H3); [done|done| |].
  { intros n t Hin. rewrite lookup_insert_ne by eauto. apply (Hb n). by right. }
  exists bcs', det'. split_and!; [exact Hf| | |].
  - intros a [Hne1 Hin]%not_elem_of_cons. by rewrite H1, lookup_insert_ne.
  - intros n [Hne1 Hin]%not_elem_of_cons. by rewrite H2, lookup_insert_ne.
  - intros n t [[= -> ->] | Hin]%elem_of_cons.
    + exists o0. rewrite H1, H2, !lookup_insert_eq by done. done.
    + destruct (H3 n t Hin) as (o & Ho & Ho' & Hd). rewrite lookup_insert_ne in Ho by eauto. eauto.
Qed.

(** The track list, as any order of the track map. *)
Lemma tracks_nodup n own c tracks :
  core_ok n own c -> tracks ≡ₚ map_to_list (sv_tracks c) ->
  NoDup tracks.*1 /\ NoDup ((fun nt : string * trackEntry => te_bc nt.2) <$> tracks).
Proof.
  intros Hok Ht. rewrite Ht. split; [apply NoDup_fst_map_to_list|]. apply NoDup_fmap_2_strong; [|apply NoDup_map_to_list].
  intros [n1 t1] [n2 t2] H1%elem_of_map_to_list H2%elem_of_map_to_list. cbn. intros E.
  destruct (co_track _ _ _ Hok _ _ H1) as [E1 _]. destruct (co_track _ _ _ Hok _ _ H2) as [E2 _].
  rewrite E in E1. assert (n1 = n2) as -> by congruence. congruence.
Qed.

Lemma live_app recs recs' : live (recs ++ recs') = live recs ++ live recs'.
Proof. unfold live. by rewrite omap_app. Qed.

Lemma ids_for_app recs recs' name : ids_for (recs ++ recs') name = ids_for recs name ++ ids_for recs' name.
Proof. unfold ids_for. by rewrite omap_app. Qed.

Lemma hooks_for_app recs recs' name kind :
  hooks_for (recs ++ recs') name kind = hooks_for recs name kind ++ hooks_for recs' name kind.
Proof. unfold hooks_for. by rewrite live_app, fmap_app. Qed.

Lemma sorted_snoc l x : StronglySorted Z.lt l -> Forall (fun y => y < x) l -> StronglySorted Z.lt (l ++ [x]).
Proof.
  induction 1 as [|y l Hl IH Hy]; intros Hx; [by repeat constructor|]. apply Forall_cons in Hx as [Hyx Hx].
  cbn. constructor; [by apply IH|]. apply Forall_app. split; [done|by repeat constructor].
Qed.

Lemma bobj_ok_interceptors o fns ids next :
  bobj_ok o -> length ids = length fns -> bobj_ok (mkBobj (bo_heap o) (with_interceptors (bo_bc o) fns ids next)).
Proof. intros [Hm H] Hl. split; [done|]. intros w. destruct (H w). by split. Qed.

Lemma bobj_lengths o : inhabited W -> bobj_ok o ->
  length (b_interceptorIDs (bo_bc o)) = length (b_interceptors (bo_bc o)).
Proof. intros [w] [_ H]. apply (cok_ids _ _ (H w)). Qed.

Lemma allocated_bcs c c' x :
  (forall a o, sv_bcs c !! a = Some o -> exists o', sv_bcs c' !! a = Some o' /\ bo_heap o' = bo_heap o) ->
  allocated c x -> allocated c' x.
Proof. intros H (o & Ho & Hx). destruct (H _ _ Ho) as (o' & Ho' & E). exists o'. by rewrite E. Qed.

Lemma AttachRecorder_ok n own c rec tracks :
  core_ok n own c -> Z.of_nat (S n) < 2 ^ 64 -> tracks ≡ₚ map_to_list (sv_tracks c) ->
  exists c', AttachRecorder rec tracks c = Some c' /\ core_ok (S n) own c' /\
    sv_tracks c' = sv_tracks c /\ live (sv_recorders c') = live (sv_recorders c) ++ [rec].
Proof.
  intros Hok Hlt Htr. destruct (tracks_nodup n own c tracks Hok Htr) as [Hnd1 Hnd2].
  assert (forall name t, sv_tracks c !! name = Some t <-> (name, t) ∈ tracks) as Hin.
  { intros name t. by rewrite Htr, elem_of_map_to_list. }
  destruct (attach_fold rec tracks (sv_bcs c) ∅ Hnd1 Hnd2) as (bcs' & det' & Hf & H1 & H2 & H3).
  { intros name t Ht. apply Hin in Ht. destruct (co_track _ _ _ Hok _ _ Ht) as (_ & o & Ho & _).
    exists o. destruct (co_bcs _ _ _ Hok _ _ Ho) as (_ & _ & _ & ?). unfold next_id. split; [done|lia]. }
  unfold AttachRecorder. rewrite Hf. cbn. eexists. split; [done|]. split; [|split; [done|apply live_app]].
  assert (forall a o', bcs' !! a = Some o' -> sv_bcs c !! a = Some o' \/
            exists name t o, sv_tracks c !! name = Some t /\ a = te_bc t /\ sv_bcs c !! a = Some o /\
              o' = attach_bobj rec name (te_kind t) o) as Hinv.
  { intros a o' Ho'. destruct (decide (a ∈ ((fun nt : string * trackEntry => te_bc nt.2) <$> tracks))) as [Ha|Ha].
    - apply list_elem_of_fmap in Ha as ([name t] & -> & Ht). cbn in Ho'. destruct (H3 name t Ht) as (o & Ho & E & _).
      right. exists name, t, o. split_and!; try done; [by apply Hin|]. congruence.
    - left. by rewrite <- H1. }
  assert (forall a o, sv_bcs c !! a = Some o -> exists o', bcs' !! a = Some o' /\ bo_heap o' = bo_heap o) as Hkeep.
  { intros a o Ho. destruct (decide (a ∈ ((fun nt : string * trackEntry => te_bc nt.2) <$> tracks))) as [Ha|Ha].
    - apply list_elem_of_fmap in Ha as ([name t] & -> & Ht). cbn in Ho. destruct (H3 name t Ht) as (o2 & Ho2 & E & _).
      cbn. rewrite E. eexists. split; [done|]. cbn. congruence.
    - rewrite H1 by done. eauto. }
  pose proof Hok as [C1 C2 C3 C4 C4' C5 C5' C6]. split; cbn.
  - intros name t Ht. destruct (C1 name t Ht) as (Hown & o & Ho & Hc1 & Hc2). split; [done|].
    destruct (H3 name t) as (o2 & Ho2 & E & Hd); [by apply Hin|]. assert (o2 = o) as -> by congruence.
    eexists. split; [exact E|]. split; cbn.
    + rewrite hooks_for_app, Hc1. f_equal.
    + rewrite ids_for_app, Hc2. f_equal. unfold ids_for. cbn. unfold detacher_id. cbn. by rewrite Hd.
  - intros e name t He Hlv Ht. apply elem_of_app in He as [He | ->%list_elem_of_singleton]; [by eapply C2|].
    destruct (H3 name t) as (o2 & _ & _ & Hd); [by apply Hin|]. cbn. eauto.
  - intros e name a id He Hd. apply elem_of_app in He as [He | ->%list_elem_of_singleton].
    + destruct (C3 e name a id He Hd) as [Hown [o Ho]]. split; [done|]. destruct (Hkeep a o Ho) as (o' & -> & _). done.
    + cbn in Hd. destruct (decide (name ∈ tracks.*1)) as [Hn|Hn]; [|by rewrite H2, lookup_empty in Hd].
      apply list_elem_of_fmap in Hn as ([name' t] & -> & Ht). cbn in Hd. destruct (H3 name' t Ht) as (o & Ho & E & Hd').
      rewrite Hd' in Hd. injection Hd as <- <-. apply Hin in Ht. destruct (C1 _ _ Ht) as [? _]. rewrite E. done.
  - intros a o' Ho'. destruct (Hinv a o' Ho') as [Ho | (name & t & o & Ht & Ha & Ho & ->)].
    { destruct (C4 a o' Ho) as (? & ? & ? & ?). split_and!; try done; lia. }
    destruct (C4 a o Ho) as (Hbo & Hs & Hle & Hnx). cbn. unfold next_id. split_and!; [| | |lia|lia].
    + apply bobj_ok_interceptors; [done|]. rewrite !length_app. cbn.
      rewrite (bobj_lengths o (inhabits (sv_world c)) Hbo). done.
    + apply sorted_snoc; [done|]. eapply Forall_impl; [exact Hle|]. cbn. lia.
    + apply Forall_app. split; [|repeat constructor; lia]. eapply Forall_impl; [exact Hle|]. cbn. lia.
  - intros e He Hdead. apply elem_of_app in He as [He | ->%list_elem_of_singleton]; [by apply C4'|done].
  - rewrite length_app. cbn. lia.
  - done.
  - intros k p Hp. eapply parked_ok_mono; [|by eapply C6]. intros x. by apply allocated_bcs.
Qed.
(** ** Detaching a recorder *)

Lemma removeInterceptor_frame (b : Broadcaster W) id :
  length (b_interceptorIDs b) = length (b_interceptors b) ->
  exists fns ids, removeInterceptor b id = Some (with_interceptors b fns ids (b_nextInterceptorID b)) /\
    length ids = length fns /\ ids `sublist_of` b_interceptorIDs b.
Proof.
  intros Hl. destruct (removeInterceptor_ok b id Hl) as (fns & ids & E & Hl'). exists fns, ids. split_and!; try done.
  revert E. unfold removeInterceptor.
  assert (Some b = Some (with_interceptors b fns ids (b_nextInterceptorID b)) -> ids `sublist_of` b_interceptorIDs b) as Hsame.
  { destruct b. cbn. intros [= _ E]. by rewrite E. }
  destruct id as [id|]; [|done]. destruct (list_find _ _) as [[i x]|]; [|done].
  destruct (_ <? _)%nat; [|done]. intros [= _ <-]. rewrite <- (take_drop i (b_interceptorIDs b)) at 3.
  apply sublist_app; [done|]. rewrite <- Nat.add_1_r, <- drop_drop. apply sublist_drop.
Qed.

Lemma detach_fold (l : list (string * (nat * option Z))) : forall bcs : gmap nat (bobj (W := W)),
  NoDup ((fun nd => nd.2.1) <$> l) ->
  (forall n a id, (n, (a, id)) ∈ l -> exists o, bcs !! a = Some o /\
     length (b_interceptorIDs (bo_bc o)) = length (b_interceptors (bo_bc o))) ->
  exists bcs', foldl (fun m nd => m ← m; runDetacher m nd.2) (Some bcs) l = Some bcs' /\
    (forall a, a ∉ ((fun nd : string * (nat * option Z) => nd.2.1) <$> l) -> bcs' !! a = bcs !! a) /\
    (forall n a id, (n, (a, id)) ∈ l -> exists o b', bcs !! a = Some o /\
       removeInterceptor (bo_bc o) id = Some b' /\ bcs' !! a = Some (mkBobj (bo_heap o) b')).
Proof.
  induction l as [|[n0 [a0 id0]] l IH]; intros bcs Hnd Hb; csimpl in *.
  { exists bcs. split_and!; try done. intros n a id Hin. by apply elem_of_nil in Hin. }
  apply NoDup_cons in Hnd as [Hn0 Hnd].
  destruct (Hb n0 a0 id0) as (o0 & Ho0 & Hl0); [by left|].
  assert (forall n a id, (n, (a, id)) ∈ l -> a0 <> a) as Hne.
  { intros n a id Hin ->. apply Hn0. apply list_elem_of_fmap. by exists (n, (a, id)). }
  destruct (removeInterceptor_frame (bo_bc o0) id0 Hl0) as (fns & ids & E & _).
  unfold runDetacher at 2. cbn [fst snd]. rewrite Ho0. cbn [mbind option_bind]. rewrite E. cbn [mbind option_bind].
  match goal with |- context [foldl _ (Some ?m) l] => destruct (IH m) as (bcs' & Hf & H1 & H2) end; [done| |].
  { intros n a id Hin. rewrite lookup_insert_ne by eauto. apply (Hb n a id). by right. }
  exists bcs'. split_and!; [exact Hf| |].
  - intros a [Hne1 Hin]%not_elem_of_cons. by rewrite H1, lookup_insert_ne.
  - intros n a id [[= -> -> ->] | Hin]%elem_of_cons.
    + exists o0. eexists. rewrite H1, lookup_insert_eq by done. done.
    + destruct (H2 n a id Hin) as (o & b' & Ho & Hr & Ho'). rewrite lookup_insert_ne in Ho by eauto. eauto.
Qed.

(** Every attached recorder has an identifier on the track. *)
Lemma hooks_ids_length recs name kind :
  (forall e, e ∈ recs -> re_rec e <> None -> exists a id, re_detachers e !! name = Some (a, Some id)) ->
  length (hooks_for recs name kind) = length (ids_for recs name).
Proof.
  induction recs as [|e recs IH]; intros H; [done|].
  assert (length (hooks_for recs name kind) = length (ids_for recs name)) as IH'.
  { apply IH. intros e' He'. apply H. by right. }
  rewrite hooks_for_cons, ids_for_cons. unfold detacher_id. destruct (re_rec e) as [rec|] eqn:Er; [|done].
  destruct (H e) as (a & id & ->); [by left|by rewrite Er|]. cbn. by rewrite IH'.
Qed.

Lemma sorted_split_notin I1 id I2 : StronglySorted Z.lt (I1 ++ id :: I2) -> id ∉ I1.
Proof.
  induction I1 as [|x I1 IH]; cbn; [intros; apply not_elem_of_nil|].
  intros [Hs Hx]%StronglySorted_inv. apply not_elem_of_cons. split; [|by apply IH].
  apply Forall_app in Hx as [_ [Hx _]%Forall_cons]. lia.
Qed.

Lemma sorted_sublist l l' : l' `sublist_of` l -> StronglySorted Z.lt l -> StronglySorted Z.lt l'.
Proof.
  induction 1 as [|x l' l Hl IH|x l' l Hl IH]; intros Hs; [constructor| |];
    apply StronglySorted_inv in Hs as [Hs Hx]; [|auto].
  constructor; [auto|]. rewrite Forall_forall in Hx |- *. intros y Hy. apply Hx. by eapply elem_of_sublist.
Qed.
(** The detachers of one recorder name distinct broadcasters, all allocated. *)
Lemma detachers_nodup n own c e l :
  core_ok n own c -> e ∈ sv_recorders c -> l ≡ₚ map_to_list (re_detachers e) ->
  NoDup ((fun nd : string * (nat * option Z) => nd.2.1) <$> l).
Proof.
  intros Hok He ->. apply NoDup_fmap_2_strong; [|apply NoDup_map_to_list].
  intros [n1 [a1 i1]] [n2 [a2 i2]] H1%elem_of_map_to_list H2%elem_of_map_to_list. cbn. intros <-.
  destruct (co_own _ _ _ Hok _ _ _ _ He H1) as [E1 _]. destruct (co_own _ _ _ Hok _ _ _ _ He H2) as [E2 _].
  assert (n1 = n2) as -> by congruence. congruence.
Qed.

(** Taking one recorder out of a track's chain. *)
Lemma chain_detach l1 e l2 name t o a id rec :
  chain_ok (l1 ++ e :: l2) name t o -> StronglySorted Z.lt (b_interceptorIDs (bo_bc o)) ->
  (forall e', e' ∈ l1 ++ e :: l2 -> re_rec e' <> None -> exists a id, re_detachers e' !! name = Some (a, Some id)) ->
  re_rec e = Some rec -> re_detachers e !! name = Some (a, Some id) ->
  exists b', removeInterceptor (bo_bc o) (Some id) = Some b' /\
    chain_ok (l1 ++ mkRecorderEntry None ∅ :: l2) name t (mkBobj (bo_heap o) b').
Proof.
  intros [Hc1 Hc2] Hs Hall Hr Hd. rewrite hooks_for_app, hooks_for_cons, Hr in Hc1.
  assert (ids_for (e :: l2) name = id :: ids_for l2 name) as Ei
    by (rewrite ids_for_cons; unfold detacher_id; by rewrite Hr, Hd).
  rewrite ids_for_app, Ei in Hc2. rewrite Hc2 in Hs. eexists. split.
  - eapply removeInterceptor_split; [exact Hc1|exact Hc2| |by eapply sorted_split_notin].
    apply hooks_ids_length. intros e' He'. apply Hall. apply elem_of_app. by left.
  - split; cbn; [by rewrite hooks_for_app|by rewrite ids_for_app].
Qed.

(** The broadcasters after a recorder's detachers have run. *)
Lemma detachers_run n own c order e :
  core_ok n own c -> (forall m, order m ≡ₚ map_to_list m) -> e ∈ sv_recorders c ->
  exists bcs', foldl (fun m nd => m ← m; runDetacher m nd.2) (Some (sv_bcs c)) (order (re_detachers e)) = Some bcs' /\
    (forall nm a id, re_detachers e !! nm = Some (a, id) -> exists o b', sv_bcs c !! a = Some o /\
       removeInterceptor (bo_bc o) id = Some b' /\ bcs' !! a = Some (mkBobj (bo_heap o) b')) /\
    (forall a, bcs' !! a = sv_bcs c !! a \/
       exists o fns ids, sv_bcs c !! a = Some o /\ length ids = length fns /\
         ids `sublist_of` b_interceptorIDs (bo_bc o) /\
         bcs' !! a = Some (mkBobj (bo_heap o) (with_interceptors (bo_bc o) fns ids (b_nextInterceptorID (bo_bc o))))).
Proof.
  intros Hok Hord He. pose proof Hok as [C1 C2 C3 C4 C4' C5 C5' C6].
  assert (forall a o, sv_bcs c !! a = Some o -> length (b_interceptorIDs (bo_bc o)) = length (b_interceptors (bo_bc o))) as Hlen.
  { intros a o Ho. apply bobj_lengths; [exact (inhabits (sv_world c))|]. by apply (C4 a o Ho). }
  destruct (detach_fold (order (re_detachers e)) (sv_bcs c)) as (bcs' & Hf & H1 & H2).
  { eapply detachers_nodup; eauto. }
  { intros nm a id Hin. rewrite Hord in Hin. apply elem_of_map_to_list in Hin.
    destruct (C3 e nm a id He Hin) as [_ [o Ho]]. eauto. }
  exists bcs'. split_and!; [done| |].
  - intros nm a id Hd. apply (H2 nm a id). rewrite Hord. by apply elem_of_map_to_list.
  - intros a. destruct (decide (a ∈ ((fun nd : string * (nat * option Z) => nd.2.1) <$> order (re_detachers e)))) as [Ha|Ha].
    + right. apply list_elem_of_fmap in Ha as ([nm [a' id]] & -> & Hin). destruct (H2 nm a' id Hin) as (o & b' & Ho & Hr & Ho').
      destruct (removeInterceptor_frame (bo_bc o) id) as (fns & ids & E & Hl & Hs); [by eapply Hlen|].
      exists o, fns, ids. rewrite Hr in E. injection E as ->. done.
    + left. by apply H1.
Qed.

Lemma detachRecorder_ok n own c order idx :
  core_ok n own c -> (forall m, order m ≡ₚ map_to_list m) ->
  exists c', detachRecorder order idx c = Some c' /\ core_ok n own c' /\ sv_tracks c' = sv_tracks c /\
    sv_recorders c' = <[idx := mkRecorderEntry None ∅]> (sv_recorders c).
Proof.
  intros Hok Hord. unfold detachRecorder. destruct (sv_recorders c !! idx) as [e|] eqn:Ee.
  2:{ exists c. split_and!; try done. by rewrite list_insert_ge by (by apply lookup_ge_None). }
  pose proof Hok as [C1 C2 C3 C4 C4' C5 C5' C6].
  assert (e ∈ sv_recorders c) as He by (by eapply list_elem_of_lookup_2).
  destruct (detachers_run n own c order e Hok Hord He) as (bcs' & Hf & H2 & H3).
  rewrite Hf. cbn. eexists. split; [done|]. split; [|done].
  pose proof (take_drop_middle _ _ _ Ee) as Esplit. rewrite insert_take_drop by (by eapply lookup_lt_Some).
  set (l1 := take idx (sv_recorders c)) in *. set (l2 := drop (S idx) (sv_recorders c)) in *.
  assert (forall e', e' ∈ l1 ++ mkRecorderEntry None ∅ :: l2 -> e' = mkRecorderEntry None ∅ \/ e' ∈ sv_recorders c) as Hin.
  { intros e'. rewrite <- Esplit, !elem_of_app, !elem_of_cons. tauto. }
  assert (forall a o, sv_bcs c !! a = Some o -> exists o', bcs' !! a = Some o' /\ bo_heap o' = bo_heap o) as Hkeep.
  { intros a o Ho. destruct (H3 a) as [E | (o2 & fns & ids & Ho2 & _ & _ & E)]; rewrite E; [by eexists|].
    eexists. split; [done|]. cbn. congruence. }
  split; cbn.
  - intros name t Ht. destruct (C1 name t Ht) as (Hown & o & Ho & Hc). split; [done|].
    destruct (re_rec e) as [rec|] eqn:Er.
    + destruct (C2 e name t He) as (id & Hd); [by rewrite Er|done|].
      destruct (H2 name (te_bc t) (Some id) Hd) as (o2 & b' & Ho2 & Hr & Ho').
      assert (o2 = o) as -> by congruence. eexists. split; [exact Ho'|]. rewrite <- Esplit in Hc.
      destruct (C4 _ _ Ho) as (_ & Hs & _).
      destruct (chain_detach l1 e l2 name t o (te_bc t) id rec) as (b2 & Hr2 & Hc2); try done.
      { intros e' He' Hlv. rewrite Esplit in He'. destruct (C2 e' name t He' Hlv Ht). eauto. }
      rewrite Hr in Hr2. by injection Hr2 as <-.
    + assert (e = mkRecorderEntry None ∅) as <-.
      { destruct e as [r d]. cbn in *. subst r. f_equal. by apply (C4' _ He). }
      rewrite Esplit. exists o. split; [|done]. destruct (H3 (te_bc t)) as [-> | (o2 & fns & ids & Ho2 & _ & _ & E)]; [done|].
      rewrite (C4' _ He Er) in Hf. assert (order (∅ : gmap string (nat * option Z)) = []) as Enil.
      { apply Permutation_nil. by rewrite Hord. }
      rewrite Enil in Hf. injection Hf as <-. done.
  - intros e' name t He' Hlv Ht. apply Hin in He' as [-> | He']; [done|]. by eapply C2.
  - intros e' name a id He' Hd. apply Hin in He' as [-> | He']; [cbn in Hd; by rewrite lookup_empty in Hd|].
    destruct (C3 e' name a id He' Hd) as [? [o Ho]]. split; [done|]. destruct (Hkeep a o Ho) as (o' & -> & _). done.
  - intros a o' Ho'. destruct (H3 a) as [E | (o & fns & ids & Ho & Hl & Hs & E)]; rewrite E in Ho'; [by eapply C4|].
    injection Ho' as <-. destruct (C4 a o Ho) as (Hb & Hso & Hle & Hnx). cbn. split_and!; [|by eapply sorted_sublist| |lia|lia].
    + by apply bobj_ok_interceptors.
    + rewrite Forall_forall in Hle |- *. intros y Hy. apply Hle. by eapply elem_of_sublist.
  - intros e' He' Hdead. apply Hin in He' as [-> | He']; [done|]. by apply C4'.
  - rewrite <- Esplit in C5. rewrite length_app in *. cbn in *. done.
  - done.
  - intros k p Hp. eapply parked_ok_mono; [|by eapply C6]. intros x. by apply allocated_bcs.
Qed.
(** ** Publishing, and tracks that come and go *)

Lemma publishAt_ok n own c b au order sched :
  core_ok n own c -> is_Some (sv_bcs c !! b) -> order ≡ₚ elements (receivers c b) ->
  exists c', publishAt b au order sched c = Some c' /\ core_ok n own c' /\ same_registry c c' /\
    exists o, sv_bcs c !! b = Some o /\
      sv_world c' = (runChain (b_interceptors (bo_bc o)) (sv_world c) au).1.
Proof.
  intros Hok Hb Hord. destruct (storeAt_Some c b Hb) as (o & Ho & Hs). unfold receivers in Hord. rewrite Ho in Hord.
  destruct (publish_call _ au order sched (storeAt_ok _ _ _ _ _ Hok Hs) Hord) as (s' & E & Hcall & Hw & _).
  exists (putStore b s' c). unfold publishAt. rewrite Hs. cbn [mbind option_bind]. rewrite E. cbn [mbind option_bind].
  split_and!; [done|by eapply core_ok_call|apply same_registry_put|]. exists o. split; [done|exact Hw].
Qed.

Lemma core_ok_remove n own c name : core_ok n own c -> core_ok n own (with_tracks c (delete name (sv_tracks c))).
Proof.
  intros [C1 C2 C3 C4 C4' C5 C5' C6]. split; cbn; try done.
  - intros nm t [_ Ht]%lookup_delete_Some. by apply C1.
  - intros e nm t He Hlv [_ Ht]%lookup_delete_Some. by eapply C2.
Qed.
End RecorderProofs.
