(* ===== verification/ServerSessions.v ===== *)
(** * The server's sessions

    What the operations of [Server.v] do to sessions and their receivers: a new
    track reaches every session, the end of a session parks or releases its
    receivers, a resumption fills the gap from the replay ring, and the server's
    invariant holds through every sequence of these operations. *)

From S2P Require Import Prelude Wire Track Replay Pubsub PubsubCalls RateLimit Pump DataChannel Inbound SessionStore Session Server.

(** * Tracks and sessions *)

Section TrackProofs.
Context {W W' : Type} {JA : JSON Announce} {JU : JSON Unannounce}.
Implicit Types (c : core W) (ss : list (session W')).

Lemma notifySessions_ok n own base name kind priority trackID b ss : forall c,
  core_ok n own c -> is_Some (sv_bcs c !! b) ->
  exists c' refs, notifySessions base name kind priority trackID b c ss =
      Some (c', zip_with (fun a s => attachToSession base name kind priority trackID (b, a) s) refs ss) /\
    core_ok n own c' /\ same_registry c c' /\ length refs = length ss /\ NoDup refs /\
    receivers c' b = list_to_set refs ∪ receivers c b /\
    (forall x, is_Some (receiverAt c x) -> receiverAt c' x = receiverAt c x) /\
    Forall (fun a => receiverAt c (b, a) = None /\ exists r, receiverAt c' (b, a) = Some r /\ r_closed r = false) refs.
Proof.
  induction ss as [|s ss IH]; intros c Hok Hb.
  { exists c, []. cbn. split_and!; try done; [apply NoDup_nil_2|set_solver]. }
  cbn [notifySessions]. rewrite subscribeAt_cap.
  destruct (subscribeCapAt_ok n own c (match sv_bcs c !! b with Some o => b_chanSize (bo_bc o) | None => 0 end) b Hok Hb)
    as (a & r & c1 & -> & Hok1 & Hreg1 & Hfr & Hat & Hop & _ & Hother & Hrec).
  cbn [mbind option_bind fst snd].
  destruct (IH c1 Hok1) as (c2 & refs & -> & Hok2 & Hreg2 & Hl & Hnd & Hrec2 & Hold2 & Hall); [by apply Hreg1|].
  cbn [mbind option_bind fst snd]. exists c2, (a :: refs). split_and!; [done|done|by etrans|cbn; by f_equal| | | |].
  - constructor; [|done]. intros Ha. rewrite Forall_forall in Hall. destruct (Hall a Ha) as [Hn _]. congruence.
  - rewrite Hrec2, Hrec, decide_True by done. cbn. set_solver.
  - intros x Hx. rewrite Hold2; rewrite Hother; try done; intros ->; rewrite Hfr in Hx; by destruct Hx.
  - constructor.
    + split; [done|]. exists r. by rewrite Hold2 by (by rewrite Hat).
    + eapply Forall_impl; [exact Hall|]. cbn. intros a' [Hn Hr]. split; [|done].
      rewrite <- Hother; [done|]. intros [= ->]. congruence.
Qed.

Lemma detachSessions_ok name ss :
  Forall (fun s => ob_ok (ss_ob s)) ss ->
  exists ss', detachSessions name ss = Some ss' /\
    Forall2 (fun s s' => view (ss_ob s') = delete name (view (ss_ob s)) /\ ob_ok (ss_ob s')) ss ss'.
Proof.
  induction 1 as [|s ss Hs _ IH]; [by exists []|]. destruct IH as (ss' & E & Hall).
  destruct (detach_ok name (ss_ob s) Hs) as (ob & Eob & Hob & Hv). cbn. rewrite Eob. cbn. rewrite E. cbn.
  eexists. split; [done|]. constructor; [|done].
  assert (ss_ob (SendUnannounce name (with_ob s ob)) = ob) as ->.
  { unfold SendUnannounce, ctlWrite. destruct (Marshal _); [|done]. by destruct (WriteControlFrame _ _ _). }
  done.
Qed.

Lemma AddTrackSpec_ok n own base buffer spec c ss :
  core_ok n own c -> Z.of_nat n < 2 ^ 64 ->
  exists own' c' ss', AddTrackSpec base buffer spec c ss = Some (c', ss') /\ core_ok n own' c'.
Proof.
  intros Hok Hn. unfold AddTrackSpec, addTrackInternal.
  destruct (registerTrack _ _ _ _ _ c) as [new c1] eqn:E.
  destruct (registerTrack_ok _ _ _ _ _ _ _ _ _ _ Hok Hn E) as (own' & Hok1 & H). destruct new.
  - destruct H as (_ & a & Ht & _ & Ha). rewrite Ht, lookup_insert_eq. cbn [mbind option_bind te_bc].
    destruct (notifySessions_ok n own' base (spec_Name spec) (specKind spec) (specPriority spec) (spec_TrackID spec) a ss c1 Hok1 Ha)
      as (c2 & refs & E2 & Hok2 & _). eauto.
  - destruct H as [-> _]. eauto.
Qed.

Lemma RemoveTrack_ok n own closeOrder name c ss :
  core_ok n own c -> Forall (fun s => ob_ok (ss_ob s)) ss -> (forall rs, closeOrder rs ≡ₚ elements rs) ->
  exists c' ss', RemoveTrack closeOrder name c ss = Some (c', ss') /\ core_ok n own c'.
Proof.
  intros Hok Hss Hord. unfold RemoveTrack. destruct (sv_tracks c !! name) as [t|] eqn:Et; [|eauto].
  destruct (detachSessions_ok name ss Hss) as (ss' & -> & _). cbn [mbind option_bind].
  destruct (co_track _ _ _ Hok _ _ Et) as (_ & o & Ho & _).
  destruct (storeAt_Some c (te_bc t)) as (o' & Ho' & Hs); [by rewrite Ho|]. rewrite Hs. cbn [mbind option_bind].
  destruct (close_call _ (closeOrder (b_receivers (bo_bc o'))) (storeAt_ok _ _ _ _ _ Hok Hs)) as (s' & E & Hcall & _);
    [apply Hord|]. cbn [bc]. rewrite E. cbn [mbind option_bind]. eexists _, _. split; [done|].
  eapply (core_ok_call _ _ (with_tracks c (delete name (sv_tracks c)))); [by apply core_ok_remove|exact Hs|done].
Qed.
End TrackProofs.

(** * The end of a session, and its resumption *)

Section ParkProofs.
Context {W : Type}.
Context (tracks_order : gmap string trackEntry -> list (string * trackEntry)).
Context (park_order : @map_order (list rref)).
Context (tracks_ok : forall m, tracks_order m ≡ₚ map_to_list m) (order_ok : is_order park_order).
Implicit Types c : core W.

Lemma unsub_fold l (oc : option (core W)) :
  foldl (fun oc x => c ← oc; unsubscribeAt x c) oc l = (c ← oc; unsubscribeAll l c).
Proof. destruct oc as [c|]; [done|]. cbn. by induction l. Qed.

Lemma runEvictions_all out c : runEvictions out c = unsubscribeAll (mjoin ((fun kp => ps_onEvict kp.2) <$> out)) c.
Proof.
  unfold runEvictions. assert (forall oc : option (core W),
    foldl (fun oc (kp : store_entry (list rref)) => c ← oc; unsubscribeAll (ps_onEvict kp.2) c) oc out =
    foldl (fun oc x => c ← oc; unsubscribeAt x c) oc (mjoin ((fun kp => ps_onEvict kp.2) <$> out))) as H; [|apply H].
  induction out as [|kp out IH]; intros oc; [done|]. cbn. by rewrite foldl_app, IH, (unsub_fold (ps_onEvict kp.2)).
Qed.

(** The receivers of the session that [unsubscribeSession] unsubscribes. *)
Definition session_ref (b : nat) (n : nat) : option rref :=
  x ← recv_ref n; if decide (x.1 = b) then Some x else None.
Definition session_refs (tracks : list (string * trackEntry)) (ob : outbound) : list rref :=
  mjoin ((fun nt => omap (session_ref (te_bc nt.2)) (Receivers nt.1 ob)) <$> tracks).

Lemma session_refs_in tracks ob x :
  x ∈ session_refs tracks ob <->
  exists name t i, (name, t) ∈ tracks /\ i ∈ Receivers name ob /\ recv_ref i = Some x /\ x.1 = te_bc t.
Proof.
  unfold session_refs. rewrite list_elem_of_join. setoid_rewrite list_elem_of_fmap. split.
  - intros (l & Hx & [name t] & -> & Hin). apply list_elem_of_omap in Hx as (i & Hi & Hr).
    unfold session_ref in Hr. apply bind_Some in Hr as (y & Hy & Hr). case_decide; [|done]. injection Hr as ->.
    exists name, t, i. done.
  - intros (name & t & i & Hin & Hi & Hr & Hx). eexists. split; [|by eexists]. apply list_elem_of_omap.
    exists i. split; [done|]. unfold session_ref. cbn. rewrite Hr. cbn. by rewrite decide_True.
Qed.

Lemma unsubscribeSession_all tracks ob c :
  unsubscribeSession tracks ob c = unsubscribeAll (session_refs tracks ob) c.
Proof.
  unfold unsubscribeSession, session_refs.
  assert (forall b l (oc : option (core W)),
    foldl (fun oc n => c ← oc; match recv_ref n with
                               | Some x => if decide (x.1 = b) then unsubscribeAt x c else Some c
                               | None => Some c end) oc l =
    foldl (fun oc x => c ← oc; unsubscribeAt x c) oc (omap (session_ref b) l)) as Hin.
  { intros b l. induction l as [|i l IH]; intros oc; [done|].
    change (omap (session_ref b) (i :: l)) with
      (match session_ref b i with Some y => y :: omap (session_ref b) l | None => omap (session_ref b) l end).
    cbn [foldl]. rewrite IH. assert (session_ref b i = match recv_ref i with
      Some x => if decide (x.1 = b) then Some x else None | None => None end) as -> by done.
    destruct (recv_ref i) as [x|]; [case_decide|]; cbn [foldl]; f_equal; by destruct oc. }
  assert (forall oc : option (core W), foldl (fun oc nt => c ← oc; foldl (fun oc n => c ← oc; match recv_ref n with
                               | Some x => if decide (x.1 = te_bc nt.2) then unsubscribeAt x c else Some c
                               | None => Some c end) (Some c) (Receivers nt.1 ob)) oc tracks =
    foldl (fun oc x => c ← oc; unsubscribeAt x c) oc
      (mjoin ((fun nt => omap (session_ref (te_bc nt.2)) (Receivers nt.1 ob)) <$> tracks))) as H; [|apply H].
  induction tracks as [|[name t] tracks IH]; intros oc; [done|]. cbn. rewrite foldl_app, IH. f_equal.
  destruct oc as [c0|]; cbn; [apply Hin|]. by rewrite (unsub_fold _ None).
Qed.

Lemma parkReceivers_ok n own tracks : forall (parked0 : gmap string nat) (refs0 : list rref) c,
  core_ok n own c -> NoDup tracks.*1 -> (forall name t, (name, t) ∈ tracks -> is_Some (sv_bcs c !! te_bc t)) ->
  exists (parked : gmap string nat) (refs : list rref) c',
    foldl (fun st nt =>
           st ← st;
           let '(parked, refs, c) := st in
           res ← subscribeCapAt parkedChanCap (te_bc nt.2) c;
           Some (<[nt.1 := recv_id res.1]> parked, refs ++ [res.1], res.2)) (Some (parked0, refs0, c)) tracks =
      Some (parked, refs0 ++ refs, c') /\
    core_ok n own c' /\ same_registry c c' /\
    (forall x, is_Some (receiverAt c x) -> receiverAt c' x = receiverAt c x) /\
    (forall b, receivers c' b = receivers c b ∪ list_to_set (snd <$> filter (fun x : rref => x.1 = b) refs)) /\
    Forall (fun x : rref => receiverAt c x = None /\ exists r, receiverAt c' x = Some r /\ r_closed r = false /\
       parkedChanCap <= Z.of_nat (ch_cap (r_ch r))) refs /\
    (forall name t, (name, t) ∈ tracks -> exists a, parked !! name = Some (recv_id (te_bc t, a)) /\ (te_bc t, a) ∈ refs) /\
    (forall name, name ∉ tracks.*1 -> parked !! name = parked0 !! name).
Proof.
  induction tracks as [|[name t] tracks IH]; intros parked0 refs0 c Hok Hnd Hb; csimpl in *.
  { exists parked0, [], c. rewrite app_nil_r. split_and!; try done.
    - intros b. cbn. set_solver.
    - intros nm t Hin. by apply elem_of_nil in Hin. }
  apply NoDup_cons in Hnd as [Hn Hnd].
  destruct (subscribeCapAt_ok n own c parkedChanCap (te_bc t) Hok) as
    (a & r & c1 & -> & Hok1 & Hreg1 & Hfr & Hat & Hop & Hcap & Hother & Hrec); [by apply (Hb name); left|].
  cbn [mbind option_bind fst snd].
  destruct (IH (<[name := recv_id (te_bc t, a)]> parked0) (refs0 ++ [(te_bc t, a)]) c1)
    as (parked & refs & c2 & Hf & Hok2 & Hreg2 & Hold2 & Hrec2 & Hall & Hp1 & Hp2); [done|done| |].
  { intros nm t' Hin. apply Hreg1. apply (Hb nm). by right. }
  exists parked, ((te_bc t, a) :: refs), c2.
  split_and!; [by rewrite <- app_assoc in Hf|done|by etrans| | | | |].
  - intros x Hx. rewrite Hold2; rewrite Hother; try done; intros ->; rewrite Hfr in Hx; by destruct Hx.
  - intros b. rewrite Hrec2, Hrec, filter_cons. cbn. case_decide as E.
    + subst b. rewrite decide_True by done. cbn. set_solver.
    + rewrite decide_False by done. done.
  - constructor.
    + split; [done|]. exists r. by rewrite Hold2 by (by rewrite Hat).
    + eapply Forall_impl; [exact Hall|]. cbn. intros x [Hx Hr]. split; [|done].
      rewrite <- Hother; [done|]. intros ->. congruence.
  - intros nm t' [[= -> ->] | Hin]%elem_of_cons.
    + exists a. rewrite Hp2 by done. rewrite lookup_insert_eq. split; [done|by left].
    + destruct (Hp1 nm t' Hin) as (a' & ? & ?). exists a'. split; [done|by right].
  - intros nm [Hne Hin]%not_elem_of_cons. by rewrite Hp2, lookup_insert_ne.
Qed.
(** A session's receivers exist. *)
Definition ob_allocated c (ob : outbound) : Prop :=
  forall name i x, i ∈ Receivers name ob -> recv_ref i = Some x -> allocated c x.

Lemma allocated_receiver c x : allocated c x <-> is_Some (receiverAt c x).
Proof.
  unfold allocated, receiverAt. split.
  - intros (o & Ho & [r Hr]%elem_of_dom). exists r. cbn. by rewrite Ho.
  - intros [r Hr]. apply bind_Some in Hr as (o & Ho & Hr). exists o. split; [done|]. by apply elem_of_dom.
Qed.

Lemma allocated_bc c x : allocated c x -> is_Some (sv_bcs c !! x.1).
Proof. intros (o & -> & _). done. Qed.

Lemma session_refs_bcs n own c tracks ob x :
  core_ok n own c -> (forall name t, (name, t) ∈ tracks -> sv_tracks c !! name = Some t) ->
  x ∈ session_refs tracks ob -> is_Some (sv_bcs c !! x.1).
Proof.
  intros Hok Ht (name & t & i & Hin & _ & _ & ->)%session_refs_in.
  destruct (co_track _ _ _ Hok _ _ (Ht _ _ Hin)) as (_ & o & -> & _). done.
Qed.

Lemma core_ok_parked n own c p :
  core_ok n own c -> 0 < maxParked p -> (forall k e, byID p !! k = Some e -> parked_ok c e) ->
  core_ok n own (with_parked c p).
Proof. intros [C1 C2 C3 C4 C4' C5 C5' C6] Hm Hp. by split. Qed.

(** The entries [Park] evicts were parked before. *)
Lemma evicted_refs n own c (ev : list (store_entry (list rref))) kept x :
  core_ok n own c -> map_to_list (byID (sv_parked c)) ≡ₚ ev ++ map_to_list kept ->
  x ∈ mjoin ((fun kp => ps_onEvict kp.2) <$> ev) -> allocated c x.
Proof.
  intros Hok Hev (l & Hx & Hl)%list_elem_of_join. apply list_elem_of_fmap in Hl as ([k e] & -> & Hin).
  assert (byID (sv_parked c) !! k = Some e) as Hk.
  { apply elem_of_map_to_list. rewrite Hev. apply elem_of_app. by left. }
  destruct (co_parked _ _ _ Hok k e Hk) as [Hall _]. cbn in Hx. by eapply Forall_forall in Hall.
Qed.

Lemma endSession_stop n own c i ob stopping now1 now2 :
  core_ok n own c -> SessionID i = ""%string \/ stopping = true ->
  exists c', endSession tracks_order park_order stopping now1 now2 i ob c = Some c' /\ core_ok n own c' /\
    same_registry c c' /\
    forall b a, a ∈ receivers c' b <-> a ∈ receivers c b /\ (b, a) ∉ session_refs (tracks_order (sv_tracks c)) ob.
Proof.
  intros Hok Hstop. unfold endSession.
  assert (bool_decide (SessionID i = ""%string) || stopping = true) as ->.
  { destruct Hstop as [-> | ->]; [by rewrite bool_decide_eq_true_2|by rewrite orb_true_r]. }
  rewrite unsubscribeSession_all.
  destruct (unsubscribeAll_ok n own (session_refs (tracks_order (sv_tracks c)) ob) c Hok)
    as (c' & E & Hok' & Hreg & _ & Hrec & _); [|eauto].
  apply Forall_forall. intros x Hx. eapply session_refs_bcs; [done| |exact Hx].
  intros name t Hin. rewrite tracks_ok in Hin. by apply elem_of_map_to_list.
Qed.

Lemma endSession_park n own c i ob now1 now2 :
  core_ok n own c -> ob_allocated c ob -> SessionID i <> ""%string ->
  exists c' parked refs, endSession tracks_order park_order false now1 now2 i ob c = Some c' /\ core_ok n own c' /\
    sv_tracks c' = sv_tracks c /\ sv_recorders c' = sv_recorders c /\
    byID (sv_parked c') !! scopedKey (Tenant i) (SessionID i) =
      Some (mkParked (SessionID i) parked (now2 + resumeTTL (sv_parked c)) refs) /\
    (forall x, x ∈ session_refs (tracks_order (sv_tracks c)) ob -> x.2 ∉ receivers c' x.1) /\
    (forall name, is_Some (parked !! name) <-> is_Some (sv_tracks c !! name)) /\
    (forall name t, sv_tracks c !! name = Some t -> exists a r, parked !! name = Some (recv_id (te_bc t, a)) /\
       (te_bc t, a) ∈ refs /\ receiverAt c (te_bc t, a) = None /\
       receiverAt c' (te_bc t, a) = Some r /\ r_closed r = false /\ parkedChanCap <= Z.of_nat (ch_cap (r_ch r)) /\
       a ∈ receivers c' (te_bc t)).
Proof.
  intros Hok Hal Hsid. unfold endSession. rewrite bool_decide_eq_false_2 by done. cbn [orb].
  set (tracks := tracks_order (sv_tracks c)).
  assert (forall name t, (name, t) ∈ tracks <-> sv_tracks c !! name = Some t) as Hin.
  { intros name t. unfold tracks. by rewrite tracks_ok, elem_of_map_to_list. }
  destruct (tracks_nodup n own c tracks Hok (tracks_ok _)) as [Hnd _].
  destruct (parkReceivers_ok n own tracks ∅ [] c Hok Hnd) as (parked & refs & c1 & Ef & Hok1 & Hreg1 & Hold1 & Hrec1 & Hall & Hp1 & Hp2).
  { intros name t Ht. apply Hin in Ht. destruct (co_track _ _ _ Hok _ _ Ht) as (_ & o & -> & _). done. }
  unfold parkReceivers. rewrite Ef. cbn [mbind option_bind app]. rewrite unsubscribeSession_all.
  pose proof Hreg1 as (Ht1 & Hpk1 & Hre1 & Hb1).
  destruct (unsubscribeAll_ok n own (session_refs tracks ob) c1 Hok1) as (c2 & E2 & Hok2 & Hreg2 & Hold2 & Hrec2 & _).
  { apply Forall_forall. intros x Hx. apply Hb1. eapply session_refs_bcs; [done| |exact Hx]. intros. by apply Hin. }
  rewrite E2. cbn [mbind option_bind]. pose proof Hreg2 as (Ht2 & Hpk2 & Hre2 & Hb2).
  destruct (park_spec park_order order_ok (sv_parked c2) now1 now2 (Tenant i) (SessionID i) parked refs (co_max _ _ _ Hok2))
    as (p' & ev & kept & -> & Hby & _ & Hmx & _ & Hsub & Hev & _). cbn [mbind option_bind fst snd].
  rewrite runEvictions_all.
  (* the receivers the three steps act on are distinct *)
  assert (forall x, x ∈ refs -> x ∉ session_refs tracks ob) as Hdis1.
  { intros x Hx (name & t & j & _ & Hj & Hr & _)%session_refs_in. rewrite Forall_forall in Hall.
    destruct (Hall x Hx) as [Hn _]. apply (Hal name j x Hj) in Hr. apply allocated_receiver in Hr. rewrite Hn in Hr. by destruct Hr. }
  assert (forall x, x ∈ refs -> x ∉ mjoin ((fun kp => ps_onEvict kp.2) <$> ev)) as Hdis2.
  { intros x Hx Hin2. rewrite Forall_forall in Hall. destruct (Hall x Hx) as [Hn _].
    rewrite Hpk2, Hpk1 in Hev. eapply (evicted_refs n own c) in Hin2; eauto.
    apply allocated_receiver in Hin2. rewrite Hn in Hin2. by destruct Hin2. }
  assert (forall x, x ∈ refs -> exists r, receiverAt c2 x = Some r /\ r_closed r = false /\
            parkedChanCap <= Z.of_nat (ch_cap (r_ch r))) as Hlive.
  { intros x Hx. rewrite Forall_forall in Hall. destruct (Hall x Hx) as (_ & r & Hr & ?).
    exists r. by rewrite Hold2 by auto. }
  assert (core_ok n own (with_parked c2 p')) as Hokp.
  { apply core_ok_parked; [done|rewrite Hmx; apply (co_max _ _ _ Hok2)|]. intros k e. rewrite Hby.
    intros [[<- <-] | [_ Hk]]%lookup_insert_Some.
    - split; cbn.
      + apply Forall_forall. intros x Hx. apply allocated_receiver. destruct (Hlive x Hx) as (r & -> & _). done.
      + intros name j Hj. destruct (decide (name ∈ tracks.*1)) as [Hn|Hn]; [|by rewrite Hp2, lookup_empty in Hj].
        apply list_elem_of_fmap in Hn as ([name' t] & -> & Hn). destruct (Hp1 name' t Hn) as (a & Ha & Hx). cbn in Hj.
        rewrite Ha in Hj. injection Hj as <-. exists (te_bc t, a). split; [apply recv_ref_id|].
        apply allocated_receiver. destruct (Hlive _ Hx) as (r & -> & _). done.
    - eapply (co_parked _ _ _ Hok2). by eapply lookup_weaken. }
  destruct (unsubscribeAll_ok n own (mjoin ((fun kp => ps_onEvict kp.2) <$> ev)) (with_parked c2 p') Hokp)
    as (c3 & E3 & Hok3 & (Ht3 & Hpk3 & Hre3 & Hb3) & Hold3 & Hrec3 & _).
  { apply Forall_forall. intros x Hx. apply (allocated_bc c2). eapply (evicted_refs n own c2); eauto. }
  exists c3, parked, refs. cbn in Ht3, Hpk3, Hre3. split_and!; [done|done|congruence|congruence| | | |].
  - rewrite Hpk3, Hby, lookup_insert_eq, Hpk2, Hpk1. done.
  - intros x Hx Hxr. apply Hrec3 in Hxr as [Hxr _]. change (receivers (with_parked c2 p') x.1) with (receivers c2 x.1) in Hxr.
    apply Hrec2 in Hxr as [_ Hn]. apply Hn. by destruct x.
  - intros name. destruct (decide (name ∈ tracks.*1)) as [Hn|Hn].
    + apply list_elem_of_fmap in Hn as ([name' t] & -> & Hn). destruct (Hp1 name' t Hn) as (a & Ha & _). cbn. rewrite Ha.
      apply Hin in Hn. rewrite Hn. done.
    + rewrite Hp2, lookup_empty by done. split; [by intros []|]. intros [t Ht]. exfalso. apply Hn.
      apply list_elem_of_fmap. exists (name, t). split; [done|]. by apply Hin.
  - intros name t Ht. apply Hin in Ht. destruct (Hp1 name t Ht) as (a & Ha & Hx). destruct (Hlive _ Hx) as (r & Hr & Hop & Hcap).
    exists a, r. rewrite Forall_forall in Hall. destruct (Hall _ Hx) as [Hn _].
    split_and!; try done; [rewrite Hold3 by auto; exact Hr|].
    apply Hrec3. split; [|by apply Hdis2]. change (receivers (with_parked c2 p')) with (receivers c2). apply Hrec2. split; [|by apply Hdis1].
    rewrite Hrec1. apply elem_of_union_r. apply elem_of_list_to_set, list_elem_of_fmap. exists (te_bc t, a). split; [done|].
    by apply list_elem_of_filter.
Qed.
End ParkProofs.

Section ResumeProofs.
Context {W : Type}.
Context (park_order : @map_order (list rref)) (order_ok : is_order park_order).
Context (seen_order : gmap string Z -> list (string * Z)).
Context (values : gmap Z AccessUnit -> list AccessUnit) (values_ok : values_of values).
Implicit Types c : core W.

(** A change of a receiver that does not open or close it. *)
Lemma on_receiver_ok n own c x r f r' :
  core_ok n own c -> receiverAt c x = Some r -> f r = Some r' ->
  receiver_ok (Z.shiftl 16 20) r' -> r_closed r' = r_closed r ->
  exists c', on_receiver x f c = Some c' /\ core_ok n own c' /\ same_registry c c' /\
    receiverAt c' x = Some r' /\ (forall y, y <> x -> receiverAt c' y = receiverAt c y).
Proof.
  intros Hok Hr Hf Hrok Hcl. destruct x as [b a]. unfold receiverAt in Hr. cbn in Hr.
  apply bind_Some in Hr as (o & Ho & Hr). destruct (storeAt_Some c b) as (o' & Ho' & Hs); [by rewrite Ho|].
  assert (o' = o) as -> by congruence. unfold on_receiver. cbn [fst snd]. rewrite Hs. cbn [mbind option_bind heap].
  rewrite Hr. cbn [mbind option_bind]. rewrite Hf. cbn [mbind option_bind]. eexists. split; [done|]. split_and!.
  - eapply core_ok_call; [done|exact Hs|]. eapply update_call; [by eapply storeAt_ok|done| |done].
    destruct (co_bcs _ _ _ Hok b o Ho) as [[Hm _] _]. cbn. by rewrite Hm.
  - apply same_registry_put.
  - rewrite receiverAt_put. cbn. by rewrite decide_True, lookup_insert_eq.
  - intros [b' a'] Hne. rewrite receiverAt_put. cbn. case_decide as E; [|done]. subst b'.
    rewrite lookup_insert_ne by congruence. unfold receiverAt. cbn. by rewrite Ho.
Qed.

Lemma receiver_inv n own c x r :
  core_ok n own c -> receiverAt c x = Some r -> receiver_ok (Z.shiftl 16 20) r.
Proof.
  intros Hok (o & Ho & Hr)%bind_Some. destruct (co_bcs _ _ _ Hok _ _ Ho) as [[Hm Hst] _].
  rewrite <- Hm. apply (cok_heap _ _ (Hst (sv_world c)) x.2 r Hr).
Qed.

Lemma ring_units n own c b o from :
  core_ok n own c -> sv_bcs c !! b = Some o ->
  ring_ok (b_replay (bo_bc o)) /\ Forall (size_ok (Z.shiftl 16 20)) (ReplaySince (b_replay (bo_bc o)) from).1.
Proof.
  intros Hok Ho. destruct (co_bcs _ _ _ Hok _ _ Ho) as [[Hm Hst] _]. specialize (Hst (sv_world c)).
  split; [apply (cok_ring _ _ Hst)|]. apply Forall_forall. intros y Hy%ReplaySince_in.
  pose proof (cok_ring_size _ _ Hst) as Hs. rewrite Forall_forall in Hs. cbn in Hs. rewrite Hm in Hs. auto.
Qed.

(** What the resumption of one track does, whatever the ring holds. *)
Lemma resumeTrack_ok n own c recvs nf :
  core_ok n own c ->
  (forall name i, recvs !! name = Some i -> exists x, recv_ref i = Some x /\ is_Some (receiverAt c x)) ->
  exists c', resumeTrack values recvs c nf = Some c' /\ core_ok n own c' /\ same_registry c c' /\
    forall x, is_Some (receiverAt c x) -> is_Some (receiverAt c' x).
Proof.
  intros Hok Hrecvs. destruct nf as [name fromSeq]. unfold resumeTrack.
  destruct (recvs !! name) as [i|] eqn:Ei; [|eexists; by split_and!].
  destruct (Hrecvs name i Ei) as (x & Hx & r & Hr). rewrite Hx. cbn [mbind option_bind].
  destruct (sv_tracks c !! name) as [te|] eqn:Et; [|eexists; by split_and!].
  destruct (co_track _ _ _ Hok _ _ Et) as (_ & o & Ho & _).
  destruct (storeAt_Some c (te_bc te)) as (o' & Ho' & Hs); [by rewrite Ho|]. rewrite Hs. cbn [mbind option_bind bc].
  destruct (ring_units n own c (te_bc te) o' (u32 (fromSeq + 1)) Hok Ho') as [_ Hsz].
  destruct (ReplaySince (b_replay (bo_bc o')) (u32 (fromSeq + 1))) as [replay av]. cbn in Hsz.
  pose proof (receiver_inv n own c x r Hok Hr) as Hrok.
  assert (forall f r', f r = Some r' -> receiver_ok (Z.shiftl 16 20) r' -> r_closed r' = r_closed r ->
            exists c', on_receiver x f c = Some c' /\ core_ok n own c' /\ same_registry c c' /\
              forall y, is_Some (receiverAt c y) -> is_Some (receiverAt c' y)) as Hgo.
  { intros f r' Hf Hr' Hcl. destruct (on_receiver_ok n own c x r f r' Hok Hr Hf Hr' Hcl) as (c' & E & Hok' & Hreg & Hx' & Hother).
    exists c'. split_and!; try done. intros y Hy. destruct (decide (y = x)) as [-> | Hne]; [by rewrite Hx'|by rewrite Hother]. }
  destruct av; cbn [negb].
  - destruct (length replay =? 0)%nat; [eexists; by split_and!|].
    destruct (SpliceFront_ok _ values r replay values_ok Hrok Hsz) as (r' & E & ? & ?). by eapply Hgo.
  - case_decide; [|eexists; by split_and!]. eapply Hgo; [done| |done]. by destruct Hrok.
Qed.

(** [Resume] of the store keeps or evicts what was parked. *)
Lemma resume_spec (p : memorySessionStore (list rref)) now tenant id :
  let '(recvs, p', out) := SessionStore.Resume park_order p now tenant id in
  byID p' ⊆ byID p /\ maxParked p' = maxParked p /\
  (forall kp, kp ∈ out -> byID p !! kp.1 = Some kp.2) /\
  match recvs with
  | Some rs => exists e, byID p !! scopedKey tenant id = Some e /\ ps_receivers e = rs
  | None => True
  end.
Proof.
  unfold SessionStore.Resume. destruct (evictExpired_spec park_order order_ok (byID p) now) as [H1 H2].
  destruct (evictExpiredLocked park_order (byID p) now) as [m out]. cbn [fst snd] in *.
  assert (m ⊆ byID p) as Hsub by (rewrite H2; apply map_filter_subseteq).
  assert (forall kp, kp ∈ out -> byID p !! kp.1 = Some kp.2) as Hout.
  { intros [k e] Hin. rewrite H1 in Hin. apply list_elem_of_filter in Hin as [_ Hin]. by apply elem_of_map_to_list in Hin. }
  destruct (m !! scopedKey tenant id) as [e|] eqn:E; cbn [byID maxParked]; split_and!; try done.
  - etrans; [apply delete_subseteq|done].
  - exists e. split; [|done]. by eapply lookup_weaken.
Qed.

(** Entries that leave the store have their receivers unsubscribed, and no
    others. *)
Lemma evictions_ok n own c p' out :
  core_ok n own c -> byID p' ⊆ byID (sv_parked c) -> maxParked p' = maxParked (sv_parked c) ->
  (forall kp, kp ∈ out -> byID (sv_parked c) !! kp.1 = Some kp.2) ->
  exists c1, runEvictions out (with_parked c p') = Some c1 /\ core_ok n own c1 /\ sv_tracks c1 = sv_tracks c /\
    sv_parked c1 = p' /\ (forall x, is_Some (receiverAt c x) -> is_Some (receiverAt c1 x)) /\
    (forall b a, a ∈ receivers c1 b <-> a ∈ receivers c b /\ (b, a) ∉ mjoin ((fun kp => ps_onEvict kp.2) <$> out)).
Proof.
  intros Hok Hsub Hmx Hout. rewrite runEvictions_all.
  assert (core_ok n own (with_parked c p')) as Hok1.
  { apply core_ok_parked; [done|rewrite Hmx; apply (co_max _ _ _ Hok)|]. intros k e Hk.
    eapply (co_parked _ _ _ Hok). by eapply lookup_weaken. }
  assert (forall kp, kp ∈ out -> Forall (allocated c) (ps_onEvict kp.2)) as Hal
    by (intros [k e] Hin; apply (co_parked _ _ _ Hok k e (Hout _ Hin))).
  destruct (unsubscribeAll_ok n own (mjoin ((fun kp => ps_onEvict kp.2) <$> out)) (with_parked c p') Hok1)
    as (c1 & E1 & Hok2 & (Ht1 & Hp1 & _) & _ & Hrs & Hkeep).
  { apply Forall_forall. intros x (l & Hx & Hl)%list_elem_of_join. apply list_elem_of_fmap in Hl as (kp & -> & Hin).
    apply (allocated_bc c). specialize (Hal kp Hin). by eapply Forall_forall in Hal. }
  exists c1. split_and!; done.
Qed.

(** A tick of the eviction loop keeps the sessions whose window is open, and
    releases the receivers of the others. *)
Lemma evictTick_ok n own c now :
  core_ok n own c ->
  exists c1, evictTick park_order now c = Some c1 /\ core_ok n own c1 /\ sv_tracks c1 = sv_tracks c /\
    byID (sv_parked c1) = filter (fun kp => ~ expired now kp) (byID (sv_parked c)) /\
    (forall b a, a ∈ receivers c1 b <-> a ∈ receivers c b /\
       ~ exists k e, byID (sv_parked c) !! k = Some e /\ expired now (k, e) /\ (b, a) ∈ ps_onEvict e).
Proof.
  intros Hok. unfold evictTick, EvictExpired.
  destruct (evictExpired_spec park_order order_ok (byID (sv_parked c)) now) as [H1 H2].
  destruct (evictExpiredLocked park_order (byID (sv_parked c)) now) as [m out]. cbn [fst snd] in H1, H2. subst m.
  assert (forall kp, kp ∈ out <-> expired now kp /\ byID (sv_parked c) !! kp.1 = Some kp.2) as Hout.
  { intros [k e]. rewrite H1, list_elem_of_filter. cbn [fst snd]. f_equiv. apply elem_of_map_to_list. }
  destruct (evictions_ok n own c (mkSessionStore (filter (fun kp => ~ expired now kp) (byID (sv_parked c)))
    (resumeTTL (sv_parked c)) (maxParked (sv_parked c))) out Hok) as (c1 & E1 & Hok1 & Ht & Hp & _ & Hr).
  - apply map_filter_subseteq.
  - done.
  - intros kp Hin. by apply Hout.
  - exists c1. split_and!; [done|done|done|by rewrite Hp|]. intros b a. rewrite Hr.
    split; intros [Ha Hn]; (split; [done|]); intros Hx; apply Hn.
    + destruct Hx as (k & e & Hk & Hex & Hin). apply list_elem_of_join. exists (ps_onEvict e). split; [done|].
      apply list_elem_of_fmap. exists (k, e). split; [done|]. by apply Hout.
    + apply list_elem_of_join in Hx as (l & Hx & Hl). apply list_elem_of_fmap in Hl as ([k e] & -> & Hin).
      apply Hout in Hin as [He Hk]. by exists k, e.
Qed.

Lemma resumeSession_ok n own c now tenant id lastSeen :
  core_ok n own c ->
  exists res c', resumeSession park_order seen_order values now tenant id lastSeen c = Some (res, c') /\ core_ok n own c' /\
    sv_tracks c' = sv_tracks c /\ (res, sv_parked c') = (SessionStore.Resume park_order (sv_parked c) now tenant id).1.
Proof.
  intros Hok. unfold resumeSession. pose proof (resume_spec (sv_parked c) now tenant id) as Hrs.
  destruct (SessionStore.Resume park_order (sv_parked c) now tenant id) as [[recvs p'] out].
  destruct Hrs as (Hsub & Hmx & Hout & Hrecvs).
  destruct (evictions_ok n own c p' out Hok Hsub Hmx Hout) as (c1 & E1 & Hok2 & Ht1 & Hp1 & Hkeep & _).
  rewrite E1. cbn [mbind option_bind]. destruct recvs as [recvs|]; [|do 2 eexists; split_and!; [done|done|done|by rewrite Hp1]].
  destruct Hrecvs as (e & He & <-).
  assert (forall name i, ps_receivers e !! name = Some i -> exists x, recv_ref i = Some x /\ is_Some (receiverAt c1 x)) as Hal1.
  { intros name i Hi. destruct (co_parked _ _ _ Hok _ e He) as [_ H]. destruct (H name i Hi) as (x & Hx & Hax).
    exists x. split; [done|]. apply Hkeep. by apply allocated_receiver. }
  clear -values_ok Hok2 Hal1 Ht1 Hp1. revert c1 Hok2 Hal1 Ht1 Hp1. generalize (seen_order lastSeen).
  intros l. induction l as [|nf l IH]; intros c1 Hok1 Hal1 Ht1 Hp1; cbn [foldl].
  { do 2 eexists. split_and!; [done|done|done|cbn; by rewrite Hp1]. }
  cbn [mbind option_bind]. destruct (resumeTrack_ok n own c1 (ps_receivers e) nf Hok1 Hal1) as (c2 & -> & Hok2 & (Ht2 & Hp2 & _) & Hkeep).
  apply IH; [done| |congruence|congruence]. intros name i Hi. destruct (Hal1 name i Hi) as (x & ? & ?). eauto.
Qed.
End ResumeProofs.

(** * Runs of the server *)

Section Runs.
Context {W W' : Type} {JA : JSON Announce} {JU : JSON Unannounce}.
Implicit Types c : core W.

Definition newCore (resumeWindow : Z) (w : W) : core W :=
  mkCore ∅ ∅ (NewMemorySessionStore resumeWindow) [] w.

Lemma freshReceivers_ok n own tracks_order c :
  core_ok n own c -> (forall m, tracks_order m ≡ₚ map_to_list m) ->
  exists m c', freshReceivers tracks_order c = Some (m, c') /\ core_ok n own c'.
Proof.
  intros Hok Hord. unfold freshReceivers.
  assert (forall name t, (name, t) ∈ tracks_order (sv_tracks c) -> is_Some (sv_bcs c !! te_bc t)) as Hb.
  { intros name t Hin. rewrite Hord in Hin. apply elem_of_map_to_list in Hin.
    destruct (co_track _ _ _ Hok _ _ Hin) as (_ & o & -> & _). done. }
  revert Hb. generalize (tracks_order (sv_tracks c)) as l. generalize (∅ : gmap string nat) as m.
  intros m l. revert m c Hok. induction l as [|[name t] l IH]; intros m c Hok Hb; [cbn; eauto|].
  cbn [foldl mbind option_bind]. cbn [snd fst]. rewrite subscribeAt_cap.
  edestruct (subscribeCapAt_ok n own c) as (a & r & c1 & E & Hok1 & (_ & _ & _ & Hb1) & _); [done|by apply (Hb name); left|].
  rewrite E. cbn [mbind option_bind fst snd]. apply IH; [done|]. intros nm t' Hin. apply Hb1, (Hb nm). by right.
Qed.

(** The server's operations, in any order; the result is [None] for a panic.
    The first argument is 1 for an operation that attaches a recorder. *)
Inductive sv_step : nat -> core W -> option (core W) -> Prop :=
  | sv_add base buffer spec c (ss : list (session W')) :
      sv_step 0 c (fst <$> AddTrackSpec base buffer spec c ss)
  | sv_remove closeOrder name c (ss : list (session W')) :
      (forall rs, closeOrder rs ≡ₚ elements rs) -> Forall (fun s => ob_ok (ss_ob s)) ss ->
      sv_step 0 c (fst <$> RemoveTrack closeOrder name c ss)
  | sv_publish c b au order sched :
      is_Some (sv_bcs c !! b) -> order ≡ₚ elements (receivers c b) ->
      sv_step 0 c (publishAt b au order sched c)
  | sv_attach rec c tracks :
      tracks ≡ₚ map_to_list (sv_tracks c) -> sv_step 1 c (AttachRecorder rec tracks c)
  | sv_detach order idx c :
      (forall m, order m ≡ₚ map_to_list m) -> sv_step 0 c (detachRecorder order idx c)
  | sv_fresh tracks_order c :
      (forall m, tracks_order m ≡ₚ map_to_list m) -> sv_step 0 c (snd <$> freshReceivers tracks_order c)
  | sv_resume park_order seen_order values now tenant id lastSeen c :
      is_order park_order -> values_of values ->
      sv_step 0 c (snd <$> resumeSession park_order seen_order values now tenant id lastSeen c)
  | sv_end tracks_order park_order stopping now1 now2 i ob c :
      (forall m, tracks_order m ≡ₚ map_to_list m) -> is_order park_order -> ob_allocated c ob ->
      sv_step 0 c (endSession tracks_order park_order stopping now1 now2 i ob c)
  | sv_evict park_order now c :
      is_order park_order -> sv_step 0 c (evictTick park_order now c).

(** The states a server can reach having attached [n] recorders. *)
Inductive sv_reach (resumeWindow : Z) (w : W) : nat -> core W -> Prop :=
  | reach_new : sv_reach resumeWindow w 0 (newCore resumeWindow w)
  | reach_step n k c c' : sv_reach resumeWindow w n c -> sv_step k c (Some c') -> sv_reach resumeWindow w (k + n) c'.

Lemma newCore_ok resumeWindow w : core_ok 0 (fun _ => ""%string) (newCore resumeWindow w).
Proof. split; cbn; try done; try (intros *; rewrite lookup_empty); try done; set_solver. Qed.

Lemma sv_step_ok n own k c oc :
  core_ok n own c -> Z.of_nat (k + n) < 2 ^ 64 -> sv_step k c oc ->
  exists own' c', oc = Some c' /\ core_ok (k + n) own' c'.
Proof.
  intros Hok Hn Hstep. destruct Hstep.
  - destruct (AddTrackSpec_ok n own base buffer spec c ss Hok) as (own' & c' & ss' & -> & ?); [lia|]. cbn. eauto.
  - destruct (RemoveTrack_ok n own closeOrder name c ss Hok) as (c' & ss' & -> & ?); [done|done|]. cbn. eauto.
  - destruct (publishAt_ok n own c b au order sched Hok) as (c' & -> & ? & _); [done|done|]. eauto.
  - destruct (AttachRecorder_ok n own c rec tracks Hok) as (c' & -> & ? & _); [done|done|]. eauto.
  - destruct (detachRecorder_ok n own c order idx Hok) as (c' & -> & ? & _); [done|]. eauto.
  - destruct (freshReceivers_ok n own tracks_order c Hok) as (m & c' & -> & ?); [done|]. cbn. eauto.
  - destruct (resumeSession_ok park_order H seen_order values H0 n own c now tenant id lastSeen Hok) as (res & c' & -> & ? & _).
    cbn. eauto.
  - destruct (decide (SessionID i = ""%string \/ stopping = true)) as [Hs|Hs].
    + destruct (endSession_stop tracks_order park_order H n own c i ob stopping now1 now2 Hok Hs) as (c' & -> & ? & _). eauto.
    + assert (SessionID i <> ""%string /\ stopping = false) as [Hs1 ->] by (destruct stopping; tauto).
      destruct (endSession_park tracks_order park_order H H0 n own c i ob now1 now2 Hok) as (c' & p & refs & -> & ? & _);
        [done|done|]. eauto.
  - destruct (evictTick_ok park_order H n own c now Hok) as (c' & -> & ? & _). eauto.
Qed.

Lemma sv_reach_ok resumeWindow w n c :
  sv_reach resumeWindow w n c -> Z.of_nat n < 2 ^ 64 -> exists own, core_ok n own c.
Proof.
  induction 1 as [|n k c c' _ IH Hstep]; intros Hn; [eexists; apply newCore_ok|].
  destruct IH as [own Hok]; [lia|]. destruct (sv_step_ok n own k c _ Hok Hn Hstep) as (own' & c2 & [= <-] & ?). eauto.
Qed.
End Runs.

(** * Claims *)

(** C7: no operation of the server panics, in whatever order tracks are added and
    removed, units published, recorders attached and detached, sessions
    started, ended, parked, resumed and evicted, and whatever order the maps are
    iterated in. *)
Theorem server_never_panics {W W'} {JA : JSON Announce} {JU : JSON Unannounce} resumeWindow (w : W) n k c oc :
  sv_reach (W' := W') resumeWindow w n c -> Z.of_nat (S n) < 2 ^ 64 -> sv_step (W' := W') k c oc -> oc <> None.
Proof.
  intros Hr Hn Hstep. destruct (sv_reach_ok resumeWindow w n c Hr) as [own Hok]; [lia|].
  assert (k <= 1)%nat as Hk by (destruct Hstep; lia).
  destruct (sv_step_ok (W' := W') n own k c oc Hok) as (own' & c' & -> & _); [lia|done|done].
Qed.

Lemma runChain_hooks {W} name kind (recs : list (recorder (W := W))) : forall w au,
  runChain ((fun rec => recorderHook rec name kind) <$> recs) w au =
  (foldl (fun w rec => rec name kind au w) w recs, Some au).
Proof. induction recs as [|rec recs IH]; intros w au; [done|]. cbn. apply IH. Qed.

(** C17: a unit published on a registered track is written to every attached
    recorder exactly once, under the track's name and kind and in the order in
    which the recorders were attached, and goes on to the subscribers
    unchanged: whether the recorder was attached before or after the track was
    added, and whatever tracks and recorders came and went in between. *)
Theorem recorders_see_every_unit {W W'} {JA : JSON Announce} {JU : JSON Unannounce} resumeWindow (w : W) n c
    name t au order sched :
  sv_reach (W' := W') resumeWindow w n c -> Z.of_nat n < 2 ^ 64 -> sv_tracks c !! name = Some t ->
  order ≡ₚ elements (receivers c (te_bc t)) ->
  exists o c', sv_bcs c !! te_bc t = Some o /\ publishAt (te_bc t) au order sched c = Some c' /\
    runChain (b_interceptors (bo_bc o)) (sv_world c) au = (sv_world c', Some au) /\
    sv_world c' = foldl (fun w rec => rec name (te_kind t) au w) (sv_world c) (live (sv_recorders c)).
Proof.
  intros Hr Hn Ht Hord. destruct (sv_reach_ok resumeWindow w n c Hr Hn) as [own Hok].
  destruct (co_track _ _ _ Hok _ _ Ht) as (_ & o & Ho & Hc & _).
  destruct (publishAt_ok n own c (te_bc t) au order sched Hok) as (c' & E & _ & _ & o' & Ho' & Hw); [by rewrite Ho|done|].
  assert (o' = o) as -> by congruence. exists o, c'. rewrite Hw, Hc. unfold hooks_for.
  by rewrite runChain_hooks.
Qed.

(** [AddTrackSpec] with a new name registers the track with the defaults the
    code documents, and every registered session gets a receiver of its own on
    the new broadcaster, open and subscribed, a pump for it unless it has one
    of that name already, and (a prefix of, on a failing stream) one Announce
    frame; whether its handshake is complete is not asked. *)
Theorem add_track_reaches_every_session {W W'} {JA : JSON Announce} {JU : JSON Unannounce}
    n own (c : core W) (ss : list (session W')) base buffer spec body :
  core_ok n own c -> Z.of_nat n < 2 ^ 64 -> Forall (fun s => ob_ok (ss_ob s)) ss ->
  sv_tracks c !! spec_Name spec = None ->
  Marshal (mkAnnounce (spec_Name spec) (specKind spec) "") = Ok body ->
  exists c' ss' b refs,
    AddTrackSpec base buffer spec c ss = Some (c', ss') /\
    sv_tracks c' = <[spec_Name spec := mkTrackEntry (specKind spec) (specPriority spec) (spec_TrackID spec) b]> (sv_tracks c) /\
    NoDup refs /\ length refs = length ss /\ length ss' = length ss /\ receivers c' b = list_to_set refs /\
    forall i s, ss !! i = Some s -> exists a r s' k, refs !! i = Some a /\ ss' !! i = Some s' /\
      receiverAt c' (b, a) = Some r /\ r_closed r = false /\ ss_id s' = ss_id s /\
      view (ss_ob s') = view (ss_ob s) ∪ {[spec_Name spec :=
        new_pump base (NegotiatedFeatures (ss_id s)) (ss_ob s) (spec_Name spec) (specKind spec) (recv_id (b, a))
          (specPriority spec) (spec_TrackID spec)]} /\
      w_out (ss_out s') = w_out (ss_out s) ++ take k (control_bytes TypeAnnounce body).
Proof.
  intros Hok Hn Hss Hnone Hm. unfold AddTrackSpec, addTrackInternal.
  destruct (registerTrack _ _ _ _ _ c) as [new c1] eqn:E.
  destruct (registerTrack_ok _ _ _ _ _ _ _ _ _ _ Hok Hn E) as (own' & Hok1 & H).
  destruct new; [|destruct H as [_ H]; rewrite Hnone in H; by destruct H].
  destruct H as (_ & b & Ht & Hemp & Hb). rewrite Ht, lookup_insert_eq. cbn [mbind option_bind te_bc].
  destruct (notifySessions_ok n own' base (spec_Name spec) (specKind spec) (specPriority spec) (spec_TrackID spec) b ss c1 Hok1 Hb)
    as (c2 & refs & E2 & _ & Hreg & Hl & Hnd & Hrec & _ & Hall).
  rewrite E2. eexists c2, _, b, refs. split; [done|]. split_and!.
  - destruct Hreg as (-> & _). done.
  - done.
  - done.
  - rewrite length_zip_with. lia.
  - rewrite Hrec, Hemp. set_solver.
  - intros i s Hs. destruct (lookup_lt_is_Some_2 refs i) as [a Ha]; [rewrite Hl; by eapply lookup_lt_Some|].
    rewrite Forall_forall in Hall. destruct (Hall a) as (_ & r & Hr & Hop); [by eapply list_elem_of_lookup_2|].
    rewrite Forall_forall in Hss. specialize (Hss s (list_elem_of_lookup_2 _ _ _ Hs)).
    set (s1 := with_ob s (AttachTrackWithKind base (NegotiatedFeatures (ss_id s)) (spec_Name spec) (specKind spec)
                 (recv_id (b, a)) (specPriority spec) (spec_TrackID spec) (ss_ob s))).
    destruct (WriteControlFrame_prefix TypeAnnounce body (ss_out s1)) as [k Hk].
    exists a, r, (attachToSession base (spec_Name spec) (specKind spec) (specPriority spec) (spec_TrackID spec) (b, a) s), k.
    split_and!; [done|by rewrite lookup_zip_with, Ha, Hs|done|done| | |];
      unfold attachToSession; fold s1; unfold SendAnnounce; rewrite Hm; unfold ctlWrite;
      destruct (WriteControlFrame TypeAnnounce body (ss_out s1)) as [e out]; cbn; [done| |exact Hk].
    unfold s1. cbn. by apply attach_view.
Qed.

(** the deferred clean-up of a session leaves none of its receivers
    subscribed to a current track.  When the session can be resumed, it parks,
    under the tenant's key and for the resume window, one new receiver for
    every current track, open, subscribed, as deep as the replay ring and more,
    and in the list that its eviction will unsubscribe; when it cannot (no
    session id, shutting down or draining) nothing is parked and nothing else
    is unsubscribed. *)
Theorem end_session_releases_receivers {W} tracks_order park_order n own (c : core W) i ob stopping now1 now2 :
  (forall m, tracks_order m ≡ₚ map_to_list m) -> is_order park_order ->
  core_ok n own c -> ob_allocated c ob ->
  exists c', endSession tracks_order park_order stopping now1 now2 i ob c = Some c' /\ core_ok n own c' /\
    sv_tracks c' = sv_tracks c /\
    (forall name t j x, sv_tracks c !! name = Some t -> j ∈ Receivers name ob -> recv_ref j = Some x ->
       x.1 = te_bc t -> x.2 ∉ receivers c' (te_bc t)) /\
    if decide (SessionID i = ""%string \/ stopping = true)
    then sv_parked c' = sv_parked c /\
         forall b a, (forall name j, j ∈ Receivers name ob -> recv_ref j <> Some (b, a)) ->
           a ∈ receivers c' b <-> a ∈ receivers c b
    else exists parked refs,
         byID (sv_parked c') !! scopedKey (Tenant i) (SessionID i) =
           Some (mkParked (SessionID i) parked (now2 + resumeTTL (sv_parked c)) refs) /\
         (forall name, is_Some (parked !! name) <-> is_Some (sv_tracks c !! name)) /\
         forall name t, sv_tracks c !! name = Some t -> exists a r, parked !! name = Some (recv_id (te_bc t, a)) /\
           (te_bc t, a) ∈ refs /\ receiverAt c (te_bc t, a) = None /\ receiverAt c' (te_bc t, a) = Some r /\
           r_closed r = false /\ parkedChanCap <= Z.of_nat (ch_cap (r_ch r)) /\ a ∈ receivers c' (te_bc t).
Proof.
  intros Hto Hpo Hok Hal.
  assert (forall name t j x, sv_tracks c !! name = Some t -> j ∈ Receivers name ob -> recv_ref j = Some x -> x.1 = te_bc t ->
            x ∈ session_refs (tracks_order (sv_tracks c)) ob) as Hin.
  { intros name t j x Ht Hj Hr Hx. apply session_refs_in. exists name, t, j. split_and!; try done.
    rewrite Hto. by apply elem_of_map_to_list. }
  case_decide as Hs.
  - destruct (endSession_stop tracks_order park_order Hto n own c i ob stopping now1 now2 Hok Hs)
      as (c' & -> & Hok' & (Ht & Hp & _) & Hrec). exists c'. split_and!; try done.
    + intros name t j x Hn Hj Hr Hx Ha. rewrite <- Hx in Ha. apply Hrec in Ha as [_ Ha]. apply Ha. destruct x. eauto.
    + intros b a Hna. rewrite Hrec. split; [tauto|]. intros Ha. split; [done|].
      intros (name & t & j & _ & Hj & Hr & _)%session_refs_in. by eapply Hna.
  - assert (SessionID i <> ""%string /\ stopping = false) as [Hs1 ->] by (destruct stopping; tauto).
    destruct (endSession_park tracks_order park_order Hto Hpo n own c i ob now1 now2 Hok Hal Hs1)
      as (c' & parked & refs & -> & Hok' & Ht & _ & Hk & Hrel & Hdom & Hall).
    exists c'. split_and!; try done; [|eauto 10]. intros name t j x Hn Hj Hr Hx. rewrite <- Hx. apply Hrel. eauto.
Qed.

(** ** Resumption *)

Lemma ordered_strict {A} (key : A -> Z) (l : list A) :
  ordered (key_less key) l -> NoDup (key <$> l) -> StronglySorted Z.lt (key <$> l).
Proof.
  unfold ordered. induction 1 as [|x l Hl IH Hx]; csimpl; intros Hnd; [constructor|].
  apply NoDup_cons in Hnd as [Hn Hnd]. constructor; [auto|]. apply Forall_forall. intros k Hk.
  pose proof Hk as Hk'. apply list_elem_of_fmap in Hk as (y & -> & Hy). rewrite Forall_forall in Hx. specialize (Hx y Hy).
  unfold key_less in Hx. assert (key x <> key y) by (intros E; apply Hn; by rewrite E). lia.
Qed.

Lemma sorted_nodup l : StronglySorted Z.lt l -> NoDup l.
Proof.
  induction 1 as [|x l Hl IH Hx]; constructor; [|done]. intros Hin. rewrite Forall_forall in Hx. specialize (Hx x Hin). lia.
Qed.

Lemma NoDup_fmap_filter {A B} (key : A -> B) (P : A -> Prop) `{!forall x, Decision (P x)} (l : list A) :
  NoDup (key <$> l) -> NoDup (key <$> filter P l).
Proof.
  induction l as [|x l IH]; csimpl; [done|]. intros [Hx Hl]%NoDup_cons. rewrite filter_cons. case_decide; [|auto].
  csimpl. constructor; [|auto]. intros (y & E & Hy)%list_elem_of_fmap. apply Hx. rewrite E.
  apply list_elem_of_filter in Hy as [_ Hy]. by apply list_elem_of_fmap_2.
Qed.

Lemma sorted_app_lt l1 l2 x y : StronglySorted Z.lt (l1 ++ l2) -> x ∈ l1 -> y ∈ l2 -> x < y.
Proof.
  induction l1 as [|z l1 IH]; cbn; [by intros _ []%elem_of_nil|]. intros [Hs Hz]%StronglySorted_inv [-> | Hin]%elem_of_cons Hy.
  - rewrite Forall_forall in Hz. apply Hz. apply elem_of_app. by right.
  - by apply IH.
Qed.

Lemma sorted_app_r l1 l2 : StronglySorted Z.lt (l1 ++ l2) -> StronglySorted Z.lt l2.
Proof. induction l1 as [|z l1 IH]; cbn; [done|]. intros [Hs _]%StronglySorted_inv. auto. Qed.

(** The state [resumeTrack] starts from: the parked receiver [x] of the track
    [name], open, and the track's replay ring. *)
Record resuming {W} (c : core W) (recvs : gmap string nat) (name : string) (te : trackEntry) (x : rref) (r : Receiver)
    (o : bobj (W := W)) : Prop := {
  rs_track : sv_tracks c !! name = Some te;
  rs_recv : recvs !! name = Some (recv_id x);
  rs_at : receiverAt c x = Some r;
  rs_open : r_closed r = false;
  rs_bc : sv_bcs c !! te_bc te = Some o;
}.

Lemma resumeTrack_unfold {W} values (c : core W) recvs name te x r o from :
  resuming c recvs name te x r o -> 0 <= from < 2 ^ 32 - 1 ->
  resumeTrack values recvs c (name, from) =
  let '(replay, available) := ReplaySince (b_replay (bo_bc o)) (from + 1) in
  if negb available then
    if decide (te_kind te = KindVideo \/ te_kind te = ""%string)
    then on_receiver x (fun r => Some (RequestKeyframe r)) c else Some c
  else if (length replay =? 0)%nat then Some c
  else on_receiver x (fun r => SpliceFront values r replay) c.
Proof.
  intros [Ht Hr _ _ Ho] Hf. unfold resumeTrack, storeAt. rewrite Hr, recv_ref_id, Ht. cbn [mbind option_bind]. rewrite Ho.
  cbn [mbind option_bind bc]. unfold u32. by rewrite Z.mod_small by lia.
Qed.

(** C6: a resumed client sees no gap.  Let [log] be the units published on the
    track, with ascending Seq, of which the replay ring holds a suffix that
    reaches back to the client's cursor; then, as the parked queue has room,
    every unit published after the cursor is in the resumed receiver's queue,
    the queue is in strictly ascending order of Seq, what had been queued is
    still there, and no other receiver is touched. *)
Theorem resume_gap_free {W} values n own (c : core W) recvs name te x r o from pre :
  values_of values -> core_ok n own c -> resuming c recvs name te x r o -> 0 <= from < 2 ^ 32 - 1 ->
  let ring := replaySnapshotLocked (b_replay (bo_bc o)) in
  let log := pre ++ ring in
  let queue := ch_buf (r_ch r) in
  StronglySorted Z.lt (au_Seq <$> log) -> StronglySorted Z.lt (au_Seq <$> queue) ->
  Exists (fun au => au_Seq au <= from + 1) ring ->
  (length queue + length (filter (fun au => (from < au_Seq au)%Z /\ au_Seq au ∉ (au_Seq <$> queue)) ring)
     <= ch_cap (r_ch r))%nat ->
  exists c' r', resumeTrack values recvs c (name, from) = Some c' /\ receiverAt c' x = Some r' /\
    (forall au, au ∈ log -> from < au_Seq au -> au_Seq au ∈ (au_Seq <$> ch_buf (r_ch r'))) /\
    StronglySorted Z.lt (au_Seq <$> ch_buf (r_ch r')) /\
    (forall au, au ∈ queue -> au ∈ ch_buf (r_ch r')) /\
    (forall au, au ∈ ch_buf (r_ch r') -> au ∈ queue \/ (au ∈ ring /\ from < au_Seq au)) /\
    r_needKeyframe r' = r_needKeyframe r /\
    (forall y, y <> x -> receiverAt c' y = receiverAt c y).
Proof.
  intros Hv Hok Hrs Hf ring log queue Hlog Hq Hex Hroom.
  rewrite (resumeTrack_unfold values c recvs name te x r o from Hrs Hf).
  destruct Hrs as [_ _ Hr Hop Ho]. destruct (ring_units n own c (te_bc te) o (from + 1) Hok Ho) as [Hring Hsz].
  pose proof (ReplaySince_spec (b_replay (bo_bc o)) (from + 1) Hring) as Hspec. fold ring in Hspec.
  assert (Exists (fun au => au_Seq au <= from + 1) ring ->
    (ReplaySince (b_replay (bo_bc o)) (from + 1)).2 = true /\
    (ReplaySince (b_replay (bo_bc o)) (from + 1)).1 ≡ₚ filter (fun au => from + 1 <= au_Seq au) ring) as Hsince.
  { clear -Hspec. clearbody ring. destruct ring; [by intros ?%Exists_nil|]. intros H. by destruct Hspec as [_ (? & ? & _)]. }
  destruct (Hsince Hex) as [Hav Hperm]. clear Hspec Hsince. unfold log in *. clear log. clearbody ring.
  destruct (ReplaySince (b_replay (bo_bc o)) (from + 1)) as [replay av]. cbn [fst snd] in *. subst av. cbn [negb].
  assert (forall au, au ∈ replay <-> au ∈ ring /\ from < au_Seq au) as Hin.
  { intros au. rewrite Hperm, list_elem_of_filter. split; intros [? ?]; split; try done; lia. }
  (* everything published after the cursor is in the ring *)
  assert (forall au, au ∈ pre ++ ring -> from < au_Seq au -> au ∈ ring) as Hcover.
  { intros au [Hp|Hp]%elem_of_app Hlt; [|done]. apply Exists_exists in Hex as (u & Hu & Hle).
    rewrite fmap_app in Hlog. assert (au_Seq au < au_Seq u); [|lia]. eapply sorted_app_lt; [exact Hlog|..]; by apply list_elem_of_fmap_2. }
  assert (NoDup (au_Seq <$> replay)) as Hnd.
  { rewrite Hperm. rewrite fmap_app in Hlog. apply sorted_app_r, sorted_nodup in Hlog.
    by apply NoDup_fmap_filter. }
  destruct (decide (replay = [])) as [-> | Hne].
  { exists c, r. cbn [length Nat.eqb]. split_and!; try done; [|by left].
    intros au Hau Hlt. assert (au ∈ []) as []%elem_of_nil. apply Hin. auto. }
  destruct (length replay =? 0)%nat eqn:El; [by destruct replay|].
  assert (open_ok r) as Hopen by (split; [exists (Z.shiftl 16 20); by eapply receiver_inv|done]).
  destruct (SpliceFront_room values r replay Hv Hopen Hne Hnd) as (r' & E & Hneed & Hcap & Hord & Hmerge).
  { by apply sorted_nodup. }
  { rewrite Hperm. etrans; [|exact Hroom]. rewrite list_filter_filter. apply Nat.add_le_mono_l, Nat.eq_le_incl.
    f_equal. apply list_filter_iff. intros au. unfold queue. split; intros [? ?]; split; try done; lia. }
  assert (r_closed r' = r_closed r /\ receiver_ok (Z.shiftl 16 20) r') as [Hcl Hrok'].
  { destruct (SpliceFront_ok (Z.shiftl 16 20) values r replay Hv) as (r2 & E2 & ? & ?); [by eapply receiver_inv|done|].
    assert (r2 = r') as -> by congruence. done. }
  destruct (on_receiver_ok n own c x r (fun r => SpliceFront values r replay) r' Hok Hr E Hrok' Hcl)
    as (c' & E' & _ & _ & Hx & Hother).
  exists c', r'. split_and!; try done.
  - intros au Hau Hlt. rewrite Hmerge, fmap_app, elem_of_app. fold queue.
    destruct (decide (au_Seq au ∈ (au_Seq <$> queue))) as [Hd|Hd]; [by left|right].
    apply list_elem_of_fmap_2, list_elem_of_filter. split; [done|]. apply Hin. auto.
  - apply ordered_strict; [done|]. rewrite Hmerge, fmap_app. apply NoDup_app. split_and!; [by apply sorted_nodup| |].
    + intros k Hk (au & -> & Hau)%list_elem_of_fmap. apply list_elem_of_filter in Hau as [Hau _]. done.
    + by apply NoDup_fmap_filter.
  - intros au Hau. rewrite Hmerge. apply elem_of_app. by left.
  - intros au. rewrite Hmerge. intros [Hau | [_ Hau]%list_elem_of_filter]%elem_of_app; [by left|right]. by apply Hin.
Qed.

(** a client whose cursor is before the replay ring has lost units for good:
    on a video track its receiver keeps its queue and waits for the next
    keyframe; on a track of another kind, where nothing is a keyframe, the
    server is unchanged. *)
Theorem resume_gap_reported {W} values n own (c : core W) recvs name te x r o from :
  core_ok n own c -> resuming c recvs name te x r o -> 0 <= from < 2 ^ 32 - 1 ->
  replaySnapshotLocked (b_replay (bo_bc o)) <> [] ->
  Forall (fun au => from + 1 < au_Seq au) (replaySnapshotLocked (b_replay (bo_bc o))) ->
  exists c', resumeTrack values recvs c (name, from) = Some c' /\
    if decide (te_kind te = KindVideo \/ te_kind te = ""%string)
    then receiverAt c' x = Some (mkReceiver (r_ch r) (r_closed r) true) /\
         forall y, y <> x -> receiverAt c' y = receiverAt c y
    else c' = c.
Proof.
  intros Hok Hrs Hf Hne Hall. rewrite (resumeTrack_unfold values c recvs name te x r o from Hrs Hf).
  destruct Hrs as [_ _ Hr Hop Ho]. destruct (ring_units n own c (te_bc te) o (from + 1) Hok Ho) as [Hring _].
  pose proof (ReplaySince_spec (b_replay (bo_bc o)) (from + 1) Hring) as Hspec.
  destruct (replaySnapshotLocked (b_replay (bo_bc o))) as [|u0 ring0] eqn:Er; [done|].
  destruct Hspec as [Hs _]. rewrite (Hs Hall). cbn [negb]. case_decide; [|eauto].
  destruct (on_receiver_ok n own c x r (fun r => Some (RequestKeyframe r)) (RequestKeyframe r) Hok Hr eq_refl)
    as (c' & E & _ & _ & Hx & Hother).
  - by destruct (receiver_inv n own c x r Hok Hr).
  - done.
  - exists c'. split_and!; try done.
Qed.

(** ** Admission *)

(** The [/wt] handlers and sessions: a handler reads the gate, then upgrades the
    connection, and only then counts the session. *)
Record admission := mkAdmission { ad_gate : gate; ad_upgrading : nat }.

Inductive ad_step (maxSessions : Z) : admission -> admission -> Prop :=
  | ad_pass addr lookup rq g k :
      wtHandle maxSessions addr lookup rq g = WTUpgrade ->
      ad_step maxSessions (mkAdmission g k) (mkAdmission g (S k))
  | ad_upgrade_failed g k : ad_step maxSessions (mkAdmission g (S k)) (mkAdmission g k)
  | ad_upgraded g k :
      ad_step maxSessions (mkAdmission g (S k)) (mkAdmission (mkGate (gt_current g + 1) (gt_draining g)) k)
  | ad_ended g k : 0 < gt_current g ->
      ad_step maxSessions (mkAdmission g k) (mkAdmission (mkGate (gt_current g - 1) (gt_draining g)) k)
  | ad_drain g k : ad_step maxSessions (mkAdmission g k) (mkAdmission (mkGate (gt_current g) true) k).

(** Runs in which at most [m] handlers are ever between the check and the count. *)
Definition ad_steps (maxSessions : Z) (m : nat) : admission -> admission -> Prop :=
  rtc (fun a b => ad_step maxSessions a b /\ (ad_upgrading b <= m)%nat).

Lemma wtHandle_upgrade maxSessions addr lookup rq g :
  wtHandle maxSessions addr lookup rq g = WTUpgrade -> gt_draining g = false /\ gt_current g < maxSessions.
Proof. unfold wtHandle. destruct (gt_draining g); [done|]. destruct (gt_current g >=? maxSessions) eqn:E; [done|]. lia. Qed.

Definition no_sessions : admission := mkAdmission (mkGate 0 false) 0.

Lemma ad_bound maxSessions m a :
  0 < maxSessions -> ad_steps maxSessions m no_sessions a ->
  0 <= gt_current (ad_gate a) /\ gt_current (ad_gate a) + Z.of_nat (ad_upgrading a) <= maxSessions - 1 + Z.of_nat m.
Proof.
  intros Hmax H. revert a H. apply rtc_ind_r; [cbn; lia|]. intros a b _ [Hab Hm] (I1 & I2). destruct Hab as [addr lookup rq g k Hp|g k|g k|g k Hg|g k]; cbn in *; try lia.
  apply wtHandle_upgrade in Hp. lia.
Qed.

Lemma ad_fill maxSessions m k d :
  0 < maxSessions -> (d <= m)%nat -> (1 <= m)%nat -> Z.of_nat k < maxSessions ->
  ad_steps maxSessions m no_sessions (mkAdmission (mkGate (Z.of_nat k) false) d).
Proof.
  intros Hmax Hd Hm Hk. unfold ad_steps.
  assert (forall g j, gt_draining g = false -> gt_current g < maxSessions -> (S j <= m)%nat ->
    ad_step maxSessions (mkAdmission g j) (mkAdmission g (S j)) /\ (ad_upgrading (mkAdmission g (S j)) <= m)%nat) as Hpass.
  { intros g j Hdr Hc Hj. split; [|done]. apply (ad_pass _ "" None (mkWtRequest "" "" "" "")). unfold wtHandle.
    rewrite Hdr. destruct (gt_current g >=? maxSessions) eqn:E; [lia|]. by case_decide. }
  assert (rtc (fun a b => ad_step maxSessions a b /\ (ad_upgrading b <= m)%nat) no_sessions
            (mkAdmission (mkGate (Z.of_nat k) false) 0)) as H0.
  { clear d Hd. induction k as [|k IH]; [done|]. eapply rtc_r; [eapply rtc_r; [apply IH; lia|]|].
    - apply Hpass; cbn; [done|lia|lia].
    - split; [|cbn; lia]. replace (Z.of_nat (S k)) with (Z.of_nat k + 1) by lia. apply (ad_upgraded _ (mkGate (Z.of_nat k) false)). }
  induction d as [|d IH]; [done|]. eapply rtc_r; [apply IH; lia|]. apply Hpass; cbn; [done|lia|lia].
Qed.

Lemma ad_land maxSessions m : forall d g,
  (d <= m)%nat -> ad_steps maxSessions m (mkAdmission g d)
    (mkAdmission (mkGate (gt_current g + Z.of_nat d) (gt_draining g)) 0).
Proof.
  induction d as [|d IH]; intros g Hd.
  { rewrite Z.add_0_r. destruct g. apply rtc_refl. }
  eapply rtc_l; [split; [apply ad_upgraded|cbn; lia]|].
  pose proof (IH (mkGate (gt_current g + 1) (gt_draining g)) ltac:(lia)) as H. cbn in H.
  replace (gt_current g + Z.of_nat (S d)) with (gt_current g + 1 + Z.of_nat d) by lia. exact H.
Qed.

(** [MaxSessions] bounds the sessions only up to the number of connections
    that are being upgraded at once: the check and the count are separate, so
    with at most [m] handlers in between there are at most
    [MaxSessions - 1 + m] sessions, and that number is reached; it is
    [MaxSessions] when handlers never overlap. *)
Theorem admission_exact maxSessions m :
  0 < maxSessions -> (1 <= m)%nat ->
  (forall a, ad_steps maxSessions m no_sessions a -> gt_current (ad_gate a) <= maxSessions - 1 + Z.of_nat m) /\
  ad_steps maxSessions m no_sessions (mkAdmission (mkGate (maxSessions - 1 + Z.of_nat m) false) 0).
Proof.
  intros Hmax Hm. split.
  - intros a Ha. destruct (ad_bound maxSessions m a Hmax Ha) as (_ & ?). lia.
  - unfold ad_steps. etrans; [apply (ad_fill maxSessions m (Z.to_nat (maxSessions - 1)) m); lia|].
    rewrite Z2Nat.id by lia. apply (ad_land maxSessions m m (mkGate (maxSessions - 1) false)). lia.
Qed.

(** ** A run of the server *)

Module ServerDemo.
#[local] Instance json_announce : JSON Announce :=
  {| Marshal a := Ok (bytes_of (a_Name a)); Unmarshal b := Ok (mkAnnounce (string_of b) "video" "") |}.
#[local] Instance json_unannounce : JSON Unannounce :=
  {| Marshal u := Ok (bytes_of (un_Name u)); Unmarshal b := Ok (mkUnannounce (string_of b)) |}.

(** A recorder that counts the units written to it. *)
Definition counter : recorder (W := nat) := fun _ _ _ w => S w.
Definition run_add name kind (c : core nat) : core nat :=
  from_option fst c (AddTrackSpec demo_feed 4 (mkTrackSpec name kind 0 x00) c ([] : list (session unit))).
Definition run_publish seq key (c : core nat) : core nat :=
  from_option id c (publishAt 0 (au0 seq key 1) (elements (receivers c 0)) (fun _ => (0, 0)%nat) c).
Definition demo_identity : identity := mkIdentity "sid" [] "1" "t" "" ∅.
Definition run_end (c : core nat) : core nat :=
  from_option id c (endSession map_to_list map_to_list false 0 0 demo_identity no_outbound c).

Definition d1 : core nat := run_add "video" "" (newCore 60 0%nat).
Definition d2 : core nat := from_option id d1 (AttachRecorder counter (map_to_list (sv_tracks d1)) d1).
Definition d3 : core nat := run_add "chat" KindTokens d2.
Definition d4 : core nat := run_publish 12 false (run_publish 11 false (run_publish 10 true d3)).
Definition d5 : core nat := run_publish 13 false (run_end d4).

(** A computed step of a run. *)
Lemma demo_step n k (c c' : core nat) oc :
  sv_reach (W' := unit) 60 0%nat n c -> sv_step (W' := unit) k c oc -> oc = Some c' ->
  sv_reach (W' := unit) 60 0%nat (k + n) c'.
Proof. intros Hr Hs ->. by eapply reach_step. Qed.

Lemma demo_add n name kind c c' :
  sv_reach (W' := unit) 60 0%nat n c ->
  AddTrackSpec demo_feed 4 (mkTrackSpec name kind 0 x00) c ([] : list (session unit)) = Some (c', []) ->
  sv_reach (W' := unit) 60 0%nat n c'.
Proof.
  intros Hr E. apply (demo_step n 0 c c' _ Hr (sv_add demo_feed 4 (mkTrackSpec name kind 0 x00) c [])). by rewrite E.
Qed.

Lemma demo_publish n seq key c c' o :
  sv_reach (W' := unit) 60 0%nat n c -> sv_bcs c !! 0%nat = Some o ->
  publishAt 0 (au0 seq key 1) (elements (receivers c 0)) (fun _ => (0, 0)%nat) c = Some c' ->
  sv_reach (W' := unit) 60 0%nat n c'.
Proof.
  intros Hr Ho E. apply (demo_step n 0 c c' _ Hr (sv_publish c 0 (au0 seq key 1) _ (fun _ => (0, 0)%nat)
    (ex_intro _ o Ho) (Permutation_refl _))). exact E.
Qed.

Lemma demo_reach3 : sv_reach (W' := unit) 60 0%nat 1 d3.
Proof.
  eapply (demo_add 1 "chat" KindTokens d2); [|by vm_compute].
  apply (demo_step 0 1 d1 d2 _) with (2 := sv_attach counter d1 (map_to_list (sv_tracks d1)) (Permutation_refl _)); [|by vm_compute].
  eapply (demo_add 0 "video" ""); [apply reach_new|by vm_compute].
Qed.

Lemma no_receivers : ob_allocated d4 no_outbound.
Proof. intros name i x Hi. by apply elem_of_nil in Hi. Qed.

Lemma demo_reach5 : sv_reach (W' := unit) 60 0%nat 1 d5.
Proof.
  eapply (demo_publish 1 13 false (run_end d4)); [|by vm_compute|by vm_compute].
  apply (demo_step 1 0 d4 (run_end d4) _) with
    (2 := sv_end map_to_list map_to_list false 0 0 demo_identity no_outbound d4
            (fun m => Permutation_refl _) (fun m => Permutation_refl _) no_receivers); [|by vm_compute].
  eapply (demo_publish 1 12 false (run_publish 11 false (run_publish 10 true d3))); [|by vm_compute|by vm_compute].
  eapply (demo_publish 1 11 false (run_publish 10 true d3)); [|by vm_compute|by vm_compute].
  eapply (demo_publish 1 10 true d3); [apply demo_reach3|by vm_compute|by vm_compute].
Qed.
Lemma server_never_panics_witness :
  publishAt 0 (au0 14 true 1) (elements (receivers d5 0)) (fun _ => (0, 0)%nat) d5 <> None.
Proof.
  apply (server_never_panics (W' := unit) 60 0%nat 1 0 d5 _ demo_reach5); [lia|].
  apply sv_publish; [vm_compute; by eexists|done].
Defined.

(** The counter, attached between the two tracks, sees the units of both. *)
Lemma recorders_see_every_unit_witness :
  exists t c', sv_tracks d5 !! "chat"%string = Some t /\
    publishAt (te_bc t) (au0 1 false 1) (elements (receivers d5 (te_bc t))) (fun _ => (0, 0)%nat) d5 = Some c' /\
    sv_world c' = 5%nat.
Proof.
  destruct (recorders_see_every_unit (W' := unit) 60 0%nat 1 d5 "chat" (mkTrackEntry KindTokens 2 x00 1) (au0 1 false 1)
    (elements (receivers d5 1)) (fun _ => (0, 0)%nat) demo_reach5) as (o & c' & _ & E & _ & H).
  - lia.
  - by vm_compute.
  - done.
  - exists (mkTrackEntry KindTokens 2 x00 1), c'. split_and!; [by vm_compute|exact E|]. rewrite H. by vm_compute.
Defined.

Definition demo_peer : session unit := newSession
  (applyDefaults (mkSessionConfig "slug" None None None (mkRateLimit 0 0 0 0) []
    (mkSDP "h264" 0 0 0 (float64 0) (float64 0) "" [] "") 0 0 0 demo_feed 0 None None None))
  0 (mkReader [] EOF) (mkWriter [] []) tt.

(** A session that has not sent its Hello is announced the track all the same. *)
Lemma add_track_reaches_every_session_witness :
  exists c' s' k, AddTrackSpec demo_feed 4 (mkTrackSpec "audio" KindAudio 0 x00) d5 [demo_peer] = Some (c', [s']) /\
    SessionID (ss_id s') = ""%string /\ w_out (ss_out s') = take k (control_bytes TypeAnnounce (bytes_of "audio")).
Proof.
  destruct (sv_reach_ok (W' := unit) 60 0%nat 1 d5 demo_reach5) as [own Hok]; [lia|].
  destruct (add_track_reaches_every_session 1 own d5 [demo_peer] demo_feed 4 (mkTrackSpec "audio" KindAudio 0 x00)
    (bytes_of "audio") Hok) as (c' & ss' & b & refs & E & _ & _ & _ & Hl & _ & H).
  - lia.
  - constructor; [|constructor]. apply no_outbound_ok.
  - by vm_compute.
  - by vm_compute.
  - destruct (H 0%nat demo_peer eq_refl) as (a & r & s' & k & _ & Hs & _ & _ & Hid & _ & Ho).
    destruct ss' as [|s1 [|]]; [discriminate Hl| |discriminate Hl]. injection Hs as ->.
    exists c', s', k. split_and!; [exact E|by rewrite Hid|exact Ho].
Defined.

Definition demo_ob : outbound :=
  AttachTrackWithKind demo_feed [] "video" KindVideo (recv_id (0, 0)%nat) 4 x00 no_outbound.

Lemma demo_ob_allocated : ob_allocated d5 demo_ob.
Proof.
  intros name i x Hi Hx. apply allocated_receiver. revert Hi. unfold Receivers, demo_ob, AttachTrackWithKind.
  cbn [ob_tracks ob_pumps no_outbound]. rewrite lookup_empty. cbn [ob_tracks ob_pumps].
  destruct (decide (name = "video"%string)) as [-> | Hne].
  - rewrite lookup_insert_eq, lookup_insert_eq. intros ->%list_elem_of_singleton. cbn [tp_recv] in Hx.
    rewrite recv_ref_id in Hx. injection Hx as <-. vm_compute. by eexists.
  - rewrite lookup_insert_ne, lookup_empty by done. intros []%elem_of_nil.
Qed.

Lemma end_session_releases_receivers_witness :
  exists c', endSession map_to_list map_to_list false 5 6 (mkIdentity "sid2" [] "1" "t" "" ∅) demo_ob d5 = Some c' /\
    (0%nat ∉ receivers c' 0) /\ is_Some (byID (sv_parked c') !! scopedKey "t" "sid2").
Proof.
  destruct (sv_reach_ok (W' := unit) 60 0%nat 1 d5 demo_reach5) as [own Hok]; [lia|].
  destruct (end_session_releases_receivers map_to_list map_to_list 1 own d5 (mkIdentity "sid2" [] "1" "t" "" ∅) demo_ob
    false 5 6) as (c' & E & _ & _ & Hrel & Hpark).
  - done.
  - by intros m.
  - exact Hok.
  - apply demo_ob_allocated.
  - exists c'. split_and!; [exact E| |].
    + apply (Hrel "video"%string (mkTrackEntry KindVideo 4 x00 0) (recv_id (0, 0)%nat) (0, 0)%nat); [by vm_compute| |by vm_compute|done].
      apply (bool_decide_unpack _). by vm_compute.
    + rewrite decide_False in Hpark by (intros [Hc|Hc]; discriminate Hc).
      destruct Hpark as (parked & refs & Hk & _). cbn [Tenant SessionID] in Hk. rewrite Hk. by eexists.
Defined.

Definition demo_recvs : gmap string nat := {[ "video"%string := recv_id (0, 0)%nat ]}.

(** The parked receiver of the video track: the cached keyframe and the unit
    published since. *)
Lemma holds_Some {A} (P : A -> Prop) x : from_option P False x -> exists a, x = Some a /\ P a.
Proof. destruct x as [a|]; [by exists a|done]. Qed.

Lemma demo_resuming : exists r o, resuming d5 demo_recvs "video" (mkTrackEntry KindVideo 4 x00 0) (0, 0)%nat r o /\
  au_Seq <$> ch_buf (r_ch r) = [10; 13] /\ ch_cap (r_ch r) = Z.to_nat parkedChanCap /\
  au_Seq <$> replaySnapshotLocked (b_replay (bo_bc o)) = [10; 11; 12; 13].
Proof.
  assert (from_option (fun r => au_Seq <$> ch_buf (r_ch r) = [10; 13] /\ ch_cap (r_ch r) = Z.to_nat parkedChanCap /\
            r_closed r = false) False (receiverAt d5 (0, 0)%nat)) as Hr by (vm_compute; split_and!; reflexivity).
  assert (from_option (fun o => au_Seq <$> replaySnapshotLocked (b_replay (bo_bc o)) = [10; 11; 12; 13]) False
            (sv_bcs d5 !! 0%nat)) as Ho by (vm_compute; reflexivity).
  apply holds_Some in Hr as (r & Er & H1 & H2 & H3). apply holds_Some in Ho as (o & Eo & Ho). exists r, o.
  split_and!; [|exact H1|exact H2|exact Ho].
  split; [vm_compute; reflexivity|vm_compute; reflexivity|exact Er|exact H3|exact Eo].
Qed.

Definition map_values (m : gmap Z AccessUnit) : list AccessUnit := (map_to_list m).*2.

(** The client has seen 10; 11 and 12 were lost with the connection. *)
Lemma resume_gap_free_witness :
  exists c' r', resumeTrack map_values demo_recvs d5 ("video"%string, 10) = Some c' /\
    receiverAt c' (0, 0)%nat = Some r' /\ (12 ∈ (au_Seq <$> ch_buf (r_ch r'))) /\
    StronglySorted Z.lt (au_Seq <$> ch_buf (r_ch r')).
Proof.
  destruct (sv_reach_ok (W' := unit) 60 0%nat 1 d5 demo_reach5) as [own Hok]; [lia|].
  destruct demo_resuming as (r & o & Hrs & Hq & Hcap & Hring).
  destruct (resume_gap_free map_values 1 own d5 demo_recvs "video" (mkTrackEntry KindVideo 4 x00 0) (0, 0)%nat r o 10 [])
    as (c' & r' & E & Hx & Hlog & Hs & _).
  - by intros m.
  - exact Hok.
  - exact Hrs.
  - lia.
  - cbn [app]. rewrite Hring. repeat constructor.
  - rewrite Hq. repeat constructor.
  - destruct (replaySnapshotLocked (b_replay (bo_bc o))) as [|u0 l]; [discriminate Hring|].
    injection Hring as Hu _. left. lia.
  - rewrite Hcap. apply (f_equal length) in Hq, Hring. rewrite length_fmap in Hq, Hring. rewrite Hq.
    etrans; [apply Nat.add_le_mono_l, length_filter|]. rewrite Hring. vm_compute. lia.
  - exists c', r'. split_and!; [exact E|exact Hx| |exact Hs].
    assert (12 ∈ (au_Seq <$> replaySnapshotLocked (b_replay (bo_bc o)))) as Hin by (rewrite Hring; do 2 right; left).
    apply list_elem_of_fmap in Hin as (u & Hu & Hin). rewrite Hu. apply Hlog; [exact Hin|]. rewrite <- Hu. lia.
Defined.

(** A client that has seen only 3 waits for a keyframe. *)
Lemma resume_gap_reported_witness :
  exists c' r, resumeTrack map_values demo_recvs d5 ("video"%string, 3) = Some c' /\
    receiverAt c' (0, 0)%nat = Some (mkReceiver (r_ch r) (r_closed r) true).
Proof.
  destruct (sv_reach_ok (W' := unit) 60 0%nat 1 d5 demo_reach5) as [own Hok]; [lia|].
  destruct demo_resuming as (r & o & Hrs & _ & _ & Hring).
  destruct (resume_gap_reported map_values 1 own d5 demo_recvs "video" (mkTrackEntry KindVideo 4 x00 0) (0, 0)%nat r o 3)
    as (c' & E & H).
  - exact Hok.
  - exact Hrs.
  - lia.
  - intros E. rewrite E in Hring. discriminate Hring.
  - apply Forall_forall. intros u Hu. assert (au_Seq u ∈ [10; 11; 12; 13]) as Hin
      by (rewrite <- Hring; by apply list_elem_of_fmap_2).
    repeat (apply elem_of_cons in Hin as [-> | Hin]; [lia|]). by apply elem_of_nil in Hin.
  - rewrite decide_True in H by (by left). exists c', r. split; [exact E|apply H].
Defined.

(** Two clients at once pass a cap of one. *)
Lemma admission_exact_witness : ad_steps 1 2 no_sessions (mkAdmission (mkGate 2 false) 0).
Proof. apply (admission_exact 1 2); lia. Defined.
End ServerDemo.
