(* ===== verification/Client.v ===== *)
(** * Package client: the subscriber

    [client/client.go] and [Unpublish] of [client/transport.go]: the per-track
    receive queues, the control stream, the handshake, tracks published back to
    the server, and the end of the session.

    A queue or a done channel is an object that drain goroutines and blocked
    receives keep using after its name is gone, so both kinds live in stores and
    the tables hold addresses.  The webtransport session is the bytes read from
    and written to the control stream, and one reader per accepted stream.
    [None] is a panic.  A wrapped error ([%w]) is the error it wraps. *)

From Stdlib Require Import Strings.Ascii.
From S2P Require Import Prelude Wire Track Replay Pubsub PubsubCalls RateLimit Pump DataChannel Inbound KindStats.

Definition DefaultClientFeatures : list string :=
  ["resume"; "backpressure"; "publishback"; "stream-header"; "kind-stats"].

Record Options := mkOptions {
  o_CertHashB64URL : string;
  o_InsecureSkipVerify : bool;
  o_Slug : string;
  o_HelloTimeout : Z;
  o_SessionID : string;
  o_LastSeenSeq : gmap string Z;
  o_Features : option (list string); (* [None]: a nil slice *)
  o_DataInboundBuffer : Z;
}.

(** ** The receive tables (under [feedMu]) *)

Record feeds := mkFeeds {
  fd_tracks : gmap string nat;
  fd_chans : gmap nat (chan AccessUnit);
  fd_trackDone : gmap string nat;
  fd_dones : gmap nat bool; (* is the done channel closed? *)
  fd_remoteTracks : gmap string Announce;
}.

Definition trackChan (name : string) (f : feeds) : nat * feeds :=
  match fd_tracks f !! name with
  | Some a => (a, f)
  | None =>
      let a := fresh (dom (fd_chans f)) in
      (a, mkFeeds (<[name := a]> (fd_tracks f)) (<[a := make_chan AccessUnit 16]> (fd_chans f))
            (fd_trackDone f) (fd_dones f) (fd_remoteTracks f))
  end.

Definition trackDoneChan (name : string) (f : feeds) : nat * feeds :=
  match fd_trackDone f !! name with
  | Some d => (d, f)
  | None =>
      let d := fresh (dom (fd_dones f)) in
      (d, mkFeeds (fd_tracks f) (fd_chans f) (<[name := d]> (fd_trackDone f)) (<[d := false]> (fd_dones f))
            (fd_remoteTracks f))
  end.

(** The locked part of [handleRemoteAnnounce]. *)
Definition setRemoteTrack (a : Announce) (f : feeds) : feeds :=
  mkFeeds (fd_tracks f) (fd_chans f) (fd_trackDone f) (fd_dones f) (<[a_Name a := a]> (fd_remoteTracks f)).

Definition handleRemoteAnnounce (a : Announce) (f : feeds) : feeds :=
  setRemoteTrack a (trackChan (a_Name a) f).2.

Definition handleRemoteUnannounce (u : Unannounce) (f : feeds) : option feeds :=
  let tracks := delete (un_Name u) (fd_tracks f) in
  let remote := delete (un_Name u) (fd_remoteTracks f) in
  match fd_trackDone f !! un_Name u with
  | None => Some (mkFeeds tracks (fd_chans f) (fd_trackDone f) (fd_dones f) remote)
  | Some d =>
      closed ← fd_dones f !! d;
      if closed : bool then None
      else Some (mkFeeds tracks (fd_chans f) (delete (un_Name u) (fd_trackDone f)) (<[d := true]> (fd_dones f))
                   remote)
  end.

(** The names [RemoteTracks] lists, as a set. *)
Definition RemoteTracks (f : feeds) : gset string := dom (fd_remoteTracks f).

Definition kindForTrack (name : string) (f : feeds) : string :=
  match fd_remoteTracks f !! name with Some a => a_Kind a | None => ""%string end.

(** ** Outbound tracks (under [pubMu]) *)

(** A feed pump that [Publish] has started on a receiver of a broadcaster. *)
Record pumpRun := mkPumpRun { pr_cfg : Config; pr_bc : nat; pr_recv : nat; pr_cancelled : bool }.

(** [pubCancels] holds the indices of the pumps it can cancel. *)
Record published := mkPublished {
  pb_tracks : gmap string nat;
  pb_bcs : gmap nat (store unit);
  pb_pumps : list pumpRun;
  pb_cancels : list nat;
}.

Record clientSender := mkClientSender { cs_name : string; cs_bc : nat }.

Definition clientPublishDelivery (k : Kind) : Z :=
  if decide (k = KindVideo \/ k = ""%string) then DeliveryStreamGOP else DeliveryStreamLowLatency.

Definition removePubTrack (name : string) (p : published) : published :=
  mkPublished (delete name (pb_tracks p)) (pb_bcs p) (pb_pumps p) (pb_cancels p).

Definition cancelPumps (p : published) : published :=
  mkPublished (pb_tracks p) (pb_bcs p)
    (foldl (fun ps i => alter (fun r => mkPumpRun (pr_cfg r) (pr_bc r) (pr_recv r) true) i ps)
       (pb_pumps p) (pb_cancels p)) [].

(** ** The client *)

Record Client := mkClient {
  c_closed : bool; (* [closed] is closed: [closeOnce] has run *)
  c_sdp : option SDP; (* [None]: the zero value before the handshake *)
  c_assignedSessionID : string;
  c_negotiatedFeatures : list string;
  c_requestedSessionID : string;
  c_requestedLastSeen : gmap string Z;
  c_declaredFeatures : option (list string);
  c_dc : Channel;
  c_feed : feeds;
  c_feedErr : chan (option error);
  c_lastSeenSeq : gmap string Z;
  c_kindStats : option kindStatsCollector;
  c_pub : published;
  c_ctl : reader;
  c_out : writer;
}.

Definition with_feed (c : Client) (f : feeds) : Client :=
  mkClient (c_closed c) (c_sdp c) (c_assignedSessionID c) (c_negotiatedFeatures c) (c_requestedSessionID c)
    (c_requestedLastSeen c) (c_declaredFeatures c) (c_dc c) f (c_feedErr c) (c_lastSeenSeq c) (c_kindStats c)
    (c_pub c) (c_ctl c) (c_out c).
Definition with_chan (c : Client) (dc : Channel) : Client :=
  mkClient (c_closed c) (c_sdp c) (c_assignedSessionID c) (c_negotiatedFeatures c) (c_requestedSessionID c)
    (c_requestedLastSeen c) (c_declaredFeatures c) dc (c_feed c) (c_feedErr c) (c_lastSeenSeq c) (c_kindStats c)
    (c_pub c) (c_ctl c) (c_out c).
Definition with_feedErr (c : Client) (e : chan (option error)) : Client :=
  mkClient (c_closed c) (c_sdp c) (c_assignedSessionID c) (c_negotiatedFeatures c) (c_requestedSessionID c)
    (c_requestedLastSeen c) (c_declaredFeatures c) (c_dc c) (c_feed c) e (c_lastSeenSeq c) (c_kindStats c)
    (c_pub c) (c_ctl c) (c_out c).
Definition with_seen (c : Client) (m : gmap string Z) : Client :=
  mkClient (c_closed c) (c_sdp c) (c_assignedSessionID c) (c_negotiatedFeatures c) (c_requestedSessionID c)
    (c_requestedLastSeen c) (c_declaredFeatures c) (c_dc c) (c_feed c) (c_feedErr c) m (c_kindStats c)
    (c_pub c) (c_ctl c) (c_out c).
Definition with_stats (c : Client) (k : option kindStatsCollector) : Client :=
  mkClient (c_closed c) (c_sdp c) (c_assignedSessionID c) (c_negotiatedFeatures c) (c_requestedSessionID c)
    (c_requestedLastSeen c) (c_declaredFeatures c) (c_dc c) (c_feed c) (c_feedErr c) (c_lastSeenSeq c) k
    (c_pub c) (c_ctl c) (c_out c).
Definition with_pub (c : Client) (p : published) : Client :=
  mkClient (c_closed c) (c_sdp c) (c_assignedSessionID c) (c_negotiatedFeatures c) (c_requestedSessionID c)
    (c_requestedLastSeen c) (c_declaredFeatures c) (c_dc c) (c_feed c) (c_feedErr c) (c_lastSeenSeq c)
    (c_kindStats c) p (c_ctl c) (c_out c).
Definition with_reader (c : Client) (r : reader) : Client :=
  mkClient (c_closed c) (c_sdp c) (c_assignedSessionID c) (c_negotiatedFeatures c) (c_requestedSessionID c)
    (c_requestedLastSeen c) (c_declaredFeatures c) (c_dc c) (c_feed c) (c_feedErr c) (c_lastSeenSeq c)
    (c_kindStats c) (c_pub c) r (c_out c).
Definition with_writer (c : Client) (w : writer) : Client :=
  mkClient (c_closed c) (c_sdp c) (c_assignedSessionID c) (c_negotiatedFeatures c) (c_requestedSessionID c)
    (c_requestedLastSeen c) (c_declaredFeatures c) (c_dc c) (c_feed c) (c_feedErr c) (c_lastSeenSeq c)
    (c_kindStats c) (c_pub c) (c_ctl c) w.
Definition with_closed (c : Client) : Client :=
  mkClient true (c_sdp c) (c_assignedSessionID c) (c_negotiatedFeatures c) (c_requestedSessionID c)
    (c_requestedLastSeen c) (c_declaredFeatures c) (c_dc c) (c_feed c) (c_feedErr c) (c_lastSeenSeq c)
    (c_kindStats c) (c_pub c) (c_ctl c) (c_out c).
(** What the SDP assigns. *)
Definition with_sdp (c : Client) (sdp : SDP) : Client :=
  mkClient (c_closed c) (Some sdp) (sdp_SessionID sdp) (sdp_Features sdp) (c_requestedSessionID c)
    (c_requestedLastSeen c) (c_declaredFeatures c) (c_dc c) (c_feed c) (c_feedErr c) (c_lastSeenSeq c)
    (c_kindStats c) (c_pub c) (c_ctl c) (c_out c).

(** The composite literal of [Dial] and the data channel made after it. *)
Definition newClient (opts : Options) (ctl : reader) (out : writer) : Client :=
  mkClient false None "" [] (o_SessionID opts) (o_LastSeenSeq opts) (o_Features opts)
    (dc_New (if o_DataInboundBuffer opts <=? 0 then 64 else o_DataInboundBuffer opts))
    (mkFeeds {["primary"%string := 0%nat]} {[0%nat := make_chan AccessUnit 16]} ∅ ∅ ∅)
    (make_chan (option error) 1) ∅ None (mkPublished ∅ ∅ [] []) ctl out.

Definition writeCtl (typ : byte) (payload : list byte) (c : Client) : option error * Client :=
  let '(e, w) := WriteControlFrame typ payload (c_out c) in (e, with_writer c w).

Definition SendData (msg : list byte) (c : Client) : option error * Client :=
  if dc_closed (c_dc c) then (Some ErrClosedPipe, c) else writeCtl TypeData msg c.

(** [body, err := v.Marshal(); if err != nil { return err }; return c.writeCtl(typ, body)]. *)
Definition writeJSON {A} `{JSON A} (typ : byte) (v : A) (c : Client) : option error * Client :=
  match Marshal v with
  | Err e => (Some e, c)
  | Ok body => writeCtl typ body c
  end.

Definition SendBackpressure `{JSON Backpressure} (trackName : string) (level : Z) (c : Client) : option error * Client :=
  writeJSON TypeBackpressure (mkBackpressure trackName level false) c.

Definition RequestKeyframe `{JSON Backpressure} (trackName : string) (c : Client) : option error * Client :=
  writeJSON TypeBackpressure (mkBackpressure trackName 100 true) c.

(** ** Receiving *)

Definition errClosed : error := ErrMsg "quicrtc/client: closed".

Definition zeroAU : AccessUnit := mkAU [] false 0 0 false 0 ∅ 0 0.

(** What [RecvOn] returns: a unit from the queue, or the zero unit next to a Go
    [error], which may be [nil]. *)
Inductive recvCase := RUnit (au : AccessUnit) | RError (err : option error).

(** As the caller sees it. *)
Definition recvResult (r : recvCase) : result AccessUnit :=
  match r with
  | RUnit au => Ok au
  | RError None => Ok zeroAU
  | RError (Some e) => Err e
  end.

Definition endError (c : Client) : option error * Client :=
  match try_recv (c_feedErr c) with
  | Got err ch => (err, with_feedErr c ch)
  | RecvEmpty => (Some errClosed, c)
  | RecvClosed => (None, c)
  end.

Definition observeSeq (trackName : string) (seq : Z) (m : gmap string Z) : gmap string Z :=
  match m !! trackName with
  | Some prev => if seq >? prev then <[trackName := seq]> m else m
  | None => <[trackName := seq]> m
  end.

Definition LastSeenSeq (c : Client) : gmap string Z := c_lastSeenSeq c.

(** [RecvOn] up to its [select]: the two channels it waits on. *)
Definition recvBegin (trackName : string) (c : Client) : nat * nat * Client :=
  let '(a, f) := trackChan trackName (c_feed c) in
  let '(d, f) := trackDoneChan trackName f in
  (a, d, with_feed c f).

(** The [select] of [RecvOn] on the queue [a] and the done channel [d]: any
    ready case may be taken.  [ctxErr] is the state of the caller's context. *)
Inductive recvSelect (ctxErr : option error) (trackName : string) (a d : nat) (c : Client)
    : recvCase -> Client -> Prop :=
  | rs_unit ch au ch' :
      fd_chans (c_feed c) !! a = Some ch -> try_recv ch = Got au ch' ->
      recvSelect ctxErr trackName a d c (RUnit au)
        (with_seen (with_feed c (mkFeeds (fd_tracks (c_feed c)) (<[a := ch']> (fd_chans (c_feed c)))
                                   (fd_trackDone (c_feed c)) (fd_dones (c_feed c)) (fd_remoteTracks (c_feed c))))
           (observeSeq trackName (au_Seq au) (c_lastSeenSeq c)))
  | rs_chan_closed ch :
      fd_chans (c_feed c) !! a = Some ch -> try_recv ch = RecvClosed ->
      recvSelect ctxErr trackName a d c (RError (endError c).1) (endError c).2
  | rs_feedErr err ch :
      try_recv (c_feedErr c) = Got err ch ->
      recvSelect ctxErr trackName a d c (RError err) (with_feedErr c ch)
  | rs_done :
      fd_dones (c_feed c) !! d = Some true -> recvSelect ctxErr trackName a d c (RError (Some EOF)) c
  | rs_ctx e : ctxErr = Some e -> recvSelect ctxErr trackName a d c (RError (Some e)) c
  | rs_closed :
      c_closed c = true -> recvSelect ctxErr trackName a d c (RError (endError c).1) (endError c).2.

(** ** Publishing back *)

Section Publish.
Context `{JSON Announce, JSON Unannounce}.

Definition publishConfig (name : string) (kind : Kind) : Config :=
  mkPumpConfig 0 0 name (u8 (DefaultPriority kind)) false (clientPublishDelivery kind) false false x00 false 0 0
    false false false.

(** The broadcaster of a new outbound track, registered under [name]. *)
Definition newPubTrack (name : string) (kind : Kind) (p : published) : nat * published :=
  let b := NewBroadcaster 0 in
  let b := if decide (kind <> KindVideo /\ kind <> ""%string) then SetSelfContained true b else b in
  let a := fresh (dom (pb_bcs p)) in
  (a, mkPublished (<[name := a]> (pb_tracks p)) (<[a := mkStore ∅ b tt]> (pb_bcs p)) (pb_pumps p) (pb_cancels p)).

(** The pump of [Publish]: [feed.New] and a goroutine that runs it on a new
    receiver of the broadcaster, with its canceller in [pubCancels]. *)
Definition spawnPump (name : string) (kind : Kind) (b : nat) (p : published) : option published :=
  s ← pb_bcs p !! b;
  res ← Subscribe s;
  Some (mkPublished (pb_tracks p) (<[b := res.2]> (pb_bcs p))
          (pb_pumps p ++ [mkPumpRun (New (publishConfig name kind)) b res.1 false])
          (pb_cancels p ++ [length (pb_pumps p)])).

Definition publishName (lt : LocalTrack) : string :=
  if decide (lt_Name lt = ""%string) then "primary" else lt_Name lt.

Definition Publish (lt : LocalTrack) (c : Client) : option (result clientSender * Client) :=
  if c_closed c then Some (Err errClosed, c)
  else
    let name := publishName lt in
    match pb_tracks (c_pub c) !! name with
    | Some b => Some (Ok (mkClientSender name b), c)
    | None =>
        let '(b, p) := newPubTrack name (lt_Kind lt) (c_pub c) in
        let c := with_pub c p in
        match writeJSON TypeAnnounce (mkAnnounce name (lt_Kind lt) (lt_Codec lt)) c with
        | (Some e, c) => Some (Err e, with_pub c (removePubTrack name (c_pub c)))
        | (None, c) =>
            p ← spawnPump name (lt_Kind lt) b (c_pub c);
            Some (Ok (mkClientSender name b), with_pub c p)
        end
    end.

(** [bc.Publish(au)] on the broadcaster at [b]; [order] and [sched] are those
    of [Pubsub.Publish]. *)
Definition publishAt (b : nat) (au : AccessUnit) (order : list nat) (sched : nat -> nat * nat) (p : published)
    : option published :=
  s ← pb_bcs p !! b;
  s ← Pubsub.Publish s au order sched;
  Some (mkPublished (pb_tracks p) (<[b := s]> (pb_bcs p)) (pb_pumps p) (pb_cancels p)).

Definition Send (s : clientSender) (au : AccessUnit) (order : list nat) (sched : nat -> nat * nat) (c : Client)
    : option (option error * Client) :=
  if c_closed c then Some (Some errClosed, c)
  else p ← publishAt (cs_bc s) au order sched (c_pub c); Some (None, with_pub c p).

(** [body, err := u.Marshal(); if err == nil { _ = c.writeCtl(...) }]. *)
Definition unannounce (name : string) (c : Client) : Client := (writeJSON TypeUnannounce (mkUnannounce name) c).2.

(** [Close] of a [clientSender]. *)
Definition senderClose (s : clientSender) (c : Client) : Client :=
  let c := unannounce (cs_name s) c in with_pub c (removePubTrack (cs_name s) (c_pub c)).

(** [Unpublish] of the transport adapter, on a connected client. *)
Definition Unpublish (name : string) (order : list nat) (c : Client) : option Client :=
  match pb_tracks (c_pub c) !! name with
  | None => Some c
  | Some b =>
      let c := unannounce name (with_pub c (removePubTrack name (c_pub c))) in
      s ← pb_bcs (c_pub c) !! b;
      s ← Pubsub.Close s order;
      Some (with_pub c (mkPublished (pb_tracks (c_pub c)) (<[b := s]> (pb_bcs (c_pub c))) (pb_pumps (c_pub c))
                          (pb_cancels (c_pub c))))
  end.
End Publish.

(** ** The end of the session *)

Definition Close (c : Client) : option Client :=
  if c_closed c then Some c
  else
    let c := with_closed c in
    let c := with_pub c (cancelPumps (c_pub c)) in
    dc ← dc_Close (c_dc c);
    Some (writeCtl TypeClose [] (with_chan c dc)).2.

(** The non-blocking send of [fail]. *)
Definition pushFeedErr (err : option error) (c : Client) : option Client :=
  match try_send (c_feedErr c) err with
  | Sent ch => Some (with_feedErr c ch)
  | SendFull => Some c
  | SendPanic => None
  end.

Definition fail (err : option error) (c : Client) : option Client :=
  c ← pushFeedErr err c; Close c.

(** ** The handshake *)

Definition hexDigit (n : Z) : string :=
  default ""%string ((fun a => String a EmptyString) <$> String.get (Z.to_nat n) "0123456789abcdef").

(** [%#x] of a byte. *)
Definition hexByte (b : byte) : string :=
  let z := Z_of_byte b in
  let high := if z <? 16 then ""%string else hexDigit (z / 16) in
  ("0x" +:+ high +:+ hexDigit (z mod 16)%Z)%string.

Section Handshake.
Context `{JSON Hello, JSON SDP}.

Definition helloOf (slug : string) (c : Client) : Hello :=
  mkHello "recv" slug CurrentVersion "" "" (c_requestedSessionID c)
    (default DefaultClientFeatures (c_declaredFeatures c)) (c_requestedLastSeen c).

Definition handshake (slug : string) (c : Client) : option error * Client :=
  match Marshal (helloOf slug c) with
  | Err e => (Some e, c)
  | Ok hb =>
  match writeCtl TypeHello hb c with
  | (Some e, c) => (Some e, c)
  | (None, c) =>
  match ReadControlFrame (c_ctl c) with
  | (Err e, r) => (Some e, with_reader c r)
  | (Ok (t, payload), r) =>
  let c := with_reader c r in
  if bool_decide (t = TypeError) then (Some (ErrMsg ("server rejected: " +:+ string_of payload)), c)
  else if negb (bool_decide (t = TypeSDP)) then (Some (ErrMsg ("expected SDP, got " +:+ hexByte t)), c)
  else match Unmarshal payload with
       | Err e => (Some e, c)
       | Ok sdp => (None, with_sdp c sdp)
       end
  end end end.

Definition featureKindStats : string := "kind-stats".

Definition hasNegotiatedFeature (feat : string) (c : Client) : bool :=
  bool_decide (feat ∈ c_negotiatedFeatures c).

(** [Dial] once the control stream is open; the slug comes from [parseURL]. *)
Definition dialSession (opts : Options) (slug : string) (ctl : reader) (out : writer)
    : option (option error * Client) :=
  match handshake slug (newClient opts ctl out) with
  | (Some e, c) => c ← Close c; Some (Some e, c)
  | (None, c) =>
      Some (None, if hasNegotiatedFeature featureKindStats c then with_stats c (Some newKindStatsCollector) else c)
  end.
End Handshake.

(** ** The control reader *)

Section Control.
Context `{JSON Announce, JSON Unannounce}.

Inductive client_outcome := KContinue (c : Client) | KReturn (c : Client).

(** One round of [controlReader] after a successful read. *)
Definition controlFrame (t : byte) (payload : list byte) (c : Client) : option client_outcome :=
  if bool_decide (t = TypePing) then Some (KContinue (writeCtl TypePong payload c).2)
  else if bool_decide (t = TypePong) then Some (KContinue c)
  else if bool_decide (t = TypeData) then
    dc ← dc_Deliver (c_dc c) payload; Some (KContinue (with_chan c dc))
  else if bool_decide (t = TypeAnnounce) then
    match Unmarshal payload with
    | Ok a => Some (KContinue (with_feed c (handleRemoteAnnounce a (c_feed c))))
    | Err _ => Some (KContinue c)
    end
  else if bool_decide (t = TypeUnannounce) then
    match Unmarshal payload with
    | Ok u => f ← handleRemoteUnannounce u (c_feed c); Some (KContinue (with_feed c f))
    | Err _ => Some (KContinue c)
    end
  else if bool_decide (t = TypeError) then
    c ← fail (Some (ErrMsg ("server error: " +:+ string_of payload))) c; Some (KReturn c)
  else if bool_decide (t = TypeClose) then
    c ← fail None c; Some (KReturn c)
  else Some (KContinue c).

(** [fuel] bounds the frames handled; every frame consumes bytes. *)
Fixpoint controlRounds (fuel : nat) (c : Client) : option Client :=
  match fuel with
  | O => Some c
  | S fuel' =>
      match ReadControlFrame (c_ctl c) with
      | (Err _, r) => Some (with_reader c r)
      | (Ok (t, payload), r) =>
          o ← controlFrame t payload (with_reader c r);
          match o with
          | KContinue c => controlRounds fuel' c
          | KReturn c => Some c
          end
      end
  end.

Definition controlReader (c : Client) : option Client := controlRounds (S (length (rd_data (c_ctl c)))) c.
End Control.

(** ** Streams *)

Definition feedAU (f : FeedFrame) : AccessUnit :=
  mkAU (ff_Payload f) (IsKeyframe f) (ff_PTSMicro f) (ff_Seq f)
    (negb (band (ff_Flags f) FlagDiscontinuity =? 0)) (ff_PubWallMicro f) ∅ 0 0.

(** [c.kindStats.observe(...)] when there is a collector; [now] is the clock. *)
Definition observeFrame (kind : string) (f : FeedFrame) (now : Z) (c : Client) : Client :=
  with_stats c (observe kind (ff_Seq f) (ff_PubWallMicro f) now <$> c_kindStats c).

(** A drain goroutine ([drainFeed] and [drainBidi]) between two synchronizing
    operations. *)
Inductive drain :=
  | KPeek (stream : reader)
  | KChan (name : string) (src : reader)
  | KKind (a : nat) (name : string) (src : reader)
  | KRead (a : nat) (kind : string) (src : reader)
  | KSend (a : nat) (kind : string) (au : AccessUnit) (src : reader)
  | KExit.

(** One step of a drain goroutine.  In the [select] a full queue blocks, a
    closed client ends the goroutine, and when both cases are ready either is
    taken. *)
Inductive drainStep : drain -> Client -> option (drain * Client) -> Prop :=
  | ds_peek stream c :
      drainStep (KPeek stream) c
        (Some (match drainHeader stream with Some (name, src) => KChan name src | None => KExit end, c))
  | ds_chan name src c :
      drainStep (KChan name src) c
        (Some (KKind (trackChan name (c_feed c)).1 name src, with_feed c (trackChan name (c_feed c)).2))
  | ds_kind a name src c :
      drainStep (KKind a name src) c (Some (KRead a (kindForTrack name (c_feed c)) src, c))
  | ds_end a kind src c e r :
      ReadFeedFrame src = (Err e, r) -> drainStep (KRead a kind src) c (Some (KExit, c))
  | ds_frame a kind src c f r now :
      ReadFeedFrame src = (Ok f, r) ->
      drainStep (KRead a kind src) c (Some (KSend a kind (feedAU f) r, observeFrame kind f now c))
  | ds_sent a kind au src c ch ch' :
      fd_chans (c_feed c) !! a = Some ch -> try_send ch au = Sent ch' ->
      drainStep (KSend a kind au src) c
        (Some (KRead a kind src,
           with_feed c (mkFeeds (fd_tracks (c_feed c)) (<[a := ch']> (fd_chans (c_feed c)))
                          (fd_trackDone (c_feed c)) (fd_dones (c_feed c)) (fd_remoteTracks (c_feed c)))))
  | ds_send_closed a kind au src c ch :
      fd_chans (c_feed c) !! a = Some ch -> try_send ch au = SendPanic ->
      drainStep (KSend a kind au src) c None
  | ds_closed a kind au src c :
      c_closed c = true -> drainStep (KSend a kind au src) c (Some (KExit, c)).

(** ** The address and the certificate pin *)

(** [strings.Split] on a one-byte separator. *)
Fixpoint split (sep : Ascii.ascii) (s : string) : list string :=
  match s with
  | EmptyString => [""%string]
  | String a s' =>
      if decide (a = sep) then ""%string :: split sep s'
      else match split sep s' with
           | [] => [String a EmptyString]
           | w :: ws => String a w :: ws
           end
  end.

(** [strings.Cut] on a one-byte separator. *)
Fixpoint cut (sep : Ascii.ascii) (s : string) : option (string * string) :=
  match s with
  | EmptyString => None
  | String a s' =>
      if decide (a = sep) then Some (""%string, s')
      else '(k, v) ← cut sep s'; Some (String a k, v)
  end.

Definition fragmentField (sh : string * string) (kv : string) : string * string :=
  let '(slug, hash) := sh in
  match cut "="%char kv with
  | None => (slug, hash)
  | Some (k, v) =>
      if decide (k = "slug"%string) then (if decide (slug = ""%string) then v else slug, hash)
      else if decide (k = "hash"%string) then (slug, if decide (hash = ""%string) then v else hash)
      else (slug, hash)
  end.

(** What [url.Parse] splits a URL into: the part before the fragment and the
    unescaped fragment. *)
Record URL := mkURL { u_rest : string; u_Fragment : string }.

Definition parseURL (Parse : string -> result URL) (raw optsSlug optsHash : string) : result (URL * string * string) :=
  match Parse raw with
  | Err e => Err e
  | Ok u =>
      let '(slug, hash, u) :=
        if decide (u_Fragment u = ""%string) then (optsSlug, optsHash, u)
        else let '(slug, hash) := foldl fragmentField (optsSlug, optsHash) (split "&"%char (u_Fragment u)) in
             (slug, hash, mkURL (u_rest u) "") in
      if decide (slug = ""%string) then Err (ErrMsg "quicrtc/client: missing slug")
      else Ok (u, slug, hash)
  end.

Definition subtleEqual (a b : list byte) : bool :=
  if negb (length a =? length b)%nat then false
  else foldl (fun diff xy => Z.lor diff (Z.lxor (Z_of_byte xy.1) (Z_of_byte xy.2))) 0 (zip a b) =? 0.

(** The closure of [Dial]: is some presented certificate the pinned one? *)
Definition checkPin (Sum256 : list byte -> list byte) (want : list byte) (certs : list (list byte)) : option error :=
  if existsb (fun cert => subtleEqual (Sum256 cert) want) certs then None
  else Some (ErrMsg "cert hash mismatch").
