(* ===== verification/ClientRecv.v ===== *)
(** * Package client: the receive plane under every interleaving

    The drain goroutines of the accepted streams, the control reader, blocked
    [RecvOn] calls and [Close] run concurrently; every critical section and
    every channel operation is a step of its own.  The configuration carries
    ghost logs: the name each queue was made for, what each stream pushed, and
    what each receive returned. *)

From S2P Require Import Prelude Wire Track Replay Pubsub RateLimit Pump DataChannel Inbound KindStats Client.

(** A [RecvOn] call: before [trackChan], before [trackDoneChan], in the
    [select], and returned. *)
Inductive receive :=
  | VChan (name : string)
  | VDone (name : string) (a : nat)
  | VSelect (name : string) (a d : nat)
  | VReturned (res : result AccessUnit).

Record kconf := mkKConf {
  k_cl : Client;
  k_mark : option Announce;   (* the control reader is between the two sections of an announce *)
  k_drains : list drain;
  k_recvs : list receive;
  k_streams : list reader;                       (* ghost: the streams, as accepted *)
  k_names : gmap nat string;                     (* ghost: what each queue was made for *)
  k_pushed : list (nat * nat * AccessUnit);      (* ghost: stream, queue, unit *)
  k_received : list (string * nat * AccessUnit); (* ghost: name, queue, unit *)
}.

(** The other half of the client (published tracks, writes) leaves these alone. *)
Definition same_recv (c c' : Client) : Prop :=
  c_feed c' = c_feed c /\ c_closed c' = c_closed c /\ c_feedErr c' = c_feedErr c /\
  c_lastSeenSeq c' = c_lastSeenSeq c /\ c_kindStats c' = c_kindStats c /\ c_dc c' = c_dc c.

(** What the step of stream [i] from [d] to [d'] pushed. *)
Definition pushOf (i : nat) (d d' : drain) : list (nat * nat * AccessUnit) :=
  match d, d' with
  | KSend a _ au _, KRead _ _ _ => [(i, a, au)]
  | _, _ => []
  end.

Definition takenBy (name : string) (a : nat) (r : recvCase) : list (string * nat * AccessUnit) :=
  match r with RUnit au => [(name, a, au)] | RError _ => [] end.

Inductive kstep : kconf -> option kconf -> Prop :=
  | ks_accept c m ds vs ss ns ps rs stream :
      kstep (mkKConf c m ds vs ss ns ps rs)
        (Some (mkKConf c m (ds ++ [KPeek stream]) vs (ss ++ [stream]) ns ps rs))
  | ks_drain c m ds vs ss ns ps rs i d d' c' :
      ds !! i = Some d -> drainStep d c (Some (d', c')) ->
      kstep (mkKConf c m ds vs ss ns ps rs)
        (Some (mkKConf c' m (<[i := d']> ds) vs ss
                 (match d with KChan name _ => <[(trackChan name (c_feed c)).1 := name]> ns | _ => ns end)
                 (ps ++ pushOf i d d') rs))
  | ks_drain_panic c m ds vs ss ns ps rs i d :
      ds !! i = Some d -> drainStep d c None -> kstep (mkKConf c m ds vs ss ns ps rs) None
  | ks_announce c ds vs ss ns ps rs a :
      kstep (mkKConf c None ds vs ss ns ps rs)
        (Some (mkKConf (with_feed c (trackChan (a_Name a) (c_feed c)).2) (Some a) ds vs ss
                 (<[(trackChan (a_Name a) (c_feed c)).1 := a_Name a]> ns) ps rs))
  | ks_mark c ds vs ss ns ps rs a :
      kstep (mkKConf c (Some a) ds vs ss ns ps rs)
        (Some (mkKConf (with_feed c (setRemoteTrack a (c_feed c))) None ds vs ss ns ps rs))
  | ks_unannounce c ds vs ss ns ps rs u :
      kstep (mkKConf c None ds vs ss ns ps rs)
        (f ← handleRemoteUnannounce u (c_feed c); Some (mkKConf (with_feed c f) None ds vs ss ns ps rs))
  | ks_data c ds vs ss ns ps rs payload :
      kstep (mkKConf c None ds vs ss ns ps rs)
        (dc ← dc_Deliver (c_dc c) payload; Some (mkKConf (with_chan c dc) None ds vs ss ns ps rs))
  | ks_call c m ds vs ss ns ps rs name :
      kstep (mkKConf c m ds vs ss ns ps rs) (Some (mkKConf c m ds (vs ++ [VChan name]) ss ns ps rs))
  | ks_call_chan c m ds vs ss ns ps rs j name :
      vs !! j = Some (VChan name) ->
      kstep (mkKConf c m ds vs ss ns ps rs)
        (Some (mkKConf (with_feed c (trackChan name (c_feed c)).2) m ds
                 (<[j := VDone name (trackChan name (c_feed c)).1]> vs) ss
                 (<[(trackChan name (c_feed c)).1 := name]> ns) ps rs))
  | ks_call_done c m ds vs ss ns ps rs j name a :
      vs !! j = Some (VDone name a) ->
      kstep (mkKConf c m ds vs ss ns ps rs)
        (Some (mkKConf (with_feed c (trackDoneChan name (c_feed c)).2) m ds
                 (<[j := VSelect name a (trackDoneChan name (c_feed c)).1]> vs) ss ns ps rs))
  | ks_select c m ds vs ss ns ps rs j name a d ctxErr r c' :
      vs !! j = Some (VSelect name a d) -> recvSelect ctxErr name a d c r c' ->
      kstep (mkKConf c m ds vs ss ns ps rs)
        (Some (mkKConf c' m ds (<[j := VReturned (recvResult r)]> vs) ss ns ps (rs ++ takenBy name a r)))
  | ks_error c m ds vs ss ns ps rs err :
      kstep (mkKConf c m ds vs ss ns ps rs)
        (c' ← pushFeedErr err c; Some (mkKConf c' m ds vs ss ns ps rs))
  | ks_close c m ds vs ss ns ps rs :
      kstep (mkKConf c m ds vs ss ns ps rs)
        (c' ← Close c; Some (mkKConf c' m ds vs ss ns ps rs))
  | ks_other c m ds vs ss ns ps rs c' :
      same_recv c c' -> kstep (mkKConf c m ds vs ss ns ps rs) (Some (mkKConf c' m ds vs ss ns ps rs)).

(** A client after [Dial], and what it reaches. *)
Definition kinit (c : Client) : kconf := mkKConf c None [] [] [] {[0%nat := "primary"%string]} [] [].

Inductive kreach (c0 : Client) : kconf -> Prop :=
  | kr_init : kreach c0 (kinit c0)
  | kr_step k k' : kreach c0 k -> kstep k (Some k') -> kreach c0 k'.

(** The receive plane of a client that has just been dialed. *)
Definition dialed (c : Client) : Prop :=
  c_feed c = c_feed (newClient (mkOptions "" false "" 0 "" ∅ None 0) (mkReader [] EOF) (mkWriter [] [])) /\
  c_lastSeenSeq c = ∅ /\ c_closed c = false /\ dc_ok (c_dc c) /\ dc_closed (c_dc c) = false /\
  ch_closed (c_feedErr c) = false.

(** ** What a stream carries *)

Fixpoint frameUnits (fuel : nat) (src : reader) : list AccessUnit :=
  match fuel with
  | O => []
  | S fuel' =>
      match ReadFeedFrame src with
      | (Ok f, r) => feedAU f :: frameUnits fuel' r
      | (Err _, _) => []
      end
  end.

(** Every unit up to the first frame that cannot be read; each frame consumes
    bytes, so the length of the data is enough fuel. *)
Definition units (src : reader) : list AccessUnit := frameUnits (S (length (rd_data src))) src.

Definition streamUnits (stream : reader) : list AccessUnit :=
  match drainHeader stream with Some (_, src) => units src | None => [] end.

Definition streamName (stream : reader) : string :=
  match drainHeader stream with Some (name, _) => name | None => ""%string end.

Definition pushed_by (i : nat) (k : kconf) : list AccessUnit := (filter (fun p => p.1.1 = i) (k_pushed k)).*2.
Definition pushed_on (a : nat) (k : kconf) : list AccessUnit := (filter (fun p => p.1.2 = a) (k_pushed k)).*2.
Definition received_on (a : nat) (k : kconf) : list AccessUnit := (filter (fun p => p.1.2 = a) (k_received k)).*2.
Definition received_as (n : string) (k : kconf) : list AccessUnit := (filter (fun p => p.1.1 = n) (k_received k)).*2.

Definition queue_of (a : nat) (f : feeds) : list AccessUnit :=
  match fd_chans f !! a with Some ch => ch_buf ch | None => [] end.
Definition queued (a : nat) (k : kconf) : list AccessUnit := queue_of a (c_feed (k_cl k)).

(** The largest sequence number of a list of units. *)
Definition high_water (l : list AccessUnit) : option Z :=
  foldl (fun m au => Some (match m with Some p => Z.max p (au_Seq au) | None => au_Seq au end)) None l.

(** * Properties *)

Lemma ReadFeedFrame_shrinks src f r :
  ReadFeedFrame src = (Ok f, r) -> (length (rd_data r) < length (rd_data src))%nat.
Proof.
  intros H. destruct (ReadFeedFrame_inv _ _ _ H) as (_ & -> & _). rewrite length_app.
  unfold frame_bytes, feed_bytes. simpl. lia.
Qed.

Lemma frameUnits_enough fuel : forall fuel' src,
  (length (rd_data src) < fuel)%nat -> (length (rd_data src) < fuel')%nat ->
  frameUnits fuel src = frameUnits fuel' src.
Proof.
  induction fuel as [|fuel IH]; intros [|fuel'] src H1 H2; [lia..|]. simpl.
  destruct (ReadFeedFrame src) as [[f|e] r] eqn:E; [|done].
  apply ReadFeedFrame_shrinks in E. f_equal. apply IH; lia.
Qed.

Lemma units_frame src f r : ReadFeedFrame src = (Ok f, r) -> units src = feedAU f :: units r.
Proof.
  intros E. pose proof (ReadFeedFrame_shrinks _ _ _ E). unfold units at 1. simpl. rewrite E. f_equal.
  apply frameUnits_enough; lia.
Qed.

Lemma units_end src e r : ReadFeedFrame src = (Err e, r) -> units src = [].
Proof. intros E. unfold units. simpl. by rewrite E. Qed.

Lemma high_water_snoc l au :
  high_water (l ++ [au]) = Some (match high_water l with Some p => Z.max p (au_Seq au) | None => au_Seq au end).
Proof. unfold high_water. by rewrite foldl_snoc. Qed.

(** ** The tables *)

Record feeds_ok (ns : gmap nat string) (f : feeds) : Prop := {
  fo_table n a : fd_tracks f !! n = Some a -> ns !! a = Some n;
  fo_chan a ch : fd_chans f !! a = Some ch -> ch_closed ch = false;
  fo_names a : is_Some (ns !! a) <-> is_Some (fd_chans f !! a);
  fo_done n d : fd_trackDone f !! n = Some d -> fd_dones f !! d = Some false;
  fo_inj n n' d : fd_trackDone f !! n = Some d -> fd_trackDone f !! n' = Some d -> n = n';
}.

Lemma trackChan_ok ns name f :
  feeds_ok ns f ->
  feeds_ok (<[(trackChan name f).1 := name]> ns) (trackChan name f).2 /\
  ns ⊆ <[(trackChan name f).1 := name]> ns /\
  (forall a, queue_of a (trackChan name f).2 = queue_of a f).
Proof.
  intros [Ht Hc Hn Hd Hi]. unfold trackChan. destruct (fd_tracks f !! name) as [a|] eqn:E; simpl.
  { rewrite (insert_id ns a name) by eauto. by split_and!. }
  set (a := fresh _). assert (fd_chans f !! a = None) as Hfr by (apply not_elem_of_dom, is_fresh).
  assert (ns !! a = None) as Hna.
  { apply eq_None_not_Some. intros Hs. apply Hn in Hs. rewrite Hfr in Hs. by destruct Hs. }
  split_and!; [split; simpl| |].
  - intros n b Hb. apply lookup_insert_Some in Hb as [[<- <-] | [Hne Hb]]; [by rewrite lookup_insert_eq|].
    rewrite lookup_insert_ne; [eauto|]. intros <-. rewrite (Ht _ _ Hb) in Hna. done.
  - intros b ch Hb. apply lookup_insert_Some in Hb as [[<- <-] | [Hne Hb]]; [done|eauto].
  - intros b. rewrite !lookup_insert_is_Some'. naive_solver.
  - eauto.
  - eauto.
  - by apply insert_subseteq.
  - intros b. unfold queue_of. simpl. destruct (decide (a = b)) as [<- | Hne].
    + by rewrite lookup_insert_eq, Hfr.
    + by rewrite lookup_insert_ne.
Qed.

Lemma trackChan_lookup name f : fd_tracks (trackChan name f).2 !! name = Some (trackChan name f).1.
Proof. unfold trackChan. destruct (fd_tracks f !! name) eqn:E; simpl; [done|]. by rewrite lookup_insert_eq. Qed.

Lemma trackDoneChan_lookup name f : fd_trackDone (trackDoneChan name f).2 !! name = Some (trackDoneChan name f).1.
Proof. unfold trackDoneChan. destruct (fd_trackDone f !! name) eqn:E; simpl; [done|]. by rewrite lookup_insert_eq. Qed.

Lemma trackDoneChan_ok ns name f : feeds_ok ns f ->
  feeds_ok ns (trackDoneChan name f).2 /\ fd_chans (trackDoneChan name f).2 = fd_chans f.
Proof.
  intros [Ht Hc Hn Hd Hi]. unfold trackDoneChan. destruct (fd_trackDone f !! name) as [d|] eqn:E; simpl; [done|].
  set (d := fresh _). assert (fd_dones f !! d = None) as Hfr by (apply not_elem_of_dom, is_fresh).
  assert (forall n, fd_trackDone f !! n <> Some d) as Hnd by (intros n Hn'; apply Hd in Hn'; congruence).
  split; [split; simpl; try done|done].
  - intros n b Hb. apply lookup_insert_Some in Hb as [[<- <-] | [Hne Hb]]; [by rewrite lookup_insert_eq|].
    rewrite lookup_insert_ne by (intros <-; by eapply Hnd). eauto.
  - intros n n' b Hb Hb'. apply lookup_insert_Some in Hb as [[<- <-] | [Hne Hb]];
      apply lookup_insert_Some in Hb' as [[<- ?] | [Hne' Hb']]; subst; try done; try (by destruct (Hnd _ Hb')).
    + by destruct (Hnd _ Hb).
    + eauto.
Qed.

Lemma unannounce_ok ns u f : feeds_ok ns f ->
  exists f', handleRemoteUnannounce u f = Some f' /\ feeds_ok ns f' /\ fd_chans f' = fd_chans f.
Proof.
  intros [Ht Hc Hn Hd Hi]. unfold handleRemoteUnannounce.
  destruct (fd_trackDone f !! un_Name u) as [d|] eqn:E.
  - rewrite (Hd _ _ E). simpl. eexists. split; [done|]. split; [split; simpl; try done|done].
    + intros n a Ha%lookup_delete_Some. naive_solver.
    + intros n b [Hne Hb]%lookup_delete_Some. rewrite lookup_insert_ne; [eauto|]. intros <-. by eapply Hne, Hi.
    + intros n n' b [_ Hb]%lookup_delete_Some [_ Hb']%lookup_delete_Some. eauto.
  - eexists. split; [done|]. split; [split; simpl; try done|done].
    intros n a Ha%lookup_delete_Some. naive_solver.
Qed.

(** Replacing the contents of one queue. *)
Lemma queue_update_ok ns f a ch ch' :
  feeds_ok ns f -> fd_chans f !! a = Some ch -> ch_closed ch' = ch_closed ch ->
  let f' := mkFeeds (fd_tracks f) (<[a := ch']> (fd_chans f)) (fd_trackDone f) (fd_dones f) (fd_remoteTracks f) in
  feeds_ok ns f' /\ queue_of a f' = ch_buf ch' /\ (forall b, a <> b -> queue_of b f' = queue_of b f).
Proof.
  intros [Ht Hc Hn Hd Hi] Ha Hcl. split_and!; [split; simpl; try done| |].
  - intros b cb Hb. apply lookup_insert_Some in Hb as [[<- <-] | [_ Hb]]; [rewrite Hcl|]; eauto.
  - intros b. rewrite lookup_insert_is_Some', Hn. split; [auto|]. intros [<- | ?]; [by eexists|done].
  - unfold queue_of. simpl. by rewrite lookup_insert_eq.
  - intros b Hb. unfold queue_of. simpl. by rewrite lookup_insert_ne.
Qed.

(** ** The invariant *)

(** What a drain goroutine still has to push. *)
Definition left (d : drain) : list AccessUnit :=
  match d with
  | KPeek s => streamUnits s
  | KChan _ src | KKind _ _ src | KRead _ _ src => units src
  | KSend _ _ au src => au :: units src
  | KExit => []
  end.

Definition drain_named (ns : gmap nat string) (s : reader) (d : drain) : Prop :=
  match d with
  | KPeek s' => s' = s
  | KChan name _ => name = streamName s
  | KKind a name _ => ns !! a = Some name /\ name = streamName s
  | KRead a _ _ | KSend a _ _ _ => ns !! a = Some (streamName s)
  | KExit => True
  end.

Definition receive_named (ns : gmap nat string) (v : receive) : Prop :=
  match v with
  | VDone name a | VSelect name a _ => ns !! a = Some name
  | _ => True
  end.

(** A goroutine is ahead of its stream by nothing, and loses the rest of it only
    by a close. *)
Definition stream_accounted (closed : bool) (pushed : list AccessUnit) (d : drain) (s : reader) : Prop :=
  exists lost, pushed ++ left d ++ lost = streamUnits s /\ (lost = [] \/ (d = KExit /\ closed = true)).

Record kinv (k : kconf) : Prop := {
  ki_feeds : feeds_ok (k_names k) (c_feed (k_cl k));
  ki_feedErr : ch_closed (c_feedErr (k_cl k)) = false;
  ki_dc : dc_ok (c_dc (k_cl k));
  ki_streams : length (k_streams k) = length (k_drains k);
  ki_drains i d s : k_drains k !! i = Some d -> k_streams k !! i = Some s ->
    drain_named (k_names k) s d /\ stream_accounted (c_closed (k_cl k)) (pushed_by i k) d s;
  ki_recvs : Forall (receive_named (k_names k)) (k_recvs k);
  ki_pushed : Forall (fun p => exists s, k_streams k !! p.1.1 = Some s /\ k_names k !! p.1.2 = Some (streamName s))
                (k_pushed k);
  ki_received : Forall (fun p => k_names k !! p.1.2 = Some p.1.1) (k_received k);
  ki_queue a : pushed_on a k = received_on a k ++ queued a k;
  ki_seen n : c_lastSeenSeq (k_cl k) !! n = high_water (received_as n k);
}.

Lemma drain_named_mono ns ns' s d : ns ⊆ ns' -> drain_named ns s d -> drain_named ns' s d.
Proof. intros Hsub. destruct d; simpl; try done; [intros [? ?]; split|..]; eauto using lookup_weaken. Qed.

Lemma receive_named_mono ns ns' v : ns ⊆ ns' -> receive_named ns v -> receive_named ns' v.
Proof. intros Hsub. destruct v; simpl; try done; eauto using lookup_weaken. Qed.

(** Steps that only extend the name table and leave queues, logs, cursors and
    goroutines of the client alone. *)
Lemma kinv_tables c m ds vs ss ns ps rs c' m' ns' vs' :
  kinv (mkKConf c m ds vs ss ns ps rs) -> feeds_ok ns' (c_feed c') -> ns ⊆ ns' ->
  (forall a, queue_of a (c_feed c') = queue_of a (c_feed c)) ->
  ch_closed (c_feedErr c') = false -> dc_ok (c_dc c') -> c_lastSeenSeq c' = c_lastSeenSeq c ->
  (c_closed c = true -> c_closed c' = true) -> Forall (receive_named ns') vs' ->
  kinv (mkKConf c' m' ds vs' ss ns' ps rs).
Proof.
  intros [Hf He Hdc Hs Hd Hv Hp Hr Hq Hl] Hf' Hsub Hqq He' Hdc' Hl' Hcl Hv'. split; simpl in *; try done.
  - intros i d s Hi Hsi. destruct (Hd i d s Hi Hsi) as [Hn (lost & E & Hlost)]. split; [by eapply drain_named_mono|].
    exists lost. split; [done|]. destruct Hlost as [-> | [-> ?]]; [by left|right; auto].
  - eapply Forall_impl; [exact Hp|]. intros p (s & ? & ?). exists s. eauto using lookup_weaken.
  - eapply Forall_impl; [exact Hr|]. intros p Hp'. exact (lookup_weaken _ _ _ _ Hp' Hsub).
  - intros a. unfold queued. simpl. rewrite Hqq. apply Hq.
  - intros n. rewrite Hl'. apply Hl.
Qed.

(** A goroutine's own move: its state, the client's tables and the name table. *)
Lemma kinv_drain c m ds vs ss ns ps rs c' ns' i d d' :
  kinv (mkKConf c m ds vs ss ns ps rs) -> ds !! i = Some d ->
  feeds_ok ns' (c_feed c') -> ns ⊆ ns' -> (forall a, queue_of a (c_feed c') = queue_of a (c_feed c)) ->
  c_feedErr c' = c_feedErr c -> c_dc c' = c_dc c -> c_lastSeenSeq c' = c_lastSeenSeq c -> c_closed c' = c_closed c ->
  (forall s, drain_named ns s d -> drain_named ns' s d') ->
  (forall s pushed, drain_named ns s d -> stream_accounted (c_closed c) pushed d s ->
     stream_accounted (c_closed c) pushed d' s) ->
  kinv (mkKConf c' m (<[i := d']> ds) vs ss ns' ps rs).
Proof.
  intros Hk Hi Hf' Hsub Hq He Hdc Hl Hcl Hn Ha. pose proof Hk as [_ He0 Hdc0 Hs Hd Hv _ _ _ _]. simpl in *.
  assert (kinv (mkKConf c' m ds vs ss ns' ps rs)) as [].
  { eapply kinv_tables; [exact Hk|..]; try done; [by rewrite He|by rewrite Hdc|by rewrite Hcl|].
    eapply Forall_impl; [exact Hv|]. intros v. by apply receive_named_mono. }
  split; simpl in *; try done; [by rewrite length_insert|].
  intros j dj s Hj Hsj. destruct (decide (i = j)) as [<- | Hne].
  - rewrite list_lookup_insert_eq in Hj by (by eapply lookup_lt_Some). injection Hj as <-.
    destruct (Hd i d s Hi Hsj) as [H1 H2]. split; [by apply Hn|]. rewrite Hcl. by apply Ha.
  - rewrite list_lookup_insert_ne in Hj by done. eauto.
Qed.

Lemma try_send_Sent {A} (c : chan A) x c' :
  try_send c x = Sent c' -> ch_buf c' = ch_buf c ++ [x] /\ ch_closed c' = ch_closed c.
Proof. unfold try_send. destruct (ch_closed c) eqn:E; [done|]. destruct (_ <? _)%nat; [|done]. by intros [= <-]. Qed.

Lemma try_recv_Got {A} (c : chan A) x c' :
  try_recv c = Got x c' -> ch_buf c = x :: ch_buf c' /\ ch_closed c' = ch_closed c.
Proof. unfold try_recv. destruct (ch_buf c); [by destruct (ch_closed c)|]. by intros [= <- <-]. Qed.

Lemma filter_snoc {A} (P : A -> Prop) `{!forall x, Decision (P x)} l x :
  filter P (l ++ [x]) = filter P l ++ (if decide (P x) then [x] else []).
Proof. by rewrite filter_app, filter_cons, filter_nil. Qed.

Lemma filter_none {A} (P : A -> Prop) `{!forall x, Decision (P x)} l : Forall (fun x => ~ P x) l -> filter P l = [].
Proof. induction 1 as [|x l Hx _ IH]; [done|]. by rewrite filter_cons, decide_False. Qed.

Lemma kinv_push c m ds vs ss ns ps rs i a kind au src ch ch' :
  kinv (mkKConf c m ds vs ss ns ps rs) -> ds !! i = Some (KSend a kind au src) ->
  fd_chans (c_feed c) !! a = Some ch -> try_send ch au = Sent ch' ->
  kinv (mkKConf (with_feed c (mkFeeds (fd_tracks (c_feed c)) (<[a := ch']> (fd_chans (c_feed c)))
                   (fd_trackDone (c_feed c)) (fd_dones (c_feed c)) (fd_remoteTracks (c_feed c))))
          m (<[i := KRead a kind src]> ds) vs ss ns (ps ++ [(i, a, au)]) rs).
Proof.
  intros [Hf He Hdc Hs Hd Hv Hp Hr Hq Hl] Hi Ha Hsend. simpl in *. destruct (try_send_Sent _ _ _ Hsend) as [Hb Hcl].
  destruct (queue_update_ok ns (c_feed c) a ch ch' Hf Ha Hcl) as (Hf' & Hqa & Hqb). split; simpl in *; try done.
  - by rewrite length_insert.
  - intros j d s Hj Hsj. unfold pushed_by. simpl. rewrite filter_snoc. simpl. destruct (decide (i = j)) as [<- | Hne].
    + rewrite list_lookup_insert_eq in Hj by (by eapply lookup_lt_Some). injection Hj as <-.
      destruct (Hd i _ s Hi Hsj) as [H1 (lost & E & Hlost)]. split; [done|]. exists lost. split.
      * rewrite fmap_app, <- app_assoc. exact E.
      * destruct Hlost as [-> | [? _]]; [by left|done].
    + rewrite list_lookup_insert_ne in Hj by done. rewrite app_nil_r. eauto.
  - apply Forall_app. split; [done|]. apply Forall_singleton. simpl.
    destruct (lookup_lt_is_Some_2 ss i) as [s Hsi]; [rewrite Hs; by eapply lookup_lt_Some|].
    exists s. split; [done|]. by destruct (Hd i _ s Hi Hsi) as [H1 _].
  - intros b. unfold pushed_on, queued. simpl. rewrite filter_snoc. simpl. destruct (decide (a = b)) as [<- | Hne].
    + rewrite Hqa, Hb, fmap_app, app_assoc. f_equal. specialize (Hq a). unfold pushed_on, queued, queue_of in Hq.
      simpl in Hq. by rewrite Ha in Hq.
    + rewrite app_nil_r, Hqb by done. apply Hq.
Qed.

Lemma observeSeq_high n name seq (m : gmap string Z) (l : list AccessUnit) au :
  au_Seq au = seq -> m !! n = high_water l ->
  observeSeq name seq m !! n = high_water (l ++ (if decide (name = n) then [au] else [])).
Proof.
  intros <- Hm. unfold observeSeq. destruct (decide (name = n)) as [<- | Hne].
  - rewrite high_water_snoc, <- Hm. destruct (m !! name) as [p|] eqn:E; [|by rewrite lookup_insert_eq].
    destruct (au_Seq au >? p) eqn:Eg; [rewrite lookup_insert_eq|rewrite E]; f_equal; lia.
  - rewrite app_nil_r, <- Hm. destruct (m !! name) as [p|]; [|by rewrite lookup_insert_ne].
    destruct (_ >? _); [by rewrite lookup_insert_ne|done].
Qed.

Lemma kinv_take c m ds vs ss ns ps rs j name a d au ch ch' :
  kinv (mkKConf c m ds vs ss ns ps rs) -> vs !! j = Some (VSelect name a d) ->
  fd_chans (c_feed c) !! a = Some ch -> try_recv ch = Got au ch' ->
  kinv (mkKConf
          (with_seen (with_feed c (mkFeeds (fd_tracks (c_feed c)) (<[a := ch']> (fd_chans (c_feed c)))
                        (fd_trackDone (c_feed c)) (fd_dones (c_feed c)) (fd_remoteTracks (c_feed c))))
             (observeSeq name (au_Seq au) (c_lastSeenSeq c)))
          m ds (<[j := VReturned (Ok au)]> vs) ss ns ps (rs ++ [(name, a, au)])).
Proof.
  intros [Hf He Hdc Hs Hd Hv Hp Hr Hq Hl] Hj Ha Hrecv. simpl in *. destruct (try_recv_Got _ _ _ Hrecv) as [Hb Hcl].
  destruct (queue_update_ok ns (c_feed c) a ch ch' Hf Ha Hcl) as (Hf' & Hqa & Hqb). split; simpl in *; try done.
  - by apply Forall_insert.
  - apply Forall_app. split; [done|]. apply Forall_singleton. simpl. exact (Forall_lookup_1 _ _ _ _ Hv Hj).
  - intros b. unfold received_on, queued. simpl. rewrite filter_snoc. simpl. destruct (decide (a = b)) as [<- | Hne].
    + rewrite Hqa, fmap_app, <- app_assoc. simpl. specialize (Hq a). unfold pushed_on, queued, queue_of in *.
      simpl in Hq. rewrite Ha, Hb in Hq. exact Hq.
    + rewrite app_nil_r, Hqb by done. apply Hq.
  - intros n. unfold received_as. simpl. rewrite filter_snoc. simpl. rewrite (observeSeq_high n name _ _ _ au eq_refl (Hl n)).
    unfold received_as. simpl. by destruct (decide (name = n)); rewrite fmap_app.
Qed.

(** The client has changed at most by an error taken from or put into
    [feedErr], a close, or a delivery on the data channel. *)
Definition plane_kept (c c' : Client) : Prop :=
  c_feed c' = c_feed c /\ c_lastSeenSeq c' = c_lastSeenSeq c /\ ch_closed (c_feedErr c') = false /\
  dc_ok (c_dc c') /\ (c_closed c = true -> c_closed c' = true).

Lemma kinv_plane c m ds vs ss ns ps rs c' m' vs' :
  kinv (mkKConf c m ds vs ss ns ps rs) -> plane_kept c c' -> Forall (receive_named ns) vs' ->
  kinv (mkKConf c' m' ds vs' ss ns ps rs).
Proof.
  intros Hk (Hf & Hl & He & Hdc & Hc) Hv. eapply kinv_tables; [exact Hk|..]; try done; rewrite Hf; [|done].
  apply (ki_feeds _ Hk).
Qed.

Lemma Close_kept c : dc_ok (c_dc c) -> ch_closed (c_feedErr c) = false ->
  exists c', Close c = Some c' /\ plane_kept c c' /\ c_closed c' = true.
Proof.
  intros Hdc He. unfold Close. destruct (c_closed c) eqn:Ec; [exists c; by split_and!|].
  simpl. destruct (dc_step_ok _ _ _ Hdc (dstep_close (c_dc c))) as (dc & -> & Hok). simpl.
  unfold writeCtl. simpl. destruct (WriteControlFrame _ _ _) as [e w]. eexists. by split_and!.
Qed.

Lemma pushFeedErr_kept c err : dc_ok (c_dc c) -> ch_closed (c_feedErr c) = false ->
  exists c', pushFeedErr err c = Some c' /\ plane_kept c c'.
Proof.
  intros Hdc He. unfold pushFeedErr, try_send. rewrite He. destruct (_ <? _)%nat; eexists; (split; [done|]); by split_and!.
Qed.

Lemma endError_kept c : dc_ok (c_dc c) -> ch_closed (c_feedErr c) = false -> plane_kept c (endError c).2.
Proof.
  intros Hdc He. unfold endError. destruct (try_recv (c_feedErr c)) as [err ch| |] eqn:E; simpl; [|by split_and!..].
  destruct (try_recv_Got _ _ _ E) as [_ Hcl]. split_and!; simpl; try done. by rewrite Hcl.
Qed.

Lemma recvSelect_ok c m ds vs ss ns ps rs j name a d ctxErr r c' :
  kinv (mkKConf c m ds vs ss ns ps rs) -> vs !! j = Some (VSelect name a d) ->
  recvSelect ctxErr name a d c r c' ->
  kinv (mkKConf c' m ds (<[j := VReturned (recvResult r)]> vs) ss ns ps (rs ++ takenBy name a r)).
Proof.
  intros Hk Hj Hsel. pose proof (ki_dc _ Hk) as Hdc. pose proof (ki_feedErr _ Hk) as He. simpl in *.
  assert (Forall (receive_named ns) (<[j := VReturned (recvResult r)]> vs)) as Hv
    by (apply Forall_insert; [exact (ki_recvs _ Hk)|done]).
  destruct Hsel as [ch au ch' Hch Hg|ch Hch Hg|err ch Hg|Hd|e He'|Hc]; simpl in *; rewrite ?app_nil_r.
  - by eapply kinv_take.
  - eapply kinv_plane; [exact Hk|by apply endError_kept|done].
  - eapply kinv_plane; [exact Hk| |done]. destruct (try_recv_Got _ _ _ Hg) as [_ Hcl].
    split_and!; simpl; try done. by rewrite Hcl.
  - eapply kinv_plane; [exact Hk|by split_and!|done].
  - eapply kinv_plane; [exact Hk|by split_and!|done].
  - eapply kinv_plane; [exact Hk|by apply endError_kept|done].
Qed.

Lemma stream_accounted_step closed pushed d d' s :
  d <> KExit -> left d' = left d -> stream_accounted closed pushed d s -> stream_accounted closed pushed d' s.
Proof. intros Hd Hl (lost & E & [-> | [? _]]); [|done]. exists []. rewrite Hl. split; [done|by left]. Qed.

Lemma streamUnits_peek s : left (match drainHeader s with Some (name, src) => KChan name src | None => KExit end) = streamUnits s.
Proof. unfold streamUnits. by destruct (drainHeader s) as [[]|]. Qed.

Lemma client_drainStep_ok c m ds vs ss ns ps rs i d d' c' :
  kinv (mkKConf c m ds vs ss ns ps rs) -> ds !! i = Some d -> drainStep d c (Some (d', c')) ->
  kinv (mkKConf c' m (<[i := d']> ds) vs ss
          (match d with KChan name _ => <[(trackChan name (c_feed c)).1 := name]> ns | _ => ns end)
          (ps ++ pushOf i d d') rs).
Proof.
  intros Hk Hi Hst. pose proof (ki_feeds _ Hk) as Hf. simpl in Hf.
  inversion Hst; subst; cbn [pushOf]; rewrite ?app_nil_r.
  - replace (ps ++ _) with ps by (by destruct (drainHeader stream) as [[]|]; rewrite ?app_nil_r).
    eapply kinv_drain; [exact Hk|exact Hi|..]; try done.
    + intros s ->. destruct (drainHeader s) as [[]|] eqn:E; simpl; [unfold streamName; by rewrite E|done].
    + intros s pushed -> Hacc. apply (stream_accounted_step _ _ (KPeek s)); [done|apply streamUnits_peek|exact Hacc].
  - destruct (trackChan_ok ns name (c_feed c) Hf) as (Hf' & Hsub & Hq).
    eapply kinv_drain; [exact Hk|exact Hi|..]; try done.
    + intros s Hn. simpl in *. by rewrite lookup_insert_eq.
    + intros s pushed _. by apply stream_accounted_step.
  - eapply kinv_drain; [exact Hk|exact Hi|..]; try done.
    + intros s [Hn ->]. done.
    + intros s pushed _. by apply stream_accounted_step.
  - eapply kinv_drain; [exact Hk|exact Hi|..]; try done.
    intros s pushed _. apply stream_accounted_step; [done|]. simpl. by erewrite units_end.
  - eapply kinv_drain; [exact Hk|exact Hi|..]; try done.
    intros s pushed _. apply stream_accounted_step; [done|]. simpl. by erewrite (units_frame src).
  - by eapply kinv_push.
  - eapply kinv_drain; [exact Hk|exact Hi|..]; try done.
    intros s pushed _ (lost & E & [-> | [? _]]); [|done]. exists (au :: units src). split; [|by right].
    simpl. by rewrite app_nil_r in E.
Qed.

Lemma drainStep_safe ns d c : feeds_ok ns (c_feed c) -> ~ drainStep d c None.
Proof.
  intros Hf Hst. inversion Hst; subst.
  match goal with H : try_send _ _ = SendPanic |- _ => unfold try_send in H; rewrite (fo_chan _ _ Hf _ _ ltac:(eassumption)) in H;
    by destruct (_ <? _)%nat in H end.
Qed.

Lemma setRemoteTrack_ok ns a f : feeds_ok ns f -> feeds_ok ns (setRemoteTrack a f).
Proof. intros []. by split. Qed.

Lemma kstep_ok k o : kinv k -> kstep k o -> exists k', o = Some k' /\ kinv k'.
Proof.
  intros Hk Hst. pose proof (ki_feeds _ Hk) as Hf. pose proof (ki_dc _ Hk) as Hdc.
  pose proof (ki_feedErr _ Hk) as He. pose proof (ki_recvs _ Hk) as Hv. destruct Hst; simpl in Hf, Hdc, He, Hv.
  - eexists. split; [done|]. destruct Hk as [_ _ _ Hs Hd _ Hp Hr Hq Hl]. simpl in *. split; simpl; try done.
    + rewrite !length_app. simpl. lia.
    + intros i d s [Hi|[Hi1 Hi2]]%lookup_app_Some [Hsi|[Hsi1 Hsi2]]%lookup_app_Some; [eauto|..].
      * apply lookup_lt_Some in Hi. lia.
      * apply lookup_lt_Some in Hsi. lia.
      * apply list_lookup_singleton_Some in Hi2 as [Ei <-]. apply list_lookup_singleton_Some in Hsi2 as [_ <-].
        split; [done|]. exists []. rewrite app_nil_r. split; [|by left]. simpl.
        enough (pushed_by i (mkKConf c m (ds ++ [KPeek stream]) vs (ss ++ [stream]) ns ps rs) = []) as -> by done.
        unfold pushed_by. simpl. rewrite filter_none; [done|]. eapply Forall_impl; [exact Hp|].
        intros p (s & Hs' & _) Hpi. apply lookup_lt_Some in Hs'. lia.
    + eapply Forall_impl; [exact Hp|]. intros p (s & Hs' & ?). exists s. split; [|done]. by apply lookup_app_l_Some.
  - eexists. split; [done|]. by eapply client_drainStep_ok.
  - by destruct (drainStep_safe _ _ _ Hf H0).
  - eexists. split; [done|]. destruct (trackChan_ok ns (a_Name a) (c_feed c) Hf) as (Hf' & Hsub & Hq).
    eapply kinv_tables; [exact Hk|..]; try done. eapply Forall_impl; [exact Hv|]. intros v. by apply receive_named_mono.
  - eexists. split; [done|]. eapply kinv_tables; [exact Hk|..]; try done. by apply setRemoteTrack_ok.
  - destruct (unannounce_ok ns u (c_feed c) Hf) as (f & -> & Hf' & Hch). simpl. eexists. split; [done|].
    eapply kinv_tables; [exact Hk|..]; try done. intros a. unfold queue_of. simpl. by rewrite Hch.
  - destruct (dc_step_ok _ _ _ Hdc (dstep_deliver (c_dc c) payload)) as (dc & -> & Hok). simpl. eexists.
    split; [done|]. eapply kinv_plane; [exact Hk|by split_and!|done].
  - eexists. split; [done|]. eapply kinv_plane; [exact Hk|by split_and!|]. apply Forall_app. split; [done|].
    by apply Forall_singleton.
  - eexists. split; [done|]. destruct (trackChan_ok ns name (c_feed c) Hf) as (Hf' & Hsub & Hq).
    eapply kinv_tables; [exact Hk|..]; try done. apply Forall_insert; [|by simpl; rewrite lookup_insert_eq].
    eapply Forall_impl; [exact Hv|]. intros v. by apply receive_named_mono.
  - eexists. split; [done|]. destruct (trackDoneChan_ok ns name (c_feed c) Hf) as (Hf' & Hch).
    eapply kinv_tables; [exact Hk|..]; try done; [intros b; unfold queue_of; simpl; by rewrite Hch|].
    apply Forall_insert; [done|]. exact (Forall_lookup_1 _ _ _ _ Hv H).
  - eexists. split; [done|]. by eapply recvSelect_ok.
  - destruct (pushFeedErr_kept c err Hdc He) as (c' & -> & Hp). simpl. eexists. split; [done|].
    by eapply kinv_plane.
  - destruct (Close_kept c Hdc He) as (c' & -> & Hp & _). simpl. eexists. split; [done|]. by eapply kinv_plane.
  - eexists. split; [done|]. destruct H as (E1 & E2 & E3 & E4 & E5 & E6). eapply kinv_plane; [exact Hk| |done].
    split_and!; rewrite ?E1, ?E2, ?E3, ?E4, ?E5, ?E6; done.
Qed.

Lemma kinit_ok c : dialed c -> kinv (kinit c).
Proof.
  intros (Hf & Hl & Hcl & Hdc & _ & He). split; simpl; try done.
  - rewrite Hf. split; simpl.
    + intros n a [<- <-]%lookup_singleton_Some. by rewrite lookup_singleton_eq.
    + by intros a ch [<- <-]%lookup_singleton_Some.
    + intros a. destruct (decide (a = 0%nat)) as [-> | Hne]; [by rewrite !lookup_singleton_eq|].
      by rewrite !lookup_singleton_ne.
    + intros n d. by rewrite lookup_empty.
    + intros n n' d. by rewrite lookup_empty.
  - intros a. unfold pushed_on, received_on, queued, queue_of. simpl. rewrite Hf. simpl.
    destruct (decide (a = 0%nat)) as [-> | Hne]; [by rewrite lookup_singleton_eq|by rewrite lookup_singleton_ne].
  - intros n. rewrite Hl, lookup_empty. done.
Qed.

Lemma kreach_ok c k : dialed c -> kreach c k -> kinv k.
Proof.
  intros Hd. induction 1 as [|k k' _ IH Hst]; [by apply kinit_ok|].
  by destruct (kstep_ok _ _ IH Hst) as (k1 & [= <-] & Hk).
Qed.

(** ** The claims *)

(** C12: delivery.  Whatever the order in which streams are accepted and drained,
    tracks announced and unannounced, receives started and the client closed:
    every queue has handed out exactly what was pushed into it, in order, except
    what it still holds; every stream has pushed a prefix of the units it
    carries, in order, and all of them once its goroutine has ended without a
    close; a unit goes to a queue made for the track its stream names, and
    [RecvOn] returns units of the track it was called with only. *)
Theorem client_streams_fifo_lossless c k :
  dialed c -> kreach c k ->
  (forall a, pushed_on a k = received_on a k ++ queued a k) /\
  (forall i s, k_streams k !! i = Some s ->
     pushed_by i k `prefix_of` streamUnits s /\
     (k_drains k !! i = Some KExit -> c_closed (k_cl k) = false -> pushed_by i k = streamUnits s)) /\
  Forall (fun p => exists s, k_streams k !! p.1.1 = Some s /\ k_names k !! p.1.2 = Some (streamName s)) (k_pushed k) /\
  Forall (fun p => k_names k !! p.1.2 = Some p.1.1) (k_received k).
Proof.
  intros Hd Hr. destruct (kreach_ok c k Hd Hr) as [_ _ _ Hs Hdr _ Hp Hrc Hq _]. split_and!; try done.
  intros i s Hi. destruct (lookup_lt_is_Some_2 (k_drains k) i) as [d Hdi].
  { rewrite <- Hs. by eapply lookup_lt_Some. }
  destruct (Hdr i d s Hdi Hi) as [_ (lost & E & Hlost)]. split; [by exists (left d ++ lost)|].
  intros Hex Hcl. rewrite Hex in Hdi. injection Hdi as <-. rewrite <- E.
  destruct Hlost as [-> | [_ ?]]; [by rewrite !app_nil_r|congruence].
Qed.

(** no interleaving makes the client panic: no channel is closed twice, no
    send meets a closed channel, and [Close] can be called at any time, again
    and again. *)
Theorem client_never_panics c k : dialed c -> kreach c k -> ~ kstep k None.
Proof. intros Hd Hr Hst. by destruct (kstep_ok _ _ (kreach_ok c k Hd Hr) Hst) as (k' & ? & _). Qed.

Lemma high_water_spec l :
  match high_water l with
  | None => l = []
  | Some m => m ∈ (au_Seq <$> l) /\ Forall (fun au => au_Seq au <= m) l
  end.
Proof.
  induction l as [|au l IH] using rev_ind; [done|]. rewrite high_water_snoc, fmap_app. simpl.
  destruct (high_water l) as [p|].
  - destruct IH as [Hin Hle]. split.
    + destruct (Z.max_spec p (au_Seq au)) as [[? ->] | [? ->]]; set_solver.
    + apply Forall_app. split; [|apply Forall_singleton; lia]. eapply Forall_impl; [exact Hle|]. simpl. lia.
  - subst l. split; [set_solver|]. by apply Forall_singleton.
Qed.

(** the resume cursor.  [LastSeenSeq] has an entry for exactly the tracks on
    which [RecvOn] has returned a unit, and it is the largest sequence number
    returned on that track: nothing that the application has not yet received
    is claimed, whatever is still queued. *)
Theorem client_cursor_exact c k name :
  dialed c -> kreach c k ->
  match LastSeenSeq (k_cl k) !! name with
  | None => received_as name k = []
  | Some m => m ∈ (au_Seq <$> received_as name k) /\ Forall (fun au => au_Seq au <= m) (received_as name k)
  end.
Proof.
  intros Hd Hr. unfold LastSeenSeq. rewrite (ki_seen _ (kreach_ok c k Hd Hr) name). apply high_water_spec.
Qed.

(** The unit a client gets for a unit that a stream-per-GOP pump sends. *)
Definition client_au (cfg : Config) (x : AccessUnit * Z) : AccessUnit :=
  mkAU (au_Bytes x.1) (au_Keyframe x.1) (au_PTSMicro x.1) (au_Seq x.1) (au_Discontinuity x.1)
    (pubWall cfg x.1 x.2) ∅ 0 0.

Lemma feedAU_sent cfg x : feedAU (sent_frame cfg x) = client_au cfg x.
Proof.
  destruct x as [au now]. unfold feedAU, sent_frame, client_au, IsKeyframe.
  cbn [ff_Type ff_PTSMicro ff_Seq ff_Flags ff_PubWallMicro ff_Payload fst snd].
  destruct (sent_flags (au_Keyframe au) (au_Discontinuity au) (pubWall cfg au now)) as (_ & -> & ->).
  by destruct (au_Keyframe au), (au_Discontinuity au).
Qed.

Lemma units_sent cfg seg e : Forall sendable seg ->
  units (mkReader (concat (frame_of cfg <$> seg)) e) = client_au cfg <$> seg.
Proof.
  induction 1 as [|x seg Hx Hs IH]; csimpl.
  - apply (units_end _ e (mkReader [] e)). unfold ReadFeedFrame, rd_bind. by rewrite ReadFull_nil.
  - rewrite (units_frame _ (sent_frame cfg x) (mkReader (concat (frame_of cfg <$> seg)) e)).
    + by rewrite feedAU_sent, IH.
    + rewrite sent_frame_bytes. by apply ReadFeedFrame_bytes, sent_frame_wf.
Qed.

(** publisher to subscriber.  When a stream that a stream-per-GOP pump wrote
    has been drained by an open client, the units pushed into the track's queue
    are those of the pump, in order, with bytes, timestamp, sequence number,
    flags and publish time, and the queue is one made for the pump's track (the
    legacy name [primary] when the pump has none). *)
Theorem gop_stream_reaches_client c k i cfg seg e :
  dialed c -> kreach c k ->
  zlen (bytes_of (cfg_TrackName cfg)) <= MaxStreamHeader -> seg <> [] -> Forall sendable seg ->
  k_streams k !! i = Some (mkReader (gop_bytes cfg seg) e) ->
  k_drains k !! i = Some KExit -> c_closed (k_cl k) = false ->
  pushed_by i k = client_au cfg <$> seg /\
  Forall (fun p => p.1.1 = i -> k_names k !! p.1.2 = Some (arrives_as cfg)) (k_pushed k).
Proof.
  intros Hd Hr Hn Hne Hs Hi Hex Hcl. destruct (kreach_ok c k Hd Hr) as [_ _ _ _ Hdr _ Hp _ _ _].
  destruct (Hdr i _ _ Hex Hi) as [_ (lost & E & Hlost)]. destruct Hlost as [-> | [_ ?]]; [|congruence].
  pose proof (drainHeader_gop cfg seg e Hn Hne) as Hh. split.
  - rewrite !app_nil_r in E. rewrite E. unfold streamUnits. rewrite Hh. by apply units_sent.
  - eapply Forall_impl; [exact Hp|]. intros p (s & Hps & Hpn) <-. rewrite Hi in Hps. injection Hps as <-.
    unfold streamName in Hpn. by rewrite Hh in Hpn.
Qed.

(** ** A stream can be drained whenever its queue has room *)

Section Progress.
Context (c0 : Client) (cfg : Config) (e : error) (i : nat).

(** [k'] comes after [k], with goroutine [i] moved to [d] and the rest of the
    configuration that matters here as before. *)
Definition moves (k k' : kconf) (d : drain) : Prop :=
  kreach c0 k' /\ k_drains k' = <[i := d]> (k_drains k) /\ k_streams k' = k_streams k /\
  k_recvs k' = k_recvs k /\ k_received k' = k_received k /\ c_closed (k_cl k') = c_closed (k_cl k).

Lemma moves_drain k d d' c' :
  kreach c0 k -> k_drains k !! i = Some d -> drainStep d (k_cl k) (Some (d', c')) ->
  c_closed c' = c_closed (k_cl k) -> exists k', moves k k' d' /\ k_cl k' = c'.
Proof.
  destruct k as [c m ds vs ss ns ps rs]. intros Hr Hi Hst Hc.
  pose proof (kr_step _ _ _ Hr (ks_drain c m ds vs ss ns ps rs i d d' c' Hi Hst)) as Hr'.
  eexists. split; [split; [exact Hr'|]|]; done.
Qed.

Lemma moves_trans k k1 k2 d d' : moves k k1 d -> moves k1 k2 d' -> moves k k2 d'.
Proof.
  intros (R1 & D1 & S1 & V1 & T1 & C1) (R2 & D2 & S2 & V2 & T2 & C2). unfold moves.
  rewrite D2, D1, list_insert_insert_eq, S2, S1, V2, V1, T2, T1, C2, C1. done.
Qed.

Lemma moves_at k k' d d0 : k_drains k !! i = Some d0 -> moves k k' d -> k_drains k' !! i = Some d.
Proof. intros Hi (_ & -> & _). apply list_lookup_insert_eq. by eapply lookup_lt_Some. Qed.

Lemma ReadFeedFrame_sent x rest : sendable x ->
  ReadFeedFrame (mkReader (frame_of cfg x ++ rest) e) = (Ok (sent_frame cfg x), mkReader rest e).
Proof. intros Hx. rewrite sent_frame_bytes. by apply ReadFeedFrame_bytes, sent_frame_wf. Qed.

Lemma drain_frames a kind seg : forall k ch,
  kreach c0 k -> k_drains k !! i = Some (KRead a kind (mkReader (concat (frame_of cfg <$> seg)) e)) ->
  Forall sendable seg -> fd_chans (c_feed (k_cl k)) !! a = Some ch -> ch_closed ch = false ->
  (length (ch_buf ch) + length seg <= ch_cap ch)%nat ->
  exists k', moves k k' KExit /\ queue_of a (c_feed (k_cl k')) = ch_buf ch ++ (client_au cfg <$> seg) /\
    fd_tracks (c_feed (k_cl k')) = fd_tracks (c_feed (k_cl k)).
Proof.
  induction seg as [|x seg IH]; intros k ch Hr Hi Hs Ha Hcl Hroom; csimpl.
  - destruct (moves_drain k _ KExit (k_cl k) Hr Hi) as (k' & Hm & Hc); [|done|].
    { apply (ds_end a kind _ (k_cl k) e (mkReader [] e)). unfold ReadFeedFrame, rd_bind.
      cbn [fmap list_fmap concat]. by rewrite ReadFull_nil. }
    exists k'. split; [done|]. unfold queue_of. by rewrite Hc, Ha, app_nil_r.
  - apply Forall_cons in Hs as [Hx Hs]. simpl in Hroom. csimpl in Hi.
    destruct (moves_drain k _ (KSend a kind (client_au cfg x) (mkReader (concat (frame_of cfg <$> seg)) e))
      (observeFrame kind (sent_frame cfg x) 0 (k_cl k)) Hr Hi) as (k1 & Hm1 & Hc1); [|done|].
    { rewrite <- feedAU_sent. constructor. by apply ReadFeedFrame_sent. }
    assert (fd_chans (c_feed (k_cl k1)) !! a = Some ch) as Ha1 by (by rewrite Hc1).
    set (ch1 := mkChan (ch_buf ch ++ [client_au cfg x]) (ch_cap ch) (ch_closed ch)).
    pose proof (moves_at _ _ _ _ Hi Hm1) as Hi1.
    assert (try_send ch (client_au cfg x) = Sent ch1) as Hsend.
    { unfold try_send. rewrite Hcl.
      destruct (Nat.ltb_spec (length (ch_buf ch)) (ch_cap ch)) as [|]; [subst ch1; by rewrite Hcl|lia]. }
    destruct (moves_drain k1 _ _ _ (proj1 Hm1) Hi1 (ds_sent a kind _ _ _ ch ch1 Ha1 Hsend) eq_refl)
      as (k2 & Hm2 & Hc2).
    destruct (IH k2 ch1) as (k3 & Hm3 & Hq & Ht).
    + by destruct Hm2.
    + exact (moves_at _ _ _ _ Hi1 Hm2).
    + done.
    + rewrite Hc2. simpl. by rewrite lookup_insert_eq.
    + done.
    + subst ch1. simpl. rewrite length_app. simpl. lia.
    + exists k3. split; [by do 2 (eapply moves_trans; [eassumption|])|]. rewrite Hq, Ht, Hc2. simpl.
      subst ch1. rewrite Hc1. simpl. by rewrite <- app_assoc.
Qed.

(** A stream-per-GOP stream that was accepted is drained to its end by its own
    goroutine alone when the track's queue has room for its units. *)
Lemma gop_drain_run k seg ch :
  dialed c0 -> kreach c0 k -> k_drains k !! i = Some (KPeek (mkReader (gop_bytes cfg seg) e)) ->
  zlen (bytes_of (cfg_TrackName cfg)) <= MaxStreamHeader -> seg <> [] -> Forall sendable seg ->
  let a := (trackChan (arrives_as cfg) (c_feed (k_cl k))).1 in
  fd_chans (trackChan (arrives_as cfg) (c_feed (k_cl k))).2 !! a = Some ch ->
  (length (ch_buf ch) + length seg <= ch_cap ch)%nat ->
  exists k', moves k k' KExit /\ queue_of a (c_feed (k_cl k')) = ch_buf ch ++ (client_au cfg <$> seg) /\
    fd_tracks (c_feed (k_cl k')) !! arrives_as cfg = Some a.
Proof.
  intros Hd Hr Hi Hn Hne Hs a Ha Hroom. pose proof (ki_feeds _ (kreach_ok _ _ Hd Hr)) as Hf.
  pose proof (drainHeader_gop cfg seg e Hn Hne) as Hh. set (src := mkReader (concat (frame_of cfg <$> seg)) e) in *.
  destruct (moves_drain k _ (KChan (arrives_as cfg) src) (k_cl k) Hr Hi) as (k1 & Hm1 & Hc1); [|done|].
  { pose proof (ds_peek (mkReader (gop_bytes cfg seg) e) (k_cl k)) as Hp. by rewrite Hh in Hp. }
  pose proof (moves_at _ _ _ _ Hi Hm1) as Hi1.
  destruct (moves_drain k1 _ _ _ (proj1 Hm1) Hi1 (ds_chan _ _ _) eq_refl) as (k2 & Hm2 & Hc2).
  pose proof (moves_at _ _ _ _ Hi1 Hm2) as Hi2. rewrite Hc1 in Hc2, Hi2.
  destruct (moves_drain k2 _ _ _ (proj1 Hm2) Hi2 (ds_kind _ _ _ _) eq_refl) as (k3 & Hm3 & Hc3).
  destruct (drain_frames a _ seg k3 ch (proj1 Hm3) (moves_at _ _ _ _ Hi2 Hm3) Hs) as (k4 & Hm4 & Hq & Ht).
  - rewrite Hc3, Hc2. exact Ha.
  - destruct (trackChan_ok _ (arrives_as cfg) _ Hf) as (Hf' & _). exact (fo_chan _ _ Hf' _ _ Ha).
  - exact Hroom.
  - exists k4. split_and!; [by do 3 (eapply moves_trans; [eassumption|])|exact Hq|].
    rewrite Ht, Hc3, Hc2. apply trackChan_lookup.
Qed.
End Progress.

(** [RecvOn] calls made one after the other on a queue that holds units. *)
Lemma receive_all c0 name a l : forall k,
  kreach c0 k -> fd_tracks (c_feed (k_cl k)) !! name = Some a -> queue_of a (c_feed (k_cl k)) = l ->
  exists k', kreach c0 k' /\ k_recvs k' = k_recvs k ++ ((fun au => VReturned (Ok au)) <$> l) /\
    received_as name k' = received_as name k ++ l /\ k_drains k' = k_drains k /\
    k_streams k' = k_streams k /\ c_closed (k_cl k') = c_closed (k_cl k) /\ queue_of a (c_feed (k_cl k')) = [].
Proof.
  induction l as [|au l IH]; intros k Hr Ht Hq.
  { exists k. by rewrite !app_nil_r. }
  destruct k as [c m ds vs ss ns ps rs]. simpl in *. unfold queue_of in Hq.
  destruct (fd_chans (c_feed c) !! a) as [[buf cap cl]|] eqn:Ech; [|done]. simpl in Hq. subst buf.
  pose proof (kr_step _ _ _ Hr (ks_call c m ds vs ss ns ps rs name)) as Hr1.
  assert (forall v vs', (vs ++ [v]) !! length vs = Some v /\ <[length vs := vs']> (vs ++ [v]) = vs ++ [vs']) as Hlast.
  { intros v v'. rewrite list_lookup_middle, insert_app_r_alt, Nat.sub_diag by done. done. }
  pose proof (kr_step _ _ _ Hr1 (ks_call_chan _ _ _ _ _ _ _ _ _ _ (proj1 (Hlast _ (VChan name))))) as Hr2.
  rewrite (proj2 (Hlast _ _)) in Hr2. unfold trackChan in Hr2. rewrite Ht in Hr2. simpl in Hr2.
  pose proof (kr_step _ _ _ Hr2 (ks_call_done _ _ _ _ _ _ _ _ _ _ _ (proj1 (Hlast _ (VDone name a))))) as Hr3.
  rewrite (proj2 (Hlast _ _)) in Hr3. set (td := trackDoneChan name _) in *.
  assert (fd_chans td.2 = fd_chans (c_feed c) /\ fd_tracks td.2 = fd_tracks (c_feed c)) as [Hc3 Ht3].
  { subst td. unfold trackDoneChan. simpl. by destruct (fd_trackDone (c_feed c) !! name). }
  assert (fd_chans (c_feed (with_feed (with_feed c (c_feed c)) td.2)) !! a = Some (mkChan (au :: l) cap cl)) as Hch
    by (simpl; by rewrite Hc3).
  pose proof (kr_step _ _ _ Hr3 (ks_select _ _ _ _ _ _ _ _ _ _ _ _ None _ _ (proj1 (Hlast _ (VSelect name a td.1)))
    (rs_unit None name a td.1 _ _ au _ Hch eq_refl))) as Hr4.
  rewrite (proj2 (Hlast _ _)) in Hr4.
  destruct (IH _ Hr4) as (k' & Hr' & Hv & Hrec & Hds & Hss & Hcl & Hq'); simpl.
  - by rewrite Ht3.
  - unfold queue_of. simpl. by rewrite lookup_insert_eq.
  - exists k'. rewrite Hv, Hrec, Hds, Hss, Hcl, Hq'. simpl. split_and!; try done; [by rewrite <- app_assoc|].
    unfold received_as. simpl. rewrite filter_snoc. simpl. rewrite decide_True, fmap_app by done. by rewrite <- app_assoc.
Qed.

(** a stream-per-GOP stream that was accepted is delivered: as soon as the
    track's queue is empty, of at least the stream's length, there is a run in
    which the stream's goroutine ends and as many [RecvOn] calls on the track as
    the stream has units return these units, in order, with bytes, timestamp,
    sequence number, flags and publish time; no other stream has to move. *)
Theorem gop_stream_received c0 k i cfg seg e ch :
  dialed c0 -> kreach c0 k -> k_drains k !! i = Some (KPeek (mkReader (gop_bytes cfg seg) e)) ->
  zlen (bytes_of (cfg_TrackName cfg)) <= MaxStreamHeader -> seg <> [] -> Forall sendable seg ->
  let name := arrives_as cfg in
  let '(a, f) := trackChan name (c_feed (k_cl k)) in
  fd_chans f !! a = Some ch -> ch_buf ch = [] -> (length seg <= ch_cap ch)%nat ->
  exists k', kreach c0 k' /\ k_drains k' = <[i := KExit]> (k_drains k) /\
    k_recvs k' = k_recvs k ++ ((fun x => VReturned (Ok (client_au cfg x))) <$> seg) /\
    received_as name k' = received_as name k ++ (client_au cfg <$> seg) /\ queue_of a (c_feed (k_cl k')) = [].
Proof.
  intros Hd Hr Hi Hn Hne Hs name. destruct (trackChan name (c_feed (k_cl k))) as [a f] eqn:E. intros Ha Hb Hroom.
  destruct (gop_drain_run c0 cfg e i k seg ch) as (k1 & (Hr1 & Hd1 & _ & Hv1 & Hrc1 & _) & Hq & Ht); try done.
  { fold name. by rewrite E. } { rewrite Hb. simpl. lia. }
  fold name in Hq, Ht. rewrite E in Hq, Ht. simpl in Hq, Ht. rewrite Hb in Hq. simpl in Hq.
  destruct (receive_all c0 name a _ k1 Hr1 Ht Hq) as (k2 & Hr2 & Hv2 & Hrc2 & Hd2 & _ & _ & Hq2).
  exists k2. split_and!; [done|by rewrite Hd2|by rewrite Hv2, Hv1, <- list_fmap_compose| |done].
  rewrite Hrc2. f_equal. unfold received_as. by rewrite Hrc1.
Qed.

(** ** Ends of a track and of a session *)

(** an unannounce by the server ends exactly the receives that are already
    waiting: a [RecvOn] in its [select] may return [io.EOF]; but a [RecvOn] that
    starts afterwards gets a new queue and a new done channel, and with nothing
    else happening no case of its [select] is ready, so it blocks although the
    track is gone. *)
Theorem unannounce_ends_only_waiting_receives c u f :
  handleRemoteUnannounce u (c_feed c) = Some f ->
  (forall d a ctxErr, fd_trackDone (c_feed c) !! un_Name u = Some d ->
     recvSelect ctxErr (un_Name u) a d (with_feed c f) (RError (Some EOF)) (with_feed c f)) /\
  (c_closed c = false -> ch_buf (c_feedErr c) = [] -> ch_closed (c_feedErr c) = false ->
   let '(a, d, c') := recvBegin (un_Name u) (with_feed c f) in
   forall r c'', ~ recvSelect None (un_Name u) a d c' r c'').
Proof.
  unfold handleRemoteUnannounce. intros Hu.
  assert (fd_tracks f !! un_Name u = None /\ fd_trackDone f !! un_Name u = None /\
    (forall d, fd_trackDone (c_feed c) !! un_Name u = Some d -> fd_dones f !! d = Some true)) as (Ht & Htd & Hd).
  { destruct (fd_trackDone (c_feed c) !! un_Name u) as [d|] eqn:E.
    - destruct (fd_dones (c_feed c) !! d) as [[]|]; try done. injection Hu as <-. simpl.
      rewrite !lookup_delete_eq. split_and!; try done. intros d' [= <-]. by rewrite lookup_insert_eq.
    - injection Hu as <-. simpl. by rewrite lookup_delete_eq. }
  split; [intros; apply rs_done; simpl; eauto|]. intros Hc Hb Hcl. unfold recvBegin, trackChan. simpl. rewrite Ht.
  unfold trackDoneChan. simpl. rewrite Htd. intros r c'' Hsel. inversion Hsel; subst; simpl in *; try congruence.
  - rewrite lookup_insert_eq in *. by simplify_eq.
  - rewrite lookup_insert_eq in *. by simplify_eq.
  - match goal with H : try_recv (c_feedErr c) = _ |- _ => unfold try_recv in H; by rewrite Hb, Hcl in H end.
  - rewrite lookup_insert_eq in *. by simplify_eq.
Qed.

(** What [RecvOn] waits on in a client whose tables are consistent. *)
Lemma recvBegin_ok ns name c a d c' :
  feeds_ok ns (c_feed c) -> recvBegin name c = (a, d, c') ->
  fd_dones (c_feed c') !! d = Some false /\ queue_of a (c_feed c') = queue_of a (c_feed c) /\
  (exists ch, fd_chans (c_feed c') !! a = Some ch /\ ch_closed ch = false) /\
  a = (trackChan name (c_feed c)).1 /\ c' = with_feed c (c_feed c').
Proof.
  intros Hf. unfold recvBegin. destruct (trackChan_ok ns name _ Hf) as (Hf1 & _ & Hq).
  pose proof (trackChan_lookup name (c_feed c)) as Hl. destruct (trackChan name (c_feed c)) as [a1 f1]. simpl in *.
  destruct (trackDoneChan_ok _ name f1 Hf1) as (Hf2 & Hch). pose proof (trackDoneChan_lookup name f1) as Hl2.
  destruct (trackDoneChan name f1) as [d2 f2]. simpl in *. intros [= <- <- <-]. simpl. split_and!; try done.
  - exact (fo_done _ _ Hf2 _ _ Hl2).
  - rewrite <- (Hq a1). unfold queue_of. by rewrite Hch.
  - assert (is_Some (fd_chans f2 !! a1)) as [ch Ha].
    { rewrite Hch. apply (fo_names _ _ Hf1). exists name. exact (fo_table _ _ Hf1 _ _ Hl). }
    exists ch. split; [done|]. exact (fo_chan _ _ Hf2 _ _ Ha).
Qed.

(** after the server's orderly [Close] frame, the first receive on a track
    without queued units reports success: whatever case of its [select] is
    taken, [RecvOn] returns the zero access unit together with a nil error, as
    if the track had delivered an empty unit. *)
Theorem clean_close_returns_empty_unit `{JSON Announce, JSON Unannounce} c0 k payload c' name a d c'' :
  dialed c0 -> kreach c0 k -> c_closed (k_cl k) = false -> ch_buf (c_feedErr (k_cl k)) = [] ->
  (0 < ch_cap (c_feedErr (k_cl k)))%nat -> queue_of (trackChan name (c_feed (k_cl k))).1 (c_feed (k_cl k)) = [] ->
  controlFrame TypeClose payload (k_cl k) = Some (KReturn c') -> recvBegin name c' = (a, d, c'') ->
  (exists r c3, recvSelect None name a d c'' r c3) /\
  forall r c3, recvSelect None name a d c'' r c3 -> recvResult r = Ok zeroAU.
Proof.
  intros Hd Hr Hcl Hb Hcap Hq Hctl Hbeg. destruct (kreach_ok _ _ Hd Hr) as [Hf He Hdc _ _ _ _ _ _ _].
  set (c := k_cl k) in *. unfold controlFrame in Hctl. simpl in Hctl. unfold fail, pushFeedErr, try_send in Hctl.
  rewrite He, Hb in Hctl. destruct (Nat.ltb_spec (length (@nil (option error))) (ch_cap (c_feedErr c))) as [_|]; [|simpl in *; lia].
  simpl in Hctl. unfold Close in Hctl. simpl in Hctl. rewrite Hcl in Hctl.
  destruct (dc_step_ok _ _ _ Hdc (dstep_close (c_dc c))) as (dc & Edc & _). simpl in Hctl. rewrite Edc in Hctl.
  simpl in Hctl. unfold writeCtl in Hctl. destruct (WriteControlFrame _ _ _) as [e w]. injection Hctl as <-.
  apply (recvBegin_ok (k_names k)) in Hbeg as (Hdn & Hqa & (ch & Ha & Hch) & -> & Ec); [|exact Hf].
  simpl in Hqa, Ha, Ec |- *. rewrite Hq in Hqa. unfold queue_of in Hqa. rewrite Ha in Hqa.
  set (f := c_feed c'') in *. clearbody f. subst c''. split.
  - do 2 eexists. apply rs_closed. done.
  - intros r c3 Hsel. inversion Hsel; subst; simpl in *; try congruence; rewrite ?Ha in *; simplify_eq; try reflexivity.
    match goal with H : try_recv _ = Got _ _ |- _ => apply try_recv_Got in H as [H _]; by rewrite Hqa in H end.
    match goal with H : try_recv _ = Got _ _ |- _ => apply try_recv_Got in H as [[= <- _] _] end. reflexivity.
Qed.

Module ClientDemo.
Definition demo_client : Client :=
  newClient (mkOptions "" false "s" 0 "" ∅ None 0) (mkReader [] EOF) (mkWriter [] []).

Lemma demo_dialed : dialed demo_client.
Proof. split_and!; reflexivity. Qed.

Definition demo_stream : reader := mkReader (gop_bytes (cfg0 false) demo_seg) EOF.
Definition demo_name : string := arrives_as (cfg0 false).

Definition demo_accepted : kconf :=
  mkKConf demo_client None [KPeek demo_stream] [] [demo_stream] {[0%nat := "primary"%string]} [] [].

Lemma demo_accept : kreach demo_client demo_accepted.
Proof. exact (kr_step _ _ _ (kr_init _) (ks_accept demo_client None [] [] [] _ [] [] demo_stream)). Qed.

Lemma demo_sendable : Forall sendable demo_seg.
Proof. repeat constructor; vm_compute; intuition discriminate. Qed.

Lemma demo_header : zlen (bytes_of (cfg_TrackName (cfg0 false))) <= MaxStreamHeader.
Proof. vm_compute. discriminate. Qed.

Lemma demo_chan : fd_chans (trackChan demo_name (c_feed demo_client)).2 !!
  (trackChan demo_name (c_feed demo_client)).1 = Some (make_chan AccessUnit 16).
Proof. reflexivity. Qed.

(** The stream is drained and its units are received. *)
Lemma demo_drain_run : exists k, kreach demo_client k /\ k_streams k = [demo_stream] /\ k_drains k = [KExit] /\
  c_closed (k_cl k) = false /\ received_as demo_name k = client_au (cfg0 false) <$> demo_seg.
Proof.
  destruct (gop_drain_run demo_client (cfg0 false) EOF 0 demo_accepted demo_seg _ demo_dialed demo_accept eq_refl
    demo_header ltac:(discriminate) demo_sendable demo_chan ltac:(simpl; lia))
    as (k1 & (Hr1 & Hd1 & Hs1 & _ & Hrc1 & Hc1) & Hq & Ht).
  destruct (receive_all demo_client demo_name _ _ k1 Hr1 Ht Hq) as (k & Hr & _ & Hrc & Hd & Hs & Hc & _).
  exists k. rewrite Hs, Hs1, Hd, Hd1, Hc, Hc1, Hrc. unfold received_as. rewrite Hrc1. by split_and!.
Qed.

Lemma client_streams_fifo_lossless_witness :
  exists k, kreach demo_client k /\ pushed_by 0 k = client_au (cfg0 false) <$> demo_seg.
Proof.
  destruct demo_drain_run as (k & Hr & Hs & Hd & Hc & _). exists k. split; [exact Hr|].
  destruct (client_streams_fifo_lossless demo_client k demo_dialed Hr) as (_ & Hst & _).
  rewrite Hs, Hd in Hst. destruct (Hst 0%nat demo_stream eq_refl) as [_ ->]; [|reflexivity|exact Hc].
  unfold streamUnits, demo_stream. rewrite (drainHeader_gop _ _ _ demo_header) by discriminate.
  exact (units_sent _ _ _ demo_sendable).
Defined.

Lemma client_never_panics_witness :
  exists k, kreach demo_client k /\ k_drains k = [KExit] /\ ~ kstep k None.
Proof.
  destruct demo_drain_run as (k & Hr & Hs & Hd & Hc & _). exists k. split; [exact Hr|]. split; [exact Hd|].
  exact (client_never_panics demo_client k demo_dialed Hr).
Defined.

Lemma client_cursor_exact_witness :
  exists k, kreach demo_client k /\ LastSeenSeq (k_cl k) !! demo_name <> None.
Proof.
  destruct demo_drain_run as (k & Hr & _ & _ & _ & Hrc). exists k. split; [exact Hr|]. intros Hn.
  pose proof (client_cursor_exact demo_client k demo_name demo_dialed Hr) as Hx. rewrite Hn, Hrc in Hx. discriminate.
Defined.

Lemma gop_stream_reaches_client_witness :
  exists k, kreach demo_client k /\ pushed_by 0 k = client_au (cfg0 false) <$> demo_seg.
Proof.
  destruct demo_drain_run as (k & Hr & Hs & Hd & Hc & _). exists k. split; [exact Hr|].
  refine (proj1 (gop_stream_reaches_client demo_client k 0 (cfg0 false) demo_seg EOF demo_dialed Hr demo_header _
    demo_sendable _ _ Hc)); [discriminate|rewrite Hs; reflexivity|rewrite Hd; reflexivity].
Defined.

Lemma gop_stream_received_witness :
  exists k, kreach demo_client k /\ k_recvs k = (fun x => VReturned (Ok (client_au (cfg0 false) x))) <$> demo_seg.
Proof.
  destruct (gop_stream_received demo_client demo_accepted 0 (cfg0 false) demo_seg EOF (make_chan AccessUnit 16)
    demo_dialed demo_accept eq_refl demo_header ltac:(discriminate) demo_sendable demo_chan eq_refl ltac:(simpl; lia))
    as (k & Hr & _ & Hv & _).
  exists k. split; [exact Hr|exact Hv].
Defined.

(** A track with a waiting receive, and its end. *)
Definition demo_waiting : Client := (recvBegin "t" demo_client).2.
Definition demo_gone : feeds :=
  default (c_feed demo_waiting) (handleRemoteUnannounce (mkUnannounce "t") (c_feed demo_waiting)).

Lemma demo_goes : handleRemoteUnannounce (mkUnannounce "t") (c_feed demo_waiting) = Some demo_gone.
Proof. vm_compute. reflexivity. Qed.

Lemma demo_done : fd_trackDone (c_feed demo_waiting) !! "t"%string = Some 0%nat.
Proof. vm_compute. reflexivity. Qed.

Lemma unannounce_ends_only_waiting_receives_witness :
  recvSelect None "t" 1 0 (with_feed demo_waiting demo_gone) (RError (Some EOF)) (with_feed demo_waiting demo_gone) /\
  let '(a, d, c') := recvBegin "t" (with_feed demo_waiting demo_gone) in
  forall r c'', ~ recvSelect None "t" a d c' r c''.
Proof.
  destruct (unannounce_ends_only_waiting_receives demo_waiting (mkUnannounce "t") _ demo_goes) as [H1 H2].
  split; [exact (H1 0%nat 1%nat None demo_done)|apply H2; reflexivity].
Defined.

#[local] Instance demo_announce : JSON Announce := {| Marshal _ := Ok []; Unmarshal _ := Err EOF |}.
#[local] Instance demo_unannounce : JSON Unannounce := {| Marshal _ := Ok []; Unmarshal _ := Err EOF |}.

Definition demo_ended : Client :=
  match controlFrame TypeClose [] demo_client with Some (KReturn c) => c | _ => demo_client end.

Lemma demo_ends : controlFrame TypeClose [] demo_client = Some (KReturn demo_ended).
Proof. vm_compute. reflexivity. Qed.

Lemma demo_empty : queue_of (trackChan "primary" (c_feed demo_client)).1 (c_feed demo_client) = [].
Proof. vm_compute. reflexivity. Qed.

Lemma clean_close_returns_empty_unit_witness :
  let '(a, d, c) := recvBegin "primary" demo_ended in
  exists r c', recvSelect None "primary" a d c r c' /\ recvResult r = Ok zeroAU.
Proof.
  destruct (recvBegin "primary" demo_ended) as [[a d] c] eqn:E.
  destruct (clean_close_returns_empty_unit demo_client (kinit demo_client) [] demo_ended "primary" a d c
    demo_dialed (kr_init _) eq_refl eq_refl ltac:(simpl; lia) demo_empty demo_ends E) as [(r & c' & Hs) Hall].
  exists r, c'. split; [exact Hs|exact (Hall r c' Hs)].
Defined.
End ClientDemo.
