(* ===== verification/ToolCalls.v ===== *)
(** * Tool calls, from the server's pump to the client's [RecvOn]

    A track of the class bidi-per-call opens one stream per unit
    ([feed/bidi.go], [Pump.v]).  The client accepts it in [bidiAcceptor],
    [drainBidi] ([client/client.go]) reads the unit into the track's queue like
    the units of any other stream ([ClientRecv.v]) and closes its side without
    writing. *)

From S2P Require Import Prelude Wire Track Replay Pubsub Pump DataChannel Inbound KindStats Client ClientRecv.

(** [bidiAcceptor]: a round looks at the client's [closed] channel and accepts;
    the goroutines it starts, and whether the loop has returned. *)
Fixpoint bidiAcceptor (rounds : list (bool * result reader)) : list drain * bool :=
  match rounds with
  | [] => ([], false)
  | (true, _) :: _ => ([], true)
  | (false, Err _) :: _ => ([], true)
  | (false, Ok stream) :: rounds' => let '(ds, returned) := bidiAcceptor rounds' in (KPeek stream :: ds, returned)
  end.

(** The deferred [Close] of [drainBidi]: what the server reads on a stream whose
    goroutine is in state [d]; nothing yet, or the end of the stream. *)
Definition closeSend (d : drain) : option reader :=
  match d with KExit => Some (mkReader [] EOF) | _ => None end.

(** A step of [drainBidi]: it reads the stream as [drainFeed] does, and closes its
    own side when it returns. *)
Inductive drainBidi : drain -> Client -> option (drain * Client * option reader) -> Prop :=
  | db_step d c d' c' : drainStep d c (Some (d', c')) -> drainBidi d c (Some (d', c', closeSend d'))
  | db_panic d c : drainStep d c None -> drainBidi d c None.

(** A stream on which the server can write, and on which the client answers. *)
Definition freshCall (answer : reader) : bidi := mkBidi (mkWriter [] []) answer false false false.

Lemma bidiCall_request cfg maxResp answer au now :
  zlen (bytes_of (cfg_TrackName cfg)) <= MaxStreamHeader -> zlen (au_Bytes au) <= MaxFeedPayload ->
  exists evs b, bidiCall cfg maxResp (Ok (freshCall answer)) au now =
    (EvWriteBytes (FeedHeaderLen + zlen (au_Bytes au)) :: evs, Some b) /\
    w_out (bi_w b) = gop_bytes cfg [(keyed au, now)] /\ bi_fin b = true /\ bi_cancelW b = false /\
    (cfg_OnBidiResponse cfg = false -> evs = [] /\ bi_cancelR b = true) /\
    (cfg_OnBidiResponse cfg = true -> answer = mkReader [] EOF -> 0 <= maxResp ->
       evs = [EvBidiResponse (au_Seq au) [] None]).
Proof.
  intros Hn Hp. unfold bidiCall, freshCall. cbn [bi_w bi_r bi_fin bi_cancelW bi_cancelR].
  replace (if decide (cfg_TrackName cfg = ""%string) then (None, mkWriter [] [])
           else WriteStreamHeader (cfg_TrackName cfg) (mkWriter [] []))
    with (@None error, mkWriter (stream_prefix cfg) []).
  2:{ unfold stream_prefix. destruct (decide _); [done|]. by rewrite WriteStreamHeader_accept. }
  cbn [bi_w]. set (wr := if negb _ then _ else _).
  assert (wr = (None, mkWriter (gop_bytes cfg [(keyed au, now)]) [])) as ->.
  { subst wr. unfold gop_bytes. csimpl. rewrite app_nil_r.
    change (pubWall cfg (keyed au) now) with (pubWall cfg au now).
    destruct (pubWall cfg au now =? 0) eqn:E; cbn [negb].
    - rewrite WriteFeedFrame_accept by done. unfold wall_flags, wall_opt. by rewrite E.
    - rewrite WriteFeedFrameWall_accept by done. unfold wall_flags, wall_opt. by rewrite E. }
  cbn [bi_w bi_r bi_fin bi_cancelW bi_cancelR]. destruct (cfg_OnBidiResponse cfg); cbn [negb].
  - destruct (ReadAllLimit (maxResp + 1) answer) as [resp re] eqn:Er. destruct (zlen resp >? maxResp) eqn:El;
      (eexists _, _; split; [done|]); cbn; (split_and!; try done); intros _ -> Hm;
      unfold ReadAllLimit in Er; cbn in Er; change (zlen (@nil byte)) with 0 in Er;
      (destruct (Z.leb_spec (maxResp + 1) 0); [lia|]); injection Er as <- <-; [|done].
    change (zlen (@nil byte)) with 0 in El. lia.
  - eexists _, _. split; [done|]. by cbn.
Qed.

(** C14: a tool call arrives.  A call on a stream that takes its bytes writes one
    request, ends its side and is not dropped; whatever the client is doing,
    once it has accepted the stream and the track's queue has room for one unit,
    there is a run in which the stream's goroutine ends and one [RecvOn] on the
    track returns the unit, marked as a keyframe, with bytes, timestamp,
    sequence number, discontinuity and publish time; and the client's end of the
    stream gives the call, when it waits for an answer, an empty one without an
    error. *)
Theorem tool_call_received c0 k i cfg maxResp au now ch :
  dialed c0 -> kreach c0 k -> 0 <= maxResp ->
  zlen (bytes_of (cfg_TrackName cfg)) <= MaxStreamHeader -> sendable (au, now) ->
  k_drains k !! i = Some (KPeek (mkReader (gop_bytes cfg [(keyed au, now)]) EOF)) ->
  let name := arrives_as cfg in
  let '(a, f) := trackChan name (c_feed (k_cl k)) in
  fd_chans f !! a = Some ch -> ch_buf ch = [] -> (1 <= ch_cap ch)%nat ->
  exists k' d answer evs b,
    kreach c0 k' /\ k_drains k' !! i = Some d /\ closeSend d = Some answer /\
    k_recvs k' = k_recvs k ++ [VReturned (Ok (client_au cfg (keyed au, now)))] /\
    bidiCall cfg maxResp (Ok (freshCall answer)) au now = (evs, Some b) /\
    w_out (bi_w b) = gop_bytes cfg [(keyed au, now)] /\ bi_fin b = true /\
    evs = EvWriteBytes (FeedHeaderLen + zlen (au_Bytes au)) ::
          (if cfg_OnBidiResponse cfg then [EvBidiResponse (au_Seq au) [] None] else []).
Proof.
  intros Hd Hr Hm Hn Hs Hi name. destruct (trackChan name (c_feed (k_cl k))) as [a f] eqn:E. intros Ha Hb Hroom.
  destruct (gop_drain_run c0 cfg EOF i k [(keyed au, now)] ch) as (k1 & (Hr1 & Hd1 & _ & Hv1 & _) & Hq & Ht); try done.
  { by apply Forall_singleton. } { fold name. by rewrite E. } { rewrite Hb. simpl. lia. }
  fold name in Hq, Ht. rewrite E in Hq, Ht. simpl in Hq, Ht. rewrite Hb in Hq. simpl in Hq.
  destruct (receive_all c0 name a _ k1 Hr1 Ht Hq) as (k2 & Hr2 & Hv2 & _ & Hd2 & _).
  destruct (bidiCall_request cfg maxResp (mkReader [] EOF) au now Hn) as (evs & b & Eb & Hw & Hf & _ & H0 & H1); [apply Hs|].
  exists k2, KExit, (mkReader [] EOF), (EvWriteBytes (FeedHeaderLen + zlen (au_Bytes au)) :: evs), b.
  split_and!; try done.
  - rewrite Hd2, Hd1. apply list_lookup_insert_eq. by eapply lookup_lt_Some.
  - by rewrite Hv2, Hv1.
  - f_equal. destruct (cfg_OnBidiResponse cfg); [by apply H1|]. by apply H0.
Qed.

(** calls are accepted one goroutine each: as long as the client is open and
    accepting succeeds, [bidiAcceptor] starts a goroutine for every stream, in
    the order of arrival; an error of the accept ends the loop, without failing
    the client as the loop over uni streams does. *)
Theorem bidi_streams_accepted streams rest :
  (bidiAcceptor (((fun s => (false, Ok s)) <$> streams) ++ rest)).1 =
  (KPeek <$> streams) ++ (bidiAcceptor rest).1 /\
  forall e, bidiAcceptor (((fun s => (false, Ok s)) <$> streams) ++ [(false, Err e)]) = (KPeek <$> streams, true).
Proof.
  induction streams as [|s streams [IH1 IH2]]; csimpl; [done|]. split.
  - destruct (bidiAcceptor (_ ++ rest)) as [ds ret] eqn:E. cbn in IH1 |- *. by rewrite IH1.
  - intros e. by rewrite IH2.
Qed.

Module ToolCallDemo.
Import ClientDemo.

Definition call_cfg : Config := cfg_bidi.
Definition call_au : AccessUnit := au0 9 false 1.
Definition call_stream : reader := mkReader (gop_bytes call_cfg [(keyed call_au, 0)]) EOF.
Definition call_accepted : kconf :=
  mkKConf demo_client None [KPeek call_stream] [] [call_stream] {[0%nat := "primary"%string]} [] [].

Lemma call_accept : kreach demo_client call_accepted.
Proof. exact (kr_step _ _ _ (kr_init _) (ks_accept demo_client None [] [] [] _ [] [] call_stream)). Qed.

Lemma call_chan : fd_chans (trackChan (arrives_as call_cfg) (c_feed demo_client)).2 !!
  (trackChan (arrives_as call_cfg) (c_feed demo_client)).1 = Some (make_chan AccessUnit 16).
Proof. vm_compute. reflexivity. Qed.

Lemma call_sendable : sendable (call_au, 0).
Proof. repeat split; vm_compute; congruence. Qed.

Lemma tool_call_received_witness :
  exists k' evs b, kreach demo_client k' /\
    bidiCall call_cfg 64 (Ok (freshCall (mkReader [] EOF))) call_au 0 = (evs, Some b) /\
    k_recvs k' = [VReturned (Ok (client_au call_cfg (keyed call_au, 0)))].
Proof.
  pose proof (tool_call_received demo_client call_accepted 0 call_cfg 64 call_au 0 (make_chan AccessUnit 16)
    demo_dialed call_accept ltac:(lia) ltac:(vm_compute; discriminate) call_sendable eq_refl) as H.
  pose proof call_chan as Hc. cbv zeta in H. change (c_feed (k_cl call_accepted)) with (c_feed demo_client) in H.
  destruct (trackChan (arrives_as call_cfg) (c_feed demo_client)) as [a f].
  destruct (H Hc eq_refl ltac:(simpl; lia)) as (k' & d & answer & evs & b & Hr & _ & Ha & Hv & Hb & _).
  exists k', evs, b. split; [exact Hr|]. split; [|exact Hv]. destruct d; try discriminate Ha. injection Ha as <-. exact Hb.
Defined.
End ToolCallDemo.
