(* ===== verification/ClientSessions.v ===== *)
(** * The client against the server

    The handshake of [client/client.go] run against the handshake of
    [session/session.go], the client's control loop, and the tracks it publishes
    back. *)

From Stdlib Require Import Strings.Ascii.
From S2P Require Import Prelude Wire Track Replay Pubsub PubsubCalls RateLimit Pump DataChannel Inbound KindStats.
From S2P Require Import Session Client ClientRecv.

(** ** The handshake, both sides *)

Section Agreement.
Context {W : Type} `{JSON Hello, JSON SDP}.
Context (cfg : SessionConfig W) (hooks : Hooks W).
Context (order : gmap string nat -> list (string * nat)).

Lemma tryResume_out hello s : ss_out (tryResume cfg hooks order hello s).2 = ss_out s.
Proof.
  unfold tryResume. destruct (OnResume hooks); [|done]. destruct (decide _); [done|].
  by destruct (_ (Tenant _) _ _ _) as [[]].
Qed.

Lemma startFresh_out s : ss_out (startFresh cfg hooks order s) = ss_out s.
Proof.
  unfold startFresh. destruct (OnAllocateID hooks) as [f|]; [destruct (f _)|];
    (destruct (OnFreshSession hooks) as [g|]; [destruct (g _)|]); done.
Qed.

(** What the server has written once it has accepted a HELLO. *)
Lemma startSession_out hello s err s' :
  w_script (ss_out s) = [] -> startSession cfg hooks order hello s = (err, s') ->
  match err with
  | None => exists sdp, Marshal (answer cfg hello (ss_id s')) = Ok sdp /\ zlen sdp <= MaxControlPayload /\
              w_out (ss_out s') = w_out (ss_out s) ++ control_bytes TypeSDP sdp /\
              NegotiatedFeatures (ss_id s') = sdp_Features (answer cfg hello (ss_id s'))
  | Some _ => w_out (ss_out s') = w_out (ss_out s)
  end.
Proof.
  intros Hw. unfold startSession. set (s0 := with_id _ _). pose proof (tryResume_out hello s0) as Ho.
  destruct (tryResume cfg hooks order hello s0) as [resumed s1]. simpl in Ho.
  set (s2 := if resumed then s1 else startFresh cfg hooks order s1).
  assert (ss_out s2 = ss_out s) as Ho2 by (subst s2; destruct resumed; rewrite ?startFresh_out, Ho; done).
  clearbody s2. unfold sendSDP. destruct (Marshal _) as [sdp|e] eqn:Em.
  - unfold ctlWrite. cbn [ss_out with_id]. destruct (zlen sdp >? MaxControlPayload) eqn:El.
    + unfold WriteControlFrame. rewrite El. intros [= <- <-]. simpl. by rewrite Ho2.
    + rewrite Ho2. destruct (ss_out s) as [out scr] eqn:Es. simpl in Hw. subst scr.
      rewrite WriteControlFrame_accept by lia. intros [= <- <-]. exists sdp. simpl. split_and!; try done. lia.
  - intros [= <- <-]. simpl. by rewrite Ho2.
Qed.

Lemma bestEffortError_out msg (s : session W) : w_script (ss_out s) = [] -> zlen (bytes_of msg) <= MaxControlPayload ->
  w_out (ss_out (bestEffortError msg s)) = w_out (ss_out s) ++ control_bytes TypeError (bytes_of msg).
Proof.
  intros Hw Hl. unfold bestEffortError, ctlWrite. destruct (ss_out s) as [out scr] eqn:Es. simpl in Hw. subst scr.
  rewrite WriteControlFrame_accept by done. done.
Qed.

(** What the server writes when it reads one well-formed HELLO. *)
Lemma handshake_out s hello hb e err s' :
  ss_ctl s = mkReader (control_bytes TypeHello hb) e -> zlen hb <= MaxControlPayload ->
  Unmarshal hb = Ok hello -> w_script (ss_out s) = [] ->
  Session.handshake cfg hooks order None s = (err, s') ->
  match err with
  | None => exists sdp, Marshal (answer cfg hello (ss_id s')) = Ok sdp /\ zlen sdp <= MaxControlPayload /\
              w_out (ss_out s') = w_out (ss_out s) ++ control_bytes TypeSDP sdp /\
              NegotiatedFeatures (ss_id s') = sdp_Features (answer cfg hello (ss_id s'))
  | Some _ => w_out (ss_out s') = w_out (ss_out s) \/
              exists msg, zlen msg <= MaxControlPayload /\
                w_out (ss_out s') = w_out (ss_out s) ++ control_bytes TypeError msg
  end.
Proof.
  intros Hc Hl Hu Hw. unfold Session.handshake. rewrite Hc. rewrite <- (app_nil_r (control_bytes TypeHello hb)).
  rewrite ReadControlFrame_bytes by done. rewrite bool_decide_true by done. cbn [negb]. rewrite Hu.
  destruct (helloVersions hello) as [lo hi].
  destruct (NegotiateVersion lo hi MinSupportedVersion CurrentVersion) as [neg []].
  2:{ intros [= <- <-]. right. eexists. split; [|rewrite bestEffortError_out; [reflexivity|exact Hw|by vm_compute]]. by vm_compute. }
  destruct (authenticate cfg (h_Slug hello)) as [tenant|e'].
  2:{ intros [= <- <-]. right. eexists. split; [|rewrite bestEffortError_out; [reflexivity|exact Hw|by vm_compute]]. by vm_compute. }
  destruct (decide _).
  { intros [= <- <-]. right. eexists. split; [|rewrite bestEffortError_out; [reflexivity|exact Hw|by vm_compute]]. by vm_compute. }
  intros Hst. apply startSession_out in Hst; [|done]. destruct err; [by left|exact Hst].
Qed.
End Agreement.

Lemma ReadControlFrame_nil e : ReadControlFrame (mkReader [] e) = (Err e, mkReader [] e).
Proof. unfold ReadControlFrame, rd_bind. by rewrite ReadFull_nil. Qed.

Section Dialing.
Context `{JSON Hello, JSON SDP}.
Context (opts : Options) (slug : string).

(** The HELLO of a dial with [opts]. *)
Definition dialHello : Hello :=
  mkHello "recv" slug CurrentVersion "" "" (o_SessionID opts)
    (default DefaultClientFeatures (o_Features opts)) (o_LastSeenSeq opts).

(** The client once its HELLO is written. *)
Definition helloSent (hb : list byte) (ctl : reader) : Client :=
  with_writer (newClient opts ctl (mkWriter [] [])) (mkWriter (control_bytes TypeHello hb) []).

(** A client that gives up: closed, with a final frame. *)
Lemma Close_new c : dc_ok (c_dc c) -> exists c', Close c = Some c' /\ c_closed c' = true.
Proof.
  intros Hdc. unfold Close. destruct (c_closed c) eqn:Ec; [by exists c|]. simpl.
  destruct (dc_step_ok _ _ _ Hdc (dstep_close (c_dc c))) as (dc & -> & _). simpl. unfold writeCtl. simpl.
  destruct (WriteControlFrame _ _ _). by eexists.
Qed.

Lemma dial_reads hb ctl :
  Marshal dialHello = Ok hb -> zlen hb <= MaxControlPayload ->
  dialSession opts slug ctl (mkWriter [] []) =
  match ReadControlFrame ctl with
  | (Ok (t, payload), r) =>
      if bool_decide (t = TypeError)
      then c ← Close (with_reader (helloSent hb ctl) r); Some (Some (ErrMsg ("server rejected: " +:+ string_of payload)), c)
      else if bool_decide (t = TypeSDP)
      then match Unmarshal payload with
           | Err e => c ← Close (with_reader (helloSent hb ctl) r); Some (Some e, c)
           | Ok sdp =>
               let c := with_sdp (with_reader (helloSent hb ctl) r) sdp in
               Some (None, if hasNegotiatedFeature featureKindStats c then with_stats c (Some newKindStatsCollector) else c)
           end
      else c ← Close (with_reader (helloSent hb ctl) r); Some (Some (ErrMsg ("expected SDP, got " +:+ hexByte t)), c)
  | (Err e, r) => c ← Close (with_reader (helloSent hb ctl) r); Some (Some e, c)
  end.
Proof.
  intros Hm Hl. unfold dialSession, handshake.
  change (helloOf slug (newClient opts ctl (mkWriter [] []))) with dialHello. rewrite Hm. unfold writeCtl at 1.
  cbn [c_out newClient]. rewrite WriteControlFrame_accept by done. cbn [app c_ctl with_writer newClient].
  change (with_writer _ _) with (helloSent hb ctl). destruct (ReadControlFrame ctl) as [[[t payload]|e] r]; [|done].
  destruct (bool_decide (t = TypeError)); [done|]. destruct (bool_decide (t = TypeSDP)); [|done]. simpl.
  by destruct (Unmarshal payload).
Qed.

(** A dial whose control stream ends, or starts with anything but an SDP, fails
    and closes the client. *)
Lemma dial_fails hb ctl :
  Marshal dialHello = Ok hb -> zlen hb <= MaxControlPayload ->
  match ReadControlFrame ctl with (Ok (t, _), _) => t <> TypeSDP | (Err _, _) => True end ->
  exists e c, dialSession opts slug ctl (mkWriter [] []) = Some (Some e, c) /\ c_closed c = true /\
    (forall payload r, ReadControlFrame ctl = (Ok (TypeError, payload), r) ->
       e = ErrMsg ("server rejected: " +:+ string_of payload)) /\
    (forall payload r, ReadControlFrame ctl = (Ok (TypeAnnounce, payload), r) ->
       e = ErrMsg "expected SDP, got 0xa").
Proof.
  intros Hm Hl Ht. rewrite (dial_reads hb ctl Hm Hl).
  assert (forall r, exists c, Close (with_reader (helloSent hb ctl) r) = Some c /\ c_closed c = true) as Hc
    by (intros r; by apply Close_new).
  destruct (ReadControlFrame ctl) as [[[t payload]|e] r]; destruct (Hc r) as (c & -> & Hcl); simpl.
  - destruct (bool_decide (t = TypeError)) eqn:Et; [apply bool_decide_eq_true in Et; subst t|].
    + do 2 eexists. split_and!; [done|done|by intros ? ? [= <- _]|done].
    + rewrite (bool_decide_false (t = TypeSDP)) by done. do 2 eexists. split_and!; [done|done|..].
      * intros ? ? [= -> _ _]. done.
      * intros ? ? [= -> _ _]. done.
  - do 2 eexists. by split_and!.
Qed.
End Dialing.

(** C13: the two ends agree.  When the server's session handles the HELLO that a
    client sends, and the client reads what the server has written: if the
    server's handshake succeeds, [Dial] succeeds with the server's session id,
    negotiated features and version, has a statistics collector exactly when the
    two agreed on kind-stats, and is in the state in which the receive plane
    starts; if it fails, [Dial] fails with a closed client, and says so when the
    server gave a reason. *)
Theorem dial_agrees_with_server {W} `{JSON Hello, JSON SDP} (cfg : SessionConfig W) hooks order s opts slug hb e e' err s' :
  Marshal (dialHello opts slug) = Ok hb -> zlen hb <= MaxControlPayload -> Unmarshal hb = Ok (dialHello opts slug) ->
  ss_ctl s = mkReader (control_bytes TypeHello hb) e -> ss_out s = mkWriter [] [] ->
  Session.handshake cfg hooks order None s = (err, s') ->
  (forall (d : SDP) b, w_out (ss_out s') = control_bytes TypeSDP b -> Marshal d = Ok b -> Unmarshal b = Ok d) ->
  exists cerr c, dialSession opts slug (mkReader (w_out (ss_out s')) e') (mkWriter [] []) = Some (cerr, c) /\
    w_out (c_out c) = control_bytes TypeHello hb ++ match err with Some _ => control_bytes TypeClose [] | None => [] end /\
    match err with
    | None => cerr = None /\ c_assignedSessionID c = SessionID (ss_id s') /\
        c_negotiatedFeatures c = NegotiatedFeatures (ss_id s') /\
        sdp_NegotiatedVersion <$> c_sdp c = Some (NegotiatedVersion (ss_id s')) /\
        (is_Some (c_kindStats c) <-> featureKindStats ∈ NegotiatedFeatures (ss_id s')) /\ dialed c
    | Some _ => is_Some cerr /\ c_closed c = true
    end.
Proof.
  intros Hm Hl Hu Hc Ho Hh Hsdp.
  pose proof (handshake_out cfg hooks order s _ hb e err s' Hc Hl Hu ltac:(by rewrite Ho) Hh) as Hout.
  rewrite Ho in Hout. cbn [w_out app] in Hout. destruct err as [err|].
  - destruct (dial_fails opts slug hb (mkReader (w_out (ss_out s')) e') Hm Hl) as (ce & c & Hd & Hcl & _).
    { destruct Hout as [-> | (msg & Hlm & ->)]; [by rewrite ReadControlFrame_nil|].
      rewrite <- (app_nil_r (control_bytes _ _)), ReadControlFrame_bytes; done. }
    exists (Some ce), c. split_and!; [done| |by eexists|done].
    rewrite (dial_reads opts slug hb _ Hm Hl) in Hd. clear Hh.
    assert (forall r c, Close (with_reader (helloSent opts hb (mkReader (w_out (ss_out s')) e')) r) = Some c ->
      w_out (c_out c) = control_bytes TypeHello hb ++ control_bytes TypeClose []) as Hw.
    { intros r c1. unfold Close. cbn [c_closed with_reader helloSent with_writer newClient]. unfold dc_Close.
      cbn [c_dc with_pub with_closed with_reader helloSent with_writer newClient dc_New dc_closed dc_in ch_closed
        make_chan mbind option_bind]. unfold writeCtl. cbn [c_out with_chan with_pub with_closed with_reader helloSent with_writer].
      rewrite WriteControlFrame_accept by (by vm_compute). by intros [= <-]. }
    destruct Hout as [E | (msg & Hlm & E)]; rewrite E in Hd.
    + rewrite ReadControlFrame_nil, <- E in Hd. destruct (Close _) eqn:Ec; [|done]. injection Hd as _ <-. by eapply Hw.
    + rewrite <- (app_nil_r (control_bytes TypeError msg)), ReadControlFrame_bytes in Hd by done.
      rewrite bool_decide_true, app_nil_r, <- E in Hd by done. destruct (Close _) eqn:Ec; [|done].
      injection Hd as _ <-. by eapply Hw.
  - destruct Hout as (sdp & Hms & Hls & Ew & Hnf). pose proof (Hsdp _ _ Ew Hms) as Hrt. rewrite Ew, (dial_reads opts slug hb _ Hm Hl).
    rewrite <- (app_nil_r (control_bytes TypeSDP sdp)), ReadControlFrame_bytes by done.
    rewrite bool_decide_false, bool_decide_true, Hrt by done. do 2 eexists. split; [done|].
    unfold hasNegotiatedFeature. cbn [c_negotiatedFeatures with_sdp]. rewrite <- Hnf.
    destruct (bool_decide (featureKindStats ∈ _)) eqn:Ek;
      [apply bool_decide_eq_true in Ek|apply bool_decide_eq_false in Ek]; simpl; rewrite ?app_nil_r; by split_and!.
Qed.

(** an announce that overtakes the SDP breaks the connection.  The server
    registers a session before its handshake, so [AddTrack] may write an
    Announce frame to a peer that has not been answered yet; when the server's
    handshake then succeeds, the client's [Dial] fails on that frame and closes,
    whatever the announced track. *)
Theorem early_announce_fails_dial {W} `{JSON Hello, JSON SDP, JSON Announce} (cfg : SessionConfig W) hooks order s
    opts slug hb e e' name kind codec ab s' :
  Marshal (dialHello opts slug) = Ok hb -> zlen hb <= MaxControlPayload -> Unmarshal hb = Ok (dialHello opts slug) ->
  ss_ctl s = mkReader (control_bytes TypeHello hb) e -> ss_out s = mkWriter [] [] ->
  Marshal (mkAnnounce name kind codec) = Ok ab -> zlen ab <= MaxControlPayload ->
  Session.handshake cfg hooks order None (SendAnnounce name kind codec s) = (None, s') ->
  exists c, dialSession opts slug (mkReader (w_out (ss_out s')) e') (mkWriter [] []) =
            Some (Some (ErrMsg "expected SDP, got 0xa"), c) /\ c_closed c = true.
Proof.
  intros Hm Hl Hu Hc Ho Ha Hal Hh.
  assert (ss_out (SendAnnounce name kind codec s) = mkWriter (control_bytes TypeAnnounce ab) [] /\
    ss_ctl (SendAnnounce name kind codec s) = ss_ctl s) as [Ho1 Hc1].
  { unfold SendAnnounce, ctlWrite. rewrite Ha, Ho, WriteControlFrame_accept by done. done. }
  pose proof (handshake_out cfg hooks order _ _ hb e None s' ltac:(by rewrite Hc1) Hl Hu ltac:(by rewrite Ho1) Hh)
    as (sdp & _ & _ & -> & _).
  rewrite Ho1. cbn [w_out]. set (ctl := mkReader _ e').
  assert (ReadControlFrame ctl = (Ok (TypeAnnounce, ab), mkReader (control_bytes TypeSDP sdp) e')) as Hr
    by (by apply ReadControlFrame_bytes).
  destruct (dial_fails opts slug hb ctl Hm Hl) as (ce & c & Hd & Hcl & _ & He); [by rewrite Hr|].
  exists c. by rewrite Hd, (He _ _ Hr).
Qed.

(** ** The control loop *)

Section ControlLoop.
Context `{JSON Announce, JSON Unannounce}.

(** The answers to the pings among some frames. *)
Definition pongs (fs : list (byte * list byte)) : list byte :=
  concat ((fun tp => if bool_decide (tp.1 = TypePing) then control_bytes TypePong tp.2 else []) <$> fs).

(** The tracks announced and not unannounced after a frame. *)
Definition remoteAfter (names : gset string) (tp : byte * list byte) : gset string :=
  if bool_decide (tp.1 = TypeAnnounce)
  then match Unmarshal tp.2 with Ok a => {[a_Name a]} ∪ names | Err _ => names end
  else if bool_decide (tp.1 = TypeUnannounce)
  then match Unmarshal tp.2 with Ok u => names ∖ {[un_Name u]} | Err _ => names end
  else names.

Definition plain (tp : byte * list byte) : Prop :=
  tp.1 <> TypeError /\ tp.1 <> TypeClose /\ zlen tp.2 <= MaxControlPayload.

(** The client between two frames. *)
Record ctl_ready (c : Client) : Prop := {
  cr_feeds : exists ns, feeds_ok ns (c_feed c);
  cr_dc : dc_ok (c_dc c);
  cr_feedErr : ch_closed (c_feedErr c) = false;
  cr_out : w_script (c_out c) = [];
}.

Lemma writeCtl_ready typ p c :
  w_script (c_out c) = [] -> zlen p <= MaxControlPayload ->
  writeCtl typ p c = (None, with_writer c (mkWriter (w_out (c_out c) ++ control_bytes typ p) [])).
Proof.
  intros Hw Hl. unfold writeCtl. destruct (c_out c) as [out scr]. simpl in Hw. subst scr.
  by rewrite WriteControlFrame_accept.
Qed.

Lemma remote_unannounce u f f' :
  handleRemoteUnannounce u f = Some f' -> RemoteTracks f' = RemoteTracks f ∖ {[un_Name u]}.
Proof.
  unfold handleRemoteUnannounce, RemoteTracks. destruct (fd_trackDone f !! un_Name u) as [d|].
  - destruct (fd_dones f !! d) as [[]|]; try done. intros [= <-]. simpl. apply dom_delete_L.
  - intros [= <-]. simpl. apply dom_delete_L.
Qed.

Lemma remote_announce a f : RemoteTracks (handleRemoteAnnounce a f) = {[a_Name a]} ∪ RemoteTracks f.
Proof.
  unfold handleRemoteAnnounce, RemoteTracks, setRemoteTrack. simpl. rewrite dom_insert_L. f_equal.
  unfold trackChan. by destruct (fd_tracks f !! a_Name a).
Qed.

Lemma controlFrame_plain tp c : ctl_ready c -> plain tp ->
  exists c', controlFrame tp.1 tp.2 c = Some (KContinue c') /\ ctl_ready c' /\
    w_out (c_out c') = w_out (c_out c) ++ pongs [tp] /\ RemoteTracks (c_feed c') = remoteAfter (RemoteTracks (c_feed c)) tp /\
    c_closed c' = c_closed c /\ c_feedErr c' = c_feedErr c /\ c_ctl c' = c_ctl c.
Proof.
  destruct tp as [t p]. intros [(ns & Hf) Hdc He Hw] (H1 & H2 & Hl). unfold controlFrame, pongs, remoteAfter. simpl in *.
  rewrite app_nil_r. destruct (bool_decide (t = TypePing)) eqn:Eping.
  { apply bool_decide_eq_true in Eping as ->. rewrite writeCtl_ready by done. simpl. eexists. split; [done|].
    split; [split; try done; by exists ns|]. by split_and!. }
  rewrite app_nil_r. destruct (bool_decide (t = TypePong)) eqn:Epong.
  { apply bool_decide_eq_true in Epong as ->. exists c. split; [done|]. split; [split; try done; by exists ns|]. done. }
  destruct (bool_decide (t = TypeData)) eqn:Edata.
  { apply bool_decide_eq_true in Edata as ->.
    destruct (dc_step_ok _ _ _ Hdc (dstep_deliver (c_dc c) p)) as (dc & -> & Hok). simpl. eexists. split; [done|].
    split; [split; try done; by exists ns|]. done. }
  destruct (bool_decide (t = TypeAnnounce)) eqn:Ea.
  { destruct (Unmarshal p) as [a|e].
    - eexists. split; [done|]. split; [split; try done|split_and!; try done; apply remote_announce].
      destruct (trackChan_ok ns (a_Name a) _ Hf) as (Hf' & _). eexists. apply setRemoteTrack_ok. exact Hf'.
    - exists c. split; [done|]. split; [split; try done; by exists ns|]. done. }
  destruct (bool_decide (t = TypeUnannounce)) eqn:Eu.
  { destruct (Unmarshal p) as [u|e].
    - destruct (unannounce_ok ns u _ Hf) as (f' & Hu & Hf' & _). rewrite Hu. simpl. eexists. split; [done|].
      split; [split; try done; by exists ns|split_and!; try done; by apply remote_unannounce].
    - exists c. split; [done|]. split; [split; try done; by exists ns|]. done. }
  rewrite !bool_decide_false by done. exists c. split; [done|]. split; [split; try done; by exists ns|]. done.
Qed.

Lemma ctl_ready_reader c r : ctl_ready c -> ctl_ready (with_reader c r).
Proof. intros []. by split. Qed.

Definition frames_bytes (fs : list (byte * list byte)) : list byte :=
  concat ((fun tp => control_bytes tp.1 tp.2) <$> fs).

Lemma frames_bytes_cons tp fs : frames_bytes (tp :: fs) = control_bytes tp.1 tp.2 ++ frames_bytes fs.
Proof. done. Qed.

Lemma pongs_cons tp fs : pongs (tp :: fs) = pongs [tp] ++ pongs fs.
Proof. unfold pongs. csimpl. by rewrite app_nil_r. Qed.

Lemma controlRounds_plain fs : forall k c rest e,
  ctl_ready c -> Forall plain fs -> c_ctl c = mkReader (frames_bytes fs ++ rest) e ->
  exists c', controlRounds (length fs + k) c = controlRounds k c' /\ ctl_ready c' /\
    w_out (c_out c') = w_out (c_out c) ++ pongs fs /\
    RemoteTracks (c_feed c') = foldl remoteAfter (RemoteTracks (c_feed c)) fs /\
    c_closed c' = c_closed c /\ c_feedErr c' = c_feedErr c /\ c_ctl c' = mkReader rest e.
Proof.
  induction fs as [|tp fs IH]; intros k c rest e Hr Hp Hc.
  { exists c. unfold pongs. simpl. by rewrite app_nil_r. }
  apply Forall_cons in Hp as [Ht Hp]. cbn [length Nat.add controlRounds]. rewrite Hc.
  rewrite frames_bytes_cons, <- app_assoc, ReadControlFrame_bytes by (by destruct Ht as (_ & _ & ?)).
  destruct (controlFrame_plain tp _ (ctl_ready_reader c (mkReader (frames_bytes fs ++ rest) e) Hr) Ht)
    as (c1 & E & Hr1 & Ho1 & Hn1 & Hcl1 & He1 & Hc1).
  rewrite E. simpl. destruct (IH k c1 rest e Hr1 Hp Hc1) as (c' & E' & Hr' & Ho' & Hn' & Hcl' & He' & Hc').
  exists c'. rewrite E', Ho', Ho1, Hn', Hn1, Hcl', Hcl1, He', He1. simpl. split_and!; try done.
  by rewrite (pongs_cons tp fs), app_assoc.
Qed.

Lemma length_frames_bytes fs : (length fs <= length (frames_bytes fs))%nat.
Proof.
  induction fs as [|tp fs IH]; [simpl; lia|]. rewrite frames_bytes_cons, length_app. unfold control_bytes. simpl. lia.
Qed.
End ControlLoop.

(** the control loop.  On a control stream of complete frames without an
    Error or Close frame, the control reader handles every one of them: it
    answers each ping with a pong that carries the ping's payload, in order, and
    writes nothing else; the remote tracks are those announced and not
    unannounced since; it stops at the end of the stream without closing the
    client.  An Error or Close frame after them ends the loop with the client
    closed, bytes behind it unread, and the error (none for Close) left for a
    receive if no other was pending. *)
Theorem client_control_loop `{JSON Announce, JSON Unannounce} c fs rest e last :
  ctl_ready c -> Forall plain fs ->
  (match last with
   | None => rest = []
   | Some (t, p) => (t = TypeError \/ t = TypeClose) /\ zlen p <= MaxControlPayload
   end) ->
  c_ctl c = mkReader (frames_bytes fs ++ match last with Some (t, p) => control_bytes t p ++ rest | None => rest end) e ->
  c_closed c = false ->
  exists c', controlReader c = Some c' /\
    RemoteTracks (c_feed c') = foldl remoteAfter (RemoteTracks (c_feed c)) fs /\ rd_data (c_ctl c') = rest /\
    match last with
    | None => c_closed c' = false /\ w_out (c_out c') = w_out (c_out c) ++ pongs fs /\ c_feedErr c' = c_feedErr c
    | Some (t, p) => c_closed c' = true /\ w_out (c_out c') = w_out (c_out c) ++ pongs fs ++ control_bytes TypeClose [] /\
        (ch_buf (c_feedErr c) = [] -> (0 < ch_cap (c_feedErr c))%nat ->
         ch_buf (c_feedErr c') =
           [if bool_decide (t = TypeError) then Some (ErrMsg ("server error: " +:+ string_of p)) else None])
    end.
Proof.
  intros Hr Hp Hlast Hc Hcl. unfold controlReader.
  assert (length fs < length (rd_data (c_ctl c)) + 1)%nat as Hlen.
  { rewrite Hc. simpl. rewrite length_app. pose proof (length_frames_bytes fs). lia. }
  replace (S (length (rd_data (c_ctl c)))) with (length fs + S (length (rd_data (c_ctl c)) - length fs))%nat by lia.
  edestruct (controlRounds_plain fs) as (c1 & -> & [(ns & Hf) Hdc He Hw] & Ho & Hn & Hcl1 & He1 & Hc1); [done|done|exact Hc|].
  rewrite <- Ho, <- Hn, <- He1. rewrite Hcl in Hcl1. clear Hn He1. cbn [controlRounds]. rewrite Hc1.
  destruct last as [[t p]|]; [|subst rest; rewrite ReadControlFrame_nil; by exists (with_reader c1 (mkReader [] e))].
  destruct Hlast as [Ht Hl]. rewrite ReadControlFrame_bytes by done. set (c2 := with_reader c1 _).
  set (err := if bool_decide (t = TypeError) then Some (ErrMsg ("server error: " +:+ string_of p)) else None).
  assert (controlFrame t p c2 = (c' ← fail err c2; Some (KReturn c'))) as ->
    by (unfold err; destruct Ht as [-> | ->]; reflexivity).
  unfold fail. destruct (pushFeedErr_kept c2 err Hdc He) as (c3 & E3 & _). rewrite E3. simpl.
  assert (c_closed c3 = false /\ c_out c3 = c_out c1 /\ c_feed c3 = c_feed c1 /\ c_ctl c3 = mkReader rest e /\ dc_ok (c_dc c3) /\
    (ch_buf (c_feedErr c1) = [] -> (0 < ch_cap (c_feedErr c1))%nat -> ch_buf (c_feedErr c3) = [err])) as (Q1 & Q2 & Q3 & Q4 & Q5 & Q6).
  { unfold pushFeedErr, try_send in E3. simpl in E3. rewrite He in E3.
    destruct (Nat.ltb_spec (length (ch_buf (c_feedErr c1))) (ch_cap (c_feedErr c1))) as [|Hge]; injection E3 as <-;
      split_and!; try done; simpl; [by intros ->|intros Hb ?; rewrite Hb in Hge; simpl in *; lia]. }
  unfold Close. rewrite Q1. simpl.
  destruct (dc_step_ok _ _ _ Q5 (dstep_close (c_dc c3))) as (dc & -> & _). simpl.
  rewrite writeCtl_ready; [|simpl; by rewrite Q2|by vm_compute]. eexists. split; [done|]. simpl.
  by rewrite Q3, Q4, Q2, Ho, <- app_assoc.
Qed.

(** ** Tracks published back *)

Section PublishBack.
Context `{JSON Announce, JSON Unannounce}.

Record pub_ok (c : Client) : Prop := {
  po_stores b s : pb_bcs (c_pub c) !! b = Some s -> store_ok s;
  po_tracks n b : pb_tracks (c_pub c) !! n = Some b -> is_Some (pb_bcs (c_pub c) !! b);
  po_pumps i r : pb_pumps (c_pub c) !! i = Some r ->
    pr_cancelled r = true \/ (i ∈ pb_cancels (c_pub c) /\ c_closed c = false);
  po_dc : dc_ok (c_dc c);
}.

(** The application's calls; a sender is the result of an earlier [Publish]. *)
Inductive pstep : Client -> option Client -> Prop :=
  | ps_publish lt c : pstep c (res ← Publish lt c; Some res.2)
  | ps_send snd au order sched s c :
      pb_bcs (c_pub c) !! cs_bc snd = Some s -> order ≡ₚ elements (b_receivers (bc s)) ->
      pstep c (res ← Send snd au order sched c; Some res.2)
  | ps_sender_close snd c : pstep c (Some (senderClose snd c))
  | ps_unpublish name order c :
      (forall b s, pb_tracks (c_pub c) !! name = Some b -> pb_bcs (c_pub c) !! b = Some s ->
         order ≡ₚ elements (b_receivers (bc s))) ->
      pstep c (Unpublish name order c)
  | ps_close c : pstep c (Close c).

Inductive preach (c0 : Client) : Client -> Prop :=
  | pr_init : preach c0 c0
  | pr_step c c' : preach c0 c -> pstep c (Some c') -> preach c0 c'.

(** Writes on the control stream leave the published tracks alone. *)
Lemma writeCtl_pub typ p c : c_pub (writeCtl typ p c).2 = c_pub c /\ c_closed (writeCtl typ p c).2 = c_closed c /\
  c_dc (writeCtl typ p c).2 = c_dc c.
Proof. unfold writeCtl. by destruct (WriteControlFrame _ _ _). Qed.

Lemma writeJSON_pub {A} `{JSON A} typ (v : A) c : c_pub (writeJSON typ v c).2 = c_pub c /\
  c_closed (writeJSON typ v c).2 = c_closed c /\ c_dc (writeJSON typ v c).2 = c_dc c.
Proof. unfold writeJSON. destruct (Marshal v); [apply writeCtl_pub|done]. Qed.

Lemma pub_ok_same c c' : pub_ok c -> c_pub c' = c_pub c -> c_closed c' = c_closed c -> c_dc c' = c_dc c -> pub_ok c'.
Proof. intros [H1 H2 H3 H4] E1 E2 E3. split; rewrite ?E1, ?E2, ?E3; done. Qed.

Lemma pub_ok_remove c name : pub_ok c -> pub_ok (with_pub c (removePubTrack name (c_pub c))).
Proof. intros [H1 H2 H3 H4]. split; simpl; try done. intros n b [_ Hb]%lookup_delete_Some. eauto. Qed.

Lemma pub_ok_store c b s : pub_ok c -> store_ok s ->
  pub_ok (with_pub c (mkPublished (pb_tracks (c_pub c)) (<[b := s]> (pb_bcs (c_pub c))) (pb_pumps (c_pub c))
                        (pb_cancels (c_pub c)))).
Proof.
  intros [H1 H2 H3 H4] Hs. split; simpl; try done.
  - intros b' s' Hb. apply lookup_insert_Some in Hb as [[<- <-] | [_ Hb]]; eauto.
  - intros n b' Hb. apply lookup_insert_is_Some'. eauto.
Qed.

Lemma new_store_ok k : store_ok (mkStore ∅ (if decide (k <> KindVideo /\ k <> ""%string)
  then SetSelfContained true (NewBroadcaster (W := unit) 0) else NewBroadcaster 0) tt).
Proof.
  assert (store_ok (mkStore ∅ (NewBroadcaster (W := unit) 0) tt)) as H1 by apply (initial_ok 0 (Z.shiftl 16 20) tt).
  destruct (decide _); [|done]. destruct H1. by split.
Qed.

Lemma Publish_ok lt c : pub_ok c -> exists res c', Publish lt c = Some (res, c') /\ pub_ok c' /\
  (c_closed c = false -> c_closed c' = false).
Proof.
  intros Hok. unfold Publish. destruct (c_closed c) eqn:Ec; [by do 2 eexists|].
  destruct (pb_tracks (c_pub c) !! publishName lt) as [b|] eqn:Et; [by do 2 eexists|].
  unfold newPubTrack. set (b := fresh _). set (p1 := mkPublished _ _ _ _). set (c1 := with_pub c p1).
  assert (pub_ok c1) as Hok1.
  { destruct Hok as [H1 H2 H3 H4]. split; subst c1 p1; simpl; try done.
    - intros b' s Hb. apply lookup_insert_Some in Hb as [[<- <-] | [_ Hb]]; [apply new_store_ok|eauto].
    - intros n b' Hb. apply lookup_insert_Some in Hb as [[<- <-] | [_ Hb]]; apply lookup_insert_is_Some'; eauto. }
  destruct (writeJSON_pub TypeAnnounce (mkAnnounce (publishName lt) (lt_Kind lt) (lt_Codec lt)) c1) as (E1 & E2 & E3).
  destruct (writeJSON _ _ c1) as [[e|] c2]; simpl in E1, E2, E3.
  - do 2 eexists. split; [done|]. split; [apply pub_ok_remove; by eapply pub_ok_same|by rewrite <- Ec].
  - assert (pub_ok c2) as Hok2 by (by eapply pub_ok_same).
    assert (exists s, pb_bcs (c_pub c2) !! b = Some s) as [s Hs].
    { rewrite E1. subst c1 p1. simpl. rewrite lookup_insert_eq. by eexists. }
    unfold spawnPump. rewrite Hs. cbn [mbind option_bind].
    destruct (subscribe_call s (b_chanSize (bc s)) (po_stores _ Hok2 _ _ Hs)) as (a & s' & r & Esub & Hcall & _).
    rewrite Subscribe_capacity, Esub. cbn [mbind option_bind fst snd]. do 2 eexists. split; [done|].
    split; [|simpl; by rewrite E2]. pose proof (pub_ok_store c2 b s' Hok2 (call_inv _ _ Hcall)) as [P1 P2 P3 P4].
    split; simpl in *; try done. intros i q [Hi | [Hi1 Hi2]]%lookup_app_Some.
    + destruct (P3 i q Hi) as [? | [? ?]]; [by left|right]. split; [set_solver|done].
    + apply list_lookup_singleton_Some in Hi2 as [Hi2 <-]. right.
      assert (i = length (pb_pumps (c_pub c2))) as -> by lia. split; [set_solver|by rewrite E2].
Qed.

Lemma cancelPumps_all p i r : pb_pumps (cancelPumps p) !! i = Some r ->
  exists r0, pb_pumps p !! i = Some r0 /\ (pr_cancelled r0 = true \/ i ∈ pb_cancels p -> pr_cancelled r = true).
Proof.
  unfold cancelPumps. simpl. generalize (pb_pumps p). intros ps. revert ps r.
  induction (pb_cancels p) as [|j l IH] using rev_ind; intros ps r; simpl.
  { intros Hi. exists r. split; [done|]. intros [? | ?]; [done|set_solver]. }
  rewrite foldl_snoc. destruct (decide (i = j)) as [<- | Hne].
  - rewrite list_lookup_alter_eq. intros (r1 & Hr1 & ->)%fmap_Some_1. destruct (IH _ _ Hr1) as (r0 & Hr0 & _). by exists r0.
  - rewrite list_lookup_alter_ne by done. intros Hr. destruct (IH _ _ Hr) as (r0 & Hr0 & Hx). exists r0.
    split; [done|]. intros [? | Hin]; [auto|]. apply Hx. set_solver.
Qed.

Lemma Close_pub c : pub_ok c -> exists c', Close c = Some c' /\ pub_ok c' /\ c_closed c' = true.
Proof.
  intros [H1 H2 H3 H4]. unfold Close. destruct (c_closed c) eqn:Ec; [exists c; split_and!; try done; split; by rewrite ?Ec|].
  simpl. destruct (dc_step_ok _ _ _ H4 (dstep_close (c_dc c))) as (dc & -> & Hdc). simpl.
  set (c1 := with_chan _ dc). destruct (writeCtl_pub TypeClose [] c1) as (E1 & E2 & E3).
  eexists. split; [done|]. rewrite E2. split; [|done]. eapply pub_ok_same; [|exact E1|exact E2|exact E3].
  subst c1. split; simpl; try done. intros i r Hi. left.
  destruct (cancelPumps_all _ _ _ Hi) as (r0 & Hr0 & Hx). apply Hx. destruct (H3 i r0 Hr0) as [? | [? _]]; auto.
Qed.

Lemma publish_step_ok c o : pub_ok c -> pstep c o -> exists c', o = Some c' /\ pub_ok c' /\
  (c_closed c = true -> c_closed c' = true).
Proof.
  intros Hok Hst. destruct Hst as [lt c|snd au order sched s c Hs Hord|snd c|name order c Hord|c].
  - destruct (Publish_ok lt c Hok) as (res & c' & E & Hc' & _). rewrite E. exists c'. split; [done|]. split; [done|].
    intros Hcl. unfold Publish in E. rewrite Hcl in E. by injection E as _ <-.
  - unfold Send. destruct (c_closed c) eqn:Ec; [by exists c|]. unfold publishAt. rewrite Hs. cbn [mbind option_bind].
    destruct (publish_call s au order sched (po_stores _ Hok _ _ Hs) Hord) as (s' & -> & Hcall & _).
    simpl. eexists. split; [done|]. split; [|done]. apply pub_ok_store; [done|by destruct Hcall].
  - eexists. split; [done|]. unfold senderClose, unannounce.
    destruct (writeJSON_pub TypeUnannounce (mkUnannounce (cs_name snd)) c) as (E1 & E2 & E3).
    set (c1 := (writeJSON _ _ c).2) in *. split; [apply pub_ok_remove; by eapply pub_ok_same|]. simpl. by rewrite E2.
  - unfold Unpublish. destruct (pb_tracks (c_pub c) !! name) as [b|] eqn:Et; [|by exists c]. unfold unannounce.
    destruct (writeJSON_pub TypeUnannounce (mkUnannounce name) (with_pub c (removePubTrack name (c_pub c)))) as (E1 & E2 & E3).
    set (c1 := (writeJSON _ _ _).2) in *. destruct (po_tracks _ Hok _ _ Et) as [s Hs]. rewrite E1. simpl. rewrite Hs.
    cbn [mbind option_bind]. destruct (close_call s order (po_stores _ Hok _ _ Hs)) as (s' & -> & Hcall & _); [by eapply Hord|].
    simpl. eexists. split; [done|]. split; [|simpl; by rewrite E2].
    pose proof (pub_ok_store c1 b s') as Hx. rewrite E1 in Hx. simpl in Hx. apply Hx; [|by destruct Hcall].
    eapply pub_ok_same; [by apply (pub_ok_remove c name)|done..].
  - destruct (Close_pub c Hok) as (c' & -> & Hc' & Hcl). by exists c'.
Qed.

Lemma preach_ok c0 c : pub_ok c0 -> preach c0 c -> pub_ok c.
Proof.
  intros Hok Hr. induction Hr as [|c c' _ IH Hst]; [done|]. by destruct (publish_step_ok _ _ IH Hst) as (c1 & [= <-] & Hc & _).
Qed.

Lemma newClient_pub opts ctl out : pub_ok (newClient opts ctl out).
Proof. split; simpl; try done. Qed.
End PublishBack.

(** publishing back is safe and ends with the client.  From a newly dialed
    client, no sequence of [Publish], [Send], [Sender.Close], [Unpublish] and
    [Close] panics, and once the client is closed every pump it has ever started
    is cancelled. *)
Theorem publish_back_safe `{JSON Announce, JSON Unannounce} opts ctl out c :
  preach (newClient opts ctl out) c ->
  ~ pstep c None /\ (c_closed c = true -> Forall (fun r => pr_cancelled r = true) (pb_pumps (c_pub c))).
Proof.
  intros Hr. pose proof (preach_ok _ _ (newClient_pub opts ctl out) Hr) as Hok. split.
  - intros Hst. by destruct (publish_step_ok _ _ Hok Hst) as (c' & ? & _).
  - intros Hcl. apply Forall_lookup_2. intros i r Hi. destruct (po_pumps _ Hok i r Hi) as [? | [_ ?]]; [done|congruence].
Qed.

(** [Publish] of a new track on an open client announces it once and starts
    one pump on a receiver of a new broadcaster; a second [Publish] under the
    name returns the same sender and does nothing.  [Sender.Close] sends the
    Unannounce frame, but the pump keeps running, still subscribed, and a later
    [Publish] under the name starts a second one beside it. *)
Theorem sender_close_leaves_pump `{JSON Announce, JSON Unannounce} lt c body ubody :
  pub_ok c -> c_closed c = false -> pb_tracks (c_pub c) !! publishName lt = None -> w_script (c_out c) = [] ->
  Marshal (mkAnnounce (publishName lt) (lt_Kind lt) (lt_Codec lt)) = Ok body -> zlen body <= MaxControlPayload ->
  Marshal (mkUnannounce (publishName lt)) = Ok ubody -> zlen ubody <= MaxControlPayload ->
  exists b r c1, Publish lt c = Some (Ok (mkClientSender (publishName lt) b), c1) /\
    Publish lt c1 = Some (Ok (mkClientSender (publishName lt) b), c1) /\
    let c2 := senderClose (mkClientSender (publishName lt) b) c1 in
    w_out (c_out c2) = w_out (c_out c) ++ control_bytes TypeAnnounce body ++ control_bytes TypeUnannounce ubody /\
    pb_pumps (c_pub c2) = pb_pumps (c_pub c) ++ [mkPumpRun (New (publishConfig (publishName lt) (lt_Kind lt))) b r false] /\
    (exists s, pb_bcs (c_pub c2) !! b = Some s /\ r ∈ b_receivers (bc s)) /\
    exists b' r' c3, Publish lt c2 = Some (Ok (mkClientSender (publishName lt) b'), c3) /\ b' <> b /\
      pb_pumps (c_pub c3) = pb_pumps (c_pub c2) ++ [mkPumpRun (New (publishConfig (publishName lt) (lt_Kind lt))) b' r' false].
Proof.
  intros Hok Hcl Hn Hw Hm Hl Hum Hul.
  assert (forall c, pub_ok c -> c_closed c = false -> pb_tracks (c_pub c) !! publishName lt = None ->
    w_script (c_out c) = [] ->
    exists b r s c1, Publish lt c = Some (Ok (mkClientSender (publishName lt) b), c1) /\ pub_ok c1 /\ c_closed c1 = false /\
      pb_tracks (c_pub c1) !! publishName lt = Some b /\ pb_bcs (c_pub c) !! b = None /\
      pb_bcs (c_pub c1) !! b = Some s /\ r ∈ b_receivers (bc s) /\
      c_out c1 = mkWriter (w_out (c_out c) ++ control_bytes TypeAnnounce body) [] /\
      pb_pumps (c_pub c1) = pb_pumps (c_pub c) ++ [mkPumpRun (New (publishConfig (publishName lt) (lt_Kind lt))) b r false])
    as Hpub.
  { clear - Hm Hl. intros c Hok Hcl Hn Hw. destruct (Publish_ok lt c Hok) as (res & c' & E & Hok' & Hcl').
    specialize (Hcl' Hcl). revert E. unfold Publish. rewrite Hcl, Hn. unfold newPubTrack. set (b := fresh _).
    assert (pb_bcs (c_pub c) !! b = None) as Hfr by (apply not_elem_of_dom, is_fresh). set (st := mkStore _ _ _).
    unfold writeJSON. rewrite Hm, writeCtl_ready by done. unfold spawnPump. cbn [c_pub with_pub with_writer pb_bcs].
    rewrite lookup_insert_eq. cbn [mbind option_bind].
    destruct (subscribe_call st (b_chanSize (bc st)) (new_store_ok _)) as (a & s' & r & Esub & _ & _ & _ & _ & Hb & _).
    rewrite Subscribe_capacity, Esub. cbn [mbind option_bind fst snd]. intros [= <- <-].
    exists b, a, s'. eexists. split_and!; try done; cbn; rewrite ?lookup_insert_eq; try done. rewrite Hb. set_solver. }
  destruct (Hpub c Hok Hcl Hn Hw) as (b & r & s & c1 & E1 & Hok1 & Hcl1 & Ht1 & _ & Hs1 & Hr1 & Ho1 & Hp1).
  exists b, r, c1. split; [done|]. split; [unfold Publish; by rewrite Hcl1, Ht1|].
  unfold senderClose, unannounce, writeJSON. cbn [cs_name]. rewrite Hum, writeCtl_ready by (by rewrite ?Ho1).
  cbn [snd]. set (c2 := with_pub _ _). cbn zeta.
  assert (pub_ok c2) as Hok2 by (apply pub_ok_remove; by eapply pub_ok_same).
  destruct (Hpub c2 Hok2 Hcl1) as (b' & r' & s' & c3 & E3 & _ & _ & _ & Hb' & _ & _ & _ & Hp3); [simpl; by rewrite lookup_delete_eq|done|].
  split_and!.
  - change (w_out (c_out c2)) with (w_out (c_out c1) ++ control_bytes TypeUnannounce ubody). rewrite Ho1. cbn [w_out].
    by rewrite <- app_assoc.
  - exact Hp1.
  - by exists s.
  - exists b', r', c3. split_and!; [done| |done]. intros ->. simpl in Hb'. congruence.
Qed.

Module DialDemo.
Import SessionDemo.
Definition demo_opts : Options := mkOptions "" false "slug" 0 "" ∅ None 0.
Definition demo_sdp : SDP :=
  mkSDP "h264" 0 0 0 (float64 0) (float64 0) "new" ["resume"; "kind-stats"] "1".

#[local] Instance spec_float_eq_dec : EqDecision SpecFloat.spec_float.
Proof. solve_decision. Defined.
#[local] Instance SDP_eq_dec : EqDecision SDP.
Proof. solve_decision. Defined.

#[local] Instance json_hello : JSON Hello :=
  {| Marshal _ := Ok [x01]; Unmarshal _ := Ok (dialHello demo_opts "slug") |}.
#[local] Instance json_sdp : JSON SDP :=
  {| Marshal d := if decide (d = demo_sdp) then Ok [x02] else Err EOF; Unmarshal _ := Ok demo_sdp |}.
#[local] Instance json_announce : JSON Announce :=
  {| Marshal a := Ok (bytes_of (a_Name a)); Unmarshal b := Ok (mkAnnounce (string_of b) "video" "") |}.
#[local] Instance json_unannounce : JSON Unannounce :=
  {| Marshal u := Ok (bytes_of (un_Name u)); Unmarshal b := Ok (mkUnannounce (string_of b)) |}.

Lemma demo_sdp_roundtrip (d : SDP) b : Marshal d = Ok b -> Unmarshal b = Ok d.
Proof. simpl. destruct (decide (d = demo_sdp)) as [-> | ?]; [done|discriminate]. Qed.

Definition demo_shake (s : session nat) : option error * session nat :=
  Session.handshake demo_cfg demo_hooks map_to_list None s.

Lemma demo_shake_ok : (demo_shake (demo_session [x01])).1 = None.
Proof. vm_compute. reflexivity. Qed.

Lemma dial_agrees_with_server_witness :
  exists c, dialSession demo_opts "slug" (mkReader (w_out (ss_out (demo_shake (demo_session [x01])).2)) EOF) (mkWriter [] []) =
    Some (None, c) /\ c_assignedSessionID c = SessionID (ss_id (demo_shake (demo_session [x01])).2) /\ dialed c.
Proof.
  destruct (demo_shake (demo_session [x01])) as [err s'] eqn:E.
  assert (err = None) as -> by (pose proof demo_shake_ok as H; rewrite E in H; exact H).
  destruct (@dial_agrees_with_server nat json_hello json_sdp demo_cfg demo_hooks map_to_list (demo_session [x01]) demo_opts "slug" [x01] EOF EOF None s'
    eq_refl ltac:(vm_compute; discriminate) eq_refl eq_refl eq_refl E (fun d b _ => demo_sdp_roundtrip d b))
    as (cerr & c & Hd & _ & -> & Hid & _ & _ & _ & Hc).
  exists c. split; [exact Hd|]. split; [exact Hid|exact Hc].
Defined.

Definition demo_early : session nat := SendAnnounce "t" "video" "" (demo_session [x01]).

Lemma demo_early_ok : (demo_shake demo_early).1 = None.
Proof. vm_compute. reflexivity. Qed.

Lemma early_announce_fails_dial_witness :
  exists c, dialSession demo_opts "slug" (mkReader (w_out (ss_out (demo_shake demo_early).2)) EOF) (mkWriter [] []) =
    Some (Some (ErrMsg "expected SDP, got 0xa"), c).
Proof.
  destruct (demo_shake demo_early) as [err s'] eqn:E.
  assert (err = None) as -> by (pose proof demo_early_ok as H; rewrite E in H; exact H).
  destruct (@early_announce_fails_dial nat json_hello json_sdp json_announce demo_cfg demo_hooks map_to_list (demo_session [x01]) demo_opts "slug" [x01] EOF EOF
    "t" "video" "" (bytes_of "t") s' eq_refl ltac:(vm_compute; discriminate) eq_refl eq_refl eq_refl eq_refl
    ltac:(vm_compute; discriminate) E) as (c & Hd & _).
  exists c. exact Hd.
Defined.

(** A ping, an announce and a data frame, then the server closes. *)
Definition demo_frames : list (byte * list byte) :=
  [(TypePing, [x07]); (TypeAnnounce, bytes_of "t"); (TypeData, [x01])].

Definition demo_dialer : Client :=
  newClient demo_opts (mkReader (frames_bytes demo_frames ++ control_bytes TypeClose [] ++ []) EOF) (mkWriter [] []).

Lemma demo_ready : ctl_ready demo_dialer.
Proof.
  split; [|reflexivity..]. exists {[0%nat := "primary"%string]}.
  assert (dialed demo_dialer) as Hd by (split_and!; reflexivity). exact (ki_feeds _ (kinit_ok _ Hd)).
Qed.

Lemma demo_plain : Forall plain demo_frames.
Proof. repeat constructor; vm_compute; discriminate. Qed.

Lemma demo_ctl : c_ctl demo_dialer = mkReader (frames_bytes demo_frames ++ control_bytes TypeClose [] ++ []) EOF.
Proof. done. Qed.

Lemma demo_close_ok : (TypeClose = TypeError \/ TypeClose = TypeClose) /\ zlen (@nil byte) <= MaxControlPayload.
Proof. split; [by right|vm_compute; discriminate]. Qed.

Lemma client_control_loop_witness :
  exists c, controlReader demo_dialer = Some c /\ c_closed c = true /\ rd_data (c_ctl c) = [].
Proof.
  destruct (@client_control_loop json_announce json_unannounce demo_dialer demo_frames [] EOF (Some (TypeClose, []))
    demo_ready demo_plain demo_close_ok demo_ctl eq_refl) as (c & Hc & _ & Hd & Hcl & _).
  exists c. split; [exact Hc|]. split; [exact Hcl|exact Hd].
Defined.

Definition demo_client0 : Client := newClient demo_opts (mkReader [] EOF) (mkWriter [] []).

Lemma publish_back_safe_witness :
  exists c, preach demo_client0 c /\ c_closed c = true /\ Forall (fun r => pr_cancelled r = true) (pb_pumps (c_pub c)).
Proof.
  destruct (Publish_ok (Audio "mic" "") demo_client0 (newClient_pub _ _ _)) as (res & c1 & E1 & Hok1 & _).
  destruct (Close_pub c1 Hok1) as (c2 & E2 & _ & Hcl).
  assert (preach demo_client0 c2) as Hr.
  { eapply pr_step; [|pose proof (ps_close c1) as Hs; rewrite E2 in Hs; exact Hs].
    eapply pr_step; [apply pr_init|]. pose proof (ps_publish (Audio "mic" "") demo_client0) as Hs. rewrite E1 in Hs. exact Hs. }
  exists c2. split; [exact Hr|]. split; [exact Hcl|].
  exact (proj2 (publish_back_safe demo_opts (mkReader [] EOF) (mkWriter [] []) c2 Hr) Hcl).
Defined.

Lemma sender_close_leaves_pump_witness :
  exists b c1, Publish (Audio "mic" "") demo_client0 = Some (Ok (mkClientSender "mic" b), c1) /\
    length (pb_pumps (c_pub (senderClose (mkClientSender "mic" b) c1))) = 1%nat.
Proof.
  destruct (@sender_close_leaves_pump json_announce json_unannounce (Audio "mic" "") demo_client0 (bytes_of "mic") (bytes_of "mic") (newClient_pub _ _ _)
    eq_refl eq_refl eq_refl eq_refl ltac:(vm_compute; discriminate) eq_refl ltac:(vm_compute; discriminate))
    as (b & r & c1 & E1 & _ & _ & Hp & _).
  exists b, c1. split; [exact E1|]. exact (f_equal length Hp).
Defined.
End DialDemo.
