(* ===== verification/StatsReport.v ===== *)
(** * Receive statistics, from the client's streams to the server's callback

    The drain goroutines of a client observe every frame ([KindStats.v],
    [Client.v]); [emitKindStats] ([client/kindstats.go]) sends a snapshot once a
    second on the control stream, and the control reader of the server's
    session ([Session.v]) hands the reports to [OnKindStats]. *)

From S2P Require Import Prelude Wire Track Replay Pubsub RateLimit Pump DataChannel Inbound KindStats Session Client ClientRecv ClientSessions.

Section Emit.
Context `{JSON KindStats}.

(** The inner loop of a tick: a report that cannot be encoded is skipped, an
    error of a write ends the goroutine. *)
Fixpoint emitReports (reports : list KindStats) (c : Client) : option error * Client :=
  match reports with
  | [] => (None, c)
  | ks :: reports' =>
      match Marshal ks with
      | Err _ => emitReports reports' c
      | Ok payload =>
          match writeCtl TypeKindStats payload c with
          | (Some err, c) => (Some err, c)
          | (None, c) => emitReports reports' c
          end
      end
  end.

(** What the goroutine meets: a frame that a drain goroutine observes meanwhile,
    the ticker (with the order in which the map is iterated), or the end of the
    context or of the client. *)
Inductive statsEvent :=
  | SFrame (kind : string) (f : FeedFrame) (now : Z)
  | STick (order : kindStatsCollector -> list (string * kindAccumulator))
  | SStop.

(** The events of [emitKindStats]; the boolean says whether it has returned.
    [None] is a panic. *)
Fixpoint emitKindStats (events : list statsEvent) (c : Client) : option (bool * Client) :=
  match events with
  | [] => Some (false, c)
  | SStop :: _ => Some (true, c)
  | SFrame kind f now :: events' => emitKindStats events' (observeFrame kind f now c)
  | STick order :: events' =>
      k ← c_kindStats c;
      '(reports, k) ← snapshot order k;
      match emitReports reports (with_stats c (Some k)) with
      | (Some _, c) => Some (true, c)
      | (None, c) => emitKindStats events' c
      end
  end.
End Emit.

(** * Properties *)

(** The frames of one kind, as the collector sees them. *)
Definition samplesOf (kind : string) (frames : list (string * FeedFrame * Z)) : list sample :=
  omap (fun x : string * FeedFrame * Z =>
          if bool_decide (x.1.1 = kind) then Some (ff_Seq x.1.2, ff_PubWallMicro x.1.2, x.2) else None) frames.

Definition frameEvent (x : string * FeedFrame * Z) : statsEvent := SFrame x.1.1 x.1.2 x.2.

Definition collect (frames : list (string * FeedFrame * Z)) (k : kindStatsCollector) : kindStatsCollector :=
  foldl (fun k x => observe x.1.1 (ff_Seq x.1.2) (ff_PubWallMicro x.1.2) x.2 k) k frames.

(** The report of one accumulator. *)
Definition reportOf (ka : string * kindAccumulator) : option KindStats := fst <$> snapshotOne ka.1 ka.2.

Lemma collect_lookup frames : forall k kind,
  collect frames k !! kind =
  match samplesOf kind frames with
  | [] => k !! kind
  | l => Some (observeAll l (default noSamples (k !! kind)))
  end.
Proof.
  induction frames as [|[[kd f] now] frames IH]; intros k kind; [done|].
  change (collect ((kd, f, now) :: frames) k)
    with (collect frames (observe kd (ff_Seq f) (ff_PubWallMicro f) now k)).
  rewrite IH. unfold samplesOf. cbn [omap list_omap fst snd]. fold (samplesOf kind frames).
  unfold observe, kindStatsCollector in *.
  destruct (decide (kd = kind)) as [->|Hne].
  - rewrite bool_decide_true by done. rewrite lookup_insert_eq. simpl. by destruct (samplesOf kind frames).
  - rewrite bool_decide_false by done. by rewrite lookup_insert_ne.
Qed.

Lemma collect_new frames kind :
  collect frames newKindStatsCollector !! kind =
  match samplesOf kind frames with [] => None | l => Some (observeAll l noSamples) end.
Proof.
  rewrite collect_lookup. replace (newKindStatsCollector !! kind) with (@None kindAccumulator) by (symmetry; apply lookup_empty).
  done.
Qed.

Lemma emit_frames `{JSON KindStats} frames : forall k c evs,
  c_kindStats c = Some k ->
  emitKindStats ((frameEvent <$> frames) ++ evs) c = emitKindStats evs (with_stats c (Some (collect frames k))).
Proof.
  induction frames as [|x frames IH]; intros k c evs Hk.
  - simpl. unfold with_stats. destruct c. simpl in *. by subst.
  - cbn [fmap list_fmap app frameEvent emitKindStats]. unfold observeFrame at 1. rewrite Hk. simpl.
    by rewrite (IH (observe x.1.1 (ff_Seq x.1.2) (ff_PubWallMicro x.1.2) x.2 k)).
Qed.

Definition window_ok (a : kindAccumulator) : Prop := zlen (ka_latMs a) <= kindStatsMaxSamples.

Lemma snapshot_fold l : forall st (m : gmap string kindAccumulator),
  Forall (fun ka => window_ok ka.2) l ->
  exists reports m', foldl (fun st ka => st ← st; res ← snapshotOne ka.1 ka.2;
                              Some (st.1 ++ [res.1], <[ka.1 := res.2]> st.2)) (Some (st, m)) l = Some (st ++ reports, m') /\
    Forall2 (fun ka ks => reportOf ka = Some ks) l reports.
Proof.
  induction l as [|ka l IH]; intros st m Hl.
  { exists [], m. simpl. by rewrite app_nil_r. }
  apply Forall_cons in Hl as [Hk Hl]. cbn [foldl].
  destruct (snapshot_percentiles ka.1 ka.2 Hk) as (ks & a' & E & _). rewrite E. cbn [mbind option_bind fst snd].
  destruct (IH (st ++ [ks]) (<[ka.1 := a']> m) Hl) as (reports & m' & -> & H2).
  exists (ks :: reports), m'. split; [by rewrite <- app_assoc|]. constructor; [|done]. unfold reportOf. by rewrite E.
Qed.

Lemma snapshot_reports order k :
  order k ≡ₚ map_to_list k -> map_Forall (fun _ a => window_ok a) k ->
  exists reports k', snapshot order k = Some (reports, k') /\
    Forall2 (fun ka ks => reportOf ka = Some ks) (order k) reports.
Proof.
  intros Ho Hk. unfold snapshot. destruct (snapshot_fold (order k) [] k) as (reports & k' & E & H2).
  { rewrite Ho. apply Forall_forall. intros [kd a] Hin%elem_of_map_to_list. by apply (Hk kd). }
  exists reports, k'. by split.
Qed.

(** Widths of the fields of a report about one of [kinds]. *)
Definition fits (kinds : list string) (ks : KindStats) : Prop :=
  ks_Kind ks ∈ kinds /\ is_u 32 (ks_LastSeq ks) /\ is_u 32 (ks_RecvP50Ms ks) /\ is_u 32 (ks_RecvP99Ms ks) /\
  is_u 64 (ks_Dropped ks).

(** Encoding promises the round trip for reports that fit. *)
Definition encodes `{JSON KindStats} (kinds : list string) : Prop :=
  forall ks, fits kinds ks -> exists body, Marshal ks = Ok body /\ zlen body <= MaxControlPayload /\ Unmarshal body = Ok ks.

Definition reportBytes `{JSON KindStats} (ks : KindStats) : list byte :=
  match Marshal ks with Ok body => control_bytes TypeKindStats body | Err _ => [] end.

Lemma emitReports_all `{JSON KindStats} kinds reports : forall c,
  encodes kinds -> Forall (fits kinds) reports -> w_script (c_out c) = [] ->
  exists c', emitReports reports c = (None, c') /\ w_script (c_out c') = [] /\ c_kindStats c' = c_kindStats c /\
    w_out (c_out c') = w_out (c_out c) ++ concat (reportBytes <$> reports).
Proof.
  induction reports as [|ks reports IH]; intros c He Hf Hw.
  { exists c. simpl. by rewrite app_nil_r. }
  apply Forall_cons in Hf as [Hk Hf]. cbn [emitReports fmap list_fmap concat]. unfold reportBytes at 1.
  destruct (He ks Hk) as (body & Em & Hl & _). rewrite Em, writeCtl_ready by done.
  destruct (IH (with_writer c (mkWriter (w_out (c_out c) ++ control_bytes TypeKindStats body) []))) as (c' & -> & H1 & H2 & H3);
    [done..|].
  exists c'. split_and!; [done|done|by rewrite H2|]. rewrite H3. simpl. by rewrite <- app_assoc.
Qed.

Section Server.
Context {W : Type} `{JSON Announce, JSON Unannounce, JSON Backpressure, JSON KindStats, JSON ErrorPayload}.
Context (Error : error -> string) (cfg : SessionConfig W) (f : string -> KindStats -> W -> W).
Context (Hcb : sc_OnKindStats cfg = Some f).

(** The session's control reader on a run of reports. *)
Lemma reports_read kinds reports : forall s rest e now,
  encodes kinds -> Forall (fits kinds) reports -> ss_ctl s = mkReader (concat (reportBytes <$> reports) ++ rest) e ->
  Session.controlReader Error cfg (replicate (length reports) (None, now)) s =
  Some (CContinue (with_world (with_ctl s (mkReader rest e))
                     (foldl (fun w ks => f (SessionID (ss_id s)) ks w) (ss_world s) reports))).
Proof.
  induction reports as [|ks reports IH]; intros s rest e now He Hf Hc.
  { simpl in *. rewrite <- Hc. by destruct s. }
  apply Forall_cons in Hf as [Hk Hf]. cbn [length replicate Session.controlReader]. rewrite Hc.
  cbn [fmap list_fmap concat]. unfold reportBytes at 1. destruct (He ks Hk) as (body & Em & Hl & Eu).
  rewrite Em, <- app_assoc, ReadControlFrame_bytes by done. unfold Session.controlFrame.
  do 6 (rewrite bool_decide_false by done). rewrite bool_decide_true by done. rewrite Hcb, Eu. cbn [mbind option_bind].
  by rewrite (IH _ rest e now).
Qed.
End Server.

Definition frame_ok (x : string * FeedFrame * Z) : Prop := 0 <= ff_Seq x.1.2 < 2 ^ 32 - 1.

Lemma samplesOf_ok kind frames : Forall frame_ok frames -> Forall sample_ok (samplesOf kind frames).
Proof.
  intros Hf. apply Forall_forall. intros y (x & Hx & E)%list_elem_of_omap.
  rewrite Forall_forall in Hf. case_bool_decide; simplify_eq. by apply Hf.
Qed.

Lemma samplesOf_kind kind frames : samplesOf kind frames <> [] <-> kind ∈ frames.*1.*1.
Proof.
  rewrite list_elem_of_fmap. setoid_rewrite list_elem_of_fmap. split.
  - intros Hne. destruct (samplesOf kind frames) as [|y l] eqn:E; [done|].
    assert (y ∈ samplesOf kind frames) as (x & Hx & Ey)%list_elem_of_omap by (rewrite E; left).
    case_bool_decide; simplify_eq. eauto.
  - intros (? & -> & x & -> & Hx) E.
    assert ((ff_Seq x.1.2, ff_PubWallMicro x.1.2, x.2) ∈ samplesOf x.1.1 frames) as Hin.
    { apply list_elem_of_omap. exists x. split; [done|]. by rewrite bool_decide_true. }
    rewrite E in Hin. by apply elem_of_nil in Hin.
Qed.

(** What a report on the samples [l] of a kind has to say. *)
Definition accounts (l : list sample) (ks : KindStats) : Prop :=
  exists first rest, l = first :: rest /\
    let seqs := (fun y : sample => y.1.1) <$> rest in
    ks_LastSeq ks = foldl Z.max first.1.1 seqs /\
    ks_Dropped ks = (ks_LastSeq ks - first.1.1) - advances first.1.1 seqs.

Lemma foldl_max_bound b l : forall a, a < b -> Forall (fun s => s < b) l -> a <= foldl Z.max a l < b.
Proof.
  induction l as [|x l IH]; intros a Ha Hl; [simpl; lia|]. apply Forall_cons in Hl as [Hx Hl].
  simpl. specialize (IH (Z.max a x) ltac:(lia) Hl). lia.
Qed.

Lemma reportOf_spec kind l ks kinds :
  Forall sample_ok l -> l <> [] -> kind ∈ kinds ->
  reportOf (kind, observeAll l noSamples) = Some ks -> ks_Kind ks = kind /\ accounts l ks /\ fits kinds ks.
Proof.
  intros Hl Hne Hk. destruct l as [|x l]; [done|]. destruct (kind_stats_exact x l Hl) as (H1 & H2 & H3).
  unfold reportOf. destruct (snapshot_percentiles kind _ H3) as (ks' & a' & E & K1 & K2 & K3 & _ & _ & _ & _ & K4 & K5).
  cbn [fst snd]. rewrite E. intros [= <-]. apply Forall_cons in Hl as [Hx Hl]. unfold sample_ok in Hx.
  assert (Forall (fun s => 0 <= s) ((fun y : sample => y.1.1) <$> l)) as Hpos.
  { apply Forall_fmap. apply (Forall_impl sample_ok); [done|]. intros y [Hy _]. exact Hy. }
  destruct (foldl_max_bound (2 ^ 32 - 1) ((fun y : sample => y.1.1) <$> l) x.1.1) as [B1 B2]; [lia| |].
  { apply Forall_fmap. apply (Forall_impl sample_ok); [done|]. intros y [_ Hy]. exact Hy. }
  pose proof (advances_bound _ x.1.1 Hpos ltac:(lia)) as B3.
  assert (forall o, is_u 32 (from_option roundMs 0 o)) as Hr.
  { intros [v|]; unfold is_u; simpl; [unfold roundMs, u32; apply Z.mod_pos_bound; lia|lia]. }
  split_and!; [done| |].
  - exists x, l. rewrite K2, K3. split; [done|]. by split.
  - unfold fits. rewrite K1, K2, K3, K4, K5. split_and!; [done|unfold is_u; lia|apply Hr|apply Hr|unfold is_u; lia].
Qed.

Lemma Forall2_reports kinds (l : list (string * kindAccumulator)) reports (P : string -> KindStats -> Prop) :
  Forall2 (fun ka ks => reportOf ka = Some ks) l reports ->
  (forall ka ks, ka ∈ l -> reportOf ka = Some ks -> ks_Kind ks = ka.1 /\ P ka.1 ks /\ fits kinds ks) ->
  ks_Kind <$> reports = l.*1 /\ Forall (fun ks => P (ks_Kind ks) ks) reports /\ Forall (fits kinds) reports.
Proof.
  intros H2 Hp. induction H2 as [|ka ks l reports Hk H2 IH]; [done|].
  destruct IH as (I1 & I2 & I3). { intros. apply Hp; [by right|done]. }
  destruct (Hp ka ks) as (E & Hpk & Hfk); [left|done|]. csimpl. rewrite E, I1.
  split_and!; [done|constructor; [by rewrite E|done]|by constructor].
Qed.

(** receive statistics reach the publisher.  After any frames, observed by any
    number of drain goroutines, a tick sends exactly one report per kind of track
    a frame arrived on; a report has the highest sequence number of its kind and
    the number of sequence numbers that never were the next new highest; and the
    control reader of the session at the other end calls [OnKindStats] with
    exactly these reports, in this order, and changes nothing else. *)
Theorem kind_stats_reach_server {W} `{JSON Announce, JSON Unannounce, JSON Backpressure, JSON KindStats, JSON ErrorPayload}
    (Error : error -> string) (cfg : SessionConfig W) f frames order c :
  sc_OnKindStats cfg = Some f -> c_kindStats c = Some newKindStatsCollector -> w_script (c_out c) = [] ->
  Forall frame_ok frames -> (forall k, order k ≡ₚ map_to_list k) -> encodes (frames.*1.*1) ->
  exists reports c', emitKindStats ((frameEvent <$> frames) ++ [STick order]) c = Some (false, c') /\
    NoDup (ks_Kind <$> reports) /\ (forall kind, kind ∈ ks_Kind <$> reports <-> kind ∈ frames.*1.*1) /\
    Forall (fun ks => accounts (samplesOf (ks_Kind ks) frames) ks) reports /\
    w_out (c_out c') = w_out (c_out c) ++ concat (reportBytes <$> reports) /\
    forall s rest e now, ss_ctl s = mkReader (concat (reportBytes <$> reports) ++ rest) e ->
      Session.controlReader Error cfg (replicate (length reports) (None, now)) s =
      Some (CContinue (with_world (with_ctl s (mkReader rest e))
                         (foldl (fun w ks => f (SessionID (ss_id s)) ks w) (ss_world s) reports))).
Proof.
  intros Hcb Hk Hw Hf Ho He. rewrite (emit_frames frames _ c _ Hk). cbn [emitKindStats c_kindStats with_stats mbind option_bind].
  set (k := collect frames newKindStatsCollector).
  assert (forall kind a, k !! kind = Some a -> samplesOf kind frames <> [] /\ a = observeAll (samplesOf kind frames) noSamples) as Hlk.
  { intros kind a. unfold k. rewrite collect_new.
    destruct (samplesOf kind frames); [done|]. intros [= <-]. done. }
  destruct (snapshot_reports order k (Ho k)) as (reports & k' & -> & Hrep).
  { intros kind a (Hne & ->)%Hlk. apply observeAll_window. by vm_compute. }
  destruct (Forall2_reports (frames.*1.*1) _ _ (fun kind ks => accounts (samplesOf kind frames) ks) Hrep) as (R1 & R2 & R3).
  { intros [kind a] ks Hin. rewrite Ho in Hin. apply elem_of_map_to_list, Hlk in Hin as (Hne & ->).
    intros Hr. cbn [fst]. apply reportOf_spec; try done; [by apply samplesOf_ok|by apply samplesOf_kind]. }
  cbn [mbind option_bind]. destruct (emitReports_all (frames.*1.*1) reports (with_stats (with_stats c (Some k)) (Some k')) He R3 Hw)
    as (c' & -> & _ & _ & Eo).
  exists reports, c'. split_and!; [done| | |done|done|].
  - rewrite R1, (Ho k). apply NoDup_fst_map_to_list.
  - intros kind. rewrite R1, (Ho k), list_elem_of_fmap, <- samplesOf_kind. split.
    + intros ([kd a] & -> & (Hne & _)%elem_of_map_to_list%Hlk). done.
    + intros Hne. exists (kind, observeAll (samplesOf kind frames) noSamples). split; [done|].
      apply elem_of_map_to_list. unfold k. rewrite collect_new.
      by destruct (samplesOf kind frames).
  - intros s rest e now. by apply (reports_read _ _ _ Hcb (frames.*1.*1)).
Qed.

(** drops are counted over all tracks of a kind together: two tracks of one kind
    that lose nothing, one counting from [n] and the other from a later [m], are
    reported with [m - n - 1] dropped units, because sequence numbers are per
    track while the accumulator is per kind. *)
Theorem tracks_of_a_kind_count_phantom_drops n m t :
  0 <= n -> n + 1 < m -> m < 2 ^ 32 - 2 ->
  let a := observeAll [(n, 0, t); (m, 0, t); (n + 1, 0, t); (m + 1, 0, t)] noSamples in
  ka_dropped a = m - n - 1 /\ ka_lastSeq a = m + 1.
Proof.
  intros H0 Hnm Hm. cbn zeta. destruct (kind_stats_exact (n, 0, t) [(m, 0, t); (n + 1, 0, t); (m + 1, 0, t)]) as (E1 & E2 & _).
  { repeat constructor; unfold sample_ok; simpl; lia. }
  rewrite E1 in E2. cbn [fmap list_fmap foldl fst snd advances] in E1, E2.
  split; [etrans; [exact E2|]|etrans; [exact E1|]]; clear E1 E2; [|lia].
  repeat match goal with |- context [?a >? ?b] => destruct (Z.gtb_spec a b); try lia end; lia.
Qed.

(** ** A concrete report *)

Module StatsDemo.
Import SessionDemo DialDemo.

(** An encoding of reports: fixed-width fields, then the kind. *)
#[local] Instance json_stats : JSON KindStats :=
  {| Marshal ks := Ok (be_bytes 4 (ks_LastSeq ks) ++ be_bytes 4 (ks_RecvP50Ms ks) ++ be_bytes 4 (ks_RecvP99Ms ks) ++
                       be_bytes 8 (ks_Dropped ks) ++ bytes_of (ks_Kind ks));
     Unmarshal b := Ok (mkKindStats (string_of (drop 20 b)) (be_value (take 4 b)) (be_value (take 4 (drop 4 b)))
                          (be_value (take 4 (drop 8 b))) (be_value (take 8 (drop 12 b)))) |}.

Lemma take_be n v l : take n (be_bytes n v ++ l) = be_bytes n v.
Proof. apply take_app_length'; by rewrite length_be_bytes. Qed.

Lemma drop_be n v l : drop n (be_bytes n v ++ l) = l.
Proof. apply drop_app_length'; by rewrite length_be_bytes. Qed.

Lemma stats_encodes : encodes ["video"%string; "tokens"%string; "video"%string; "tokens"%string].
Proof.
  intros [kind seq p50 p99 dropped] (Hk & H1 & H2 & H3 & H4). simpl in *. eexists. split; [done|]. split.
  - rewrite !zlen_app, !zlen_be_bytes. change MaxControlPayload with 65536.
    rewrite !elem_of_cons in Hk. destruct Hk as [->|[->|[->|[->|[]%elem_of_nil]]]]; vm_compute; discriminate.
  - replace 20%nat with (4 + (4 + (4 + 8)))%nat by lia. replace 12%nat with (4 + (4 + 4))%nat by lia.
    replace (drop 8) with (drop (A := byte) (4 + 4)) by done. rewrite <- !drop_drop, !drop_be, !take_be, string_of_bytes_of.
    by rewrite !be_value_bytes_id.
Qed.

Definition frame (seq pub : Z) : FeedFrame := mkFeedFrame x01 0 seq x00 pub [].
Definition frames : list (string * FeedFrame * Z) :=
  [("video"%string, frame 3 1000, 6000); ("tokens"%string, frame 0 0, 0); ("video"%string, frame 6 2000, 9000);
   ("tokens"%string, frame 1 0, 0)].

Definition reporter : Client :=
  with_stats (newClient demo_opts (mkReader [] EOF) (mkWriter [] [])) (Some newKindStatsCollector).

Definition stats_cfg : SessionConfig (list (string * Z * Z)) :=
  mkSessionConfig "slug" None None None (mkRateLimit 0 0 0 0) [] (mkSDP "h264" 0 0 0 (float64 0) (float64 0) "" [] "")
    0 0 0 demo_feed 0 None (Some (fun _ ks w => (ks_Kind ks, ks_LastSeq ks, ks_Dropped ks) :: w)) None.

Lemma kind_stats_reach_server_witness :
  exists (reports : list KindStats) c', emitKindStats ((frameEvent <$> frames) ++ [STick map_to_list]) reporter = Some (false, c') /\
    (forall kind, kind ∈ ks_Kind <$> reports <-> kind ∈ frames.*1.*1).
Proof.
  destruct (@kind_stats_reach_server _ json_announce json_unannounce json_backpressure json_stats json_error
    (fun _ => ""%string) stats_cfg _ frames map_to_list reporter eq_refl eq_refl eq_refl) as (reports & c' & E & _ & Hk & _).
  - repeat constructor; vm_compute; congruence.
  - intros k. reflexivity.
  - exact stats_encodes.
  - exists reports, c'. split; [exact E|exact Hk].
Defined.

Lemma tracks_of_a_kind_count_phantom_drops_witness :
  ka_dropped (observeAll [(0, 0, 7); (100, 0, 7); (1, 0, 7); (101, 0, 7)] noSamples) = 99.
Proof. destruct (tracks_of_a_kind_count_phantom_drops 0 100 7) as [E _]; [lia|lia|lia|exact E]. Defined.
End StatsDemo.
