(* ===== verification/EndToEnd.v ===== *)
(** * From [Publish] on the server to [RecvOn] at the client

    The parts put together: the registry and the broadcaster of a track
    ([Server.v], [Pubsub.v]), the pump that a session runs on its receiver
    ([Pump.v]) and the client at the other end of the stream ([ClientRecv.v]);
    and, in the other direction, the pump of a client and the inbound tracks of
    the session ([Inbound.v]). *)

From S2P Require Import Prelude Wire Track Replay Pubsub PubsubCalls RateLimit Pump DataChannel Inbound SessionStore.
From S2P Require Import KindStats Session Server ServerSessions Client ClientRecv.

(** Publishing units one after the other; [order] is how the receiver map is
    iterated, [sched] what the receivers take meanwhile. *)
Fixpoint publishAll {W} (order : gset nat -> list nat) (sched : AccessUnit -> nat -> nat * nat) (b : nat)
    (aus : list AccessUnit) (c : core W) : option (core W) :=
  match aus with
  | [] => Some c
  | au :: aus' => c ← Server.publishAt b au (order (receivers c b)) (sched au) c; publishAll order sched b aus' c
  end.

(** ** Into the receiver *)

(** A receiver that takes the next unit whatever it is, or a keyframe. *)
Definition takes (sc : bool) (r : Receiver) (aus : list AccessUnit) : Prop :=
  sc = true \/ r_needKeyframe r = false \/ match aus with au :: _ => au_Keyframe au = true | [] => True end.

Lemma deliver_room max sc au k1 k2 r :
  receiver_ok max r -> r_closed r = false -> (length (ch_buf (r_ch r)) < ch_cap (r_ch r))%nat -> takes sc r [au] ->
  exists r', deliver sc au k1 k2 r = Some r' /\ r_closed r' = false /\ ch_cap (r_ch r') = ch_cap (r_ch r) /\
    ch_buf (r_ch r') = ch_buf (r_ch r) ++ [au] /\ forall aus, takes sc r' aus.
Proof.
  intros Hok Hc Hl Ht. unfold deliver, try_send. rewrite Hc, (rok_closed _ _ Hok), Hc.
  apply Nat.ltb_lt in Hl. rewrite Hl. destruct sc; cbn [andb negb].
  { eexists. split; [done|]. cbn. split_and!; try done. intros aus. by left. }
  destruct (au_Keyframe au) eqn:Ek; cbn [negb andb].
  { rewrite andb_false_r. eexists. split; [done|]. cbn. split_and!; try done. intros aus. right. by left. }
  destruct Ht as [?|[Hn|?]]; [done| |congruence]. rewrite Hn. cbn. eexists. split; [done|]. cbn.
  split_and!; try done. intros aus. right. by left.
Qed.

(** Publishing a unit that the chain passes on, towards a receiver with room. *)
Lemma publish_room {W} (s : store W) a r au order sched :
  store_ok s -> order ≡ₚ elements (b_receivers (bc s)) -> (runChain (b_interceptors (bc s)) (world s) au).2 = Some au ->
  a ∈ b_receivers (bc s) -> heap s !! a = Some r -> r_closed r = false ->
  (length (ch_buf (r_ch r)) < ch_cap (r_ch r))%nat -> size_ok (b_maxAUBytes (bc s)) au ->
  takes (b_selfContained (bc s)) r [au] ->
  exists s' r', Pubsub.Publish s au order sched = Some s' /\ call_ok s s' /\ b_receivers (bc s') = b_receivers (bc s) /\
    heap s' !! a = Some r' /\ r_closed r' = false /\ ch_cap (r_ch r') = ch_cap (r_ch r) /\
    ch_buf (r_ch r') = ch_buf (r_ch r) ++ [au] /\ forall aus, takes (b_selfContained (bc s')) r' aus.
Proof.
  intros Hok Hord Hrun Ha Hr Hc Hl Hsz Htk. destruct (runChain _ _ _) as [w o] eqn:Erun. cbn [snd] in Hrun. subst o.
  destruct (publish_call s au order sched Hok Hord) as (s' & Ep & Hcall & _ & Hrs & _).
  destruct (publish_delivers s au w au order sched Hok Hord Erun Hsz) as (s1 & Ep1 & _ & _ & _ & _ & Hh).
  assert (s1 = s') as -> by congruence. destruct (call_chain _ _ Hcall) as (_ & _ & _ & _ & _ & Hsc).
  assert (receiver_ok (b_maxAUBytes (bc s)) r) as Hrok by (by apply (cok_heap _ _ Hok a r Hr)).
  destruct (deliver_room _ (b_selfContained (bc s)) au (sched a).1 (sched a).2 r Hrok Hc Hl Htk)
    as (r' & Ed & Hc' & Hcap & Hbuf & Htk').
  exists s', r'. split_and!; try done.
  - rewrite Hh, decide_True by done. by rewrite Hr.
  - by rewrite Hsc.
Qed.

Section Queue.
Context {W : Type} (n : nat) (own : nat -> string).
Context (order : gset nat -> list nat) (order_ok : forall s, order s ≡ₚ elements s).
Context (sched : AccessUnit -> nat -> nat * nat).

Lemma publishAt_room name t (c : core W) o a r au :
  core_ok n own c -> sv_tracks c !! name = Some t -> sv_bcs c !! te_bc t = Some o ->
  a ∈ b_receivers (bo_bc o) -> bo_heap o !! a = Some r -> r_closed r = false ->
  (length (ch_buf (r_ch r)) < ch_cap (r_ch r))%nat -> size_ok (b_maxAUBytes (bo_bc o)) au ->
  takes (b_selfContained (bo_bc o)) r [au] ->
  exists c' o' r', Server.publishAt (te_bc t) au (order (receivers c (te_bc t))) (sched au) c = Some c' /\
    core_ok n own c' /\ sv_tracks c' = sv_tracks c /\ sv_bcs c' !! te_bc t = Some o' /\
    b_maxAUBytes (bo_bc o') = b_maxAUBytes (bo_bc o) /\ b_selfContained (bo_bc o') = b_selfContained (bo_bc o) /\
    a ∈ b_receivers (bo_bc o') /\ bo_heap o' !! a = Some r' /\ r_closed r' = false /\
    ch_cap (r_ch r') = ch_cap (r_ch r) /\ ch_buf (r_ch r') = ch_buf (r_ch r) ++ [au] /\
    forall aus, takes (b_selfContained (bo_bc o')) r' aus.
Proof.
  intros Hok Ht Ho Ha Hr Hc Hl Hsz Htk. set (s := mkStore (bo_heap o) (bo_bc o) (sv_world c)).
  assert (storeAt (te_bc t) c = Some s) as Hs by (unfold storeAt; by rewrite Ho).
  destruct (co_track _ _ _ Hok _ _ Ht) as (_ & o1 & Ho1 & Hch & _). assert (o1 = o) as -> by congruence.
  destruct (publish_room s a r au (order (receivers c (te_bc t))) (sched au)) as (s' & r' & Ep & Hcall & Hrs & Hr' & Hx);
    [by eapply storeAt_ok|rewrite order_ok; unfold receivers; by rewrite Ho| |done..|].
  { cbn. rewrite Hch. unfold hooks_for. by rewrite runChain_hooks. }
  destruct (call_chain _ _ Hcall) as (_ & _ & _ & Hmax & _ & Hsc).
  exists (putStore (te_bc t) s' c), (mkBobj (heap s') (bc s')), r'. unfold Server.publishAt. rewrite Hs. cbn [mbind option_bind].
  rewrite Ep. cbn [mbind option_bind]. destruct Hx as (Hc' & Hcap & Hbuf & Htk'). split_and!; try done.
  - by eapply core_ok_call.
  - cbn. by rewrite lookup_insert_eq.
  - cbn. by rewrite Hrs.
Qed.

Lemma publishAll_room name t aus : forall (c : core W) o a r,
  core_ok n own c -> sv_tracks c !! name = Some t -> sv_bcs c !! te_bc t = Some o ->
  a ∈ b_receivers (bo_bc o) -> bo_heap o !! a = Some r -> r_closed r = false ->
  (length (ch_buf (r_ch r)) + length aus <= ch_cap (r_ch r))%nat -> Forall (size_ok (b_maxAUBytes (bo_bc o))) aus ->
  takes (b_selfContained (bo_bc o)) r aus ->
  exists c' r', publishAll order sched (te_bc t) aus c = Some c' /\ core_ok n own c' /\
    receiverAt c' (te_bc t, a) = Some r' /\ r_closed r' = false /\ ch_buf (r_ch r') = ch_buf (r_ch r) ++ aus.
Proof.
  induction aus as [|au aus IH]; intros c o a r Hok Ht Ho Ha Hr Hc Hl Hsz Htk.
  { exists c, r. unfold receiverAt. cbn. rewrite Ho, app_nil_r. done. }
  apply Forall_cons in Hsz as [Hs1 Hs2]. cbn [length] in Hl.
  destruct (publishAt_room name t c o a r au Hok Ht Ho Ha Hr Hc ltac:(lia) Hs1)
    as (c1 & o1 & r1 & Ep & Hok1 & Ht1 & Ho1 & Hmax & _ & Ha1 & Hr1 & Hc1 & Hcap & Hbuf & Htk1).
  { destruct Htk as [?|[?|?]]; [by left|right; by left|right; by right]. }
  destruct (IH c1 o1 a r1) as (c' & r' & E & Hok' & Hr' & Hc' & Hb'); try done.
  - by rewrite Ht1.
  - rewrite Hbuf, length_app, Hcap. simpl. lia.
  - by rewrite Hmax.
  - exists c', r'. cbn [publishAll]. rewrite Ep. cbn [mbind option_bind]. split_and!; try done.
    by rewrite Hb', Hbuf, <- app_assoc.
Qed.
End Queue.

(** ** Onto the stream *)

(** A group of pictures: a keyframe and the units that depend on it. *)
Definition group (aus : list AccessUnit) : Prop :=
  match aus with [] => False | key :: rest => au_Keyframe key = true /\ Forall (fun au => au_Keyframe au = false) rest end.

(** There is only one way to cut a group into groups. *)
Lemma group_segs key (rest skipped : list (AccessUnit * Z)) segs :
  is_key key = true -> Forall (fun x => is_key x = false) rest ->
  key :: rest = skipped ++ concat segs -> Forall (fun x => is_key x = false) skipped ->
  Forall (fun seg => seg <> [] /\ starts_key seg /\ no_key_after seg) segs -> segs = [key :: rest].
Proof.
  intros Hk Hr E Hsk Hsegs. destruct skipped as [|x skipped].
  2:{ injection E as -> E. apply Forall_cons in Hsk as [Hx _]. congruence. }
  destruct segs as [|seg segs]; [done|]. apply Forall_cons in Hsegs as [(Hne & _ & _) Hsegs].
  destruct seg as [|y seg]; [done|]. simpl in E. injection E as <- ->. destruct segs as [|seg2 segs]; [simpl; by rewrite app_nil_r|].
  apply Forall_cons in Hsegs as [(Hne2 & Hst2 & _) _]. destruct seg2 as [|z seg2]; [done|]. exfalso.
  rewrite Forall_forall in Hr. assert (is_key z = false) as Hz.
  { apply Hr. simpl. apply elem_of_app. right. left. }
  unfold starts_key in Hst2. simpl in Hst2. congruence.
Qed.

Lemma group_on_stream cfg aus times ctxErr p :
  group aus -> length times = length aus -> zlen (bytes_of (cfg_TrackName cfg)) <= MaxStreamHeader ->
  cfg_AllowLeadingPFrames cfg = false -> Forall (fun au => zlen (au_Bytes au) <= MaxFeedPayload) aus ->
  n_opens (p_net p) = [] -> p_streams p = [] ->
  exists p' s, runStreamGOP cfg (zip aus times) ctxErr p = (ctxErr, p') /\ p_streams p' = [s] /\
    st_state s = SFin /\ w_out (st_w s) = gop_bytes cfg (zip aus times).
Proof.
  intros Hg Hl Hn Hlead Hfit Ho Hp. destruct aus as [|key rest]; [done|]. destruct Hg as [Hk Hr].
  destruct times as [|t0 times]; [done|]. cbn [zip zip_with]. injection Hl as Hl.
  assert (forall (l : list AccessUnit) (ts : list Z) (P : AccessUnit -> Prop), Forall P l ->
    Forall (fun x => P x.1) (zip l ts)) as Hz.
  { intros l ts P HP. apply Forall_forall. intros [x y] Hin%elem_of_zip_l. rewrite Forall_forall in HP. by apply HP. }
  destruct (gop_reliable_run cfg ((key, t0) :: zip rest times) ctxErr p Hn Hlead) as (sk & segs & p' & E & Hin & Hsk & Hsegs & Hw & Hst);
    [exact (Hz (key :: rest) (t0 :: times) _ Hfit)|done|done|].
  assert (segs = [(key, t0) :: zip rest times]) as ->.
  { eapply group_segs; [exact Hk|exact (Hz rest times (fun au => au_Keyframe au = false) Hr)|exact Hin|exact Hsk|exact Hsegs]. }
  destruct (p_streams p') as [|s [|s2 ss]] eqn:Es; try done. exists p', s. injection Hw as Hw. injection Hst as Hst. done.
Qed.

(** ** Out of the client *)

(** C1: media is delivered.  On a server in any reachable state, publish a group of
    pictures on a track that has a subscriber with room for it: no publish
    fails, whatever recorders are attached, and the subscriber's receiver then
    holds the units in order.  The pump that runs on it, on a transport that
    takes its bytes, puts them on one stream and ends it.  A client that has
    accepted this stream and has room for it, whatever else it is doing, has a
    run in which as many [RecvOn] calls on the track return these very units: in
    order, with bytes, keyframe flag, timestamp, sequence number and
    discontinuity. *)
Theorem published_is_received {W} n own order sched name t (c : core W) o a r aus cfg times ctxErr p c0 k i ch :
  core_ok n own c -> (forall s, order s ≡ₚ elements s) ->
  sv_tracks c !! name = Some t -> sv_bcs c !! te_bc t = Some o -> a ∈ b_receivers (bo_bc o) ->
  bo_heap o !! a = Some r -> r_closed r = false -> ch_buf (r_ch r) = [] -> (length aus <= ch_cap (r_ch r))%nat ->
  group aus -> Forall (size_ok (b_maxAUBytes (bo_bc o))) aus ->
  length times = length aus -> zlen (bytes_of (cfg_TrackName cfg)) <= MaxStreamHeader ->
  cfg_AllowLeadingPFrames cfg = false -> Forall sendable (zip aus times) -> n_opens (p_net p) = [] -> p_streams p = [] ->
  dialed c0 -> kreach c0 k ->
  exists c' r' p' s, publishAll order sched (te_bc t) aus c = Some c' /\
    receiverAt c' (te_bc t, a) = Some r' /\ ch_buf (r_ch r') = aus /\
    runStreamGOP cfg (zip (ch_buf (r_ch r')) times) ctxErr p = (ctxErr, p') /\ p_streams p' = [s] /\ st_state s = SFin /\
    w_out (st_w s) = gop_bytes cfg (zip aus times) /\
    (k_drains k !! i = Some (KPeek (mkReader (w_out (st_w s)) EOF)) ->
     fd_chans (trackChan (arrives_as cfg) (c_feed (k_cl k))).2 !! (trackChan (arrives_as cfg) (c_feed (k_cl k))).1 = Some ch ->
     ch_buf ch = [] -> (length aus <= ch_cap ch)%nat ->
     exists k' got, kreach c0 k' /\ k_recvs k' = k_recvs k ++ ((fun au => VReturned (Ok au)) <$> got) /\
       Forall2 (fun au au' => au_Bytes au' = au_Bytes au /\ au_Keyframe au' = au_Keyframe au /\
                              au_PTSMicro au' = au_PTSMicro au /\ au_Seq au' = au_Seq au /\
                              au_Discontinuity au' = au_Discontinuity au) aus got).
Proof.
  intros Hok Hord Ht Ho Ha Hr Hc Hb Hcap Hg Hsz Hl Hn Hlead Hs Hop Hp Hd Hk.
  destruct (publishAll_room n own order Hord sched name t aus c o a r Hok Ht Ho Ha Hr Hc) as (c' & r' & Ep & _ & Hr' & _ & Hb');
    [rewrite Hb; simpl; lia|done|right; right; destruct aus; [done|apply Hg]|].
  rewrite Hb in Hb'. simpl in Hb'.
  assert (Forall (fun au => zlen (au_Bytes au) <= MaxFeedPayload) aus) as Hfit.
  { apply Forall_forall. intros au Hin. apply list_elem_of_lookup in Hin as [j Hj].
    destruct (lookup_lt_is_Some_2 times j) as [tm Htm]; [rewrite Hl; by eapply lookup_lt_Some|].
    rewrite Forall_forall in Hs. apply (Hs (au, tm)). apply list_elem_of_lookup_2 with j. by apply lookup_zip_with_Some; eauto. }
  destruct (group_on_stream cfg aus times ctxErr p Hg Hl Hn Hlead Hfit Hop Hp) as (p' & s & Er & Es & Hst & Hw).
  exists c', r', p', s. rewrite Hb'. split_and!; try done. intros Hi Hch Hq Hroom. rewrite Hw in Hi.
  assert (length (zip aus times) = length aus) as Hlz by (rewrite length_zip_with; lia).
  destruct (gop_drain_run c0 cfg EOF i k (zip aus times) ch) as (k1 & (Hr1 & _ & _ & Hv1 & _) & Hq1 & Ht1); try done.
  { intros E. rewrite E in Hlz. simpl in Hlz. destruct aus; [done|]. simpl in Hlz. lia. }
  { rewrite Hq. simpl. lia. }
  rewrite Hq in Hq1. simpl in Hq1.
  destruct (receive_all c0 _ _ _ k1 Hr1 Ht1 Hq1) as (k2 & Hr2 & Hv2 & _).
  exists k2, (client_au cfg <$> zip aus times). split_and!; [done|by rewrite Hv2, Hv1|].
  clear -Hl. revert times Hl. induction aus as [|au aus IH]; intros [|tm times] Hl; try done.
  cbn [zip zip_with fmap list_fmap]. constructor; [done|]. apply IH. by injection Hl.
Qed.

(** ** A track published back too early *)

(** what a client publishes back on a persistent stream can be lost for as long as
    the transport takes its bytes.  The pump of such a track writes all its
    units on one stream, whose header it sends before the first unit.  A session
    that authorizes tracks drops a stream whose track is not announced yet at the
    moment its header is read: nothing of it is queued, however many units
    follow, and although the announce is accepted afterwards; the pump has no
    reason to open another stream. *)
Theorem early_persistent_stream_is_lost cfg ins ctxErr p clock e st :
  zlen (bytes_of (cfg_TrackName cfg)) <= MaxStreamHeader -> cfg_TrackName cfg <> ""%string -> Forall sendable ins ->
  n_opens (p_net p) = [] -> p_streams p = [] ->
  ib_tracks (d_ib st) !! cfg_TrackName cfg = None ->
  exists p' s, runStreamLowLatency cfg ins ctxErr p = (ctxErr, p') /\ p_streams p' = [s] /\
    w_out (st_w s) = gop_bytes cfg (keyedAt <$> ins) /\
    drainInboundStream true clock (mkReader (w_out (st_w s)) e) st = Some st.
Proof.
  intros Hn Hne Hs Hop Hp Hib.
  assert (Forall Pump.fits ins) as Hf by (eapply (Forall_impl sendable); [done|]; intros x Hx; apply Hx).
  destruct (ll_reliable_run cfg ins ctxErr p Hn Hf Hop Hp) as (p' & s & Er & Es & _ & Hw).
  exists p', s. split_and!; try done. rewrite Hw. unfold drainInboundStream, drainHeader, gop_bytes, stream_prefix.
  rewrite decide_False by done. rewrite PeekStreamHeader_bytes by done. rewrite decide_False by done.
  unfold drainGate. by rewrite Hib.
Qed.

(** ** A concrete delivery *)

Module EndToEndDemo.
Import ServerDemo ClientDemo.

Definition joined : core nat := from_option snd d3 (subscribeCapAt 16 0 d3).
Definition gop : list AccessUnit := demo_seg.*1.
Definition clocks : list Z := demo_seg.*2.
Definition new_pump : pump := mkPump [] (mkNet [] []) [].

Lemma joined_ok : exists own, core_ok 1 own joined.
Proof.
  destruct (sv_reach_ok (W' := unit) 60 0%nat 1 d3 demo_reach3 ltac:(lia)) as [own Hok]. exists own.
  destruct (subscribeCapAt_ok 1 own d3 16 0 Hok) as (a & r & c' & E & Hok' & _); [vm_compute; eauto|].
  unfold joined. rewrite E. exact Hok'.
Qed.

Lemma joined_track : exists t o r, sv_tracks joined !! "video"%string = Some t /\ te_bc t = 0%nat /\
  sv_bcs joined !! 0%nat = Some o /\ bo_heap o !! 0%nat = Some r /\ b_receivers (bo_bc o) = {[0%nat]} /\
  r_closed r = false /\ ch_buf (r_ch r) = [] /\ ch_cap (r_ch r) = 16%nat /\ b_maxAUBytes (bo_bc o) = 16777216.
Proof.
  eexists _, _, _. split; [vm_compute; reflexivity|]. split; [reflexivity|]. split; [vm_compute; reflexivity|].
  split; [vm_compute; reflexivity|]. vm_compute. done.
Qed.

Lemma early_persistent_stream_is_lost_witness :
  exists p' s, runStreamLowLatency (cfg0 false) demo_seg None new_pump = (None, p') /\ p_streams p' = [s] /\
    drainInboundStream true (fun _ => 7) (mkReader (w_out (st_w s)) EOF)
      (mkDState no_inbound (newRateLimiter (mkRateLimit 0 0 0 0) 0) 0 []) =
    Some (mkDState no_inbound (newRateLimiter (mkRateLimit 0 0 0 0) 0) 0 []).
Proof.
  destruct (early_persistent_stream_is_lost (cfg0 false) demo_seg None new_pump (fun _ => 7) EOF
    (mkDState no_inbound (newRateLimiter (mkRateLimit 0 0 0 0) 0) 0 []) demo_header ltac:(discriminate) demo_sendable
    eq_refl eq_refl eq_refl) as (p' & s & E1 & E2 & _ & E3).
  exists p', s. split; [exact E1|]. split; [exact E2|exact E3].
Defined.

Lemma published_is_received_witness :
  exists c' r', publishAll elements (fun _ _ => (0, 0)%nat) 0 gop joined = Some c' /\
    receiverAt c' (0%nat, 0%nat) = Some r' /\ ch_buf (r_ch r') = gop /\
    exists k' got, kreach demo_client k' /\ k_recvs k' = (fun au => VReturned (Ok au)) <$> got /\
      au_Bytes <$> got = au_Bytes <$> gop.
Proof.
  destruct joined_ok as [own Hok]. destruct joined_track as (t & o & r & Et & Eb & Eo & Er & Ers & Ec & Ebuf & Ecap & Em).
  assert (0%nat ∈ b_receivers (bo_bc o)) as Ha by (rewrite Ers; set_solver).
  assert (length gop <= ch_cap (r_ch r))%nat as Hcap by (rewrite Ecap; simpl; lia).
  assert (Forall (size_ok (b_maxAUBytes (bo_bc o))) gop) as Hsz by (rewrite Em; repeat constructor; vm_compute; discriminate).
  assert (group gop) as Hg by (split; [reflexivity|repeat constructor]).
  rewrite <- Eb in Eo.
  destruct (published_is_received 1 own elements (fun _ _ => (0, 0)%nat) "video" t joined o 0 r gop (cfg0 false) clocks None
    new_pump demo_client demo_accepted 0 (make_chan AccessUnit 16) Hok (fun s => Permutation_refl _) Et Eo Ha Er Ec Ebuf Hcap
    Hg Hsz eq_refl demo_header eq_refl demo_sendable eq_refl eq_refl
    demo_dialed demo_accept)
    as (c' & r' & p' & s & E1 & E2 & E3 & _ & _ & _ & E4 & H).
  rewrite Eb in *. exists c', r'. split; [exact E1|]. split; [exact E2|]. split; [exact E3|].
    destruct H as (k' & got & Hk & Hv & Hf); [rewrite E4; reflexivity|exact demo_chan|reflexivity|simpl; lia|].
    exists k', got. split; [exact Hk|]. split; [exact Hv|]. clear -Hf.
    induction Hf as [|x y l k (Hxy & _) _ IH]; [done|]. csimpl. by rewrite Hxy, IH.
Defined.
End EndToEndDemo.
