(* ===== verification/PublishBack.v ===== *)
(** * Publishing back, from the client's [Send] to the session's [InboundRecv]

    The other direction of [EndToEnd.v]: a client announces a track on the
    control stream, its pump puts the units that the application sends on one
    persistent stream ([Client.v], [Pump.v]), and the session at the other end
    authorizes the track, drains the stream and hands out the units
    ([Session.v], [Inbound.v]). *)

From S2P Require Import Prelude Wire Track Replay Pubsub PubsubCalls RateLimit Pump DataChannel Inbound KindStats Session.
From S2P Require Import Client ClientRecv ClientSessions Server ServerSessions EndToEnd.

Definition pubReceivers (b : nat) (c : Client) : gset nat :=
  match pb_bcs (c_pub c) !! b with Some s => b_receivers (bc s) | None => ∅ end.

(** [Send] for one unit after the other, up to the first error. *)
Fixpoint sendAll (order : gset nat -> list nat) (sched : AccessUnit -> nat -> nat * nat) (snd : clientSender)
    (aus : list AccessUnit) (c : Client) : option (option error * Client) :=
  match aus with
  | [] => Some (None, c)
  | au :: aus' =>
      res ← Send snd au (order (pubReceivers (cs_bc snd) c)) (sched au) c;
      match res with
      | (Some err, c) => Some (Some err, c)
      | (None, c) => sendAll order sched snd aus' c
      end
  end.

(** [InboundRecv] on the track at [a], call after call. *)
Inductive receivesAll (a : nat) : dstate -> list AccessUnit -> dstate -> Prop :=
  | ra_nil st : receivesAll a st [] st
  | ra_cons st au st' aus st'' :
      InboundRecv a st (Ok au) st' -> receivesAll a st' aus st'' -> receivesAll a st (au :: aus) st''.

(** ** The client's side *)

(** The broadcaster of a new track: no interceptors, one open, empty receiver. *)
Record fresh_pub (s : store unit) (a : nat) (aus : list AccessUnit) : Prop := {
  fp_ok : store_ok s;
  fp_chain : b_interceptors (bc s) = [];
  fp_self : b_selfContained (bc s) = true;
  fp_max : b_maxAUBytes (bc s) = Z.shiftl 16 20;
  fp_recv : a ∈ b_receivers (bc s);
  fp_queue : exists r, heap s !! a = Some r /\ r_closed r = false /\ ch_cap (r_ch r) = 30%nat /\ ch_buf (r_ch r) = aus;
}.

Section Client.
Context `{JSON Announce, JSON Unannounce}.

Lemma Publish_fresh lt c body :
  c_closed c = false -> pb_tracks (c_pub c) !! publishName lt = None -> w_script (c_out c) = [] ->
  lt_Kind lt <> KindVideo -> lt_Kind lt <> ""%string ->
  Marshal (mkAnnounce (publishName lt) (lt_Kind lt) (lt_Codec lt)) = Ok body -> zlen body <= MaxControlPayload ->
  exists b a s c1, Publish lt c = Some (Ok (mkClientSender (publishName lt) b), c1) /\ c_closed c1 = false /\
    w_out (c_out c1) = w_out (c_out c) ++ control_bytes TypeAnnounce body /\
    pb_bcs (c_pub c1) !! b = Some s /\ fresh_pub s a [] /\
    pb_pumps (c_pub c1) = pb_pumps (c_pub c) ++ [mkPumpRun (New (publishConfig (publishName lt) (lt_Kind lt))) b a false].
Proof.
  intros Hcl Hn Hw Hk1 Hk2 Hm Hl. unfold Publish. rewrite Hcl, Hn. unfold newPubTrack.
  pose proof (new_store_ok (lt_Kind lt)) as Hok. rewrite decide_True in Hok by done.
  rewrite decide_True by done. set (b := fresh _). set (st := mkStore _ _ _) in *.
  unfold writeJSON. rewrite Hm, writeCtl_ready by done. unfold spawnPump. cbn [c_pub with_pub with_writer pb_bcs].
  rewrite lookup_insert_eq. cbn [mbind option_bind].
  destruct (subscribe_call st (b_chanSize (bc st)) Hok) as (a & s' & r & Esub & Hcall & _ & _ & Hh & Hb & Hop & Hcap).
  destruct (SubscribeWithCapacity_spec st (b_chanSize (bc st)) Hok) as (a' & s1 & r' & E' & _ & Hh' & _ & _ & _ & _ & Hq & _).
  rewrite Esub in E'. injection E' as <- <-. rewrite Hh in Hh'. apply (f_equal (lookup a)) in Hh'.
  rewrite !lookup_insert_eq in Hh'. injection Hh' as <-.
  rewrite Subscribe_capacity, Esub. cbn [mbind option_bind fst snd].
  exists b, a, s'. eexists. split; [reflexivity|]. cbn. rewrite lookup_insert_eq. split_and!; try done.
  destruct (call_chain _ _ Hcall) as (C1 & _ & _ & C4 & _ & C6).
  split; [by destruct Hcall|by rewrite C1|by rewrite C6|by rewrite C4|rewrite Hb; set_solver|].
  exists r. rewrite Hh, lookup_insert_eq. split_and!; [done|done| |done].
  change (Z.max (b_chanSize (bc st)) (b_chanSize (bc st))) with 30 in Hcap. lia.
Qed.

Lemma sendAll_room order sched name b a aus : forall c s q,
  (forall s, order s ≡ₚ elements s) -> c_closed c = false -> pb_bcs (c_pub c) !! b = Some s -> fresh_pub s a q ->
  (length q + length aus <= 30)%nat -> Forall (size_ok (Z.shiftl 16 20)) aus ->
  exists c' s', sendAll order sched (mkClientSender name b) aus c = Some (None, c') /\ c_closed c' = false /\
    pb_pumps (c_pub c') = pb_pumps (c_pub c) /\ c_out c' = c_out c /\
    pb_bcs (c_pub c') !! b = Some s' /\ fresh_pub s' a (q ++ aus).
Proof.
  induction aus as [|au aus IH]; intros c s q Hord Hcl Hs Hp Hl Hsz.
  { exists c, s. by rewrite app_nil_r. }
  apply Forall_cons in Hsz as [Hau Hsz]. cbn [length] in Hl.
  destruct Hp as [P1 P2 P3 P4 P5 (r & Hr & Hc & Hcap & Hq)].
  destruct (publish_room s a r au (order (pubReceivers b c)) (sched au)) as (s' & r' & Ep & Hcall & Hrs & Hr' & Hc' & Hcap' & Hb' & _).
  - done.
  - rewrite Hord. unfold pubReceivers. by rewrite Hs.
  - by rewrite P2.
  - done.
  - done.
  - done.
  - rewrite Hq, Hcap. lia.
  - by rewrite P4.
  - by left.
  - cbn [sendAll]. unfold Send. rewrite Hcl. unfold Client.publishAt. cbn [cs_bc]. rewrite Hs. cbn [mbind option_bind].
    rewrite Ep. cbn [mbind option_bind]. set (c1 := with_pub c _).
    destruct (call_chain _ _ Hcall) as (C1 & _ & _ & C4 & _ & C6).
    destruct (IH c1 s' (q ++ [au])) as (c' & s2 & E2 & I1 & I2 & I3 & I4 & I5); try done.
    + cbn. by rewrite lookup_insert_eq.
    + split; [by destruct Hcall|by rewrite C1|by rewrite C6|by rewrite C4|by rewrite Hrs|].
      exists r'. rewrite Hb', Hq, Hcap'. done.
    + rewrite length_app. simpl. lia.
    + exists c', s2. rewrite E2. rewrite <- app_assoc in I5. by split_and!.
Qed.
End Client.

(** ** The session's side *)

Section Session.
Context {W : Type} `{JSON Announce, JSON Unannounce, JSON Backpressure, JSON KindStats, JSON ErrorPayload}.
Context (Error : error -> string) (cfg : SessionConfig W).

(** An announce that is accepted opens the gate for the track, with an empty
    queue. *)
Lemma announce_opens now ann body s w :
  Unmarshal body = Ok ann ->
  announceVerdict (sc_OnAnnounce cfg) (Tenant (ss_id s)) (SessionID (ss_id s)) ann (ss_world s) = (None, w) ->
  ib_tracks (d_ib (ss_in s)) !! a_Name ann = None -> Z.of_nat (size (ib_tracks (d_ib (ss_in s)))) < maxInboundTracks ->
  exists s1 a, Session.controlFrame Error cfg now TypeAnnounce body s = Some (CContinue s1) /\
    d_rl (ss_in s1) = d_rl (ss_in s) /\ ib_tracks (d_ib (ss_in s1)) !! a_Name ann = Some a /\
    ib_heap (d_ib (ss_in s1)) !! a =
      Some (mkInboundTrack (a_Name ann) (a_Kind ann) (a_Codec ann) (make_chan AccessUnit 64) true true false).
Proof.
  intros Hu Hv Hn Hsz. unfold Session.controlFrame. do 4 (rewrite bool_decide_false by done).
  rewrite bool_decide_true by done. rewrite Hu. unfold handleAnnounce, announceBegin. rewrite Hv.
  unfold inboundTrackChanWire. rewrite Hn. destruct (_ >=? _) eqn:E; [lia|]. unfold newInboundTrack.
  set (a := fresh _). eexists _, a. split; [reflexivity|]. cbn. split; [done|]. rewrite lookup_insert_eq. split; [done|].
  rewrite lookup_alter, decide_True, lookup_insert_eq by done. done.
Qed.
End Session.

Lemma gate_open onAnnounce name ib a t :
  ib_tracks ib !! name = Some a -> ib_heap ib !! a = Some t -> it_announced t = true -> it_authorized t = true ->
  drainGate onAnnounce name ib = true.
Proof. intros H1 H2 H3 H4. unfold drainGate. rewrite H1, H2, H3, H4. by destruct onAnnounce. Qed.

Lemma receives_queue a l : forall st t,
  ib_heap (d_ib st) !! a = Some t -> ch_buf (it_ch t) = l ->
  exists st' t', receivesAll a st l st' /\ ib_heap (d_ib st') !! a = Some t' /\ ch_buf (it_ch t') = [].
Proof.
  induction l as [|au l IH]; intros st t Ht Hb.
  { exists st, t. split; [constructor|done]. }
  set (t1 := mkInboundTrack (it_name t) (it_kind t) (it_codec t) (mkChan l (ch_cap (it_ch t)) (ch_closed (it_ch t)))
               (it_announced t) (it_authorized t) (it_done t)).
  destruct (IH (with_ib st (mkInbound (ib_tracks (d_ib st)) (<[a := t1]> (ib_heap (d_ib st))))) t1) as (st' & t' & Hr & Ht' & Hb').
  - cbn. by rewrite lookup_insert_eq.
  - done.
  - exists st', t'. split; [|done]. econstructor; [|exact Hr]. apply ir_unit; [done|]. unfold try_recv. by rewrite Hb.
Qed.

(** ** Together *)

(** C2: publishing back works.  A client publishes a new track that is not video and
    sends some units; the announce goes out on the control stream, one pump is
    started, and its receiver holds the units.  On a transport that takes its
    bytes the pump puts them on one stream.  A session that accepts the announce
    and drains the stream after it, without a rate limit, queues all of them,
    and as many [InboundRecv] calls return them: in order, with bytes,
    timestamp, sequence number and discontinuity. *)
Theorem published_back_is_received {W} `{JSON Announce, JSON Unannounce, JSON Backpressure, JSON KindStats, JSON ErrorPayload}
    (Error : error -> string) (scfg : SessionConfig W) order sched lt c body aus times ctxErr p clock now s w :
  let name := publishName lt in
  let ann := mkAnnounce name (lt_Kind lt) (lt_Codec lt) in
  let cfg := New (publishConfig name (lt_Kind lt)) in
  c_closed c = false -> pb_tracks (c_pub c) !! name = None -> w_script (c_out c) = [] ->
  lt_Kind lt <> KindVideo -> lt_Kind lt <> ""%string ->
  Marshal ann = Ok body -> zlen body <= MaxControlPayload -> Unmarshal body = Ok ann ->
  (forall s, order s ≡ₚ elements s) -> zlen (bytes_of name) <= MaxStreamHeader ->
  aus <> [] -> (length aus <= 30)%nat -> Forall (size_ok (Z.shiftl 16 20)) aus ->
  length times = length aus -> Forall sendable (zip aus times) -> n_opens (p_net p) = [] -> p_streams p = [] ->
  announceVerdict (sc_OnAnnounce scfg) (Tenant (ss_id s)) (SessionID (ss_id s)) ann (ss_world s) = (None, w) ->
  ib_tracks (d_ib (ss_in s)) !! name = None -> Z.of_nat (size (ib_tracks (d_ib (ss_in s)))) < maxInboundTracks ->
  noLimits (d_rl (ss_in s)) = true ->
  exists b a c1 c2 st p' str s1 i st2 st3 got,
    Publish lt c = Some (Ok (mkClientSender name b), c1) /\
    w_out (c_out c1) = w_out (c_out c) ++ control_bytes TypeAnnounce body /\
    sendAll order sched (mkClientSender name b) aus c1 = Some (None, c2) /\
    pb_pumps (c_pub c2) = pb_pumps (c_pub c) ++ [mkPumpRun cfg b a false] /\
    pb_bcs (c_pub c2) !! b = Some st /\ fresh_pub st a aus /\
    runStreamLowLatency cfg (zip aus times) ctxErr p = (ctxErr, p') /\ p_streams p' = [str] /\
    Session.controlFrame Error scfg now TypeAnnounce body s = Some (CContinue s1) /\
    drainInboundStream (bool_decide (is_Some (sc_OnAnnounce scfg))) clock (mkReader (w_out (st_w str)) EOF) (ss_in s1) = Some st2 /\
    receivesAll i st2 got st3 /\
    Forall2 (fun au au' => au_Bytes au' = au_Bytes au /\ au_PTSMicro au' = au_PTSMicro au /\ au_Seq au' = au_Seq au /\
                           au_Discontinuity au' = au_Discontinuity au) aus got.
Proof.
  intros name ann cfg Hcl Hnew Hw Hk1 Hk2 Hm Hl Hu Hord Hname Hne Hlen Hsz Htm Hs Hop Hp Hv Hib Hcap Hrl.
  destruct (Publish_fresh lt c body Hcl Hnew Hw Hk1 Hk2 Hm Hl) as (b & a & s0 & c1 & EP & Hcl1 & Ho1 & Hs0 & Hfr & Hpumps).
  destruct (sendAll_room order sched name b a aus c1 s0 [] Hord Hcl1 Hs0 Hfr) as (c2 & st & ES & _ & Hp2 & _ & Hst & Hfr2);
    [simpl; lia|done|].
  assert (length (zip aus times) = length aus) as Hlz by (rewrite length_zip_with; lia).
  destruct (ll_reliable_run cfg (zip aus times) ctxErr p Hname) as (p' & str & ER & Estr & _ & Hout);
    [eapply (Forall_impl sendable); [done|]; intros x Hx; apply Hx|done|done|].
  destruct (announce_opens Error scfg now ann body s w Hu Hv Hib Hcap) as (s1 & i & EC & Hrl1 & Hi & Ht).
  change (a_Name ann) with name in Hi.
  assert (arrives_as cfg = name) as Ea.
  { unfold arrives_as. cbn. unfold name, publishName. destruct (decide (lt_Name lt = ""%string)); [done|]. by rewrite decide_False. }
  match type of Ht with _ = Some ?t => set (t0 := t) in Ht end. set (seg := keyedAt <$> zip aus times).
  destruct (drain_gop_exact cfg seg EOF (bool_decide (is_Some (sc_OnAnnounce scfg))) clock (ss_in s1) i (d_ib (ss_in s1)) t0 Hname)
    as (nw & ED); rewrite ?Ea.
  { unfold seg. intros E. apply (f_equal length) in E. rewrite length_fmap, Hlz in E. by destruct aus. }
  { unfold seg. apply Forall_fmap. eapply (Forall_impl sendable); [done|]. intros [x y] Hx. exact Hx. }
  { by eapply gate_open. }
  { unfold inboundTrackChanWire. by rewrite Hi. }
  { exact Ht. } { done. } { unfold seg. rewrite length_fmap, Hlz. simpl. lia. } { by rewrite Hrl1. }
  destruct (enqueue_lookup i ((fun x => received_au x.1) <$> seg)
    (mkDState (d_ib (ss_in s1)) (d_rl (ss_in s1)) (d_lastFeed (ss_in s1)) (d_dropped (ss_in s1))) nw _ Ht) as (t' & Ht' & Hch).
  destruct (receives_queue i ((fun x => received_au x.1) <$> seg) _ t' Ht') as (st3 & _ & Hrecv & _); [by rewrite Hch|].
  eexists b, a, c1, c2, st, p', str, s1, i, _, st3, _. rewrite Hp2, Hout. split_and!; try done.
  unfold seg. clear -Htm. revert times Htm. induction aus as [|au aus IH]; intros [|tm times] Htm; try done.
  cbn [zip zip_with fmap list_fmap]. constructor; [done|]. apply IH. by injection Htm.
Qed.

(** ** A concrete track *)

Module PublishBackDemo.
Import SessionDemo DialDemo ClientDemo.

#[local] Instance json_chat : JSON Announce :=
  {| Marshal a := Ok (bytes_of (a_Name a)); Unmarshal b := Ok (mkAnnounce (string_of b) KindTokens "") |}.

#[local] Existing Instances SessionDemo.json_unannounce SessionDemo.json_backpressure SessionDemo.json_kindstats
  SessionDemo.json_error.

Definition chat : LocalTrack := mkLocalTrack "chat" KindTokens "" 0 0.
Definition sender : Client := newClient DialDemo.demo_opts (mkReader [] EOF) (mkWriter [] []).
Definition words : list AccessUnit := demo_seg.*1.
Definition clocks : list Z := demo_seg.*2.

Lemma words_size : Forall (size_ok (Z.shiftl 16 20)) words.
Proof. repeat constructor; vm_compute; discriminate. Qed.

Lemma published_back_is_received_witness :
  exists b c1 c2 s1, Publish chat sender = Some (Ok (mkClientSender "chat" b), c1) /\
    sendAll elements (fun _ _ => (0, 0)%nat) (mkClientSender "chat" b) words c1 = Some (None, c2) /\
    Session.controlFrame (fun _ => ""%string) demo_cfg 5 TypeAnnounce (bytes_of "chat") (demo_session [x01]) = Some (CContinue s1) /\
    exists i st2 st3 got, receivesAll i st2 got st3 /\ au_Bytes <$> got = au_Bytes <$> words.
Proof.
  destruct (@published_back_is_received nat json_chat SessionDemo.json_unannounce SessionDemo.json_backpressure SessionDemo.json_kindstats SessionDemo.json_error
    (fun _ => ""%string) demo_cfg elements (fun _ _ => (0, 0)%nat) chat sender (bytes_of "chat") words clocks None
    (mkPump [] (mkNet [] []) []) (fun _ => 7) 5 (demo_session [x01]) 0%nat
    eq_refl eq_refl eq_refl ltac:(discriminate) ltac:(discriminate) eq_refl ltac:(vm_compute; discriminate) eq_refl
    (fun s => Permutation_refl _) ltac:(vm_compute; discriminate) ltac:(discriminate) ltac:(simpl; lia) words_size eq_refl
    demo_sendable eq_refl eq_refl eq_refl eq_refl eq_refl eq_refl)
    as (b & a & c1 & c2 & st & p' & str & s1 & i & st2 & st3 & got & E1 & _ & E2 & _ & _ & _ & _ & _ & E3 & _ & E4 & Hf).
  exists b, c1, c2, s1. split; [exact E1|]. split; [exact E2|]. split; [exact E3|].
  exists i, st2, st3, got. split; [exact E4|]. clear -Hf.
  induction Hf as [|x y l k (Hxy & _) _ IH]; [reflexivity|]. cbn [fmap list_fmap]. rewrite Hxy. f_equal. exact IH.
Defined.
End PublishBackDemo.
