(* ===== verification/ServerRun.v ===== *)
(** * The server's sessions: runSession

    [runSession] and [New] of [server/server.go]: the configuration a session
    gets, the callbacks with which it reaches the server, and a subscriber that
    joins.  The callbacks of [Session.v] act on a world; here it is the server
    itself ([Server.v]), [None] after a panic. *)

From S2P Require Import Prelude Wire Track Replay Pubsub PubsubCalls RateLimit Pump DataChannel Inbound SessionStore.
From S2P Require Import KindStats Session Server ServerSessions Client ClientRecv ClientSessions.

Definition DefaultSupportedFeatures : list string :=
  ["resume"; "backpressure"; "publishback"; "stream-header"; "kind-stats"].

Definition SchedulerAuto : Z := 0.
Definition SchedulerOn : Z := 1.
Definition SchedulerOff : Z := 2.

Section ServerRun.
Context {W0 : Type}. (* the state of the recorders *)
Context {JH : JSON Hello} {JS : JSON SDP}.

Definition world : Type := option (core W0).

(** [Config], without the certificate, the loggers and metrics sinks and the
    pluggable session store. *)
Record serverConfig := mkServerConfig {
  svc_Addr : string;
  svc_CertExtraIPs : list (option string); (* [None]: a nil [net.IP] *)
  svc_Slug : string;
  svc_ExternalHost : string;
  svc_AllowedOrigins : list string;
  svc_MaxSessions : Z;
  svc_SDP : SDP;
  svc_Session : SessionConfig world;
  svc_ResumeWindow : Z; (* [Session.ResumeWindow] *)
  svc_PerSubscriberBuffer : Z;
  svc_AuthValidator : option (string -> result string);
  svc_OnBackpressure : option (string -> string -> Z -> world -> world);
  svc_OnKeyframeRequest : option (string -> string -> world -> world);
  svc_OnSession : option (session world -> world -> world);
  svc_InboundRateLimit : RateLimit;
  svc_OnAnnounce : option (string -> string -> string -> string -> world -> option error * world);
  svc_InstanceID : string;
  svc_InstanceAddr : string;
  svc_EvictionInterval : Z;
  svc_OnKindStats : option (string -> KindStats -> world -> world);
  svc_PriorityScheduler : Z;
  svc_UsePriorityScheduler : bool;
  svc_SupportedFeatures : option (list string); (* [None]: a nil slice *)
}.

Definition schedulerEnabled (cfg : serverConfig) : bool :=
  if svc_PriorityScheduler cfg =? SchedulerOn then true
  else if svc_PriorityScheduler cfg =? SchedulerOff then false
  else svc_UsePriorityScheduler cfg.

(** The feed configuration of a session: its datagram sender, bidirectional
    opener and fallback opener are those of the connection. *)
Definition sessionFeedConfig (cfg : serverConfig) : Config :=
  let base := sc_FeedConfig (svc_Session cfg) in
  mkPumpConfig (cfg_OpenDeadlineKeyframe base) (cfg_WriteDeadline base) (cfg_TrackName base) (cfg_Priority base)
    (if schedulerEnabled cfg then true else cfg_Scheduler base) (cfg_Delivery base) true true (cfg_TrackID base) true
    (cfg_BidiCallTimeout base) (cfg_MaxBidiResponse base) (cfg_AllowLeadingPFrames base) (cfg_StampPublishWall base)
    (cfg_OnBidiResponse base).

(** The configuration that [runSession] passes to [session.New]; the protocol
    error callback only logs. *)
Definition sessionConfig (cfg : serverConfig) (slug : string) : SessionConfig world :=
  let base := svc_Session cfg in
  mkSessionConfig slug (svc_AuthValidator cfg) (svc_OnBackpressure cfg) (svc_OnKeyframeRequest cfg)
    (svc_InboundRateLimit cfg) (default DefaultSupportedFeatures (svc_SupportedFeatures cfg)) (svc_SDP cfg)
    (sc_AcceptTimeout base) (sc_ReadHelloTimeout base) (sc_IdleTimeout base) (sessionFeedConfig cfg)
    (sc_DataInboundBuffer base) (svc_OnAnnounce cfg) (svc_OnKindStats cfg) (Some (fun _ _ _ w => w)).

Section Orders.
Context (tracks_order : gmap string trackEntry -> list (string * trackEntry)).
Context (park_order : @map_order (list rref)).
Context (seen_order : gmap string Z -> list (string * Z)).
Context (values : gmap Z AccessUnit -> list AccessUnit).

(** A callback of the session that runs [f] on the server. *)
Definition onServer {A} (f : core W0 -> option (A * core W0)) (none : A) (w : world) : A * world :=
  match w with
  | None => (none, None)
  | Some c => match f c with Some (a, c') => (a, Some c') | None => (none, None) end
  end.

(** The callbacks set by [runSession], at the time [now] and with [allocID] the
    random identifier of [AllocateID]; the look-ups read the registry [c]. *)
Definition serverHooks (now : Z) (allocID : string) (c : core W0) : Hooks world :=
  mkHooks (Some (fun w => (allocID, w)))
    (Some (fun tenant id lastSeen =>
       onServer (resumeSession park_order seen_order values now tenant id lastSeen) None))
    (Some (onServer (freshReceivers tracks_order) ∅))
    (Some (priorityFor c)) (Some (trackIDFor c)) (Some (kindFor c)).

(** [runSession] from the accepted control stream to the start of the pumps. *)
Definition joinSession (cfg : serverConfig) (slug allocID : string) (order : gmap string nat -> list (string * nat)) (now : Z) (deadline : option error) (ctl : reader) (out : writer)
    (c : core W0) : option error * session world :=
  let sc := sessionConfig cfg slug in
  runBegin (applyDefaults sc) (serverHooks now allocID c) (svc_OnSession cfg) order now deadline
    (newSession sc now ctl out (Some c)).

(** The deferred clean-up of [runSession]. *)
Definition leaveSession (stopping : bool) (now1 now2 : Z) (s : session world) (c : core W0) : option (core W0) :=
  endSession tracks_order park_order stopping now1 now2 (ss_id s) (ss_ob s) c.
End Orders.

(** ** New *)

Definition externalHost (cfg : serverConfig) : string :=
  if decide (svc_ExternalHost cfg = ""%string) then
    match svc_CertExtraIPs cfg with Some ip :: _ => ip | _ => "127.0.0.1"%string end
  else svc_ExternalHost cfg.

(** The tracks of the server that [New] returns: its primary track.  [w] is the
    state of the recorders to come. *)
Definition newServer {JA : JSON Announce} (cfg : serverConfig) (w : W0) : option (core W0) :=
  fst <$> AddTrack (W' := unit) (sessionFeedConfig cfg) (svc_PerSubscriberBuffer cfg) "primary"
            (newCore (svc_ResumeWindow cfg) w) [].
End ServerRun.

(** * Properties *)

(** ** The registry *)

Section Registry.
Context {W W' : Type} {JA : JSON Announce} {JU : JSON Unannounce}.

Lemma subscribeAt_tracks b (c : core W) x c' : subscribeAt b c = Some (x, c') -> sv_tracks c' = sv_tracks c.
Proof. unfold subscribeAt. intros (s & _ & (res & _ & [= _ <-])%bind_Some)%bind_Some. done. Qed.

Lemma notifySessions_tracks base name kind priority trackID b ss : forall (c : core W) (ss' : list (session W')) c',
  notifySessions base name kind priority trackID b c ss = Some (c', ss') -> sv_tracks c' = sv_tracks c.
Proof.
  induction ss as [|s ss IH]; intros c ss' c'; cbn [notifySessions]; [by intros [= <- _]|].
  intros ([x c1] & E1 & ([c2 rest] & E2 & [= <- _])%bind_Some)%bind_Some.
  rewrite (IH _ _ _ E2). by apply subscribeAt_tracks in E1.
Qed.

(** The registry after [AddTrackSpec]. *)
Lemma AddTrackSpec_tracks base buffer spec (c : core W) (ss : list (session W')) c' ss' :
  AddTrackSpec base buffer spec c ss = Some (c', ss') ->
  match sv_tracks c !! spec_Name spec with
  | Some _ => sv_tracks c' = sv_tracks c
  | None => exists b, sv_tracks c' =
      <[spec_Name spec := mkTrackEntry (specKind spec) (specPriority spec) (spec_TrackID spec) b]> (sv_tracks c)
  end.
Proof.
  unfold AddTrackSpec, addTrackInternal, registerTrack. destruct (sv_tracks c !! spec_Name spec) as [e|]; [by intros [= <- _]|].
  destruct (attachRecordersToTrack _ _ _ _ _) as [b recs].
  intros (t & _ & E%notifySessions_tracks)%bind_Some. eexists. exact E.
Qed.

Lemma RemoveTrack_tracks closeOrder name (c : core W) (ss : list (session W')) c' ss' :
  RemoveTrack closeOrder name c ss = Some (c', ss') -> sv_tracks c' = delete name (sv_tracks c).
Proof.
  unfold RemoveTrack. destruct (sv_tracks c !! name) as [e|] eqn:E.
  - intros (? & _ & (? & _ & (? & _ & [= <- _])%bind_Some)%bind_Some)%bind_Some. done.
  - intros [= <- _]. by rewrite delete_id.
Qed.

End Registry.

(** A new server is in a good state and has its primary track, a video track. *)
Lemma newServer_ok {W} {JA : JSON Announce} (cfg : serverConfig) (w : W) :
  exists c own b, newServer cfg w = Some c /\ core_ok 0 own c /\
    sv_tracks c = {["primary"%string := mkTrackEntry KindVideo PriorityNormal x00 b]}.
Proof.
  destruct (AddTrackSpec_ok (W' := unit) 0 _ (sessionFeedConfig cfg) (svc_PerSubscriberBuffer cfg) (mkTrackSpec "primary" "" 0 x00) (newCore (svc_ResumeWindow cfg) w) []
    (newCore_ok (svc_ResumeWindow cfg) w)) as (own & c & ss & E & Hok); [simpl; lia|].
  pose proof E as Ht. apply AddTrackSpec_tracks in Ht. destruct Ht as [b Ht].
  exists c, own, b. unfold newServer, AddTrack. rewrite E. done.
Qed.

(** ** The receivers of a new session *)

Section Fresh.
Context {W : Type}.
Implicit Types c : core W.

(** What the receivers of the tracks in [l] are after [freshReceivers]. *)
Definition fresh_for c c' (m : gmap string nat) (name : string) (t : trackEntry) : Prop :=
  exists a r, m !! name = Some (recv_id (te_bc t, a)) /\ receiverAt c (te_bc t, a) = None /\
    receiverAt c' (te_bc t, a) = Some r /\ r_closed r = false /\ a ∈ receivers c' (te_bc t).

(** Receivers are only added. *)
Definition recv_le c c' : Prop :=
  (forall x r, receiverAt c x = Some r -> receiverAt c' x = Some r) /\ forall b, receivers c b ⊆ receivers c' b.

#[local] Instance recv_le_preorder : PreOrder recv_le.
Proof.
  split; [by intros c; split|]. intros c1 c2 c3 [H1 H2] [H3 H4]. split; [auto|]. intros b. by transitivity (receivers c2 b).
Qed.

Lemma fresh_for_le c0 c c1 c2 m name t :
  recv_le c0 c -> recv_le c1 c2 -> fresh_for c c1 m name t -> fresh_for c0 c2 m name t.
Proof.
  intros [H1 _] [H2 H3] (a & r & Hm & Hn & Hr & Hc & Hin). exists a, r. split_and!; [done| |by apply H2|done|by apply H3].
  destruct (receiverAt c0 (te_bc t, a)) as [r0|] eqn:E; [|done]. apply H1 in E. congruence.
Qed.

Lemma subscribe_fresh n own c name t :
  core_ok n own c -> is_Some (sv_bcs c !! te_bc t) ->
  exists x c', subscribeAt (te_bc t) c = Some (x, c') /\ core_ok n own c' /\ same_registry c c' /\ recv_le c c' /\
    forall m, fresh_for c c' (<[name := recv_id x]> m) name t.
Proof.
  intros Hok Hb. rewrite subscribeAt_cap. set (cap := match _ with Some _ => _ | None => _ end).
  destruct (subscribeCapAt_ok n own c cap (te_bc t) Hok Hb) as (a & r & c' & E & Hok' & Hreg & Hn & Hr & Hc & _ & Ho & Hrec).
  exists (te_bc t, a), c'. split_and!; [done|done|done|split|].
  - intros x r0 Hx. rewrite Ho; [done|]. intros ->. congruence.
  - intros b. rewrite Hrec. case_decide; set_solver.
  - intros m. exists a, r. rewrite lookup_insert_eq, Hrec, decide_True by done. split_and!; try done. set_solver.
Qed.

Lemma fresh_fold n own l : forall c m,
  core_ok n own c -> NoDup l.*1 -> (forall name t, (name, t) ∈ l -> is_Some (sv_bcs c !! te_bc t)) ->
  exists m' c', foldl (fun st nt => st ← st; res ← subscribeAt (te_bc nt.2) st.2; Some (<[nt.1 := recv_id res.1]> st.1, res.2))
                 (Some (m, c)) l = Some (m', c') /\
    core_ok n own c' /\ same_registry c c' /\ recv_le c c' /\ dom m' = dom m ∪ list_to_set l.*1 /\
    (forall name, name ∉ l.*1 -> m' !! name = m !! name) /\ forall name t, (name, t) ∈ l -> fresh_for c c' m' name t.
Proof.
  induction l as [|[name t] l IH]; intros c m Hok Hnd Hb.
  { exists m, c. cbn. split_and!; try done; [set_solver|by intros ? ? ?%elem_of_nil]. }
  cbn in Hnd. apply NoDup_cons in Hnd as [Hnin Hnd].
  destruct (subscribe_fresh n own c name t Hok) as (x & c1 & E & Hok1 & Hreg1 & Hle1 & Hf); [apply (Hb name); by left|].
  cbn [foldl mbind option_bind fst snd]. rewrite E. cbn [mbind option_bind fst snd].
  destruct (IH c1 (<[name := recv_id x]> m)) as (m' & c' & E' & Hok' & Hreg' & Hle' & Hdom & Hsame & Hall); [done|done| |].
  { intros nm t' Hin. destruct Hreg1 as (_ & _ & _ & Hb1). apply Hb1, (Hb nm). by right. }
  exists m', c'. split_and!; [done|done|by etrans|by etrans|..].
  - rewrite Hdom, dom_insert_L. cbn. set_solver.
  - intros nm [Hne Hnl]%not_elem_of_cons. rewrite Hsame by done. by rewrite lookup_insert_ne.
  - intros nm t' [Heq | Hin]%elem_of_cons.
    + injection Heq as -> ->. destruct (fresh_for_le c c c1 c' (<[name := recv_id x]> m) name t) as (a & r & Hm & Hx);
        [reflexivity|exact Hle'|apply Hf|].
      exists a, r. rewrite Hsame by done. done.
    + eapply fresh_for_le; [exact Hle1|reflexivity|by apply Hall].
Qed.

(** A new session's receivers: one per track, new, open and subscribed. *)
Lemma freshReceivers_spec n own tracks_order c :
  core_ok n own c -> (forall m, tracks_order m ≡ₚ map_to_list m) ->
  exists m c', freshReceivers tracks_order c = Some (m, c') /\ core_ok n own c' /\ same_registry c c' /\
    dom m = dom (sv_tracks c) /\ forall name t, sv_tracks c !! name = Some t -> fresh_for c c' m name t.
Proof.
  intros Hok Hord. pose proof (Hord (sv_tracks c)) as Hp.
  destruct (fresh_fold n own (tracks_order (sv_tracks c)) c ∅ Hok) as (m & c' & E & Hok' & Hreg & _ & Hdom & _ & Hall).
  - rewrite Hp. apply NoDup_fst_map_to_list.
  - intros name t Hin. rewrite Hp in Hin. apply elem_of_map_to_list in Hin.
    destruct (co_track _ _ _ Hok _ _ Hin) as (_ & o & -> & _). done.
  - exists m, c'. split_and!; [exact E|done|done| |].
    + rewrite Hdom, dom_empty_L. apply set_eq. intros nm. rewrite elem_of_union, elem_of_list_to_set, Hp, elem_of_dom.
      rewrite list_elem_of_fmap. split.
      * intros [[]%elem_of_empty | ([? t] & -> & Ht)]. apply elem_of_map_to_list in Ht. cbn. by rewrite Ht.
      * intros [t Ht]. right. exists (nm, t). split; [done|]. by apply elem_of_map_to_list.
    + intros name t Ht. apply Hall. rewrite Hp. by apply elem_of_map_to_list.
Qed.
End Fresh.

Lemma kindFor_nonempty {W} (c : core W) name : kindFor c name <> ""%string.
Proof. unfold kindFor. destruct (sv_tracks c !! name); [case_decide|]; done. Qed.

(** ** Both ends of a handshake *)

Lemma dial_answered {JH : JSON Hello} {JS : JSON SDP} opts slug hb sdp answered e' :
  Marshal (dialHello opts slug) = Ok hb -> zlen hb <= MaxControlPayload ->
  Unmarshal sdp = Ok answered -> zlen sdp <= MaxControlPayload ->
  exists cl, dialSession opts slug (mkReader (control_bytes TypeSDP sdp) e') (mkWriter [] []) = Some (None, cl) /\ dialed cl /\
    c_assignedSessionID cl = sdp_SessionID answered /\ c_negotiatedFeatures cl = sdp_Features answered.
Proof.
  intros Hm Hl Hus Hls. rewrite (dial_reads opts slug hb _ Hm Hl).
  rewrite <- (app_nil_r (control_bytes TypeSDP sdp)), ReadControlFrame_bytes by done.
  rewrite bool_decide_false, bool_decide_true, Hus by done. eexists. split; [reflexivity|].
  destruct (hasNegotiatedFeature _ _); by split_and!.
Qed.

(** A server without a validator accepts the HELLO of a client that has its
    slug. *)
Lemma hello_accepted {W} {JH : JSON Hello} (cfg : serverConfig (W0 := W)) slug opts hb e (s : session (world (W0 := W))) :
  svc_AuthValidator cfg = None -> Unmarshal hb = Ok (dialHello opts slug) -> zlen hb <= MaxControlPayload ->
  ss_ctl s = mkReader (control_bytes TypeHello hb) e ->
  hello_ok (applyDefaults (sessionConfig cfg slug)) (ss_ctl s) (dialHello opts slug) CurrentVersion None (mkReader [] e).
Proof.
  intros Hauth Hu Hl Hc. rewrite Hc. split; [|by vm_compute| |by right].
  - exists hb. split; [|done]. rewrite <- (app_nil_r (control_bytes TypeHello hb)). by apply ReadControlFrame_bytes.
  - unfold authenticate. cbn. rewrite Hauth. by rewrite decide_True.
Qed.

(** C25: a subscriber joins.  On a server in any reachable state, a client that
    dials with the server's slug and asks for no resumption gets a session with
    the identifier the server allocated; both ends agree on the features; the
    session runs one pump per track of the server, launched once, on a new, open
    receiver subscribed to that track's broadcaster, with the track's priority
    and identifier and the delivery class of its kind; and nothing else of the
    server's registry changes. *)
Theorem subscriber_joins {W} {JH : JSON Hello} {JS : JSON SDP} n own (c : core W) tracks_order park_order seen_order values
    order cfg slug allocID now opts hb sdp e e' :
  core_ok n own c -> (forall m, tracks_order m ≡ₚ map_to_list m) -> (forall m, order m ≡ₚ map_to_list m) ->
  svc_AuthValidator cfg = None -> svc_OnSession cfg = None -> o_SessionID opts = ""%string ->
  Marshal (dialHello opts slug) = Ok hb -> Unmarshal hb = Ok (dialHello opts slug) -> zlen hb <= MaxControlPayload ->
  let answered := answer (applyDefaults (sessionConfig cfg slug)) (dialHello opts slug)
                    (mkIdentity allocID [] CurrentVersion "" "" ∅) in
  Marshal answered = Ok sdp -> Unmarshal sdp = Ok answered -> zlen sdp <= MaxControlPayload ->
  exists s' c' cl,
    joinSession tracks_order park_order seen_order values cfg slug allocID order now None
      (mkReader (control_bytes TypeHello hb) e) (mkWriter [] []) c = (None, s') /\
    ss_world s' = Some c' /\ core_ok n own c' /\ same_registry c c' /\
    dialSession opts slug (mkReader (w_out (ss_out s')) e') (mkWriter [] []) = Some (None, cl) /\
    dialed cl /\ SessionID (ss_id s') = allocID /\ c_assignedSessionID cl = allocID /\
    c_negotiatedFeatures cl = NegotiatedFeatures (ss_id s') /\
    ob_ok (ss_ob s') /\ ob_runStarted (ss_ob s') = true /\ dom (view (ss_ob s')) = dom (sv_tracks c) /\
    forall name t, sv_tracks c !! name = Some t -> exists tp a r,
      view (ss_ob s') !! name = Some tp /\ tp_recv tp = recv_id (te_bc t, a) /\
      receiverAt c (te_bc t, a) = None /\ receiverAt c' (te_bc t, a) = Some r /\ r_closed r = false /\
      a ∈ receivers c' (te_bc t) /\ cfg_Priority (tp_cfg tp) = te_priority t /\ cfg_TrackID (tp_cfg tp) = te_trackID t /\
      cfg_Delivery (tp_cfg tp) = DefaultDeliveryClass (kindFor c name).
Proof.
  intros Hok Hto Hord Hauth Hons Hnew Hm Hu Hl answered Hms Hus Hls.
  destruct (freshReceivers_spec n own tracks_order c Hok Hto) as (m & c' & Ef & Hok' & Hreg & Hdom & Hall).
  unfold joinSession, runBegin. rewrite Hons. set (sc := applyDefaults _). set (hooks := serverHooks _ _ _ _ _ _ c). set (s0 := touchFeed _ _).
  assert (hello_ok sc (ss_ctl s0) (dialHello opts slug) CurrentVersion None (mkReader [] e)) as Hh by (by eapply hello_accepted).
  destruct (handshake_fresh sc hooks order s0 (dialHello opts slug) CurrentVersion None (mkReader [] e) (Some c)
    (fun w => (allocID, w)) (onServer (freshReceivers tracks_order) ∅) sdp) as (s1 & E & Hid & _ & _ & Hft & Hw & Hv & Ho & Hobk & Hst);
    [done|apply no_outbound_ok|done|done| |done|done|done|done|].
  { unfold resumeResult. cbn. by rewrite Hnew. }
  assert (onServer (freshReceivers tracks_order) ∅ (Some c) = (m, Some c')) as Ew by (unfold onServer; by rewrite Ef).
  cbn [fst snd] in Hw, Hv. rewrite Ew in Hw, Hv. cbn [fst snd] in Hw, Hv.
  assert (NegotiatedFeatures (ss_id s1) = sdp_Features answered) as Hna
    by (rewrite Hft; symmetry; apply intersectFeatures_filter).
  destruct (dial_answered opts slug hb sdp answered e' Hm Hl Hus Hls) as (cl & Hd & Hdl & Hcid & Hcf).
  change (control_bytes TypeSDP sdp) with (w_out (ss_out s0) ++ control_bytes TypeSDP sdp) in Hd. rewrite <- Ho in Hd.
  rewrite E. do 3 eexists. split_and!; [reflexivity|exact Hw|exact Hok'|exact Hreg|exact Hd|exact Hdl|exact Hid|exact Hcid| |..].
  - by rewrite Hcf, <- Hna.
  - apply start_ok; [done|done|by rewrite Hst].
  - done.
  - change (dom (view (ss_ob s1)) = dom (sv_tracks c)). rewrite Hv, <- Hdom. apply set_eq. intros nm.
    rewrite !elem_of_dom, lookup_union_r, map_lookup_imap by done. destruct (m !! nm); cbn; split; eauto; by intros [].
  - intros name t Ht. destruct (Hall name t Ht) as (a & r & Hma & Hn & Hr & Hcl & Hin).
    change (view _) with (view (ss_ob s1)). rewrite Hv. eexists _, a, r.
    rewrite lookup_union_r, map_lookup_imap, Hma by done. split_and!; try done; cbn.
    + unfold priorityOf. cbn. unfold priorityFor. by rewrite Ht.
    + unfold trackIDOf. cbn. unfold trackIDFor. by rewrite Ht.
    + change (kindOf hooks name) with (kindFor c name). rewrite decide_False; [done|]. apply kindFor_nonempty.
Qed.

(** The entry of a parked session that has not expired is handed out once. *)
Lemma resume_parked {C} (order : @map_order C) (p : memorySessionStore C) now tenant id e :
  is_order order -> byID p !! scopedKey tenant id = Some e -> now <= ps_expiresAt e ->
  exists p' out, SessionStore.Resume order p now tenant id = (Some (ps_receivers e), p', out) /\
    byID p' !! scopedKey tenant id = None.
Proof.
  intros Hord He Hnow. unfold SessionStore.Resume. destruct (evictExpired_spec order Hord (byID p) now) as [_ H2].
  destruct (evictExpiredLocked order (byID p) now) as [m out]. cbn in H2. subst m.
  assert (filter (fun kp => ~ expired now kp) (byID p) !! scopedKey tenant id = Some e) as ->.
  { apply map_lookup_filter_Some. split; [done|]. unfold expired. cbn. lia. }
  do 2 eexists. split; [done|]. cbn. apply lookup_delete_eq.
Qed.


Module JoinDemo.
Definition demo_opts : Options := mkOptions "" false "slug" 0 "" ∅ None 0.
Definition demo_sdp : SDP := mkSDP "h264" 0 0 0 (float64 0) (float64 0) "" [] "".
Definition demo_cfg : serverConfig (W0 := unit) :=
  mkServerConfig ":0" [] "slug" "" [] 16 demo_sdp
    (mkSessionConfig "" None None None (mkRateLimit 0 0 0 0) [] demo_sdp 0 0 0 (cfg0 false) 0 None None None)
    60 0 None None None None (mkRateLimit 0 0 0 0) None "" "" 0 None SchedulerAuto false None.
Definition demo_answer : SDP :=
  mkSDP "h264" 0 0 0 (float64 0) (float64 0) "sid" DefaultSupportedFeatures CurrentVersion.

#[local] Instance json_hello : JSON Hello := {| Marshal _ := Ok [x01]; Unmarshal _ := Ok (dialHello demo_opts "slug") |}.
#[local] Instance json_sdp : JSON SDP := {| Marshal _ := Ok [x02]; Unmarshal _ := Ok demo_answer |}.
#[local] Instance json_announce : JSON Announce := {| Marshal _ := Ok []; Unmarshal _ := Err EOF |}.

Lemma demo_answered :
  demo_answer = answer (applyDefaults (sessionConfig demo_cfg "slug")) (dialHello demo_opts "slug")
                  (mkIdentity "sid" [] CurrentVersion "" "" ∅).
Proof. vm_compute. reflexivity. Qed.

Lemma subscriber_joins_witness :
  exists (c c' : core unit) s' tp, newServer demo_cfg tt = Some c /\
    joinSession map_to_list map_to_list map_to_list (fun m => snd <$> map_to_list m) demo_cfg "slug" "sid" map_to_list 0 None
      (mkReader (control_bytes TypeHello [x01]) EOF) (mkWriter [] []) c = (None, s') /\
    ss_world s' = Some c' /\ view (ss_ob s') !! "primary"%string = Some tp /\ cfg_Delivery (tp_cfg tp) = DeliveryStreamGOP.
Proof.
  destruct (newServer_ok demo_cfg tt) as (c & own & b & E & Hok & Ht).
  destruct (@subscriber_joins unit json_hello json_sdp 0 own c map_to_list map_to_list map_to_list (fun m => snd <$> map_to_list m)
    map_to_list demo_cfg "slug" "sid" 0 demo_opts [x01] [x02] EOF EOF Hok ltac:(done) ltac:(done) eq_refl eq_refl eq_refl eq_refl eq_refl
    ltac:(vm_compute; discriminate) eq_refl (f_equal Ok demo_answered) ltac:(vm_compute; discriminate))
    as (s' & c' & cl & Ej & Hw & _ & _ & _ & _ & _ & _ & _ & _ & _ & _ & Hall).
  destruct (Hall "primary"%string (mkTrackEntry KindVideo PriorityNormal x00 b)) as (tp & a & r & Hv & _ & _ & _ & _ & _ & _ & _ & Hd).
  { rewrite Ht. apply lookup_singleton_eq. }
  exists c, c', s', tp. split; [exact E|]. split; [exact Ej|]. split; [exact Hw|]. split; [exact Hv|].
  rewrite Hd. unfold kindFor. rewrite Ht, lookup_singleton_eq. reflexivity.
Defined.

(** The session above, parked without a pump and resumed at the last moment. *)
Definition returning : Options := mkOptions "" false "slug" 0 "sid" {["primary"%string := 7]} None 0.
Definition json_returning : JSON Hello := {| Marshal _ := Ok [x01]; Unmarshal _ := Ok (dialHello returning "slug") |}.

Lemma nothing_allocated (c : core unit) : ob_allocated c no_outbound.
Proof. intros name i x Hi. revert Hi. unfold Receivers. cbn. rewrite lookup_empty. by intros ?%elem_of_nil. Qed.

End JoinDemo.
