(* ===== verification/ShareLink.v ===== *)
(** * The share link: server to client

    [ShareLink] of [server/server.go], [HashB64URL] of [cert/cert.go], and their
    reading by [Dial] of [client/client.go], with its certificate pin.  The
    unpadded URL-safe base64 of [encoding/base64] is written out; SHA-256 and
    [url.Parse] are parameters. *)

From Stdlib Require Import Strings.Ascii.
From S2P Require Import Prelude Wire Replay Pump Inbound DataChannel Client.

(** ** base64.RawURLEncoding *)

Definition alphabet : string := "ABCDEFGHIJKLMNOPQRSTUVWXYZabcdefghijklmnopqrstuvwxyz0123456789-_".

Definition enc6 (v : Z) : ascii := default "A"%char (String.get (Z.to_nat v) alphabet).

Fixpoint index_of (a : ascii) (s : string) : option nat :=
  match s with
  | EmptyString => None
  | String b s' => if decide (a = b) then Some 0%nat else S <$> index_of a s'
  end.

Definition dec6 (a : ascii) : option Z := Z.of_nat <$> index_of a alphabet.

(** The [i]-th group of six bits of a 24-bit value, from the top. *)
Definition sextet (v : Z) (i : Z) : ascii := enc6 (Z.land (Z.shiftr v (18 - 6 * i)) 63).

Fixpoint EncodeToString (l : list byte) : string :=
  match l with
  | [] => EmptyString
  | [a] => let v := Z.shiftl (Z_of_byte a) 16 in String (sextet v 0) (String (sextet v 1) EmptyString)
  | [a; b] =>
      let v := Z.lor (Z.shiftl (Z_of_byte a) 16) (Z.shiftl (Z_of_byte b) 8) in
      String (sextet v 0) (String (sextet v 1) (String (sextet v 2) EmptyString))
  | a :: b :: c :: l' =>
      let v := Z.lor (Z.lor (Z.shiftl (Z_of_byte a) 16) (Z.shiftl (Z_of_byte b) 8)) (Z_of_byte c) in
      String (sextet v 0) (String (sextet v 1) (String (sextet v 2) (String (sextet v 3) (EncodeToString l'))))
  end.

(** A full quantum, and the shorter ones at the end, whose spare low bits are
    ignored. *)
Fixpoint decodeQuanta (s : string) : option (list byte) :=
  match s with
  | EmptyString => Some []
  | String a (String b (String c (String d s'))) =>
      a ← dec6 a; b ← dec6 b; c ← dec6 c; d ← dec6 d;
      let v := Z.lor (Z.lor (Z.shiftl a 18) (Z.shiftl b 12)) (Z.lor (Z.shiftl c 6) d) in
      rest ← decodeQuanta s';
      Some (byte_of_Z (Z.shiftr v 16) :: byte_of_Z (Z.shiftr v 8) :: byte_of_Z v :: rest)
  | String a (String b (String c EmptyString)) =>
      a ← dec6 a; b ← dec6 b; c ← dec6 c;
      let v := Z.lor (Z.lor (Z.shiftl a 18) (Z.shiftl b 12)) (Z.shiftl c 6) in
      Some [byte_of_Z (Z.shiftr v 16); byte_of_Z (Z.shiftr v 8)]
  | String a (String b EmptyString) =>
      a ← dec6 a; b ← dec6 b;
      let v := Z.lor (Z.shiftl a 18) (Z.shiftl b 12) in
      Some [byte_of_Z (Z.shiftr v 16)]
  | String _ EmptyString => None
  end.

(** The decoder skips line ends. *)
Fixpoint skipLines (s : string) : string :=
  match s with
  | EmptyString => EmptyString
  | String a s' => if decide (a = "010"%char \/ a = "013"%char) then skipLines s' else String a (skipLines s')
  end.

Definition DecodeString (s : string) : option (list byte) := decodeQuanta (skipLines s).

(** ** The link *)

Definition HashB64URL (derHash : list byte) : string := EncodeToString derHash.

Fixpoint count (a : ascii) (s : string) : nat :=
  match s with
  | EmptyString => 0
  | String b s' => if decide (a = b) then S (count a s') else count a s'
  end.

Definition linkHost (host : string) : string :=
  if (2 <=? count ":" host)%nat && negb (String.prefix "[" host) then ("[" +:+ host +:+ "]")%string else host.

(** The part of the link before [#], and the link; [port] is that of the listen
    address. *)
Definition linkBase (host port : string) : string := ("https://" +:+ linkHost host +:+ ":" +:+ port +:+ "/wt")%string.
Definition linkFragment (slug hash : string) : string := ("slug=" +:+ slug +:+ "&hash=" +:+ hash)%string.
Definition ShareLink (host port slug : string) (derHash : list byte) : string :=
  (linkBase host port +:+ "#" +:+ linkFragment slug (HashB64URL derHash))%string.

(** The pin of [Dial] for a hash from the link: [Err] is its refusal. *)
Definition dialPin (hash : string) : result (list byte) :=
  match DecodeString hash with
  | Some want => if (length want =? 32)%nat then Ok want else Err (ErrMsg "bad cert hash")
  | None => Err (ErrMsg "bad cert hash")
  end.

(** How [Dial] has TLS verify the server: the system's roots, nothing
    ([InsecureSkipVerify]), or [checkPin] with the pinned hash. *)
Inductive trust := TrustSystem | TrustAny | TrustPin (want : list byte).

Definition dialTrust (opts : Options) (hash : string) : result trust :=
  if o_InsecureSkipVerify opts then Ok TrustAny
  else if decide (hash = ""%string) then Ok TrustSystem
  else match dialPin hash with
       | Ok want => Ok (TrustPin want)
       | Err e => Err e
       end.

Definition dialTimeout (opts : Options) : Z :=
  if o_HelloTimeout opts <=? 0 then 5 * 1000000000 else o_HelloTimeout opts.

(** [Dial]; [connect u tr timeout] is the WebTransport library's: dialling [u]
    with that verification and opening the control stream within the time. *)
Definition Dial `{JSON Hello, JSON SDP} (Parse : string -> result URL)
    (connect : URL -> trust -> Z -> result (reader * writer)) (rawURL : string) (opts : Options)
    : option (result Client) :=
  match parseURL Parse rawURL (o_Slug opts) (o_CertHashB64URL opts) with
  | Err e => Some (Err e)
  | Ok (u, slug, hash) =>
  match dialTrust opts hash with
  | Err e => Some (Err e)
  | Ok tr =>
  match connect u tr (dialTimeout opts) with
  | Err e => Some (Err e)
  | Ok (ctl, out) =>
      res ← dialSession opts slug ctl out;
      Some (match res with (Some e, _) => Err e | (None, c) => Ok c end)
  end end end.

(** * Properties *)

Lemma dec6_enc6 v : 0 <= v < 64 -> dec6 (enc6 v) = Some v.
Proof.
  intros Hv. assert (forallb (fun n => bool_decide (dec6 (enc6 (Z.of_nat n)) = Some (Z.of_nat n))) (seq 0 64) = true) as H
    by (vm_compute; reflexivity).
  rewrite forallb_forall in H. specialize (H (Z.to_nat v)). rewrite Z2Nat.id in H by lia.
  apply bool_decide_eq_true in H; [done|]. apply in_seq. lia.
Qed.

Definition is_link_char (a : ascii) : bool := negb (bool_decide (a ∈ ["000"%char; "010"%char; "013"%char; "&"%char; "="%char])).

Lemma enc6_char v : 0 <= v < 64 -> is_link_char (enc6 v) = true.
Proof.
  intros Hv. assert (forallb (fun n => is_link_char (enc6 (Z.of_nat n))) (seq 0 64) = true) as H
    by (vm_compute; reflexivity).
  rewrite forallb_forall in H. specialize (H (Z.to_nat v)). rewrite Z2Nat.id in H by lia. apply H, in_seq. lia.
Qed.

Lemma byte_of_Z_eq z b : z mod 256 = Z_of_byte b -> byte_of_Z z = b.
Proof. intros E. apply Z_of_byte_inj. by rewrite Z_of_byte_of_Z. Qed.

(** Six-bit groups as quotients. *)
Definition group (v i : Z) : Z := (v / 2 ^ (18 - 6 * i)) mod 64.

Lemma sextet_group v i : i <= 3 -> sextet v i = enc6 (group v i) /\ 0 <= group v i < 64.
Proof.
  intros Hi. split; [|apply Z.mod_pos_bound; lia]. unfold sextet, group. f_equal.
  rewrite (Z.land_ones _ 6) by lia. by rewrite Z.shiftr_div_pow2 by lia.
Qed.

Lemma dec6_sextet v i : i <= 3 -> dec6 (sextet v i) = Some (group v i).
Proof. intros Hi. destruct (sextet_group v i Hi) as [-> ?]. by apply dec6_enc6. Qed.

(** Four groups put together again. *)
Lemma groups_value v : 0 <= v < 2 ^ 24 ->
  Z.lor (Z.lor (Z.shiftl (group v 0) 18) (Z.shiftl (group v 1) 12)) (Z.lor (Z.shiftl (group v 2) 6) (group v 3)) = v.
Proof.
  intros Hv. destruct (sextet_group v 1) as [_ H1], (sextet_group v 2) as [_ H2], (sextet_group v 3) as [_ H3]; try lia.
  rewrite (lor_shiftl_add (group v 2)) by lia. rewrite <- Z.lor_assoc.
  rewrite (lor_shiftl_add (group v 1)) by lia. rewrite lor_shiftl_add by lia.
  unfold group. change (2 ^ (18 - 6 * 0)) with 262144. change (2 ^ (18 - 6 * 1)) with 4096.
  change (2 ^ (18 - 6 * 2)) with 64. change (2 ^ (18 - 6 * 3)) with 1. change (2 ^ 24) with 16777216 in Hv.
  change (2 ^ 18) with 262144. change (2 ^ 12) with 4096. change (2 ^ 6) with 64. Z.div_mod_to_equations. lia.
Qed.

Definition triple (a b c : byte) : Z := Z.lor (Z.lor (Z.shiftl (Z_of_byte a) 16) (Z.shiftl (Z_of_byte b) 8)) (Z_of_byte c).

Lemma triple_value a b c : triple a b c = Z_of_byte a * 65536 + Z_of_byte b * 256 + Z_of_byte c.
Proof.
  unfold triple. pose proof (Z_of_byte_range a). pose proof (Z_of_byte_range b). pose proof (Z_of_byte_range c).
  rewrite <- Z.lor_assoc, (lor_shiftl_add (Z_of_byte b)), lor_shiftl_add by lia. lia.
Qed.

Lemma triple_bytes a b c : 0 <= triple a b c < 2 ^ 24 /\
  byte_of_Z (Z.shiftr (triple a b c) 16) = a /\ byte_of_Z (Z.shiftr (triple a b c) 8) = b /\
  byte_of_Z (triple a b c) = c.
Proof.
  rewrite triple_value. pose proof (Z_of_byte_range a). pose proof (Z_of_byte_range b). pose proof (Z_of_byte_range c).
  split; [change (2 ^ 24) with 16777216; lia|].
  split_and!; apply byte_of_Z_eq; rewrite ?Z.shiftr_div_pow2 by lia;
    [change (2 ^ 16) with 65536|change (2 ^ 8) with 256|]; Z.div_mod_to_equations; lia.
Qed.

(** Shorter ends are triples with zero bytes. *)
Lemma triple_0 a b : triple a b x00 = Z.lor (Z.shiftl (Z_of_byte a) 16) (Z.shiftl (Z_of_byte b) 8) /\
  triple a x00 x00 = Z.shiftl (Z_of_byte a) 16.
Proof. unfold triple. change (Z_of_byte x00) with 0. by rewrite Z.shiftl_0_l, !Z.lor_0_r. Qed.

Lemma group_low v : v mod 256 = 0 -> group v 3 = 0.
Proof. unfold group. change (2 ^ (18 - 6 * 3)) with 1. Z.div_mod_to_equations. lia. Qed.

Lemma group_low2 v : v mod 65536 = 0 -> group v 2 = 0 /\ group v 3 = 0.
Proof.
  unfold group. change (2 ^ (18 - 6 * 3)) with 1. change (2 ^ (18 - 6 * 2)) with 64. Z.div_mod_to_equations. lia.
Qed.

Lemma list_ind3 {A} (P : list A -> Prop) :
  P [] -> (forall a, P [a]) -> (forall a b, P [a; b]) -> (forall a b c l, P l -> P (a :: b :: c :: l)) -> forall l, P l.
Proof.
  intros H0 H1 H2 H3 l. enough (P l /\ (forall a, P (a :: l)) /\ (forall a b, P (a :: b :: l))) by naive_solver.
  induction l as [|x l (IH1 & IH2 & IH3)]; naive_solver.
Qed.

Lemma decode_encode l : decodeQuanta (EncodeToString l) = Some l.
Proof.
  induction l as [|a|a b|a b c l IH] using list_ind3; [done|..]; cbn [EncodeToString decodeQuanta].
  - destruct (triple_0 a x00) as [_ <-]. destruct (triple_bytes a x00 x00) as (Hv & Ha & _).
    rewrite !dec6_sextet by lia. cbn [mbind option_bind].
    assert (Z.lor (Z.shiftl (group (triple a x00 x00) 0) 18) (Z.shiftl (group (triple a x00 x00) 1) 12) =
      triple a x00 x00) as ->; [|by rewrite Ha].
    etransitivity; [|exact (groups_value _ Hv)]. destruct (group_low2 (triple a x00 x00)) as [-> ->].
    { rewrite triple_value. change (Z_of_byte x00) with 0. Z.div_mod_to_equations. lia. }
    by rewrite Z.shiftl_0_l, !Z.lor_0_r.
  - destruct (triple_0 a b) as [<- _]. destruct (triple_bytes a b x00) as (Hv & Ha & Hb & _).
    rewrite !dec6_sextet by lia. cbn [mbind option_bind].
    assert (Z.lor (Z.lor (Z.shiftl (group (triple a b x00) 0) 18) (Z.shiftl (group (triple a b x00) 1) 12))
      (Z.shiftl (group (triple a b x00) 2) 6) = triple a b x00) as ->; [|by rewrite Ha, Hb].
    etransitivity; [|exact (groups_value _ Hv)]. rewrite (group_low (triple a b x00)), Z.lor_0_r; [done|].
    rewrite triple_value. change (Z_of_byte x00) with 0. Z.div_mod_to_equations. lia.
  - fold (triple a b c). destruct (triple_bytes a b c) as (Hv & Ha & Hb & Hc).
    rewrite !dec6_sextet by lia. cbn [mbind option_bind]. rewrite groups_value, IH by done. cbn [mbind option_bind].
    by rewrite Ha, Hb, Hc.
Qed.

(** ** Characters *)

Fixpoint all_chars (P : ascii -> bool) (s : string) : bool :=
  match s with EmptyString => true | String a s' => P a && all_chars P s' end.

Lemma encode_chars l : all_chars is_link_char (EncodeToString l) = true.
Proof.
  assert (forall v i, i <= 3 -> is_link_char (sextet v i) = true) as Hs.
  { intros v i Hi. destruct (sextet_group v i Hi) as [-> ?]. by apply enc6_char. }
  induction l as [|a|a b|a b c l IH] using list_ind3; [done|..]; cbn [EncodeToString all_chars];
    rewrite !Hs by lia; [done..|exact IH].
Qed.

Lemma skipLines_none s : all_chars is_link_char s = true -> skipLines s = s.
Proof.
  induction s as [|a s IH]; [done|]. cbn [all_chars skipLines]. intros [Ha Hs]%andb_true_iff. rewrite IH by done.
  rewrite decide_False; [done|]. intros Hx. unfold is_link_char in Ha. apply negb_true_iff, bool_decide_eq_false in Ha.
  apply Ha. destruct Hx as [-> | ->]; set_solver.
Qed.

Definition no_amp (s : string) : bool := all_chars (fun a => negb (bool_decide (a = "&"%char))) s.

Lemma link_chars_no_amp s : all_chars is_link_char s = true -> no_amp s = true.
Proof.
  unfold no_amp. induction s as [|a s IH]; [done|]. cbn [all_chars]. intros [Ha Hs]%andb_true_iff. rewrite IH by done.
  rewrite andb_true_r. apply negb_true_iff, bool_decide_eq_false. intros ->. done.
Qed.

Lemma split_no_amp s : no_amp s = true -> split "&" s = [s].
Proof.
  unfold no_amp. induction s as [|a s IH]; [done|]. cbn [all_chars split]. intros [Ha Hs]%andb_true_iff.
  apply negb_true_iff, bool_decide_eq_false in Ha. by rewrite decide_False, IH.
Qed.

Lemma split_amp s t : no_amp s = true -> split "&" (s +:+ String "&" t) = s :: split "&" t.
Proof.
  unfold no_amp. induction s as [|a s IH]; [done|]. cbn [all_chars]. intros [Ha Hs]%andb_true_iff.
  apply negb_true_iff, bool_decide_eq_false in Ha. change (String a s +:+ String "&" t) with (String a (s +:+ String "&" t)).
  cbn [split]. by rewrite decide_False, IH.
Qed.

Lemma string_app_assoc (a b c : string) : ((a +:+ b) +:+ c = a +:+ (b +:+ c))%string.
Proof.
  induction a as [|x a IH]; [done|]. change (String x ((a +:+ b) +:+ c) = String x (a +:+ (b +:+ c))). by rewrite IH.
Qed.

(** ** The pin *)

Lemma fold_diff (l : list (byte * byte)) : forall d, 0 <= d ->
  foldl (fun diff xy => Z.lor diff (Z.lxor (Z_of_byte xy.1) (Z_of_byte xy.2))) d l = 0 <->
  d = 0 /\ Forall (fun xy => xy.1 = xy.2) l.
Proof.
  induction l as [|[x y] l IH]; intros d Hd; simpl; [split; [by intros ->|by intros [-> _]]|].
  pose proof (Z_of_byte_range x). pose proof (Z_of_byte_range y).
  rewrite IH by (rewrite Z.lor_nonneg, Z.lxor_nonneg; lia). rewrite Z.lor_eq_0_iff, Z.lxor_eq_0_iff, Forall_cons. simpl.
  split; [intros [[-> E%Z_of_byte_inj] ?]; done|intros [-> [-> ?]]; done].
Qed.

Lemma subtleEqual_spec a b : subtleEqual a b = true <-> a = b.
Proof.
  unfold subtleEqual. destruct (Nat.eqb_spec (length a) (length b)) as [E|E]; simpl; [|split; [done|by intros ->]].
  rewrite Z.eqb_eq, fold_diff by done. split; [|intros ->; split; [done|]].
  - intros [_ Hf]. revert b E Hf. induction a as [|x a IH]; intros [|y b] E Hf; simpl in *; try done.
    apply Forall_cons in Hf as [Hx Hf]. simpl in Hx. subst y. f_equal. apply IH; [lia|done].
  - clear E. induction b as [|y b IH]; simpl; constructor; done.
Qed.

(** the certificate pin accepts a presented chain exactly when one of its
    certificates hashes to the pinned value: the byte-wise comparison that never
    stops early is equality. *)
Theorem pin_exact Sum256 want certs :
  checkPin Sum256 want certs = None <-> exists cert, cert ∈ certs /\ Sum256 cert = want.
Proof.
  unfold checkPin. destruct (existsb _ certs) eqn:E.
  - apply existsb_exists in E as (cert & Hin & He). apply subtleEqual_spec in He. split; [|done].
    intros _. exists cert. by rewrite list_elem_of_In.
  - split; [done|]. intros (cert & Hin & He). assert (existsb (fun cert => subtleEqual (Sum256 cert) want) certs = true); [|congruence].
    apply existsb_exists. exists cert. rewrite <- list_elem_of_In. split; [done|]. by apply subtleEqual_spec.
Qed.

Lemma link_parsed Parse host port slug derHash :
  Parse (ShareLink host port slug derHash) =
    Ok (mkURL (linkBase host port) (linkFragment slug (HashB64URL derHash))) ->
  slug <> ""%string -> no_amp slug = true ->
  parseURL Parse (ShareLink host port slug derHash) "" "" =
    Ok (mkURL (linkBase host port) "", slug, HashB64URL derHash).
Proof.
  intros Hp Hs Ha. pose proof (encode_chars derHash) as Hc. unfold parseURL. rewrite Hp. cbn [u_Fragment u_rest].
  assert (split "&" (linkFragment slug (HashB64URL derHash)) = ["slug=" +:+ slug; "hash=" +:+ HashB64URL derHash]%string) as E.
  { unfold linkFragment. change ("&hash=" +:+ HashB64URL derHash)%string with (String "&" ("hash=" +:+ HashB64URL derHash)).
    rewrite <- string_app_assoc, split_amp by done. by rewrite split_no_amp by (by apply (link_chars_no_amp _ Hc)). }
  rewrite decide_False by done. rewrite E. simpl. rewrite decide_False by done. done.
Qed.

Lemma link_pinned derHash : length derHash = 32%nat -> dialPin (HashB64URL derHash) = Ok derHash.
Proof.
  intros Hl. unfold dialPin, DecodeString, HashB64URL.
  rewrite (skipLines_none _ (encode_chars derHash)), decode_encode. by rewrite Hl.
Qed.

Lemma link_hash_nonempty derHash : length derHash = 32%nat -> HashB64URL derHash <> ""%string.
Proof. intros Hl E. pose proof (link_pinned derHash Hl) as H. rewrite E in H. discriminate H. Qed.

(** C33: a client that dials the server's share link connects to the server's
    address without the fragment, has TLS pin exactly the hash of the server's
    certificate, and sends the server's slug in its HELLO; for every slug
    without an ampersand and every 32-byte hash, when the URL parser returns
    the text before and after the hash sign. *)
Theorem share_link_roundtrip `{JSON Hello, JSON SDP} Parse connect host port slug derHash opts :
  Parse (ShareLink host port slug derHash) =
    Ok (mkURL (linkBase host port) (linkFragment slug (HashB64URL derHash))) ->
  slug <> ""%string -> no_amp slug = true -> length derHash = 32%nat ->
  o_Slug opts = ""%string -> o_CertHashB64URL opts = ""%string -> o_InsecureSkipVerify opts = false ->
  Dial Parse connect (ShareLink host port slug derHash) opts =
    match connect (mkURL (linkBase host port) "") (TrustPin derHash) (dialTimeout opts) with
    | Err e => Some (Err e)
    | Ok (ctl, out) =>
        res ← dialSession opts slug ctl out;
        Some (match res with (Some e, _) => Err e | (None, c) => Ok c end)
    end.
Proof.
  intros Hp Hs Ha Hl Ho1 Ho2 Ho3. unfold Dial. rewrite Ho1, Ho2, (link_parsed _ _ _ _ _ Hp Hs Ha).
  unfold dialTrust. rewrite Ho3, (link_pinned _ Hl). rewrite decide_False by (by apply link_hash_nonempty). done.
Qed.

Definition demo_hash : list byte := replicate 32 x7f.
Definition demo_parse (s : string) : result URL :=
  Ok (mkURL (linkBase "10.0.0.1" "4433") (linkFragment "s3cret=" (HashB64URL demo_hash))).

Definition demo_options : Options := mkOptions "" false "" 0 "" ∅ None 0.
Definition demo_connect (u : URL) (tr : trust) (timeout : Z) : result (reader * writer) :=
  Err (ErrMsg (u_rest u +:+ match tr with TrustPin want => EncodeToString want | _ => "" end)).
#[local] Instance demo_hello : JSON Hello := {| Marshal _ := Ok []; Unmarshal _ := Err EOF |}.
#[local] Instance demo_sdp : JSON SDP := {| Marshal _ := Ok []; Unmarshal _ := Err EOF |}.

Lemma share_link_roundtrip_witness :
  Dial demo_parse demo_connect (ShareLink "10.0.0.1" "4433" "s3cret=" demo_hash) demo_options =
    Some (Err (ErrMsg ("https://10.0.0.1:4433/wt" +:+ HashB64URL demo_hash))).
Proof.
  rewrite (@share_link_roundtrip demo_hello demo_sdp demo_parse demo_connect "10.0.0.1" "4433" "s3cret=" demo_hash
    demo_options); [|reflexivity|discriminate|reflexivity..].
  reflexivity.
Defined.
