(* ===== verification/ServerListen.v ===== *)
(** * The server as a process: New, ListenAndServe, Shutdown

    [server/server.go]: what [New] fixes, the address [ListenAndServe] binds, its
    HTTP handlers and its result, and the sessions that come and go while
    [Shutdown] drains, as steps of one relation.  Sockets, name resolution, the
    WebTransport server and the source of random bytes are parameters. *)

From S2P Require Import Prelude Wire Track Replay Pubsub PubsubCalls RateLimit Pump DataChannel Inbound SessionStore.
From S2P Require Import KindStats Session Server ServerSessions Client ClientRecv ClientSessions ServerRun ShareLink.

(** ** New *)

(** What a [Server] keeps besides its tracks and sessions. *)
Record server := mkServer {
  se_cfgAddr : string;
  se_addr : string;        (* empty until bound *)
  se_host : string;
  se_slug : string;
  se_derHash : list byte;  (* of the certificate bundle *)
  se_instanceID : string;
  se_maxSessions : Z;
}.

(** A configured text, or the encoding of 16 random bytes. *)
Definition orRandom (configured : string) (draw : result (list byte)) : result string :=
  if decide (configured = ""%string) then
    match draw with Err e => Err e | Ok raw => Ok (EncodeToString raw) end
  else Ok configured.

(** The identifier of a new session: [raw] is what [rand.Read] left in the array,
    [failed] whether it reported an error. *)
Definition AllocateID (raw : list byte) (failed : bool) (nanos : Z) : string :=
  EncodeToString (if failed then <[0%nat := byte_of_Z nanos]> raw else raw).

(** [bundle] is the hash of the configured certificate, [generated] what
    [cert.Generate] returns, [draw1] and [draw2] what [rand.Read] gives. *)
Definition New {W0} {JA : JSON Announce} (cfg : serverConfig (W0 := W0)) (bundle : option (list byte)) (generated : result (list byte))
    (draw1 draw2 : result (list byte)) (w : W0) : option (result (server * core W0)) :=
  let addr := if decide (svc_Addr cfg = ""%string) then ":4433"%string else svc_Addr cfg in
  match (match bundle with Some h => Ok h | None => generated end) with
  | Err e => Some (Err e)
  | Ok hash =>
      match orRandom (svc_Slug cfg) draw1 with
      | Err e => Some (Err e)
      | Ok slug =>
          match orRandom (svc_InstanceID cfg) draw2 with
          | Err e => Some (Err e)
          | Ok instanceID =>
              c ← newServer cfg w;
              Some (Ok (mkServer addr "" (externalHost cfg) slug hash instanceID (maxSessionsOf (svc_MaxSessions cfg)), c))
          end
      end
  end.

Definition Addr (s : server) : string := if decide (se_addr s = ""%string) then se_cfgAddr s else se_addr s.

(** [SplitHostPort] is the port that [net.SplitHostPort] finds. *)
Definition serverShareLink (SplitHostPort : string -> result string) (s : server) : string :=
  let addr := Addr s in
  let port := match SplitHostPort addr with Ok port => port | Err _ => addr end in
  ShareLink (se_host s) port (se_slug s) (se_derHash s).

(** ** ListenAndServe *)

Record UDPAddr := mkUDPAddr { ua_IP : option string; ua_Port : Z }.

Definition mustResolveUDP (resolve : string -> result UDPAddr) (addr : string) : UDPAddr :=
  match resolve addr with Err _ => mkUDPAddr None 0 | Ok u => u end.

(** How [Serve] of the WebTransport server ends. *)
Inductive serveEnd := ServeNil | ServeClosed | ServeError (e : error).

Definition serveResult (ctxDone : bool) (r : serveEnd) : option error :=
  match r with
  | ServeNil => None
  | ServeClosed => None
  | ServeError e => if ctxDone then None else Some e
  end.

(** [listen] gives the local address of the socket [net.ListenUDP] opens. *)
Definition ListenAndServe (resolve : string -> result UDPAddr) (listen : UDPAddr -> result string)
    (ctxDone : bool) (r : serveEnd) (s : server) : option error * server :=
  match listen (mustResolveUDP resolve (se_cfgAddr s)) with
  | Err e => (Some e, s)
  | Ok local => (serveResult ctxDone r,
                 mkServer (se_cfgAddr s) local (se_host s) (se_slug s) (se_derHash s) (se_instanceID s) (se_maxSessions s))
  end.

Definition evictionInterval {W0} (cfg : serverConfig (W0 := W0)) : Z :=
  if svc_EvictionInterval cfg <=? 0 then 30 * 1000000000 else svc_EvictionInterval cfg.

(** The eviction loop on the clock readings of its ticks. *)
Definition evictionLoop {W} (park_order : @map_order (list rref)) (ticks : list Z) (c : core W) : option (core W) :=
  foldl (fun oc now => c ← oc; evictTick park_order now c) (Some c) ticks.

(** The [/locate] handler: [None] is 404, otherwise the instance it answers. *)
Definition locate (lookup : option (string -> string -> option string)) (sessID tenant : string) : option string :=
  match lookup with
  | None => None
  | Some f => if decide (sessID = ""%string) then None else f tenant sessID
  end.

(** ** Sessions and Shutdown *)

(** A [/wt] request on its way: past the look at [draining], refused, allowed to
    upgrade, counted but not yet registered, registered; in the clean-up, past
    the look at the context, past the look at [draining] and about to park;
    cleaned up but still registered, gone but still counted, done. *)
Inductive phase :=
  | HAsked | HRefused | HUpgrading | HStarted | HRegistered | HResumable | HParking | HEnded | HGone | HDone.

Record handler := mkHandler {
  h_phase : phase;
  h_notified : bool; (* a close frame was sent to it *)
  h_parked : bool;   (* its receivers were parked at its end *)
}.

Definition counted (h : handler) : bool :=
  match h_phase h with HStarted | HRegistered | HResumable | HParking | HEnded | HGone => true | _ => false end.

(** A call of [Shutdown]: before the flag, before the snapshot, sending close
    frames to the sessions that remain of its snapshot, about to look at the
    count, waiting for the tick after a look that found sessions, about to close
    the listener after one that found none, returned. *)
Inductive shutdown :=
  | SDFlag
  | SDSnapshot
  | SDNotify (todo snap : list nat)
  | SDWait (snap : list nat)
  | SDSelect (snap : list nat)
  | SDClosing (snap : list nat)
  | SDReturned (snap : list nat) (err : option error).

Record process := mkProcess {
  l_draining : bool;
  l_current : Z;
  l_handlers : list handler;
  l_ctx : bool;       (* the context of [ListenAndServe] is done *)
  l_closed : bool;    (* the WebTransport server is closed *)
  l_shutdowns : list shutdown;
}.

Definition put_handler (i : nat) (h : handler) (n : Z) (s : process) : process :=
  mkProcess (l_draining s) (l_current s + n) (<[i := h]> (l_handlers s)) (l_ctx s) (l_closed s) (l_shutdowns s).

Definition put_shutdown (j : nat) (d : shutdown) (s : process) : process :=
  mkProcess (l_draining s) (l_current s) (l_handlers s) (l_ctx s) (l_closed s) (<[j := d]> (l_shutdowns s)).

Definition closeListener (s : process) : process :=
  mkProcess (l_draining s) (l_current s) (l_handlers s) (l_ctx s) true (l_shutdowns s).

(** The clean-up of [runSession] parks unless there is nothing to resume or the
    server stops; the flag is read after the context, and nothing locks the two
    reads and the parking together. *)
Definition resumable (sessionID : string) (s : process) : bool :=
  negb (bool_decide (sessionID = ""%string) || l_ctx s).
Definition parks (s : process) : bool := negb (l_draining s).

Definition registered (s : process) : list nat :=
  imap (fun i h => (i, h)) (l_handlers s) ≫= fun x =>
    match h_phase x.2 with HRegistered | HResumable | HParking | HEnded => [x.1] | _ => [] end.

Section Process.
Context (maxSessions : Z) (instanceAddr : string) (lookup : option (string -> string -> option string)).

Inductive lstep : process -> process -> Prop :=
  | l_ask s :
      l_draining s = false ->
      lstep s (mkProcess (l_draining s) (l_current s) (l_handlers s ++ [mkHandler HAsked false false]) (l_ctx s)
                 (l_closed s) (l_shutdowns s))
  | l_verdict s i h rq :
      l_handlers s !! i = Some h -> h_phase h = HAsked ->
      lstep s (put_handler i
        (mkHandler (match wtHandle maxSessions instanceAddr lookup rq (mkGate (l_current s) false) with
                    | WTUpgrade => HUpgrading | _ => HRefused end) (h_notified h) (h_parked h)) 0 s)
  | l_upgrade s i h :
      l_handlers s !! i = Some h -> h_phase h = HUpgrading ->
      lstep s (put_handler i (mkHandler HStarted (h_notified h) (h_parked h)) 1 s)
  | l_upgrade_failed s i h :
      l_handlers s !! i = Some h -> h_phase h = HUpgrading ->
      lstep s (put_handler i (mkHandler HRefused (h_notified h) (h_parked h)) 0 s)
  | l_no_control s i h :
      l_handlers s !! i = Some h -> h_phase h = HStarted ->
      lstep s (put_handler i (mkHandler HGone (h_notified h) (h_parked h)) 0 s)
  | l_register s i h :
      l_handlers s !! i = Some h -> h_phase h = HStarted ->
      lstep s (put_handler i (mkHandler HRegistered (h_notified h) (h_parked h)) 0 s)
  | l_end s i h sessionID :
      l_handlers s !! i = Some h -> h_phase h = HRegistered ->
      lstep s (put_handler i (mkHandler (if resumable sessionID s then HResumable else HEnded) (h_notified h) (h_parked h)) 0 s)
  | l_look s i h :
      l_handlers s !! i = Some h -> h_phase h = HResumable ->
      lstep s (put_handler i (mkHandler (if parks s then HParking else HEnded) (h_notified h) (h_parked h)) 0 s)
  | l_park s i h :
      l_handlers s !! i = Some h -> h_phase h = HParking ->
      lstep s (put_handler i (mkHandler HEnded (h_notified h) true) 0 s)
  | l_unregister s i h :
      l_handlers s !! i = Some h -> h_phase h = HEnded ->
      lstep s (put_handler i (mkHandler HGone (h_notified h) (h_parked h)) 0 s)
  | l_uncount s i h :
      l_handlers s !! i = Some h -> h_phase h = HGone ->
      lstep s (put_handler i (mkHandler HDone (h_notified h) (h_parked h)) (-1) s)
  | l_cancel s :
      lstep s (mkProcess (l_draining s) (l_current s) (l_handlers s) true (l_closed s) (l_shutdowns s))
  | l_stop s : l_ctx s = true -> lstep s (closeListener s)
  | l_call s :
      lstep s (mkProcess (l_draining s) (l_current s) (l_handlers s) (l_ctx s) (l_closed s) (l_shutdowns s ++ [SDFlag]))
  | l_flag s j :
      l_shutdowns s !! j = Some SDFlag ->
      lstep s (put_shutdown j SDSnapshot
        (mkProcess true (l_current s) (l_handlers s) (l_ctx s) (l_closed s) (l_shutdowns s)))
  | l_snapshot s j refs :
      l_shutdowns s !! j = Some SDSnapshot -> refs ≡ₚ registered s ->
      lstep s (put_shutdown j (SDNotify refs refs) s)
  | l_notify s j i h todo snap :
      l_shutdowns s !! j = Some (SDNotify (i :: todo) snap) -> l_handlers s !! i = Some h ->
      lstep s (put_shutdown j (SDNotify todo snap) (put_handler i (mkHandler (h_phase h) true (h_parked h)) 0 s))
  | l_notified s j snap :
      l_shutdowns s !! j = Some (SDNotify [] snap) -> lstep s (put_shutdown j (SDWait snap) s)
  | l_drained s j snap :
      l_shutdowns s !! j = Some (SDWait snap) -> l_current s = 0 -> lstep s (put_shutdown j (SDClosing snap) s)
  | l_busy s j snap :
      l_shutdowns s !! j = Some (SDWait snap) -> l_current s <> 0 -> lstep s (put_shutdown j (SDSelect snap) s)
  | l_tick s j snap :
      l_shutdowns s !! j = Some (SDSelect snap) -> lstep s (put_shutdown j (SDWait snap) s)
  | l_expired s j snap err :
      l_shutdowns s !! j = Some (SDSelect snap) ->
      lstep s (put_shutdown j (SDReturned snap (Some err)) (closeListener s))
  | l_close s j snap :
      l_shutdowns s !! j = Some (SDClosing snap) ->
      lstep s (put_shutdown j (SDReturned snap None) (closeListener s)).

Definition newProcess : process := mkProcess false 0 [] false false [].
Definition lreach : process -> Prop := rtc lstep newProcess.
End Process.

(** * Properties of the process *)

Definition countOf (l : list handler) : Z := Z.of_nat (length (filter (fun h => counted h = true) l)).
Definition weight (h : handler) : Z := if counted h then 1 else 0.

Lemma countOf_app l k : countOf (l ++ k) = countOf l + countOf k.
Proof. unfold countOf. rewrite filter_app, length_app. lia. Qed.

Lemma countOf_cons h l : countOf (h :: l) = weight h + countOf l.
Proof.
  unfold countOf, weight. rewrite filter_cons.
  destruct (counted h) eqn:E; [rewrite decide_True by done; simpl; lia|by rewrite decide_False].
Qed.

Lemma countOf_insert l i h h' : l !! i = Some h -> countOf (<[i := h']> l) = countOf l + (weight h' - weight h).
Proof.
  intros Hi. rewrite insert_take_drop by (by eapply lookup_lt_Some).
  rewrite <- (take_drop_middle l i h Hi) at 3. rewrite !countOf_app, !countOf_cons. lia.
Qed.

Definition sd_snap (d : shutdown) : list nat :=
  match d with SDNotify _ snap | SDWait snap | SDSelect snap | SDClosing snap | SDReturned snap _ => snap | _ => [] end.
Definition sd_todo (d : shutdown) : list nat := match d with SDNotify todo _ => todo | _ => [] end.

(** The session at [i] was sent a close frame. *)
Definition told (l : list handler) (i : nat) : Prop := exists h, l !! i = Some h /\ h_notified h = true.

Record process_ok (s : process) : Prop := {
  po_count : l_current s = countOf (l_handlers s);
  po_drain : forall j d, l_shutdowns s !! j = Some d -> d = SDFlag \/ l_draining s = true;
  po_told : forall j d i, l_shutdowns s !! j = Some d -> i ∈ sd_snap d -> i ∉ sd_todo d -> told (l_handlers s) i;
}.

Lemma told_insert l i h h' k :
  l !! i = Some h -> (h_notified h = true -> h_notified h' = true) -> told l k -> told (<[i := h']> l) k.
Proof.
  intros Hi Hn (h0 & Hk & Ht). destruct (decide (i = k)) as [<- | Hne].
  - rewrite Hi in Hk. injection Hk as <-. exists h'. split; [|auto].
    apply list_lookup_insert_eq. by eapply lookup_lt_Some.
  - exists h0. by rewrite list_lookup_insert_ne.
Qed.

Lemma put_handler_ok s i h h' n :
  process_ok s -> l_handlers s !! i = Some h -> (h_notified h = true -> h_notified h' = true) ->
  n = weight h' - weight h -> process_ok (put_handler i h' n s).
Proof.
  intros [Hc Hd Ht] Hi Hn ->. split; cbn.
  - by rewrite (countOf_insert _ _ h), Hc.
  - exact Hd.
  - intros j d k Hj Hk Hnk. eapply told_insert; eauto.
Qed.

Lemma put_shutdown_ok s j d d' :
  process_ok s -> l_shutdowns s !! j = Some d -> l_draining s = true ->
  (forall i, i ∈ sd_snap d' -> i ∉ sd_todo d' -> told (l_handlers s) i) -> process_ok (put_shutdown j d' s).
Proof.
  intros [Hc Hd Ht] Hj Hdr Hn. split; cbn; [done|by right|].
  intros j' d0 i Hj' Hi Hni. destruct (decide (j = j')) as [<- | Hne].
  - rewrite list_lookup_insert_eq in Hj' by (by eapply lookup_lt_Some). injection Hj' as <-. auto.
  - rewrite list_lookup_insert_ne in Hj' by done. eauto.
Qed.

Section ProcessProofs.
Context (maxSessions : Z) (instanceAddr : string) (lookup : option (string -> string -> option string)).

Lemma closeListener_ok s : process_ok s -> process_ok (closeListener s).
Proof. by intros [Hc Hd Ht]. Qed.

(** A call of [Shutdown] that has notified everyone goes on. *)
Lemma shutdown_advance_ok s j d d' :
  process_ok s -> l_shutdowns s !! j = Some d -> d <> SDFlag -> sd_todo d = [] -> sd_snap d' = sd_snap d ->
  process_ok (put_shutdown j d' s).
Proof.
  intros Hok Hj Hf Ht Hs. pose proof Hok as [_ Hd Hk]. eapply put_shutdown_ok; [done|exact Hj|by destruct (Hd j _ Hj)|].
  intros i Hi _. rewrite Hs in Hi. eapply (Hk j _ i Hj); [done|]. rewrite Ht. set_solver.
Qed.

Lemma lstep_ok s s' : process_ok s -> lstep maxSessions instanceAddr lookup s s' -> process_ok s'.
Proof.
  intros Hok Hst. pose proof Hok as [Hc Hd Ht].
  destruct Hst as [s Hdr|s i h rq Hi Hp|s i h Hi Hp|s i h Hi Hp|s i h Hi Hp|s i h Hi Hp|s i h sid Hi Hp|s i h Hi Hp|s i h Hi Hp
    |s i h Hi Hp|s i h Hi Hp|s|s Hx|s|s j Hj|s j refs Hj Hr|s j i h todo snap Hj Hi|s j snap Hj|s j snap Hj Hz|s j snap Hj Hz
    |s j snap Hj|s j snap err Hj|s j snap Hj].
  3-11: by eapply put_handler_ok; [done|exact Hi|done|unfold weight, counted; rewrite Hp; try destruct (resumable sid s); try destruct (parks s)].
  - split; cbn; [rewrite countOf_app; unfold countOf at 2; simpl; lia|exact Hd|].
    intros j d i Hj Hi Hn. destruct (Ht j d i Hj Hi Hn) as (h & Hh & E). exists h. by rewrite lookup_app_l_Some with (x := h).
  - eapply put_handler_ok; [done|exact Hi|done|]. unfold weight, counted. rewrite Hp. by destruct (wtHandle _ _ _ _ _).
  - done.
  - by apply closeListener_ok.
  - split; cbn; [done| |].
    + intros j d Hj. apply lookup_snoc_Some in Hj as [[_ Hj] | [_ <-]]; [by eapply Hd|by left].
    + intros j d i Hj Hi Hn. apply lookup_snoc_Some in Hj as [[_ Hj] | [_ <-]]; [by eapply Ht|set_solver].
  - apply (put_shutdown_ok (mkProcess true (l_current s) (l_handlers s) (l_ctx s) (l_closed s) (l_shutdowns s)) j SDFlag);
      [|done|done|set_solver]. split; cbn; [done|by right|exact Ht].
  - eapply put_shutdown_ok; [done|exact Hj| |set_solver]. by destruct (Hd j _ Hj).
  - eapply put_shutdown_ok; [by eapply put_handler_ok; [done|exact Hi|done|unfold weight, counted; cbn; destruct (h_phase h); lia]|exact Hj| |].
    + by destruct (Hd j _ Hj).
    + cbn. intros k Hk Hnk. destruct (decide (k = i)) as [-> | Hne].
      * eexists. split; [apply list_lookup_insert_eq; by eapply lookup_lt_Some|done].
      * eapply told_insert; [exact Hi|done|]. eapply (Ht j _ k Hj); [done|]. cbn. set_solver.
  - by eapply shutdown_advance_ok.
  - by eapply shutdown_advance_ok.
  - by eapply shutdown_advance_ok.
  - by eapply shutdown_advance_ok.
  - by eapply shutdown_advance_ok; [apply closeListener_ok|..].
  - by eapply shutdown_advance_ok; [apply closeListener_ok|..].
Qed.

Lemma lreach_ok s : lreach maxSessions instanceAddr lookup s -> process_ok s.
Proof.
  intros Hr. unfold lreach in Hr. remember newProcess as s0 eqn:E.
  assert (process_ok s0) as H0 by (subst; split; cbn; [done|by intros []|by intros []]). clear E.
  induction Hr as [|s0 s1 s2 Hst _ IH]; [done|]. apply IH. by eapply lstep_ok.
Qed.
End ProcessProofs.

Lemma link_chars_nul_free s : all_chars is_link_char s = true -> nul_free s = true.
Proof.
  induction s as [|a s IH]; [done|]. cbn [all_chars nul_free]. intros [Ha Hs]%andb_true_iff. rewrite IH by done.
  rewrite andb_true_r. apply negb_true_iff, Ascii.eqb_neq. intros ->. by vm_compute in Ha.
Qed.

(** sessions of one server are told apart: the keys under which two sessions with
    allocated identifiers are parked are equal only when the tenants and the
    random bytes are, whatever bytes the names of the tenants have. *)
Theorem allocated_ids_tell_apart t1 t2 raw1 raw2 f1 f2 n1 n2 :
  scopedKey t1 (AllocateID raw1 f1 n1) = scopedKey t2 (AllocateID raw2 f2 n2) ->
  t1 = t2 /\ (if f1 then <[0%nat := byte_of_Z n1]> raw1 else raw1) = (if f2 then <[0%nat := byte_of_Z n2]> raw2 else raw2).
Proof.
  intros [-> E]%scopedKey_inj_id; [|apply link_chars_nul_free, encode_chars..]. split; [done|].
  apply (f_equal decodeQuanta) in E. unfold AllocateID in E. rewrite !decode_encode in E. by injection E.
Qed.

(** Whether a session may still be parked, or was. *)
Definition parking (h : handler) : bool :=
  h_parked h || match h_phase h with HParking => true | _ => false end.

(** Once the flag is set, a step lets no request past it and no session that has
    not looked at it yet get to park. *)
Lemma lstep_draining maxSessions instanceAddr lookup s s' :
  lstep maxSessions instanceAddr lookup s s' -> l_draining s = true ->
  l_draining s' = true /\ length (l_handlers s') = length (l_handlers s) /\
  forall i h h', l_handlers s !! i = Some h -> l_handlers s' !! i = Some h' -> parking h = false -> parking h' = false.
Proof.
  intros Hst Hdr. assert (forall i h', (forall h, l_handlers s !! i = Some h -> parking h = false -> parking h' = false) ->
    length (<[i := h']> (l_handlers s)) = length (l_handlers s) /\
    forall k h h2, l_handlers s !! k = Some h -> <[i := h']> (l_handlers s) !! k = Some h2 -> parking h = false -> parking h2 = false) as Hput.
  { intros i h' Hp. rewrite length_insert. split; [done|]. intros k h h2 Hk Hk2. destruct (decide (i = k)) as [<- | Hne].
    - rewrite list_lookup_insert_eq in Hk2 by (by eapply lookup_lt_Some). injection Hk2 as <-. eauto.
    - rewrite list_lookup_insert_ne in Hk2 by done. congruence. }
  destruct Hst; cbn; try congruence; (split; [done|]);
    try (split; [done|intros i0 h0 h0' E1 E2; rewrite E1 in E2; by injection E2 as <-]);
    apply Hput; unfold parking, parks in *; cbn; intros h0 E0; assert (h0 = h) as -> by congruence;
    rewrite ?Hdr; try (destruct (wtHandle _ _ _ _ _)); try (destruct (resumable _ _)); destruct (h_parked h); cbn;
    try match goal with Hp : h_phase _ = _ |- _ => rewrite Hp end; first [done | by repeat case_match].
Qed.

Lemma lsteps_draining maxSessions instanceAddr lookup s s' i h h' :
  rtc (lstep maxSessions instanceAddr lookup) s s' -> l_draining s = true ->
  l_handlers s !! i = Some h -> parking h = false -> l_handlers s' !! i = Some h' -> parking h' = false.
Proof.
  intros Hr. revert h. induction Hr as [|s s1 s2 Hst _ IH]; intros h Hdr Hi Hp Hi'; [congruence|].
  destruct (lstep_draining _ _ _ _ _ Hst Hdr) as (Hdr1 & Hl & Hk).
  destruct (lookup_lt_is_Some_2 (l_handlers s1) i) as [h1 Hi1]; [rewrite Hl; by eapply lookup_lt_Some|].
  eapply (IH h1); eauto.
Qed.

(** How a call of [Shutdown] changes in a step. *)
Lemma shutdown_step maxSessions instanceAddr lookup s s' j d :
  lstep maxSessions instanceAddr lookup s s' -> l_shutdowns s !! j <> Some d -> l_shutdowns s' !! j = Some d ->
  match d with
  | SDClosing snap => l_current s = 0
  | SDReturned snap None => l_shutdowns s !! j = Some (SDClosing snap) /\ l_closed s' = true
  | _ => True
  end.
Proof.
  intros Hst Hj Hj'. destruct Hst; cbn in Hj'; try congruence;
    try (apply lookup_snoc_Some in Hj' as [[_ Hj'] | [_ <-]]; [congruence|done]);
    (destruct (decide (j0 = j)) as [<- | Hne];
      [rewrite list_lookup_insert_eq in Hj' by (by eapply lookup_lt_Some)|rewrite list_lookup_insert_ne in Hj' by done]);
    try congruence; by simplify_eq.
Qed.

Lemma countOf_none l : 0 = countOf l -> Forall (fun h => counted h = false) l.
Proof.
  intros Hz. unfold countOf in Hz. apply Forall_forall. intros h Hh. destruct (counted h) eqn:E; [|done].
  assert (h ∈ filter (fun h => counted h = true) l) as Hin by (by apply list_elem_of_filter).
  destruct (filter _ l); [by apply not_elem_of_nil in Hin|simpl in Hz; lia].
Qed.

(** C27: draining.  However requests, sessions, a cancelled context and any number of
    [Shutdown] calls interleave: the session count is the number of sessions
    between their upgrade and their end; once the draining flag is set no
    further request gets past it, and a session whose clean-up had not yet found
    it unset is never parked from then on; a [Shutdown] that is past its close
    frames has sent one to every session that was registered when it looked; and
    it goes on to return nil only from a moment when no session is counted, with
    the listener closed. *)
Theorem shutdown_drains maxSessions instanceAddr lookup s :
  lreach maxSessions instanceAddr lookup s ->
  l_current s = countOf (l_handlers s) /\
  (l_draining s = true -> forall s', rtc (lstep maxSessions instanceAddr lookup) s s' ->
     l_draining s' = true /\ length (l_handlers s') = length (l_handlers s) /\
     forall i h h', l_handlers s !! i = Some h -> parking h = false -> l_handlers s' !! i = Some h' -> h_parked h' = false) /\
  (forall j d, l_shutdowns s !! j = Some d -> d <> SDFlag -> l_draining s = true /\
     (sd_todo d = [] -> Forall (told (l_handlers s)) (sd_snap d))) /\
  (forall j snap s', lstep maxSessions instanceAddr lookup s s' ->
     l_shutdowns s !! j <> Some (SDClosing snap) -> l_shutdowns s' !! j = Some (SDClosing snap) ->
     Forall (fun h => counted h = false) (l_handlers s)) /\
  (forall j snap s', lstep maxSessions instanceAddr lookup s s' ->
     l_shutdowns s !! j <> Some (SDReturned snap None) -> l_shutdowns s' !! j = Some (SDReturned snap None) ->
     l_shutdowns s !! j = Some (SDClosing snap) /\ l_closed s' = true).
Proof.
  intros Hr. pose proof (lreach_ok _ _ _ s Hr) as [Hc Hd Ht]. split_and!; [done| | | |].
  - intros Hdr s' Hs. split_and!.
    + clear -Hdr Hs. induction Hs as [|s s1 s2 Hst _ IH]; [done|]. apply IH. by eapply lstep_draining.
    + clear -Hdr Hs. induction Hs as [|s s1 s2 Hst _ IH]; [done|].
      destruct (lstep_draining _ _ _ _ _ Hst Hdr) as (Hdr1 & <- & _). by apply IH.
    + intros i h h' Hi Hp Hi'. pose proof (lsteps_draining _ _ _ _ _ _ _ _ Hs Hdr Hi Hp Hi') as Hp'.
      unfold parking in Hp'. by destruct (h_parked h').
  - intros j d Hj Hn. split; [by destruct (Hd j d Hj)|]. intros Et. apply Forall_forall. intros i Hi.
    eapply Ht; [exact Hj|done|]. rewrite Et. set_solver.
  - intros j snap s' Hst Hj Hj'. pose proof (shutdown_step _ _ _ _ _ _ _ Hst Hj Hj') as Hz. cbn in Hz. rewrite Hz in Hc. by apply countOf_none.
  - intros j snap s' Hst Hj Hj'. by apply (shutdown_step _ _ _ _ _ _ _ Hst Hj Hj').
Qed.

(** a session that is being set up while [Shutdown] looks at the registered
    sessions is never told: it has been counted but not registered yet, so
    [Shutdown] then waits for it without having sent it the close frame, until
    the deadline of its context or until the peer leaves by itself. *)
Theorem shutdown_misses_starting_session maxSessions instanceAddr lookup :
  0 < maxSessions ->
  exists s, lreach maxSessions instanceAddr lookup s /\ l_shutdowns s = [SDWait []] /\ l_current s = 1 /\
    l_handlers s = [mkHandler HRegistered false false] /\
    forall err, rtc (lstep maxSessions instanceAddr lookup) s
      (mkProcess true 1 [mkHandler HRegistered false false] false true [SDReturned [] (Some err)]).
Proof.
  intros Hmax. exists (mkProcess true 1 [mkHandler HRegistered false false] false false [SDWait []]).
  split_and!; [|done|done|done|].
  2:{ intros err.
      eapply rtc_l; [by apply (l_busy _ _ _ (mkProcess true 1 [mkHandler HRegistered false false] false false [SDWait []]) 0 [])|]. cbn.
      eapply rtc_l; [by apply (l_expired _ _ _ _ 0 [] err)|]. cbn. apply rtc_refl. }
  assert (wtHandle maxSessions instanceAddr lookup (mkWtRequest "" "" "" "") (mkGate 0 false) = WTUpgrade) as Hv.
  { unfold wtHandle. cbn. destruct (0 >=? maxSessions) eqn:E; [lia|]. by case_decide as H; [destruct H|]. }
  unfold lreach. eapply rtc_l; [by apply l_ask|]. cbn [l_draining l_current l_handlers l_ctx l_closed l_shutdowns newProcess app].
  pose proof (l_verdict maxSessions instanceAddr lookup (mkProcess false 0 [mkHandler HAsked false false] false false []) 0
    (mkHandler HAsked false false) (mkWtRequest "" "" "" "") eq_refl eq_refl) as Hstep.
  cbn [l_current] in Hstep. rewrite Hv in Hstep. eapply rtc_l; [exact Hstep|]. clear Hstep Hv. cbn.
  eapply rtc_l; [eapply (l_upgrade _ _ _ _ 0); by cbn|]. cbn.
  eapply rtc_l; [by apply l_call|]. cbn.
  eapply rtc_l; [by apply (l_flag _ _ _ _ 0)|]. cbn.
  eapply rtc_l; [by apply (l_snapshot _ _ _ _ 0 [])|]. cbn.
  eapply rtc_l; [eapply (l_register _ _ _ _ 0); by cbn|]. cbn.
  eapply rtc_l; [by eapply (l_notified _ _ _ _ 0 [])|]. cbn. apply rtc_refl.
Qed.

(** an address that does not resolve is not refused: the server asks for the
    zero address, and since [net.ListenUDP] takes that as any free port on every
    interface it serves there without an error, where the comment of
    [mustResolveUDP] counts on the zero address being rejected. *)
Theorem bad_address_is_served resolve listen e local r s :
  resolve (se_cfgAddr s) = Err e -> listen (mkUDPAddr None 0) = Ok local ->
  let '(err, s') := ListenAndServe resolve listen true r s in
  err = None /\ se_addr s' = local.
Proof. intros Hr Hl. unfold ListenAndServe, mustResolveUDP. rewrite Hr, Hl. by destruct r. Qed.

(** the eviction loop never panics and, after a tick, holds no parked session
    whose window was over; the receivers of these sessions are unsubscribed, and
    only those. *)
Theorem eviction_releases_expired {W} n own park_order now (c : core W) ticks c0 :
  is_order park_order -> core_ok n own c0 -> evictionLoop park_order ticks c0 = Some c ->
  exists c', evictionLoop park_order (ticks ++ [now]) c0 = Some c' /\
    (forall k e, byID (sv_parked c') !! k = Some e <-> byID (sv_parked c) !! k = Some e /\ now <= ps_expiresAt e) /\
    (forall b a, a ∈ receivers c' b <-> a ∈ receivers c b /\
       ~ exists k e, byID (sv_parked c) !! k = Some e /\ ps_expiresAt e < now /\ (b, a) ∈ ps_onEvict e).
Proof.
  intros Hord Hok0 E. assert (core_ok n own c) as Hok.
  { revert c0 Hok0 E. unfold evictionLoop. induction ticks as [|t ticks IH]; intros c0 Hok0; cbn [foldl]; [by intros [= <-]|].
    cbn [mbind option_bind]. destruct (evictTick_ok park_order Hord n own c0 t Hok0) as (c1 & -> & Hok1 & _). by apply IH. }
  destruct (evictTick_ok park_order Hord n own c now Hok) as (c' & Et & _ & _ & Hp & Hr).
  exists c'. split_and!.
  - unfold evictionLoop in *. rewrite foldl_app. cbn [foldl]. rewrite E. exact Et.
  - intros k e. rewrite Hp, map_lookup_filter_Some. unfold expired. cbn. split; intros [H1 H2]; (split; [done|lia]).
  - exact Hr.
Qed.

Module ListenDemo.
(** A session is sent the close frame, leaves, and the drain ends. *)
Definition gone : process := mkProcess true 0 [mkHandler HDone true false] false false [SDWait [0%nat]].
Definition drained : process := mkProcess true 0 [mkHandler HDone true false] false false [SDClosing [0%nat]].

Lemma gone_reached : lreach 16 "" None gone.
Proof.
  unfold lreach.
  eapply rtc_l; [by apply l_ask|]. cbn.
  eapply rtc_l; [eapply (l_verdict _ _ _ _ 0 _ (mkWtRequest "" "" "" "")); by cbn|]. vm_compute.
  eapply rtc_l; [eapply (l_upgrade _ _ _ _ 0); by cbn|]. cbn.
  eapply rtc_l; [eapply (l_register _ _ _ _ 0); by cbn|]. cbn.
  eapply rtc_l; [by apply l_call|]. cbn.
  eapply rtc_l; [by apply (l_flag _ _ _ _ 0)|]. cbn.
  eapply rtc_l; [by apply (l_snapshot _ _ _ _ 0 [0%nat])|]. cbn.
  eapply rtc_l; [by eapply (l_notify _ _ _ _ 0 0 _ [] [0%nat])|]. cbn.
  eapply rtc_l; [by eapply (l_notified _ _ _ _ 0 [0%nat])|]. cbn.
  eapply rtc_l; [eapply (l_end _ _ _ _ 0 _ "sid"); by cbn|]. vm_compute.
  eapply rtc_l; [eapply (l_look _ _ _ _ 0); by cbn|]. vm_compute.
  eapply rtc_l; [eapply (l_unregister _ _ _ _ 0); by cbn|]. cbn.
  eapply rtc_l; [eapply (l_uncount _ _ _ _ 0); by cbn|]. cbn. apply rtc_refl.
Qed.

Lemma gone_drains : lstep 16 "" None gone drained.
Proof. exact (l_drained 16 "" None gone 0 [0%nat] eq_refl eq_refl). Qed.

Lemma shutdown_drains_witness :
  Forall (told (l_handlers gone)) [0%nat] /\ Forall (fun h => counted h = false) (l_handlers gone) /\ l_draining drained = true.
Proof.
  destruct (shutdown_drains 16 "" None gone gone_reached) as (_ & H2 & H3 & H4 & _).
  split; [apply (H3 0%nat (SDWait [0%nat])); done|]. split.
  - apply (H4 0%nat [0%nat] drained gone_drains); [discriminate|reflexivity].
  - apply (H2 eq_refl drained (rtc_once _ _ gone_drains)).
Defined.

(** The flag is read without a lock: a session that has found it unset parks after
    [Shutdown] has set it, which the comment of the clean-up wants to avoid. *)
Lemma session_parks_while_draining :
  exists s, lreach 16 "" None s /\ l_draining s = true /\ l_handlers s = [mkHandler HParking false false] /\
    exists s', lstep 16 "" None s s' /\ l_handlers s' = [mkHandler HEnded false true].
Proof.
  exists (mkProcess true 1 [mkHandler HParking false false] false false [SDSnapshot]). split_and!; [|done|done|].
  - unfold lreach. eapply rtc_l; [by apply l_ask|]. cbn.
    eapply rtc_l; [eapply (l_verdict _ _ _ _ 0 _ (mkWtRequest "" "" "" "")); by cbn|]. vm_compute.
    eapply rtc_l; [eapply (l_upgrade _ _ _ _ 0); by cbn|]. cbn.
    eapply rtc_l; [eapply (l_register _ _ _ _ 0); by cbn|]. cbn.
    eapply rtc_l; [eapply (l_end _ _ _ _ 0 _ "sid"); by cbn|]. vm_compute.
    eapply rtc_l; [eapply (l_look _ _ _ _ 0); by cbn|]. vm_compute.
    eapply rtc_l; [by apply l_call|]. cbn.
    eapply rtc_l; [by apply (l_flag _ _ _ _ 0)|]. cbn. apply rtc_refl.
  - eexists. split; [by eapply (l_park _ _ _ _ 0)|done].
Qed.

Lemma shutdown_misses_starting_session_witness :
  exists s, lreach 16 "" None s /\ l_shutdowns s = [SDWait []] /\ l_current s = 1.
Proof.
  destruct (shutdown_misses_starting_session 16 "" None ltac:(lia)) as (s & H1 & H2 & H3 & _).
  exists s. split; [exact H1|]. split; [exact H2|exact H3].
Defined.

Lemma bad_address_is_served_witness :
  (ListenAndServe (fun _ => Err EOF) (fun _ => Ok "[::]:40000"%string) true ServeClosed
     (mkServer "localhost:http3" "" "" "" [] "" 16)).1 = None.
Proof.
  apply (bad_address_is_served (fun _ => Err EOF) (fun _ => Ok "[::]:40000"%string) EOF "[::]:40000" ServeClosed
    (mkServer "localhost:http3" "" "" "" [] "" 16) eq_refl eq_refl).
Defined.
End ListenDemo.
