(* ===== verification/Relay.v ===== *)
(** * Package relay

    [relay/relay.go]: the reconnect loop of one upstream, and the pumps that
    forward the upstreams' tracks into the downstream server ([Server.v]).  The
    upstream connection is an interface, implemented by the client of
    [Client.v].  [None] is a panic. *)

From S2P Require Import Prelude Wire Track Replay Pubsub PubsubCalls RateLimit Pump DataChannel Inbound SessionStore.
From S2P Require Import KindStats Session Server ServerSessions Client ClientRecv.

(** ** Configuration *)

Record relayConfig := mkRelayConfig {
  rc_Upstreams : list string;
  rc_ReconnectInterval : Z;
  rc_MaxReconnectAttempts : Z;
  rc_MaxTracksPerUpstream : Z;
}.

Definition errNoUpstream : error := ErrMsg "relay: at least one upstream URL required".

(** The checks and defaults of [New]. *)
Definition newConfig (cfg : relayConfig) : result relayConfig :=
  if (length (rc_Upstreams cfg) =? 0)%nat then Err errNoUpstream
  else Ok (mkRelayConfig (rc_Upstreams cfg)
    (if rc_ReconnectInterval cfg <=? 0 then 1000000000 else rc_ReconnectInterval cfg)
    (if rc_MaxReconnectAttempts cfg =? 0 then 5 else rc_MaxReconnectAttempts cfg)
    (if rc_MaxTracksPerUpstream cfg =? 0 then 256 else rc_MaxTracksPerUpstream cfg)).

(** ** Reconnecting *)

(** What one round of [runUpstream] meets: a dial that fails, or a session with
    its identifier that ends (by itself, or by a shutdown) after [age]
    nanoseconds with a cursor. *)
Inductive attempt :=
  | AFail (err : error)
  | ASession (sessionID : string) (died : bool) (age : Z) (lastSeen : gmap string Z).

(** A round, and whether the sleep after it runs to its end. *)
Definition round : Type := attempt * bool.

Inductive upstreamResult := UWaiting | UStopped | UFailed (err : error).

(** The resume options of a dial. *)
Definition dialOpts : Type := string * gmap string Z.

Definition resumeOpts (sessionID : string) (lastSeen : gmap string Z) : dialOpts :=
  if decide (sessionID = ""%string) then (""%string, ∅) else (sessionID, lastSeen).

(** [runUpstream] on the rounds of a script, with the options of every dial; the
    options configured by the caller carry no session. *)
Fixpoint runUpstream (cfg : relayConfig) (script : list round) (sessionID : string) (lastSeen : gmap string Z)
    (attempts : Z) : list dialOpts * upstreamResult :=
  match script with
  | [] => ([], UWaiting)
  | (a, slept) :: script' =>
      let opts := resumeOpts sessionID lastSeen in
      match a with
      | AFail err =>
          let attempts := attempts + 1 in
          if (rc_MaxReconnectAttempts cfg >=? 0) && (attempts >? rc_MaxReconnectAttempts cfg)
          then ([opts], UFailed err)
          else if negb slept then ([opts], UStopped)
          else let '(l, r) := runUpstream cfg script' sessionID lastSeen attempts in (opts :: l, r)
      | ASession sid died age seen =>
          let attempts := 0 in
          if negb died then ([opts], UStopped)
          else
            let attempts := if age >? 10 * rc_ReconnectInterval cfg then 0 else attempts in
            if negb slept then ([opts], UStopped)
            else let '(l, r) := runUpstream cfg script' sid seen attempts in (opts :: l, r)
      end
  end.

(** ** Forwarding *)

(** What the relay uses of an upstream connection. *)
Class Upstream (C : Type) := {
  up_RemoteTracks : C -> gset string;
  up_RecvOn : C -> string -> result AccessUnit -> C -> Prop;
}.

(** [RecvOn] of the client, as one step, with any state of the pump's context. *)
#[export] Instance client_upstream : Upstream Client := {|
  up_RemoteTracks c := RemoteTracks (c_feed c);
  up_RecvOn c name res c' :=
    exists ctxErr a d c1 r, recvBegin name c = (a, d, c1) /\ recvSelect ctxErr name a d c1 r c' /\ res = recvResult r;
|}.

(** The unit a pump publishes for a unit it has received. *)
Definition forwarded (au : AccessUnit) : AccessUnit :=
  mkAU (au_Bytes au) (au_Keyframe au) (au_PTSMicro au) (au_Seq au) (au_Discontinuity au) (au_PubWallMicro au) ∅ 0 0.

(** A pump goroutine with the broadcaster it publishes to. *)
Inductive rpump :=
  | PRecv (name : string) (pub : nat)
  | PForward (name : string) (pub : nat) (au : AccessUnit)
  | PExit.

Section Relay.
Context {W W' C : Type} {JA : JSON Announce} {JU : JSON Unannounce} `{Upstream C}.
Context (cfg : relayConfig).
Context (base : Config) (buffer : Z). (* the downstream server's settings *)

(** One run of [sessionLoop]; [se_starting] is the track between the two
    critical sections of [startPump]. *)
Record rsession := mkRSession {
  se_url : string;
  se_conn : C;
  se_pumped : gset string;
  se_starting : option string;
  se_pumps : list rpump;
}.

Record relay := mkRelay {
  rl_trackOwner : gmap string string;
  rl_pubs : gmap string nat;
  rl_core : core W;
  rl_sessions : list rsession;
  rl_log : list (string * string * nat * AccessUnit); (* ghost: track, upstream, broadcaster, unit published *)
  rl_hist : gmap (nat * nat) (list AccessUnit * list (nat * AccessUnit)); (* ghost: received and published, by session and pump *)
}.

(** The history of pump [p] of session [j]: the units [RecvOn] returned to it,
    and those it published, each with the broadcaster. *)
Definition history (j p : nat) (r : relay) : list AccessUnit * list (nat * AccessUnit) := default ([], []) (rl_hist r !! (j, p)).

Definition note (j p : nat) (got : list AccessUnit) (put : list (nat * AccessUnit)) (r : relay) : relay :=
  mkRelay (rl_trackOwner r) (rl_pubs r) (rl_core r) (rl_sessions r) (rl_log r)
    (<[(j, p) := ((history j p r).1 ++ got, (history j p r).2 ++ put)]> (rl_hist r)).

Definition claimTrack (name url : string) (owner : gmap string string) : bool * gmap string string :=
  match owner !! name with
  | Some o => (bool_decide (o = url), owner)
  | None => (true, <[name := url]> owner)
  end.

(** The locked part of [startPump]: [true] when a pump is to be started. *)
Definition reservePump (name : string) (se : rsession) (owner : gmap string string)
    : bool * rsession * gmap string string :=
  if decide (name ∈ se_pumped se) then (false, se, owner)
  else if (rc_MaxTracksPerUpstream cfg >=? 0) && (Z.of_nat (size (se_pumped se)) >=? rc_MaxTracksPerUpstream cfg)
  then (false, se, owner)
  else match claimTrack name (se_url se) owner with
       | (false, owner) => (false, se, owner)
       | (true, owner) =>
           (true, mkRSession (se_url se) (se_conn se) ({[name]} ∪ se_pumped se) (Some name) (se_pumps se), owner)
       end.

(** [getOrCreatePublisher]; [ss] are the downstream sessions.  [Publisher] of a
    server without its primary track is nil. *)
Definition getOrCreatePublisher (name : string) (ss : list (session W')) (r : relay) : option (nat * relay) :=
  match rl_pubs r !! name with
  | Some b => Some (b, r)
  | None =>
      if decide (name = "primary"%string) then
        t ← sv_tracks (rl_core r) !! name;
        Some (te_bc t, mkRelay (rl_trackOwner r) (<[name := te_bc t]> (rl_pubs r)) (rl_core r) (rl_sessions r) (rl_log r) (rl_hist r))
      else
        res ← AddTrack base buffer name (rl_core r) ss;
        t ← sv_tracks res.1 !! name;
        Some (te_bc t, mkRelay (rl_trackOwner r) (<[name := te_bc t]> (rl_pubs r)) res.1 (rl_sessions r) (rl_log r) (rl_hist r))
  end.

Definition put_session (j : nat) (se : rsession) (r : relay) : relay :=
  mkRelay (rl_trackOwner r) (rl_pubs r) (rl_core r) (<[j := se]> (rl_sessions r)) (rl_log r) (rl_hist r).

Definition with_pump (p : nat) (g : rpump) (se : rsession) : rsession :=
  mkRSession (se_url se) (se_conn se) (se_pumped se) (se_starting se) (<[p := g]> (se_pumps se)).

(** The relay's goroutines, one critical section at a time; the label counts the
    recorders attached to the downstream server. *)
Inductive rstep : nat -> relay -> option relay -> Prop :=
  | rs_session r url conn :
      url ∈ rc_Upstreams cfg ->
      rstep 0 r (Some (mkRelay (rl_trackOwner r) (rl_pubs r) (rl_core r)
                         (rl_sessions r ++ [mkRSession url conn ∅ None []]) (rl_log r) (rl_hist r)))
  | rs_reserve r j se name :
      rl_sessions r !! j = Some se -> se_starting se = None ->
      name = "primary"%string \/ name ∈ up_RemoteTracks (se_conn se) ->
      rstep 0 r (let '(_, se', owner) := reservePump name se (rl_trackOwner r) in
                 Some (mkRelay owner (rl_pubs r) (rl_core r) (<[j := se']> (rl_sessions r)) (rl_log r) (rl_hist r)))
  | rs_publisher r j se name ss :
      rl_sessions r !! j = Some se -> se_starting se = Some name ->
      rstep 0 r (res ← getOrCreatePublisher name ss r;
                 Some (put_session j (mkRSession (se_url se) (se_conn se) (se_pumped se) None
                                        (se_pumps se ++ [PRecv name res.1])) res.2))
  | rs_recv r j se p name pub res conn :
      rl_sessions r !! j = Some se -> se_pumps se !! p = Some (PRecv name pub) ->
      up_RecvOn (se_conn se) name res conn ->
      rstep 0 r (Some
        (match res with
         | Ok au => note j p [au] []
             (put_session j (mkRSession (se_url se) conn (se_pumped se) (se_starting se) (<[p := PForward name pub au]> (se_pumps se))) r)
         | Err _ =>
             put_session j (mkRSession (se_url se) conn (se_pumped se ∖ {[name]}) (se_starting se) (<[p := PExit]> (se_pumps se))) r
         end))
  | rs_forward r j se p name pub au order sched :
      rl_sessions r !! j = Some se -> se_pumps se !! p = Some (PForward name pub au) ->
      order ≡ₚ elements (receivers (rl_core r) pub) ->
      rstep 0 r (c ← Server.publishAt pub (forwarded au) order sched (rl_core r);
                 Some (note j p [] [(pub, forwarded au)]
                         (mkRelay (rl_trackOwner r) (rl_pubs r) c
                            (<[j := with_pump p (PRecv name pub) se]> (rl_sessions r))
                            (rl_log r ++ [(name, se_url se, pub, forwarded au)]) (rl_hist r))))
  | rs_conn r j se conn :
      rl_sessions r !! j = Some se ->
      rstep 0 r (Some (put_session j (mkRSession (se_url se) conn (se_pumped se) (se_starting se) (se_pumps se)) r))
  | rs_server r k c :
      (* the rest of the downstream server: subscribers, recorders, other tracks; the
         broadcasters in use stay allocated, and the primary track is kept *)
      sv_step (W' := W') k (rl_core r) (Some c) -> dom (sv_bcs (rl_core r)) ⊆ dom (sv_bcs c) ->
      is_Some (sv_tracks c !! "primary"%string) ->
      rstep k r (Some (mkRelay (rl_trackOwner r) (rl_pubs r) c (rl_sessions r) (rl_log r) (rl_hist r))).

(** A relay over a downstream server that has its primary track. *)
Definition newRelay (c : core W) : relay := mkRelay ∅ ∅ c [] [] ∅.

Inductive rreach (c0 : core W) : nat -> relay -> Prop :=
  | rr_new : rreach c0 0 (newRelay c0)
  | rr_step n k r r' : rreach c0 n r -> rstep k r (Some r') -> rreach c0 (k + n) r'.

(** * Properties of forwarding *)

Definition pump_name (g : rpump) : option string :=
  match g with PRecv n _ | PForward n _ _ => Some n | PExit => None end.

(** The tracks a session pumps or is about to pump. *)
Definition session_names (se : rsession) : list string :=
  omap pump_name (se_pumps se) ++ option_list (se_starting se).

Definition pump_ok (r : relay) (url : string) (g : rpump) : Prop :=
  match g with
  | PRecv n b | PForward n b _ => rl_pubs r !! n = Some b /\ rl_trackOwner r !! n = Some url
  | PExit => True
  end.

Record session_ok (r : relay) (se : rsession) : Prop := {
  seo_names : NoDup (session_names se);
  seo_pumped : se_pumped se = list_to_set (session_names se);
  seo_cap : 0 <= rc_MaxTracksPerUpstream cfg -> Z.of_nat (size (se_pumped se)) <= rc_MaxTracksPerUpstream cfg;
  seo_pumps : Forall (pump_ok r (se_url se)) (se_pumps se);
  seo_starting n : se_starting se = Some n -> rl_trackOwner r !! n = Some (se_url se);
}.

Record rinv (n : nat) (r : relay) : Prop := {
  ri_core : exists own, core_ok n own (rl_core r);
  ri_primary : is_Some (sv_tracks (rl_core r) !! "primary"%string);
  ri_pubs name b : rl_pubs r !! name = Some b -> is_Some (sv_bcs (rl_core r) !! b);
  ri_sessions : Forall (session_ok r) (rl_sessions r);
  ri_log : Forall (fun x => let '(name, url, b, _) := x in
                    rl_trackOwner r !! name = Some url /\ rl_pubs r !! name = Some b) (rl_log r);
}.

(** Owners and publishers, once set, stay. *)
Definition relay_le (r r' : relay) : Prop :=
  rl_trackOwner r ⊆ rl_trackOwner r' /\ rl_pubs r ⊆ rl_pubs r'.

Lemma pump_ok_le r r' url g : relay_le r r' -> pump_ok r url g -> pump_ok r' url g.
Proof. intros [H1 H2]. destruct g; simpl; try done; intros [? ?]; split; by eapply lookup_weaken. Qed.

Lemma session_ok_le r r' se : relay_le r r' -> session_ok r se -> session_ok r' se.
Proof.
  intros Hle [H1 H2 H3 H4 H5]. split; try done.
  - eapply Forall_impl; [exact H4|]. intros g. by apply pump_ok_le.
  - intros n Hn. destruct Hle as [Hle _]. by eapply lookup_weaken; [apply H5|].
Qed.

Lemma sessions_ok_le r r' l : relay_le r r' -> Forall (session_ok r) l -> Forall (session_ok r') l.
Proof. intros Hle Hl. eapply Forall_impl; [exact Hl|]. intros se. by apply session_ok_le. Qed.

Lemma log_le r r' l : relay_le r r' ->
  Forall (fun x => let '(name, url, b, _) := x in
            rl_trackOwner r !! name = Some url /\ rl_pubs r !! name = Some b) l ->
  Forall (fun x : string * string * nat * AccessUnit => let '(name, url, b, _) := x in
            rl_trackOwner r' !! name = Some url /\ rl_pubs r' !! name = Some b) l.
Proof.
  intros [H1 H2] Hl. eapply Forall_impl; [exact Hl|]. intros [[[name url] b] au] [? ?].
  split; by eapply lookup_weaken.
Qed.

(** Replacing a pump's state. *)
Lemma omap_insert_same {A B} (f : A -> option B) (l : list A) (i : nat) x y :
  l !! i = Some x -> f y = f x -> omap f (<[i := y]> l) = omap f l.
Proof.
  revert i. induction l as [|z l IH]; intros [|i]; csimpl; try done; [by intros [= ->] ->|].
  intros Hi Hf. by rewrite (IH i Hi Hf).
Qed.

Lemma omap_insert_none {A B} (f : A -> option B) (l : list A) (i : nat) x y b :
  l !! i = Some x -> f x = Some b -> f y = None -> omap f l ≡ₚ b :: omap f (<[i := y]> l).
Proof.
  revert i. induction l as [|z l IH]; intros [|i]; csimpl; try done; [by intros [= ->] -> ->|].
  intros Hi Hx Hy. destruct (f z) as [c|]; rewrite (IH i Hi Hx Hy); [by rewrite Permutation_swap|done].
Qed.

(** A session whose pump [p] is in another state with the same track. *)
Lemma session_ok_pump r se conn p g g' :
  session_ok r se -> se_pumps se !! p = Some g -> pump_name g' = pump_name g -> pump_ok r (se_url se) g' ->
  session_ok r (mkRSession (se_url se) conn (se_pumped se) (se_starting se) (<[p := g']> (se_pumps se))).
Proof.
  intros [H1 H2 H3 H4 H5] Hp Hn Hg.
  assert (session_names (mkRSession (se_url se) conn (se_pumped se) (se_starting se) (<[p := g']> (se_pumps se))) =
          session_names se) as Hnm by (unfold session_names; simpl; by rewrite (omap_insert_same pump_name _ _ g)).
  split; rewrite ?Hnm; simpl; try done. by apply Forall_insert.
Qed.

Lemma session_ok_exit r se conn p g name :
  session_ok r se -> se_pumps se !! p = Some g -> pump_name g = Some name ->
  session_ok r (mkRSession (se_url se) conn (se_pumped se ∖ {[name]}) (se_starting se) (<[p := PExit]> (se_pumps se))).
Proof.
  intros [H1 H2 H3 H4 H5] Hp Hn. set (se' := mkRSession _ _ _ _ _).
  assert (session_names se ≡ₚ name :: session_names se') as Hperm.
  { unfold session_names, se'. simpl. by rewrite (omap_insert_none pump_name _ p g PExit name Hp Hn eq_refl). }
  rewrite Hperm in H1. apply NoDup_cons in H1 as [Hni Hnd]. split; try done.
  - subst se'. cbn [se_pumped]. rewrite H2. apply set_eq. intros x.
    rewrite elem_of_difference, !elem_of_list_to_set, elem_of_singleton. rewrite Hperm. set_solver.
  - intros Hm. specialize (H3 Hm). subst se'. cbn [se_pumped].
    assert (size (se_pumped se ∖ {[name]}) <= size (se_pumped se))%nat by (apply subseteq_size; set_solver). lia.
  - by apply Forall_insert.
Qed.

Lemma session_ok_reserve r se name :
  session_ok r se -> se_starting se = None -> name ∉ se_pumped se ->
  (rc_MaxTracksPerUpstream cfg >=? 0) && (Z.of_nat (size (se_pumped se)) >=? rc_MaxTracksPerUpstream cfg) = false ->
  rl_trackOwner r !! name = Some (se_url se) ->
  session_ok r (mkRSession (se_url se) (se_conn se) ({[name]} ∪ se_pumped se) (Some name) (se_pumps se)).
Proof.
  intros [H1 H2 H3 H4 H5] Hst Hin Hcap Ho.
  assert (name ∉ session_names se) as Hnn by (intros Hx; apply Hin; rewrite H2; by apply elem_of_list_to_set).
  unfold session_names in *. rewrite Hst in *. simpl in *. rewrite app_nil_r in *. split; simpl.
  - unfold session_names. simpl. apply NoDup_app. split_and!; [done|set_solver|apply NoDup_singleton].
  - unfold session_names. simpl. rewrite list_to_set_app_L, H2. simpl. set_solver.
  - intros Hm. rewrite size_union, size_singleton by set_solver. specialize (H3 Hm). lia.
  - done.
  - by intros n [= <-].
Qed.

Lemma reservePump_ok r se name b se' owner r' :
  session_ok r se -> se_starting se = None -> reservePump name se (rl_trackOwner r) = (b, se', owner) ->
  rl_trackOwner r' = owner -> rl_pubs r' = rl_pubs r ->
  rl_trackOwner r ⊆ owner /\ session_ok r' se'.
Proof.
  intros Hse Hst E <- Hp. revert E. unfold reservePump. destruct (decide (name ∈ se_pumped se)) as [Hin|Hin].
  { intros [= <- <- E]. rewrite E. split; [done|]. eapply session_ok_le; [|exact Hse]. split; [by rewrite E|by rewrite Hp]. }
  destruct (_ && _) eqn:Ecap.
  { intros [= <- <- E]. rewrite E. split; [done|]. eapply session_ok_le; [|exact Hse]. split; [by rewrite E|by rewrite Hp]. }
  unfold claimTrack. destruct (rl_trackOwner r !! name) as [o|] eqn:Eo.
  - destruct (bool_decide (o = se_url se)) eqn:Eb; intros [= <- <- E]; rewrite <- E; (split; [done|]);
      [|eapply session_ok_le; [|exact Hse]; split; [by rewrite E|by rewrite Hp]].
    apply bool_decide_eq_true in Eb as ->. apply session_ok_reserve; try done; [|by rewrite <- E].
    eapply session_ok_le; [|exact Hse]. split; [by rewrite E|by rewrite Hp].
  - intros [= <- <- E]. assert (rl_trackOwner r ⊆ <[name := se_url se]> (rl_trackOwner r)) as Hsub
      by (by apply insert_subseteq). rewrite <- E. split; [done|].
    apply session_ok_reserve; try done; [|by rewrite <- E, lookup_insert_eq].
    eapply session_ok_le; [|exact Hse]. split; [by rewrite <- E|by rewrite Hp].
Qed.

Lemma registerTrack_bcs name kind priority trackID (c : core W) a :
  is_Some (sv_bcs c !! a) -> is_Some (sv_bcs (registerTrack buffer name kind priority trackID c).2 !! a).
Proof.
  intros Ha. unfold registerTrack. destruct (sv_tracks c !! name); [done|].
  destruct (attachRecordersToTrack _ _ _ _ _) as [b recs]. simpl. apply lookup_insert_is_Some'. by right.
Qed.

Lemma AddTrack_registry n own name (c : core W) (ss : list (session W')) :
  core_ok n own c -> Z.of_nat n < 2 ^ 64 ->
  exists own' c' ss' t, AddTrack base buffer name c ss = Some (c', ss') /\ core_ok n own' c' /\
    sv_tracks c' !! name = Some t /\ is_Some (sv_bcs c' !! te_bc t) /\
    (forall nm, is_Some (sv_tracks c !! nm) -> is_Some (sv_tracks c' !! nm)) /\
    (forall b, is_Some (sv_bcs c !! b) -> is_Some (sv_bcs c' !! b)).
Proof.
  intros Hok Hn. unfold AddTrack, AddTrackSpec, addTrackInternal. cbn [spec_Name].
  set (kind := specKind _). set (prio := specPriority _). set (tid := spec_TrackID _).
  pose proof (registerTrack_bcs name kind prio tid c) as Hb.
  destruct (registerTrack buffer name kind prio tid c) as [new c1] eqn:E. cbn [snd] in Hb.
  destruct (registerTrack_ok _ _ _ _ _ _ _ _ _ _ Hok Hn E) as (own' & Hok1 & Hx). destruct new.
  - destruct Hx as (_ & a & Ht & _ & Ha). rewrite Ht, lookup_insert_eq. cbn [mbind option_bind te_bc].
    destruct (notifySessions_ok n own' base name kind prio tid a ss c1 Hok1 Ha)
      as (c2 & refs & E2 & Hok2 & (Q1 & _ & _ & Q4) & _). eexists own', c2, _, _. split; [exact E2|]. split; [done|].
    rewrite Q1, Ht, lookup_insert_eq. cbn [te_bc]. split_and!; [done|by apply Q4| |auto].
    intros nm Hnm. apply lookup_insert_is_Some'. by right.
  - destruct Hx as [-> [t Ht]]. exists own', c, ss, t. split_and!; try done.
    destruct (co_track _ _ _ Hok1 _ _ Ht) as (_ & o & -> & _). done.
Qed.

Lemma getOrCreatePublisher_ok n r name ss :
  rinv n r -> Z.of_nat n < 2 ^ 64 ->
  exists b r', getOrCreatePublisher name ss r = Some (b, r') /\ rl_pubs r' !! name = Some b /\ relay_le r r' /\
    rl_trackOwner r' = rl_trackOwner r /\ rl_sessions r' = rl_sessions r /\ rl_log r' = rl_log r /\
    (exists own, core_ok n own (rl_core r')) /\ is_Some (sv_tracks (rl_core r') !! "primary"%string) /\
    (forall nm b', rl_pubs r' !! nm = Some b' -> is_Some (sv_bcs (rl_core r') !! b')).
Proof.
  intros [[own Hc] Hp Hpubs _ _] Hn. unfold getOrCreatePublisher. destruct (rl_pubs r !! name) as [b|] eqn:E.
  { exists b, r. split_and!; try done. by exists own. }
  destruct (decide (name = "primary"%string)) as [-> | Hne].
  - destruct Hp as [t Ht]. rewrite Ht. cbn [mbind option_bind]. do 2 eexists. split; [done|]. simpl.
    split; [by rewrite lookup_insert_eq|]. split; [split; simpl; [done|by apply insert_subseteq]|].
    do 3 (split; [done|]). split; [by exists own|]. split; [by rewrite Ht|].
    intros nm b' Hb. apply lookup_insert_Some in Hb as [[<- <-] | [_ Hb]]; [|eauto].
    destruct (co_track _ _ _ Hc _ _ Ht) as (_ & o & -> & _). done.
  - destruct (AddTrack_registry n own name (rl_core r) ss Hc Hn) as (own' & c' & ss' & t & -> & Hc' & Ht & Hbt & Htr & Hbc).
    cbn [mbind option_bind fst]. rewrite Ht. cbn [mbind option_bind]. do 2 eexists. split; [done|]. simpl.
    split; [by rewrite lookup_insert_eq|]. split; [split; simpl; [done|by apply insert_subseteq]|].
    do 3 (split; [done|]). split; [by exists own'|]. split; [by apply Htr|].
    intros nm b' Hb. apply lookup_insert_Some in Hb as [[<- <-] | [_ Hb]]; eauto.
Qed.

(** Steps that change one session and nothing else. *)
Lemma rinv_session n r j se' : rinv n r -> session_ok r se' -> rinv n (put_session j se' r).
Proof.
  intros [H1 H2 H3 H4 H5] Hse. split; simpl; try done. apply (sessions_ok_le r); [by split|]. by apply Forall_insert.
Qed.

Lemma rinv_note n r j p got put : rinv n r -> rinv n (note j p got put r).
Proof. intros [H1 H2 H3 H4 H5]. split; simpl; try done. by apply (sessions_ok_le r). Qed.

Lemma rstep_ok n k r o : rinv n r -> Z.of_nat (k + n) < 2 ^ 64 -> rstep k r o -> exists r', o = Some r' /\ rinv (k + n) r'.
Proof.
  intros Hr Hn Hst. assert (forall j se, rl_sessions r !! j = Some se -> session_ok r se) as Hs
    by (intros j se Hj; exact (Forall_lookup_1 _ _ _ _ (ri_sessions _ _ Hr) Hj)).
  destruct Hst as [r url conn Hu|r j se name Hj Hns Hname|r j se name ss Hj Hst|r j se p name pub res conn Hj Hp Hrecv
                  |r j se p name pub au order sched Hj Hp Hord|r j se conn Hj|r k c Hst Hd Hp]; cbn [Nat.add] in *.
  - eexists. split; [done|]. destruct Hr as [H1 H2 H3 H4 H5]. split; simpl; try done. apply Forall_app. split.
    { eapply sessions_ok_le; [|exact H4]. by split. }
    apply Forall_singleton. split; simpl; try done. by apply NoDup_nil_2.
  - destruct (reservePump name se (rl_trackOwner r)) as [[b se'] owner] eqn:E. eexists. split; [done|].
    set (r' := mkRelay owner _ _ _ _ _). destruct (reservePump_ok r se name b se' owner r' (Hs _ _ Hj) Hns E eq_refl eq_refl) as [Hsub Hse].
    destruct Hr as [H1 H2 H3 H4 H5]. assert (relay_le r r') as Hle by (by split). split; simpl; try done.
    + apply Forall_insert; [|done]. by eapply sessions_ok_le.
    + exact (log_le r r' _ Hle H5).
  - destruct (getOrCreatePublisher_ok n r name ss Hr Hn) as (b & r' & -> & Hb & Hle & Ho & Hss & Hlog & Hc & Hprim & Hpubs).
    cbn [mbind option_bind fst snd]. eexists. split; [done|]. destruct Hr as [H1 H2 H3 H4 H5]. split; simpl; try done.
    + rewrite Hss. apply Forall_insert; [|].
      * eapply sessions_ok_le; [|exact H4]. by destruct Hle.
      * destruct (session_ok_le r r' se Hle (Hs _ _ Hj)) as [S1 S2 S3 S4 S5].
        assert (session_names (mkRSession (se_url se) (se_conn se) (se_pumped se) None (se_pumps se ++ [PRecv name b])) =
          session_names se) as Hnm by (unfold session_names; simpl; rewrite Hst, omap_app; simpl; by rewrite app_nil_r).
        split; rewrite ?Hnm; simpl; try done. apply Forall_app. split; [done|]. apply Forall_singleton. simpl. auto.
    + rewrite Hlog. exact (log_le r r' _ Hle H5).
  - eexists. split; [done|].
    pose proof (Forall_lookup_1 _ _ _ _ (seo_pumps _ _ (Hs _ _ Hj)) Hp) as Hpk. destruct res as [au|e].
    + apply rinv_note, rinv_session; [done|]. eapply session_ok_pump; [eauto|exact Hp|done|exact Hpk].
    + apply rinv_session; [done|]. eapply session_ok_exit; [eauto|exact Hp|done].
  - pose proof (Forall_lookup_1 _ _ _ _ (seo_pumps _ _ (Hs _ _ Hj)) Hp) as [Hpub Hown].
    destruct (ri_core _ _ Hr) as [own Hc].
    destruct (publishAt_ok n own (rl_core r) pub (forwarded au) order sched Hc (ri_pubs _ _ Hr _ _ Hpub) Hord)
      as (c' & -> & Hc' & (Q1 & _ & _ & Q4) & _).
    cbn [mbind option_bind]. eexists. split; [done|]. apply rinv_note. destruct Hr as [H1 H2 H3 H4 H5]. split; simpl.
    + by exists own.
    + by rewrite Q1.
    + eauto.
    + eapply sessions_ok_le; [|apply Forall_insert; [exact H4|]]; [by split|].
      eapply (session_ok_pump r se (se_conn se)); [eauto|exact Hp|done|done].
    + apply Forall_app. split; [done|]. by apply Forall_singleton.
  - eexists. split; [done|]. apply rinv_session; [done|]. destruct (Hs _ _ Hj) as [S1 S2 S3 S4 S5]. by split.
  - eexists. split; [done|]. destruct Hr as [[own H1] H2 H3 H4 H5].
    destruct (sv_step_ok n own k (rl_core r) (Some c) H1 Hn Hst) as (own' & c2 & [= <-] & Hc). split; simpl; try done.
    + by exists own'.
    + intros name b Hb. apply elem_of_dom, Hd, elem_of_dom. eauto.
    + eapply sessions_ok_le; [|exact H4]. by split.
Qed.

Lemma rreach_ok c0 n r : (exists own, core_ok 0 own c0) -> is_Some (sv_tracks c0 !! "primary"%string) ->
  rreach c0 n r -> Z.of_nat n < 2 ^ 64 -> rinv n r.
Proof.
  intros H0 Hp. induction 1 as [|n k r r' Hr IH Hst]; intros Hn; [split; simpl; try done|].
  assert (rinv n r) as Hi by (apply IH; lia). by destruct (rstep_ok n k r _ Hi Hn Hst) as (r1 & [= <-] & ?).
Qed.

(** *** What the pumps forward *)

(** The unit a pump has received and not published yet. *)
Definition in_flight (g : rpump) : list AccessUnit := match g with PForward _ _ au => [au] | _ => [] end.

(** A pump in state [g] with history [h]: it has published what it received, but
    for the unit in flight, to one broadcaster. *)
Definition pump_history (g : rpump) (h : list AccessUnit * list (nat * AccessUnit)) : Prop :=
  exists (pub : nat) (sent : list AccessUnit), h.1 = sent ++ in_flight g /\ h.2 = ((fun au => (pub, forwarded au)) <$> sent) /\
    match g with PRecv _ b | PForward _ b _ => b = pub | PExit => True end.

Definition pumpAt (r : relay) (j p : nat) : option rpump := se ← rl_sessions r !! j; se_pumps se !! p.

Definition histories_ok (r : relay) : Prop :=
  Forall (fun se => se_url se ∈ rc_Upstreams cfg) (rl_sessions r) /\
  forall j p, match pumpAt r j p with Some g => pump_history g (history j p r) | None => rl_hist r !! (j, p) = None end.

(** Steps that leave the pumps as they are. *)
Lemma histories_ok_same r r' :
  (forall j p, pumpAt r' j p = pumpAt r j p) -> rl_hist r' = rl_hist r ->
  Forall (fun se => se_url se ∈ rc_Upstreams cfg) (rl_sessions r') -> histories_ok r -> histories_ok r'.
Proof. intros Hp Hh Hu [_ H0]. split; [done|]. intros j p. unfold history. rewrite Hp, Hh. apply H0. Qed.

Lemma pumpAt_insert r r' j se se' j' p :
  rl_sessions r !! j = Some se -> rl_sessions r' = <[j := se']> (rl_sessions r) ->
  pumpAt r' j' p = if decide (j' = j) then se_pumps se' !! p else pumpAt r j' p.
Proof.
  intros Hj E. unfold pumpAt. rewrite E. case_decide as Hd; [subst j'|by rewrite list_lookup_insert_ne].
  rewrite list_lookup_insert_eq; [done|by eapply lookup_lt_Some].
Qed.

Lemma urls_insert (l : list rsession) j se se' :
  Forall (fun se => se_url se ∈ rc_Upstreams cfg) l -> l !! j = Some se -> se_url se' = se_url se ->
  Forall (fun se => se_url se ∈ rc_Upstreams cfg) (<[j := se']> l).
Proof. intros Hl Hj E. apply Forall_insert; [done|]. rewrite E. by eapply (Forall_lookup_1 _ _ _ _ Hl). Qed.

(** A session that keeps its pumps. *)
Lemma histories_ok_session r r' j se se' :
  histories_ok r -> rl_sessions r !! j = Some se -> rl_sessions r' = <[j := se']> (rl_sessions r) ->
  se_url se' = se_url se -> se_pumps se' = se_pumps se -> rl_hist r' = rl_hist r -> histories_ok r'.
Proof.
  intros H0 Hj E Eu Ep Eh. apply (histories_ok_same r); [|done| |done].
  - intros j' p. rewrite (pumpAt_insert r r' j se se' j' p Hj E). case_decide as Hd; [subst j'|done].
    unfold pumpAt. by rewrite Hj, Ep.
  - rewrite E. destruct H0 as [Hu _]. by eapply urls_insert.
Qed.

(** A session one of whose pumps goes to another state, with its new history. *)
Lemma histories_ok_pump r r' j se se' p g g' :
  histories_ok r -> rl_sessions r !! j = Some se -> rl_sessions r' = <[j := se']> (rl_sessions r) ->
  se_url se' = se_url se -> se_pumps se !! p = Some g -> se_pumps se' = <[p := g']> (se_pumps se) ->
  (pump_history g (history j p r) -> pump_history g' (history j p r')) ->
  (forall k, k <> (j, p) -> rl_hist r' !! k = rl_hist r !! k) -> histories_ok r'.
Proof.
  intros [Hu H0] Hj E Eu Hp Ep Hg Hk. split; [rewrite E; by eapply urls_insert|].
  intros j' p'. rewrite (pumpAt_insert r r' j se se' j' p' Hj E), Ep. specialize (H0 j' p').
  destruct (decide ((j', p') = (j, p))) as [[= -> ->]|Hne].
  - rewrite decide_True, list_lookup_insert_eq by (done || by eapply lookup_lt_Some).
    apply Hg. unfold pumpAt in H0. rewrite Hj in H0. cbn [mbind option_bind] in H0. by rewrite Hp in H0.
  - unfold history. rewrite (Hk _ Hne). case_decide as Hd; [subst j'|done].
    rewrite list_lookup_insert_ne by congruence. unfold pumpAt in H0. by rewrite Hj in H0.
Qed.

(** A session that starts one more pump. *)
Lemma histories_ok_start r r' j se se' name b :
  histories_ok r -> rl_sessions r !! j = Some se -> rl_sessions r' = <[j := se']> (rl_sessions r) ->
  se_url se' = se_url se -> se_pumps se' = se_pumps se ++ [PRecv name b] -> rl_hist r' = rl_hist r -> histories_ok r'.
Proof.
  intros [Hu H0] Hj E Eu Ep Eh. split; [rewrite E; by eapply urls_insert|].
  intros j' p. rewrite (pumpAt_insert r r' j se se' j' p Hj E), Ep. unfold history. rewrite Eh. specialize (H0 j' p).
  case_decide as Hd; [subst j'|exact H0]. unfold pumpAt in H0. rewrite Hj in H0. cbn [mbind option_bind] in H0.
  destruct (se_pumps se !! p) as [g|] eqn:Eg; [by rewrite (lookup_app_l_Some _ _ _ _ Eg)|].
  rewrite lookup_app_r by (by apply lookup_ge_None). destruct (p - length (se_pumps se))%nat; [|done]. cbn [lookup].
  rewrite H0. by exists b, [].
Qed.

Lemma history_note r j p got put :
  history j p (note j p got put r) = ((history j p r).1 ++ got, (history j p r).2 ++ put).
Proof. unfold history at 1, note. cbn [rl_hist]. by rewrite lookup_insert_eq. Qed.

Lemma note_other r j p got put k : k <> (j, p) -> rl_hist (note j p got put r) !! k = rl_hist r !! k.
Proof. intros Hne. unfold note. cbn [rl_hist]. by rewrite lookup_insert_ne. Qed.

Lemma rstep_histories k r r' : histories_ok r -> rstep k r (Some r') -> histories_ok r'.
Proof.
  intros H0 Hst. remember (Some r') as o eqn:Eo.
  destruct Hst as [r url conn Hu|r j se name Hj Hns Hname|r j se name ss Hj Hst|r j se p name pub res conn Hj Hp Hrecv
                  |r j se p name pub au order sched Hj Hp Hord|r j se conn Hj|r k c Hst Hd Hp].
  - injection Eo as <-. apply (histories_ok_same r); [|done| |done].
    + intros j p. unfold pumpAt. cbn [rl_sessions]. destruct (rl_sessions r !! j) as [se|] eqn:E.
      * by rewrite (lookup_app_l_Some _ _ _ _ E).
      * rewrite lookup_app_r by (by apply lookup_ge_None). by destruct (j - length (rl_sessions r))%nat.
    + destruct H0 as [H0 _]. apply Forall_app. split; [done|]. by apply Forall_singleton.
  - destruct (reservePump name se (rl_trackOwner r)) as [[b se'] owner] eqn:E. injection Eo as <-.
    unfold reservePump in E. repeat (case_decide || case_match); simplify_eq;
      (eapply histories_ok_session; [exact H0|exact Hj|done..]).
  - destruct (getOrCreatePublisher name ss r) as [[b r1]|] eqn:E; [|done]. injection Eo as <-.
    assert (rl_sessions r1 = rl_sessions r /\ rl_hist r1 = rl_hist r) as [Es Eh].
    { unfold getOrCreatePublisher in E. destruct (rl_pubs r !! name); [by injection E as <- <-|].
      case_decide; apply bind_Some in E as (x & _ & E); [by injection E as <- <-|].
      apply bind_Some in E as (y & _ & E). by injection E as <- <-. }
    eapply (histories_ok_start r); [done|exact Hj| | | |]; cbn [put_session rl_sessions rl_hist fst snd]; by rewrite ?Es.
  - injection Eo as <-. destruct res as [au|e].
    + eapply (histories_ok_pump r _ j se _ p (PRecv name pub) (PForward name pub au)); try done; [|intros k Hk; by rewrite note_other].
      intros (b & sent & E1 & E2 & ->). rewrite history_note. exists b, sent. cbn [fst snd in_flight] in *.
      rewrite app_nil_r in *. unfold history in *. cbn [put_session rl_hist]. by rewrite E1.
    + eapply (histories_ok_pump r _ j se _ p (PRecv name pub) PExit); try done.
      intros (b & sent & E1 & E2 & _). by exists b, sent.
  - apply bind_Some in Eo as (c & _ & [= <-]).
    eapply (histories_ok_pump r _ j se _ p (PForward name pub au) (PRecv name pub)); try done; [|intros k Hk; by rewrite note_other].
    intros (b & sent & E1 & E2 & ->). rewrite history_note. exists b, (sent ++ [au]). cbn [fst snd in_flight] in *.
    rewrite !app_nil_r, fmap_app. unfold history in *. cbn [rl_hist]. by rewrite E1, E2.
  - injection Eo as <-. eapply (histories_ok_session r); [done|exact Hj|done..].
  - injection Eo as <-. apply (histories_ok_same r); [done|done| |done]. by destruct H0.
Qed.

Lemma rreach_histories c0 n r : rreach c0 n r -> histories_ok r.
Proof. induction 1 as [|n k r r' _ IH Hst]; [by split|]. by eapply rstep_histories. Qed.
End Relay.
Arguments rsession : clear implicits.
Arguments relay : clear implicits.

(** What a subscriber sees of a unit. *)
Definition same_content (au au' : AccessUnit) : Prop :=
  au_Bytes au' = au_Bytes au /\ au_Keyframe au' = au_Keyframe au /\ au_PTSMicro au' = au_PTSMicro au /\
  au_Seq au' = au_Seq au /\ au_Discontinuity au' = au_Discontinuity au /\ au_PubWallMicro au' = au_PubWallMicro au.

(** C18: forwarding is transparent.  However the sessions of several upstreams,
    their pumps and the downstream server interleave, each pump has published
    exactly the units that [RecvOn] returned to it, in that order, once each and
    with their bytes, mark, time stamps and number unchanged, but for the one it
    is about to publish; it receives from one of the configured upstreams; and a
    running pump publishes to the one downstream broadcaster of its track's name,
    which all upstreams share. *)
Theorem relay_forwards_exactly {W W' C} {JA : JSON Announce} {JU : JSON Unannounce} `{Upstream C} cfg base buffer
    (c0 : core W) own n (r : relay W C) j se p g :
  core_ok 0 own c0 -> is_Some (sv_tracks c0 !! "primary"%string) ->
  rreach (W' := W') cfg base buffer c0 n r -> Z.of_nat n < 2 ^ 64 ->
  rl_sessions r !! j = Some se -> se_pumps se !! p = Some g ->
  se_url se ∈ rc_Upstreams cfg /\
  exists pub sent, (history j p r).1 = sent ++ in_flight g /\
    Forall2 (fun au x => x.1 = pub /\ same_content au x.2) sent (history j p r).2 /\
    forall name, pump_name g = Some name -> rl_pubs r !! name = Some pub.
Proof.
  intros Hc Hp Hr Hn Hj Hg. destruct (rreach_histories cfg base buffer c0 n r Hr) as [Hu Hh].
  split; [exact (Forall_lookup_1 _ _ _ _ Hu Hj)|]. specialize (Hh j p). unfold pumpAt in Hh. rewrite Hj in Hh. cbn [mbind option_bind] in Hh.
  rewrite Hg in Hh. destruct Hh as (pub & sent & E1 & E2 & E3). exists pub, sent. split; [done|].
  split; [rewrite E2; apply Forall2_fmap_r, Forall_Forall2_diag, Forall_true; by split|].
  intros name Hname. destruct (rreach_ok cfg base buffer c0 n r ltac:(by exists own) Hp Hr Hn) as [_ _ _ Hs _].
  pose proof (Forall_lookup_1 _ _ _ _ (seo_pumps _ _ _ (Forall_lookup_1 _ _ _ _ Hs Hj)) Hg) as Hpk.
  destruct g; cbn in Hname, Hpk; simplify_eq; by destruct Hpk.
Qed.

(** The relay never mixes upstreams: all units ever published on a downstream
    track come from one upstream, the one that claimed the name first, and go to
    one broadcaster, even across reconnects.  The comment of [Config.Upstreams]
    says that the units of two upstreams with the same track name are
    interleaved. *)
Theorem relay_single_source {W W' C} {JA : JSON Announce} {JU : JSON Unannounce} `{Upstream C} cfg base buffer
    (c0 : core W) own n (r : relay W C) name url1 url2 b1 b2 au1 au2 :
  core_ok 0 own c0 -> is_Some (sv_tracks c0 !! "primary"%string) ->
  rreach (W' := W') cfg base buffer c0 n r -> Z.of_nat n < 2 ^ 64 ->
  (name, url1, b1, au1) ∈ rl_log r -> (name, url2, b2, au2) ∈ rl_log r -> url1 = url2 /\ b1 = b2.
Proof.
  intros Hc Hp Hr Hn H1 H2. destruct (rreach_ok cfg base buffer c0 n r ltac:(by exists own) Hp Hr Hn) as [_ _ _ _ Hl].
  rewrite Forall_forall in Hl. destruct (Hl _ H1) as [O1 P1], (Hl _ H2) as [O2 P2]. split; congruence.
Qed.

(** C19: a session of the relay runs at most one pump per track, never more than
    [MaxTracksPerUpstream] pumps when that is not negative, however many tracks
    the upstream announces; and no step of the relay panics, provided the
    downstream server keeps its primary track. *)
Theorem relay_safe_and_bounded {W W' C} {JA : JSON Announce} {JU : JSON Unannounce} `{Upstream C} cfg base buffer
    (c0 : core W) own n (r : relay W C) :
  core_ok 0 own c0 -> is_Some (sv_tracks c0 !! "primary"%string) ->
  rreach (W' := W') cfg base buffer c0 n r -> Z.of_nat (S n) < 2 ^ 64 ->
  (forall k, (k <= 1)%nat -> ~ rstep (W' := W') cfg base buffer k r None) /\
  Forall (fun se => NoDup (omap pump_name (se_pumps se)) /\
    (0 <= rc_MaxTracksPerUpstream cfg ->
     Z.of_nat (length (omap pump_name (se_pumps se))) <= rc_MaxTracksPerUpstream cfg)) (rl_sessions r).
Proof.
  intros Hc Hp Hr Hn.
  assert (rinv cfg n r) as Hi by (apply (rreach_ok (W' := W') cfg base buffer c0); [by exists own|done|done|lia]). split.
  - intros k Hk Hst. destruct (rstep_ok (W' := W') cfg base buffer n k r None Hi) as (r' & ? & _); [lia|done|done].
  - eapply Forall_impl; [exact (ri_sessions _ _ _ Hi)|]. intros se [S1 S2 S3 _ _]. unfold session_names in *.
    pose proof (proj1 (NoDup_app _ _) S1) as (S4 & _ & _). split; [done|]. intros Hm. specialize (S3 Hm).
    rewrite S2, size_list_to_set in S3 by done. rewrite length_app in S3. lia.
Qed.

(** ** Reconnecting *)

Definition is_fail (rd : round) : bool := match rd.1 with AFail _ => true | ASession _ _ _ _ => false end.

(** Dial failures since the last session. *)
Definition streak (n0 : Z) (l : list round) : Z := foldl (fun n rd => if is_fail rd then n + 1 else 0) n0 l.

(** The options that resume the last session of some rounds. *)
Definition resume_point (o : dialOpts) (l : list round) : dialOpts :=
  foldl (fun o rd => match rd.1 with ASession sid _ _ seen => resumeOpts sid seen | AFail _ => o end) o l.

(** The outcome of a run that used the rounds [used]. *)
Definition outcome_ok (max n0 : Z) (res : upstreamResult) (script used : list round) : Prop :=
  match res with
  | UFailed e => 0 <= max /\ streak n0 used = max + 1 /\ exists slept, last used = Some (AFail e, slept)
  | UStopped => exists rd, last used = Some rd /\
      (rd.2 = false \/ exists sid age seen, rd.1 = ASession sid false age seen)
  | UWaiting => used = script
  end.

(** Before the last of the rounds [used] the budget was not exceeded. *)
Definition budget_kept (max n0 : Z) (used : list round) : Prop :=
  forall i, (S i < length used)%nat -> 0 <= max -> streak n0 (take (S i) used) <= max.

(** What a run that made the dials [l] has done, from [n0] failures and the
    resume options [p]. *)
Record run_ok (max n0 : Z) (p : dialOpts) (script : list round) (l : list dialOpts) (res : upstreamResult) : Prop := {
  ru_length : (length l <= length script)%nat;
  ru_dials i o : l !! i = Some o -> o = resume_point p (take i script);
  ru_outcome : outcome_ok max n0 res script (take (length l) script);
  ru_budget : budget_kept max n0 (take (length l) script);
}.

Lemma run_one max n0 p rd script res :
  outcome_ok max n0 res (rd :: script) [rd] -> run_ok max n0 p (rd :: script) [p] res.
Proof.
  intros Ho. split; simpl; [lia| |done|intros i Hi; simpl in Hi; lia].
  intros [|i] o Hi; simpl in *; [congruence|done].
Qed.

Lemma run_cons max n0 p rd script l res :
  (0 <= max -> streak n0 [rd] <= max) -> run_ok max (streak n0 [rd]) (resume_point p [rd]) script l res ->
  run_ok max n0 p (rd :: script) (p :: l) res.
Proof.
  intros Hn [H1 H2 H3 H4]. split; simpl; [lia| | |].
  - intros [|i] o Hi; simpl in *; [congruence|]. exact (H2 i o Hi).
  - destruct res; simpl in *.
    + by rewrite H3.
    + destruct H3 as (rd' & Hl & Hx). exists rd'. split; [|done]. by destruct (take (length l) script).
    + destruct H3 as (? & ? & s & Hl). split_and!; [done..|]. exists s. by destruct (take (length l) script).
  - intros [|i] Hi Hm; [by apply Hn|]. simpl in *. apply (H4 i); [lia|done].
Qed.

Lemma runUpstream_run cfg script : forall sid seen n0 l res,
  let max := rc_MaxReconnectAttempts cfg in
  (0 <= max -> n0 <= max) -> runUpstream cfg script sid seen n0 = (l, res) ->
  run_ok max n0 (resumeOpts sid seen) script l res.
Proof.
  induction script as [|[a slept] script IH]; intros sid seen n0 l res max Hn0; cbn [runUpstream].
  { intros [= <- <-]. split; simpl; [lia|by intros ? ?|done|intros i Hi; simpl in Hi; lia]. }
  destruct a as [err|sid' died age seen'].
  - fold max. destruct ((max >=? 0) && (n0 + 1 >? max)) eqn:Eb.
    { intros [= <- <-]. apply run_one. simpl. unfold streak. simpl. apply andb_true_iff in Eb as [E1%Z.geb_le E2%Z.gtb_lt].
      specialize (Hn0 E1). split; [exact E1|]. split; [lia|]. by exists slept. }
    destruct slept; simpl.
    2:{ intros [= <- <-]. apply run_one. simpl. eexists. split; [done|by left]. }
    destruct (runUpstream cfg script sid seen (n0 + 1)) as [l' r'] eqn:E. intros [= <- <-].
    apply run_cons; [unfold streak; simpl; lia|]. apply IH; [unfold streak; simpl; lia|done].
  - destruct died; simpl.
    2:{ intros [= <- <-]. apply run_one. simpl. eexists. split; [done|right]. by do 3 eexists. }
    replace (if age >? 10 * rc_ReconnectInterval cfg then 0 else 0) with 0 by (by destruct (_ >? _)).
    destruct slept; simpl.
    2:{ intros [= <- <-]. apply run_one. simpl. eexists. split; [done|by left]. }
    destruct (runUpstream cfg script sid' seen' 0) as [l' r'] eqn:E. intros [= <- <-].
    apply run_cons; [unfold streak; simpl; lia|]. apply IH; [unfold streak; simpl; lia|done].
Qed.

(** C20: reconnecting.  Every dial of an upstream resumes the last session that
    was established, with the cursor read when it ended, and starts a new one
    before that; the loop gives up exactly when one dial more than
    [MaxReconnectAttempts] has failed since the last session (never when the
    limit is negative), with the last error; it stops without an error only on a
    shutdown, and otherwise uses every round. *)
Theorem reconnect_exact cfg script l res :
  runUpstream cfg script "" ∅ 0 = (l, res) ->
  let max := rc_MaxReconnectAttempts cfg in
  let used := take (length l) script in
  (length l <= length script)%nat /\
  (forall i o, l !! i = Some o -> o = resume_point (""%string, ∅) (take i script)) /\
  (forall i, (S i < length used)%nat -> 0 <= max -> streak 0 (take (S i) used) <= max) /\
  match res with
  | UFailed e => 0 <= max /\ streak 0 used = max + 1 /\ exists slept, last used = Some (AFail e, slept)
  | UStopped => exists rd, last used = Some rd /\
      (rd.2 = false \/ exists sid age seen, rd.1 = ASession sid false age seen)
  | UWaiting => used = script
  end.
Proof.
  intros E max used. destruct (runUpstream_run cfg script "" ∅ 0 l res) as [H1 H2 H3 H4]; [lia|done|].
  split_and!; [exact H1|exact H2|exact H4|exact H3].
Qed.

Lemma reconnect_exact_witness :
  runUpstream (mkRelayConfig ["u"%string] 1 1 0)
    [(AFail EOF, true); (ASession "s" true 0 ∅, true); (AFail EOF, true); (AFail ErrIdle, true)] "" ∅ 0 =
    ([(""%string, ∅); (""%string, ∅); ("s"%string, ∅); ("s"%string, ∅)], UFailed ErrIdle) /\
  streak 0 [(AFail EOF, true); (ASession "s" true 0 ∅, true); (AFail EOF, true); (AFail ErrIdle, true)] = 2.
Proof.
  split; [reflexivity|].
  destruct (reconnect_exact (mkRelayConfig ["u"%string] 1 1 0)
    [(AFail EOF, true); (ASession "s" true 0 ∅, true); (AFail EOF, true); (AFail ErrIdle, true)] _ _ eq_refl)
    as (_ & _ & _ & _ & Hs & _).
  exact Hs.
Defined.

(** ** The end of an upstream *)

(** an orderly close of the upstream injects a unit.  When the upstream's
    server has closed the session with a Close frame and no other error was
    pending, a pump waiting for a track of that session can take the close for a
    unit and publish an empty access unit with sequence number 0 on the
    downstream track. *)
Theorem relay_forwards_phantom_unit {W W'} {JA : JSON Announce} {JU : JSON Unannounce} cfg base buffer
    (c0 : core W) own n (r : relay W Client) j se p name pub payload c :
  core_ok 0 own c0 -> is_Some (sv_tracks c0 !! "primary"%string) ->
  rreach (W' := W') cfg base buffer c0 n r -> Z.of_nat n < 2 ^ 64 ->
  rl_sessions r !! j = Some se -> se_pumps se !! p = Some (PRecv name pub) ->
  c_closed c = false -> ch_buf (c_feedErr c) = [] -> ch_closed (c_feedErr c) = false ->
  (0 < ch_cap (c_feedErr c))%nat ->
  controlFrame TypeClose payload c = Some (KReturn (se_conn se)) ->
  exists r1 r2, rstep (W' := W') cfg base buffer 0 r (Some r1) /\ rstep (W' := W') cfg base buffer 0 r1 (Some r2) /\
    rl_log r2 = rl_log r ++ [(name, se_url se, pub, zeroAU)].
Proof.
  intros Hc0 Hprim Hr Hn Hj Hp Hcl Hb Hc Hcap Hctl.
  assert (rinv cfg n r) as Hi by (apply (rreach_ok (W' := W') cfg base buffer c0); [by exists own|done..]).
  assert (c_closed (se_conn se) = true /\ try_recv (c_feedErr (se_conn se)) =
    Got None (mkChan [] (ch_cap (c_feedErr c)) false)) as [Hcl' Hfe].
  { revert Hctl. unfold controlFrame. simpl. unfold fail, pushFeedErr, try_send. rewrite Hc, Hb.
    destruct (Nat.ltb_spec (length (@nil (option error))) (ch_cap (c_feedErr c))) as [_|]; [|simpl in *; lia].
    simpl. unfold Client.Close. simpl. rewrite Hcl. simpl. destruct (dc_Close (c_dc c)) as [dc|]; [|done]. simpl.
    unfold writeCtl. destruct (WriteControlFrame _ _ _) as [e w]. simpl. intros [= <-]. done. }
  destruct (recvBegin name (se_conn se)) as [[a d] c1] eqn:Eb.
  assert (c_closed c1 = true /\ c_feedErr c1 = c_feedErr (se_conn se)) as [Hcl1 Hfe1].
  { revert Eb. unfold recvBegin. destruct (trackChan name _) as [a' f1]. destruct (trackDoneChan name f1) as [d' f2].
    by intros [= <- <- <-]. }
  assert (up_RecvOn (se_conn se) name (Ok zeroAU) (endError c1).2) as Hrecv.
  { exists None, a, d, c1, (RError (endError c1).1). split; [done|]. split; [by apply rs_closed|].
    unfold endError. by rewrite Hfe1, Hfe. }
  pose proof (rs_recv (W' := W') cfg base buffer r j se p name pub (Ok zeroAU) _ Hj Hp Hrecv) as Hst1.
  cbv iota in Hst1. set (se1 := mkRSession _ _ _ _ _) in Hst1. set (r1 := note j p [zeroAU] [] (put_session j se1 r)) in Hst1.
  assert (rl_sessions r1 !! j = Some se1) as Hj1 by (apply list_lookup_insert_eq; by eapply lookup_lt_Some).
  assert (se_pumps se1 !! p = Some (PForward name pub zeroAU)) as Hp1
    by (apply list_lookup_insert_eq; by eapply lookup_lt_Some).
  pose proof (rs_forward (W' := W') cfg base buffer r1 j se1 p name pub zeroAU _ (fun _ => (0, 0)%nat) Hj1 Hp1 (reflexivity _)) as Hst2.
  destruct (rstep_ok (W' := W') cfg base buffer n 0 r _ Hi Hn Hst1) as (r1' & [= <-] & Hi1). cbn [Nat.add] in Hi1.
  destruct (rstep_ok (W' := W') cfg base buffer n 0 r1 _ Hi1 Hn Hst2) as (r2 & E2 & _).
  exists r1, r2. rewrite E2 in Hst2. split; [done|]. split; [done|].
  destruct (Server.publishAt _ _ _ _ _) as [c2|]; [|done]. injection E2 as <-. done.
Qed.

Module RelayDemo.
Import ClientRecv.ClientDemo.
Definition demo_cfg : relayConfig := mkRelayConfig ["https://up"%string] 1 5 256.

#[local] Instance json_announce : JSON Announce := {| Marshal _ := Ok []; Unmarshal _ := Err EOF |}.
#[local] Instance json_unannounce : JSON Unannounce := {| Marshal _ := Ok []; Unmarshal _ := Err EOF |}.

Lemma demo_server : exists own (c : core unit), core_ok 0 own c /\ is_Some (sv_tracks c !! "primary"%string).
Proof.
  destruct (AddTrack_registry (W' := unit) (cfg0 false) 0 0 _ "primary" (newCore 0 tt) [] (newCore_ok 0 tt))
    as (own & c & _ & t & _ & Hc & Ht & _); [simpl; lia|]. exists own, c. split; [exact Hc|]. by rewrite Ht.
Qed.

Section DemoRun.
Context {C : Type} `{Upstream C} (conn : C) (c0 : core unit) (t : trackEntry).
Context (Ht : sv_tracks c0 !! "primary"%string = Some t).

Lemma demo_rstep n k (r r' : relay unit C) oc :
  rreach (W' := unit) demo_cfg (cfg0 false) 0 c0 n r -> rstep (W' := unit) demo_cfg (cfg0 false) 0 k r oc ->
  oc = Some r' -> rreach (W' := unit) demo_cfg (cfg0 false) 0 c0 (k + n) r'.
Proof. intros Hr Hs ->. by eapply rr_step. Qed.

(** A session with its primary pump waiting. *)
Definition demo_session (starting : option string) (pumped : gset string) (pumps : list rpump) : rsession C :=
  mkRSession "https://up" conn pumped starting pumps.
Definition demo_pumping : rsession C := demo_session None ({["primary"%string]} ∪ ∅) [PRecv "primary" (te_bc t)].
Definition demo_relay1 : relay unit C := mkRelay ∅ ∅ c0 [demo_session None ∅ []] [] ∅.
Definition demo_relay2 : relay unit C :=
  mkRelay {["primary"%string := "https://up"%string]} ∅ c0
    [demo_session (Some "primary"%string) ({["primary"%string]} ∪ ∅) []] [] ∅.
Definition demo_relay3 : relay unit C :=
  mkRelay {["primary"%string := "https://up"%string]} {["primary"%string := te_bc t]} c0 [demo_pumping] [] ∅.

Lemma demo_relay_run : rreach (W' := unit) demo_cfg (cfg0 false) 0 c0 0 demo_relay3.
Proof using Ht.
  assert (rreach (W' := unit) demo_cfg (cfg0 false) 0 c0 0 demo_relay1) as R1.
  { refine (demo_rstep 0 0 (newRelay c0) _ _ (rr_new _ _ _ _) (rs_session _ _ _ _ "https://up" conn _) eq_refl). by left. }
  assert (rreach (W' := unit) demo_cfg (cfg0 false) 0 c0 0 demo_relay2) as R2.
  { refine (demo_rstep 0 0 demo_relay1 _ _ R1 (rs_reserve _ _ _ demo_relay1 0 (demo_session None ∅ []) "primary" eq_refl eq_refl _) _);
      [by left|].
    reflexivity. }
  refine (demo_rstep 0 0 demo_relay2 _ _ R2 (rs_publisher _ _ _ demo_relay2 0
    (demo_session (Some "primary"%string) ({["primary"%string]} ∪ ∅) []) "primary" [] eq_refl eq_refl) _).
  unfold getOrCreatePublisher. cbn [rl_pubs demo_relay2 rl_core]. rewrite lookup_empty, decide_True by done.
  by rewrite Ht.
Qed.
End DemoRun.

Lemma relay_forwards_phantom_unit_witness :
  exists own c0 n (r : relay unit Client) b, core_ok 0 own c0 /\ rreach (W' := unit) demo_cfg (cfg0 false) 0 c0 n r /\
    rl_log r = [("primary"%string, "https://up"%string, b, zeroAU)].
Proof.
  destruct demo_server as (own & c0 & Hc & t & Ht). pose proof (demo_relay_run demo_ended c0 t Ht) as Hr.
  destruct (relay_forwards_phantom_unit demo_cfg (cfg0 false) 0 c0 own 0 _ 0
    (demo_pumping demo_ended t) 0 "primary" (te_bc t) [] demo_client
    Hc ltac:(by rewrite Ht) Hr ltac:(simpl; lia) eq_refl eq_refl eq_refl eq_refl eq_refl ltac:(simpl; lia) demo_ends)
    as (r1 & r2 & S1 & S2 & Hl).
  exists own, c0, (0 + (0 + 0))%nat, r2, (te_bc t). split; [exact Hc|]. split; [|exact Hl].
  exact (rr_step _ _ _ _ _ _ _ _ (rr_step _ _ _ _ _ _ _ _ Hr S1) S2).
Defined.

Lemma relay_safe_and_bounded_witness :
  exists own c0 (r : relay unit Client), core_ok 0 own c0 /\ rreach (W' := unit) demo_cfg (cfg0 false) 0 c0 0 r /\
    rl_sessions r <> [] /\ ~ rstep (W' := unit) demo_cfg (cfg0 false) 0 0 r None.
Proof.
  destruct demo_server as (own & c0 & Hc & t & Ht). pose proof (demo_relay_run demo_ended c0 t Ht) as Hr.
  exists own, c0, (demo_relay3 demo_ended c0 t). split; [exact Hc|]. split; [exact Hr|]. split; [discriminate|].
  destruct (relay_safe_and_bounded demo_cfg (cfg0 false) 0 c0 own 0 _ Hc ltac:(by rewrite Ht) Hr ltac:(simpl; lia)) as [Hs _].
  exact (Hs 0%nat ltac:(lia)).
Defined.

(** A connection that delivers a list of units. *)
#[local] Instance list_upstream : Upstream (list AccessUnit) :=
  {| up_RemoteTracks _ := ∅; up_RecvOn l _ res l' := match res with Ok au => l = au :: l' | Err _ => l = [] /\ l' = [] end |}.

(** The pump receives a unit and publishes it. *)
Lemma demo_forwarded : exists own c0 (r : relay unit (list AccessUnit)) b se,
  core_ok 0 own c0 /\ is_Some (sv_tracks c0 !! "primary"%string) /\ rreach (W' := unit) demo_cfg (cfg0 false) 0 c0 0 r /\
  rl_log r = [("primary"%string, "https://up"%string, b, forwarded (au0 1 true 2))] /\
  rl_sessions r !! 0%nat = Some se /\ se_pumps se !! 0%nat = Some (PRecv "primary" b) /\ (history 0 0 r).1 = [au0 1 true 2].
Proof.
  destruct demo_server as (own & c0 & Hc & t & Ht). pose proof (demo_relay_run [au0 1 true 2] c0 t Ht) as Hr.
  pose proof (rs_recv (W' := unit) demo_cfg (cfg0 false) 0 (demo_relay3 [au0 1 true 2] c0 t) 0 (demo_pumping [au0 1 true 2] t) 0
    "primary" (te_bc t) (Ok (au0 1 true 2)) [] eq_refl eq_refl eq_refl) as S1. cbv iota in S1.
  pose proof (rr_step _ _ _ _ _ _ _ _ Hr S1) as Hr1. set (r1 := note _ _ _ _ _) in *.
  pose proof (rs_forward (W' := unit) demo_cfg (cfg0 false) 0 r1 0 _ 0 "primary" (te_bc t) (au0 1 true 2) _
    (fun _ => (0, 0)%nat) eq_refl eq_refl (reflexivity _)) as S2.
  destruct (co_track _ _ _ Hc _ _ Ht) as (_ & o & Ho & _).
  destruct (publishAt_ok 0 own c0 (te_bc t) (forwarded (au0 1 true 2)) _ (fun _ => (0, 0)%nat) Hc ltac:(by rewrite Ho)
    (reflexivity _)) as (c' & E & _).
  cbn [rl_core r1 note put_session demo_relay3] in S2. rewrite E in S2. cbn [mbind option_bind] in S2.
  pose proof (rr_step _ _ _ _ _ _ _ _ Hr1 S2) as Hr2. cbn [Nat.add] in Hr2.
  eexists own, c0, _, (te_bc t), _. split; [exact Hc|]. split; [by rewrite Ht|]. split; [exact Hr2|]. split_and!; reflexivity.
Qed.

Lemma relay_forwards_exactly_witness :
  exists (r : relay unit (list AccessUnit)) b,
    Forall2 (fun au x => x.1 = b /\ same_content au x.2) [au0 1 true 2] (history 0 0 r).2 /\ rl_pubs r !! "primary"%string = Some b.
Proof.
  destruct demo_forwarded as (own & c0 & r & b & se & Hc & Hp & Hr & _ & Hj & Hg & Hh).
  destruct (relay_forwards_exactly demo_cfg (cfg0 false) 0 c0 own 0 r 0 se 0 _ Hc Hp Hr ltac:(simpl; lia) Hj Hg)
    as (_ & pub & sent & E1 & E2 & E3).
  cbn [in_flight] in E1. rewrite app_nil_r, Hh in E1. rewrite <- E1 in E2.
  exists r, pub. split; [exact E2|]. apply E3. reflexivity.
Defined.

Lemma relay_single_source_witness :
  exists (r : relay unit (list AccessUnit)) b, forall url b' au,
    ("primary"%string, url, b', au) ∈ rl_log r -> url = "https://up"%string /\ b' = b.
Proof.
  destruct demo_forwarded as (own & c0 & r & b & se & Hc & Hp & Hr & Hl & _). exists r, b. intros url b' au H1.
  apply (relay_single_source demo_cfg (cfg0 false) 0 c0 own 0 r "primary" url "https://up" b' b au (forwarded (au0 1 true 2)) Hc Hp Hr
    ltac:(simpl; lia) H1). rewrite Hl. by left.
Defined.
End RelayDemo.
