(* ===== verification/RelayRun.v ===== *)
(** * The relay as a process: ListenAndServe and Shutdown

    [relay/relay.go]: the downstream server and the reconnect loops of the
    upstreams ([Relay.v]) run beside [ListenAndServe], which collects their
    results; the steps of all of them are one relation. *)

From S2P Require Import Prelude Wire Track Replay Pubsub PubsubCalls RateLimit Pump DataChannel Inbound SessionStore.
From S2P Require Import KindStats Session Server ServerSessions Client ClientRecv ClientSessions ServerRun ShareLink.
From S2P Require Import ServerListen Relay.

Definition endsWith (s suffix : string) : bool :=
  (String.length suffix <=? String.length s)%nat &&
  bool_decide (String.substring (String.length s - String.length suffix) (String.length suffix) s = suffix).

(** The downstream server's goroutine: its result waits in [serverErr] until it
    is taken. *)
Inductive downstream := DRunning | DResult (err : option error) | DTaken (err : option error).

(** An upstream's goroutine: the rounds of [runUpstream] so far, and its result. *)
Record upstream := mkUpstream { u_script : list round; u_result : option upstreamResult }.

(** [ListenAndServe]: waiting for the bind, in its [select] with the first error,
    draining [pumpErr], waiting for the server, returned. *)
Inductive mainState :=
  | MBind | MSelect (firstErr : option error) | MDrain | MAwait | MReturned (err : option error).

Record relayRun := mkRelayRun {
  rr_ctx : bool;
  rr_closed : bool;
  rr_server : downstream;
  rr_addr : string;              (* empty until the server is bound *)
  rr_ups : list upstream;
  rr_pumpErr : list (option error);
  rr_pumpErrClosed : bool;
  rr_main : mainState;
}.

Definition set_main (m : mainState) (s : relayRun) : relayRun :=
  mkRelayRun (rr_ctx s) (rr_closed s) (rr_server s) (rr_addr s) (rr_ups s) (rr_pumpErr s) (rr_pumpErrClosed s) m.
Definition set_pumpErr (l : list (option error)) (s : relayRun) : relayRun :=
  mkRelayRun (rr_ctx s) (rr_closed s) (rr_server s) (rr_addr s) (rr_ups s) l (rr_pumpErrClosed s) (rr_main s).
Definition set_server (d : downstream) (s : relayRun) : relayRun :=
  mkRelayRun (rr_ctx s) (rr_closed s) d (rr_addr s) (rr_ups s) (rr_pumpErr s) (rr_pumpErrClosed s) (rr_main s).
Definition markShutdown (s : relayRun) : relayRun :=
  mkRelayRun (rr_ctx s) true (rr_server s) (rr_addr s) (rr_ups s) (rr_pumpErr s) (rr_pumpErrClosed s) (rr_main s).

(** [fmt.Errorf] with [%w] of an error; of nil it is an error all the same. *)
Definition errNilServer : error := ErrMsg "relay: downstream server: %!w(<nil>)".
Definition wrapServer (err : option error) : error := default errNilServer err.

Definition errNotBound : error := ErrMsg "downstream did not bind within 2s".

(** What a goroutine of [ListenAndServe] sends for the result of [runUpstream]. *)
Definition upstreamErr (r : upstreamResult) : option error :=
  match r with UFailed e => Some e | _ => None end.

(** [serverShutdownError], when the server's result arrives in time. *)
Definition serverShutdownError (err : option error) : option error :=
  match err with
  | Some ErrCanceled => None
  | e => e
  end.

Section RelayRun.
Context (cfg : relayConfig) (cfgAddr : string).

Definition boundAddr (s : relayRun) : string := if decide (rr_addr s = ""%string) then cfgAddr else rr_addr s.

(** The test of [waitForBind]. *)
Definition isBound (s : relayRun) : bool :=
  negb (bool_decide (boundAddr s = ""%string)) && negb (endsWith (boundAddr s) ":0").

(** A round of an upstream: a sleep is cut short only by the context, a session
    is given up alive only for the context or [closed]. *)
Definition roundAllowed (s : relayRun) (rd : round) : Prop :=
  (rd.2 = false -> rr_ctx s = true) /\
  match rd.1 with
  | ASession _ false _ _ => rr_ctx s = true \/ rr_closed s = true
  | _ => True
  end.

(** The result of the rounds of an upstream. *)
Definition roundsResult (script : list round) : upstreamResult := (runUpstream cfg script "" ∅ 0).2.

(** The goroutine of an upstream has come to [script]; a result goes to
    [pumpErr], which has room for one of each. *)
Definition putUpstream (i : nat) (script : list round) (r : option upstreamResult) (s : relayRun) : relayRun :=
  mkRelayRun (rr_ctx s) (rr_closed s) (rr_server s) (rr_addr s) (<[i := mkUpstream script r]> (rr_ups s))
    (rr_pumpErr s ++ match r with Some r => [upstreamErr r] | None => [] end) (rr_pumpErrClosed s) (rr_main s).

Definition upstreamRound (i : nat) (u : upstream) (rd : round) (s : relayRun) : relayRun :=
  let script := u_script u ++ [rd] in
  putUpstream i script (match roundsResult script with UWaiting => None | r => Some r end) s.

(** The first failure is kept, and closes the relay. *)
Definition recordFailure (firstErr err : option error) (s : relayRun) : relayRun :=
  match err, firstErr with
  | Some e, None => set_main (MSelect (Some e)) (markShutdown s)
  | _, _ => set_main (MSelect firstErr) s
  end.

Inductive rrstep : relayRun -> relayRun -> Prop :=
  | rr_cancel s :
      rrstep s (mkRelayRun true (rr_closed s) (rr_server s) (rr_addr s) (rr_ups s) (rr_pumpErr s) (rr_pumpErrClosed s) (rr_main s))
  | rr_shutdown s : rrstep s (markShutdown s)
  | rr_listen s addr :
      rr_server s = DRunning ->
      rrstep s (mkRelayRun (rr_ctx s) (rr_closed s) (rr_server s) addr (rr_ups s) (rr_pumpErr s) (rr_pumpErrClosed s) (rr_main s))
  | rr_listen_failed s e : rr_server s = DRunning -> rrstep s (set_server (DResult (Some e)) s)
  | rr_serve_end s r : rr_server s = DRunning -> rrstep s (set_server (DResult (serveResult (rr_ctx s) r)) s)
  | rr_bind s :
      rr_main s = MBind -> isBound s = true ->
      rrstep s (mkRelayRun (rr_ctx s) (rr_closed s) (rr_server s) (rr_addr s)
                  ((fun _ => mkUpstream [] None) <$> rc_Upstreams cfg) [] false (MSelect None))
  | rr_bind_ctx s e : rr_main s = MBind -> rr_ctx s = true -> rrstep s (set_main (MReturned (Some e)) s)
  | rr_bind_late s : rr_main s = MBind -> rrstep s (set_main (MReturned (Some errNotBound)) s)
  | rr_round s i u rd :
      rr_ups s !! i = Some u -> u_result u = None -> roundAllowed s rd -> rrstep s (upstreamRound i u rd s)
  | rr_close_pumpErr s :
      rr_main s <> MBind -> Forall (fun u => u_result u <> None) (rr_ups s) ->
      rrstep s (mkRelayRun (rr_ctx s) (rr_closed s) (rr_server s) (rr_addr s) (rr_ups s) (rr_pumpErr s) true (rr_main s))
  | rr_sel_ctx s f : rr_main s = MSelect f -> rr_ctx s = true -> rrstep s (set_main MDrain (markShutdown s))
  | rr_sel_server s f err :
      rr_main s = MSelect f -> rr_server s = DResult err ->
      rrstep s (set_main (MReturned (Some (wrapServer err))) (set_server (DTaken err) (markShutdown s)))
  | rr_sel_pump s f err l :
      rr_main s = MSelect f -> rr_pumpErr s = err :: l -> rrstep s (recordFailure f err (set_pumpErr l s))
  | rr_sel_done s f :
      rr_main s = MSelect f -> rr_pumpErr s = [] -> rr_pumpErrClosed s = true -> rrstep s (set_main (MReturned f) s)
  | rr_drain s err l : rr_main s = MDrain -> rr_pumpErr s = err :: l -> rrstep s (set_pumpErr l s)
  | rr_drained s : rr_main s = MDrain -> rr_pumpErr s = [] -> rr_pumpErrClosed s = true -> rrstep s (set_main MAwait s)
  | rr_await s err :
      rr_main s = MAwait -> rr_server s = DResult err ->
      rrstep s (set_main (MReturned (serverShutdownError err)) (set_server (DTaken err) s))
  | rr_await_late s : rr_main s = MAwait -> rrstep s (set_main (MReturned None) s).

Definition newRun : relayRun := mkRelayRun false false DRunning "" [] [] false MBind.
Definition rrreach : relayRun -> Prop := rtc rrstep newRun.

(** * Properties *)

(** An upstream has given up with [e]. *)
Definition failed (s : relayRun) (e : error) : Prop :=
  exists i u, rr_ups s !! i = Some u /\ u_result u = Some (UFailed e).

Definition ended (s : relayRun) : Prop := Forall (fun u => u_result u <> None) (rr_ups s).

(** What [ListenAndServe] may have returned. *)
Definition outcome (s : relayRun) (err : option error) : Prop :=
  (rr_ups s = [] /\ err <> None) \/
  (exists e, rr_server s = DTaken e /\ err = Some (wrapServer e)) \/
  (rr_ctx s = true /\ ended s /\ (err = None \/ exists e, rr_server s = DTaken e /\ err = serverShutdownError e)) \/
  (ended s /\ match err with None => forall e, ~ failed s e | Some e => failed s e end).

Definition main_ok (s : relayRun) : Prop :=
  match rr_main s with
  | MBind => rr_ups s = [] /\ rr_pumpErr s = [] /\ rr_pumpErrClosed s = false
  | MSelect None => forall e, failed s e -> Some e ∈ rr_pumpErr s
  | MSelect (Some e) => failed s e /\ rr_closed s = true
  | MDrain => rr_ctx s = true
  | MAwait => rr_ctx s = true /\ ended s
  | MReturned err => outcome s err
  end.

Definition upstream_ok (stopped : bool) (u : upstream) : Prop :=
  match u_result u with
  | None => u_script u = [] \/ roundsResult (u_script u) = UWaiting
  | Some r => r <> UWaiting /\ roundsResult (u_script u) = r /\ (r = UStopped -> stopped = true)
  end.

Record run_ok (s : relayRun) : Prop := {
  ro_ups : Forall (upstream_ok (rr_ctx s || rr_closed s)) (rr_ups s);
  ro_chan : forall e, Some e ∈ rr_pumpErr s -> failed s e;
  ro_closed : rr_pumpErrClosed s = true -> ended s;
  ro_main : main_ok s;
}.

(** Steps that leave the upstreams alone. *)
Record frame (s s' : relayRun) : Prop := {
  fr_ups : rr_ups s' = rr_ups s;
  fr_ctx : rr_ctx s = true -> rr_ctx s' = true;
  fr_closed : rr_closed s = true -> rr_closed s' = true;
  fr_taken : forall e, rr_server s = DTaken e -> rr_server s' = DTaken e;
}.

Lemma frame_ups s s' : frame s s' ->
  Forall (upstream_ok (rr_ctx s || rr_closed s)) (rr_ups s) -> Forall (upstream_ok (rr_ctx s' || rr_closed s')) (rr_ups s').
Proof.
  intros [-> Hc Hcl _] HF. eapply Forall_impl; [exact HF|]. intros u. unfold upstream_ok. destruct (u_result u) as [r|]; [|done].
  intros (H1 & H2 & H3). split_and!; [done|done|]. intros Hr. apply orb_prop in H3 as [H3 | H3]; [| |done].
  - by rewrite Hc.
  - rewrite Hcl by done. apply orb_true_r.
Qed.

Lemma frame_facts s s' : frame s s' -> (forall e, failed s' e <-> failed s e) /\ (ended s' <-> ended s).
Proof. intros [Hu _ _ _]. unfold failed, ended. by rewrite Hu. Qed.

Lemma outcome_frame s s' err : frame s s' -> outcome s err -> outcome s' err.
Proof.
  intros Hf. destruct (frame_facts s s' Hf) as [Hfa Hen]. destruct Hf as [Hu Hc _ Ht]. unfold outcome.
  intros [[H1 H2] | [(e & H1 & H2) | [(H1 & H2 & H3) | [H1 H2]]]].
  - left. by rewrite Hu.
  - right; left. eauto.
  - right; right; left. rewrite Hen. split_and!; auto. destruct H3 as [-> | (e & H3 & ->)]; eauto.
  - right; right; right. rewrite Hen. split; [done|]. destruct err; [by apply Hfa|]. intros e He. by apply (H2 e), Hfa.
Qed.

Lemma main_frame s s' :
  frame s s' -> rr_main s' = rr_main s -> rr_pumpErr s' = rr_pumpErr s -> rr_pumpErrClosed s' = rr_pumpErrClosed s ->
  main_ok s -> main_ok s'.
Proof.
  intros Hf Em Ep Epc. destruct (frame_facts s s' Hf) as [Hfa Hen]. unfold main_ok. rewrite Em, Ep, Epc, (fr_ups _ _ Hf).
  destruct (rr_main s) as [|[e|]| | |err]; try done.
  - intros [H1 H2]. split; [by apply Hfa|by apply Hf].
  - intros H e He. by apply H, Hfa.
  - by apply Hf.
  - intros [H1 H2]. split; [by apply Hf|by apply Hen].
  - by apply outcome_frame.
Qed.

(** A step of [ListenAndServe] itself. *)
Lemma main_move s s' :
  frame s s' -> rr_pumpErrClosed s' = rr_pumpErrClosed s -> (forall x, x ∈ rr_pumpErr s' -> x ∈ rr_pumpErr s) ->
  main_ok s' -> run_ok s -> run_ok s'.
Proof.
  intros Hf Epc Hp Hm [H1 H2 H3 H4]. destruct (frame_facts s s' Hf) as [Hfa Hen].
  split; [by eapply frame_ups| | |done].
  - intros e He. apply Hfa, H2. auto.
  - rewrite Epc, Hen. done.
Qed.

Lemma quiet_move s s' :
  frame s s' -> rr_main s' = rr_main s -> rr_pumpErr s' = rr_pumpErr s -> rr_pumpErrClosed s' = rr_pumpErrClosed s ->
  run_ok s -> run_ok s'.
Proof. intros Hf Em Ep Epc Hok. eapply main_move; [done|done|by rewrite Ep| |done]. eapply main_frame; eauto. apply Hok. Qed.

Lemma putUpstream_ok s i u script r :
  run_ok s -> rr_ups s !! i = Some u -> u_result u = None ->
  upstream_ok (rr_ctx s || rr_closed s) (mkUpstream script r) -> run_ok (putUpstream i script r s).
Proof.
  intros [H1 H2 H3 H4] Hi Hres Hu. pose proof (lookup_lt_Some _ _ _ Hi) as Hlt.
  assert (forall e, failed (putUpstream i script r s) e <-> failed s e \/ r = Some (UFailed e)) as Hfa.
  { intros e. split.
    - intros (k & v & Hk & Hv). cbn in Hk. apply list_lookup_insert_Some in Hk as [(<- & <- & _) | [_ Hk]]; [by right|].
      left. by exists k, v.
    - intros [(k & v & Hk & Hv) | ->]; [|by exists i, (mkUpstream script (Some (UFailed e))); split; [apply list_lookup_insert_eq|]].
      exists k, v. split; [|done]. cbn. rewrite list_lookup_insert_ne; [done|]. intros <-. congruence. }
  assert (~ ended s) as Hne by (intros He; eapply Forall_lookup_1 in He; [|exact Hi]; done).
  assert (rr_pumpErrClosed s = false) as Hpc by (destruct (rr_pumpErrClosed s); [by destruct Hne; apply H3|done]).
  assert (rr_ups s <> []) as Hnil by (intros E; by rewrite E in Hi).
  split; cbn.
  - by apply Forall_insert.
  - intros e He. apply Hfa. apply elem_of_app in He as [He | He]; [left; auto|].
    destruct r as [[| |err]|]; cbn in He; set_solver.
  - by rewrite Hpc.
  - unfold main_ok in *. cbn. destruct (rr_main s) as [|[e|]| | |err]; try (by destruct H4; try done).
    + split; [apply Hfa; left|]; apply H4.
    + intros e He. apply elem_of_app. apply Hfa in He as [He | ->]; [left; auto|right; cbn; set_solver].
    + destruct H4 as [[H4 _] | [H4 | [(_ & H4 & _) | [H4 _]]]]; try done. right; left. exact H4.
Qed.

(** Only a round that gives up ends an upstream quietly. *)
Lemma runUpstream_stopped script rd sid seen n :
  (runUpstream cfg script sid seen n).2 = UWaiting -> (runUpstream cfg (script ++ [rd]) sid seen n).2 = UStopped ->
  rd.2 = false \/ exists id age ls, rd.1 = ASession id false age ls.
Proof.
  revert sid seen n. induction script as [|[a slept] script IH]; intros sid seen n; cbn [app runUpstream].
  - intros _. destruct rd as [[err|id died age ls] slept].
    + destruct (_ && _); [done|]. destruct slept; [|by left]. done.
    + destruct died; cbn [negb]; [|right; eauto]. destruct slept; [done|by left].
  - destruct a as [err|id died age ls].
    + destruct (_ && _); [done|]. destruct slept; cbn [negb]; [|done].
      specialize (IH sid seen (n + 1)).
      destruct (runUpstream cfg script sid seen (n + 1)), (runUpstream cfg (script ++ [rd]) sid seen (n + 1)). exact IH.
    + destruct died; cbn [negb]; [|done]. destruct slept; cbn [negb]; [|done].
      specialize (IH id ls (if age >? 10 * rc_ReconnectInterval cfg then 0 else 0)).
      destruct (runUpstream cfg script _ _ _), (runUpstream cfg (script ++ [rd]) _ _ _). exact IH.
Qed.

Lemma upstreamRound_ok s i u rd :
  run_ok s -> rr_ups s !! i = Some u -> u_result u = None -> roundAllowed s rd -> run_ok (upstreamRound i u rd s).
Proof.
  intros Hok Hi Hres [Ha1 Ha2]. eapply putUpstream_ok; [done|exact Hi|done|].
  pose proof (Forall_lookup_1 _ _ _ _ (ro_ups _ Hok) Hi) as Hu. unfold upstream_ok in *. rewrite Hres in Hu.
  assert (roundsResult (u_script u) = UWaiting) as Hw by (destruct Hu as [-> | ->]; done).
  destruct (roundsResult (u_script u ++ [rd])) as [| |e] eqn:Er; cbn; [by right|split_and!; try done|by split_and!].
  intros _. destruct (runUpstream_stopped _ _ _ _ _ Hw Er) as [Hs | (id & age & ls & Hs)].
  - by rewrite Ha1.
  - rewrite Hs in Ha2. destruct Ha2 as [-> | ->]; [done|apply orb_true_r].
Qed.

Lemma recordFailure_ok s f err l :
  run_ok s -> rr_main s = MSelect f -> rr_pumpErr s = err :: l -> run_ok (recordFailure f err (set_pumpErr l s)).
Proof.
  intros Hok Em Ep. pose proof (ro_main _ Hok) as Hm. unfold main_ok in Hm. rewrite Em in Hm.
  assert (forall e, err = Some e -> failed s e) as Herr by (intros e ->; apply (ro_chan _ Hok); rewrite Ep; by left).
  assert (forall s', rr_pumpErr s' = l -> forall x, x ∈ rr_pumpErr s' -> x ∈ rr_pumpErr s) as Hsub
    by (intros s' -> x Hx; rewrite Ep; by right).
  unfold recordFailure. destruct err as [e|], f as [f|]; (apply (main_move s); [by split|done|by apply Hsub| |done]); cbn; try done.
  - by split; [apply Herr|].
  - intros e' He'. specialize (Hm e' He'). rewrite Ep in Hm. by apply elem_of_cons in Hm as [[=] | Hm].
Qed.

Lemma rrstep_ok s s' : run_ok s -> rrstep s s' -> run_ok s'.
Proof.
  intros Hok Hst. pose proof (ro_main _ Hok) as Hm. unfold main_ok in Hm.
  destruct Hst as [s|s|s addr Hd|s e Hd|s r Hd|s Em Hb|s e Em Hc|s Em Hb|s i u rd Hi Hr Ha|s Em He|s f Em Hc|s f err Em Hd
    |s f err l Em Ep|s f Em Ep Epc|s err l Em Ep|s Em Ep Epc|s err Em Hd|s Em];
    try (rewrite Em in Hm).
  1-5: by apply (quiet_move s); [split; cbn; congruence|..].
  - split; cbn; try done; [|set_solver|].
    + apply Forall_fmap, Forall_true. intros x. by left.
    + intros e (i & u & Hi & Hu). cbn in Hi. apply list_lookup_fmap_Some in Hi as (x & -> & _). done.
  - apply (main_move s); [by split|done|done| |done]. left. by destruct Hm.
  - apply (main_move s); [by split|done|done| |done]. left. by destruct Hm.
  - by apply upstreamRound_ok.
  - destruct Hok as [H1 H2 H3 H4]. split; cbn; try done. unfold main_ok in *. cbn. by destruct (rr_main s).
  - apply (main_move s); [by split|done|done|done|done].
  - apply (main_move s); [split; cbn; congruence|done|done| |done]. right; left. by exists err.
  - by apply recordFailure_ok.
  - apply (main_move s); [by split|done|done| |done]. right; right; right. split; [by apply (ro_closed _ Hok)|].
    destruct f as [e|]; [by apply Hm|]. intros e He. specialize (Hm e He). rewrite Ep in Hm. by apply elem_of_nil in Hm.
  - apply (main_move s); [by split|done| |unfold main_ok; cbn; by rewrite Em|done]. intros x Hx. rewrite Ep. by right.
  - apply (main_move s); [by split|done|done| |done]. split; [done|by apply (ro_closed _ Hok)].
  - destruct Hm as [Hc He]. apply (main_move s); [split; cbn; congruence|done|done| |done]. right; right; left. split_and!; [done|done|].
    right. by exists err.
  - destruct Hm as [Hc He]. apply (main_move s); [by split|done|done| |done]. right; right; left. split_and!; [done|done|by left].
Qed.

Lemma rrreach_ok s : rrreach s -> run_ok s.
Proof.
  intros Hr. unfold rrreach in Hr. remember newRun as s0 eqn:E.
  assert (run_ok s0) as H0 by (subst; split; cbn; [constructor|set_solver|done|done]). clear E.
  induction Hr as [|s0 s1 s2 Hst _ IH]; [done|]. apply IH. by eapply rrstep_ok.
Qed.
End RelayRun.

(** * Theorems *)

(** C28: what the relay's [ListenAndServe] returns.  In every interleaving of the
    server, the upstreams, the context and [Shutdown], a return means one of: the
    downstream server did not bind, and no upstream was dialled; the server
    ended, and the error wraps its result; the context was cancelled, every
    upstream loop has ended, and the error is nil or the server's; or every
    upstream loop has ended, and the error is that of an upstream whose
    reconnect budget is used up, nil if there is none.  An upstream loop ends
    without an error only after a cancel or a shutdown. *)
Theorem relay_serve_result cfg cfgAddr s err :
  rrreach cfg cfgAddr s -> rr_main s = MReturned err ->
  ((rr_ups s = [] /\ err <> None) \/
   (exists e, rr_server s = DTaken e /\ err = Some (wrapServer e)) \/
   (rr_ctx s = true /\ ended s /\ (err = None \/ exists e, rr_server s = DTaken e /\ err = serverShutdownError e)) \/
   (ended s /\ match err with None => forall e, ~ failed s e | Some e => failed s e end)) /\
  Forall (fun u => match u_result u with
                   | Some UStopped => rr_ctx s || rr_closed s = true
                   | Some r => roundsResult cfg (u_script u) = r
                   | None => True
                   end) (rr_ups s).
Proof.
  intros Hr Em. pose proof (rrreach_ok cfg cfgAddr s Hr) as [H1 _ _ Hm]. unfold main_ok in Hm. rewrite Em in Hm.
  split; [exact Hm|]. eapply Forall_impl; [exact H1|]. intros u. unfold upstream_ok.
  destruct (u_result u) as [[| |e]|]; try done; intros (H2 & H3 & H4); auto.
Qed.

(** The rest of [ListenAndServe] once the upstream loops have ended. *)
Lemma relay_collects cfg cfgAddr l : forall s f,
  rr_main s = MSelect f -> rr_pumpErr s = l -> ended s ->
  exists s' err, rtc (rrstep cfg cfgAddr) s s' /\ rr_main s' = MReturned err.
Proof.
  induction l as [|x l IH]; intros s f Em Ep He.
  - pose proof (rr_close_pumpErr cfg cfgAddr s ltac:(congruence) He) as H1. set (s1 := mkRelayRun _ _ _ _ _ _ _ _) in H1.
    exists (set_main (MReturned f) s1), f. split; [|done]. eapply rtc_l; [exact H1|]. apply rtc_once.
    by apply (rr_sel_done cfg cfgAddr s1 f).
  - pose proof (rr_sel_pump cfg cfgAddr s f x l Em Ep) as H1.
    destruct (IH (recordFailure f x (set_pumpErr l s)) (match x, f with Some e, None => Some e | _, _ => f end))
      as (s' & err & Hs & Hm); [by destruct x, f|by destruct x, f|by destruct x, f|].
    exists s', err. split; [|done]. by eapply rtc_l.
Qed.

Lemma relay_drains cfg cfgAddr l : forall s,
  rr_main s = MDrain -> rr_pumpErr s = l -> ended s ->
  exists s' err, rtc (rrstep cfg cfgAddr) s s' /\ rr_main s' = MReturned err.
Proof.
  induction l as [|x l IH]; intros s Em Ep He.
  - pose proof (rr_close_pumpErr cfg cfgAddr s ltac:(congruence) He) as H1. set (s1 := mkRelayRun _ _ _ _ _ _ _ _) in H1.
    exists (set_main (MReturned None) (set_main MAwait s1)), None. split; [|done]. eapply rtc_l; [exact H1|].
    eapply rtc_l; [by apply (rr_drained cfg cfgAddr s1)|]. apply rtc_once. by apply rr_await_late.
  - destruct (IH (set_pumpErr l s)) as (s' & err & Hs & Hm); [done..|]. exists s', err. split; [|done].
    eapply rtc_l; [|exact Hs]. by apply (rr_drain cfg cfgAddr s x l).
Qed.

(** Leaving a session ends an upstream's loop, wherever it is. *)
Definition leaveRound : round := (ASession "" false 0 ∅, true).

Lemma runUpstream_leaves cfg script sid seen n :
  (runUpstream cfg script sid seen n).2 = UWaiting ->
  (runUpstream cfg (script ++ [leaveRound]) sid seen n).2 = UStopped.
Proof.
  revert sid seen n. induction script as [|[a slept] script IH]; intros sid seen n; cbn [app runUpstream]; [done|].
  destruct a as [err|id died age ls].
  - destruct (_ && _); [done|]. destruct slept; cbn [negb]; [|done]. specialize (IH sid seen (n + 1)).
    destruct (runUpstream cfg script sid seen (n + 1)), (runUpstream cfg (script ++ _) sid seen (n + 1)). exact IH.
  - destruct died; cbn [negb]; [|done]. destruct slept; cbn [negb]; [|done].
    specialize (IH id ls (if age >? 10 * rc_ReconnectInterval cfg then 0 else 0)).
    destruct (runUpstream cfg script _ _ _), (runUpstream cfg (script ++ _) _ _ _). exact IH.
Qed.

(** With the context cancelled every upstream loop can end. *)
Lemma upstreams_end cfg cfgAddr s :
  rrreach cfg cfgAddr s -> rr_ctx s = true ->
  exists s', rtc (rrstep cfg cfgAddr) s s' /\ rr_main s' = rr_main s /\ ended s'.
Proof.
  intros Hr Hc. assert (forall n, (n <= length (rr_ups s))%nat -> exists s', rtc (rrstep cfg cfgAddr) s s' /\ rr_main s' = rr_main s /\
    rr_ctx s' = true /\ length (rr_ups s') = length (rr_ups s) /\
    forall i u, (i < n)%nat -> rr_ups s' !! i = Some u -> u_result u <> None) as H.
  { induction n as [|n IH]; intros Hn; [exists s; split_and!; [apply rtc_refl|done|done|done|lia]|].
    destruct IH as (s1 & Hs & Em & Hc1 & Hl & Hen); [lia|].
    destruct (lookup_lt_is_Some_2 (rr_ups s1) n) as [u Hu]; [lia|].
    destruct (u_result u) as [r|] eqn:Er.
    { exists s1. split_and!; try done. intros i v Hi Hv. destruct (decide (i = n)) as [-> | ]; [congruence|]. eapply Hen; [|done]. lia. }
    assert (roundsResult cfg (u_script u) = UWaiting) as Hw.
    { assert (rrreach cfg cfgAddr s1) as Hr1 by (unfold rrreach in *; by etrans).
      pose proof (rrreach_ok cfg cfgAddr s1 Hr1) as [Hups _ _ _].
      pose proof (Forall_lookup_1 _ _ _ _ Hups Hu) as Huo. unfold upstream_ok in Huo. rewrite Er in Huo. by destruct Huo as [-> | ->]. }
    assert (roundsResult cfg (u_script u ++ [leaveRound]) = UStopped) as Hst by (by apply runUpstream_leaves).
    set (rd := leaveRound) in *.
    assert (rrstep cfg cfgAddr s1 (upstreamRound cfg n u rd s1)) as Hstep
      by (apply rr_round; [done|done|]; split; [done|by left]).
    assert (upstreamRound cfg n u rd s1 = putUpstream n (u_script u ++ [rd]) (Some UStopped) s1) as Eq
      by (unfold upstreamRound; cbv zeta; by rewrite Hst).
    rewrite Eq in Hstep.
    eexists. split; [by eapply rtc_r|]. split_and!; [done|done|by cbn; rewrite length_insert|].
    intros i v Hi Hv. cbn in Hv. apply list_lookup_insert_Some in Hv as [(<- & <- & _) | [Hne Hv]]; [done|].
    eapply Hen; [|done]. lia. }
  destruct (H (length (rr_ups s)) (le_n _)) as (s' & Hs & Em & _ & Hl & Hen). exists s'. split_and!; [done|done|].
  apply Forall_lookup_2. intros i u Hi. eapply Hen; [|done]. rewrite <- Hl. by eapply lookup_lt_Some.
Qed.

(** the relay can always stop.  From any state it can get into, also after
    failures and with upstreams in any phase of their reconnecting, a cancelled
    context lets every upstream loop end and [ListenAndServe] return: no wait of
    the relay blocks for ever on another. *)
Theorem relay_can_stop cfg cfgAddr s :
  rrreach cfg cfgAddr s -> rr_ctx s = true ->
  exists s' err, rtc (rrstep cfg cfgAddr) s s' /\ rr_main s' = MReturned err.
Proof.
  intros Hr Hc. destruct (upstreams_end cfg cfgAddr s Hr Hc) as (s1 & Hs & Em & He).
  assert (forall s2, (exists s' err, rtc (rrstep cfg cfgAddr) s2 s' /\ rr_main s' = MReturned err) -> rtc (rrstep cfg cfgAddr) s s2 ->
    exists s' err, rtc (rrstep cfg cfgAddr) s s' /\ rr_main s' = MReturned err) as Htr.
  { intros s2 (s' & err & H1 & H2) H3. exists s', err. split; [by etrans|done]. }
  destruct (rr_main s) as [|f| | |err] eqn:E.
  - exists (set_main (MReturned (Some ErrCanceled)) s), (Some ErrCanceled). split; [|done]. apply rtc_once. by apply rr_bind_ctx.
  - by apply (Htr s1); [eapply relay_collects|].
  - by apply (Htr s1); [eapply relay_drains|].
  - exists (set_main (MReturned None) s), None. split; [|done]. apply rtc_once. by apply rr_await_late.
  - by exists s, err.
Qed.

(** a relay that is stopped by its context can report an error although nothing
    failed: the downstream server ends with nil for the same cancel, both cases
    of the [select] are ready, and taking the server's wraps nil. *)
Theorem cancel_can_report_error cfg cfgAddr :
  negb (bool_decide (cfgAddr = ""%string)) && negb (endsWith cfgAddr ":0") = true ->
  exists s, rrreach cfg cfgAddr s /\ rr_ctx s = true /\ rr_server s = DTaken None /\
    (forall e, ~ failed s e) /\ rr_main s = MReturned (Some errNilServer).
Proof.
  intros Hb. set (ups := (fun _ => mkUpstream [] None) <$> rc_Upstreams cfg).
  exists (mkRelayRun true true (DTaken None) "" ups [] false (MReturned (Some errNilServer))). split_and!; try done.
  2:{ intros e (i & u & Hi & Hu). cbn in Hi. apply list_lookup_fmap_Some in Hi as (x & -> & _). done. }
  unfold rrreach. eapply rtc_l; [by apply (rr_bind cfg cfgAddr newRun)|]. eapply rtc_l; [by apply rr_cancel|]. cbn.
  eapply rtc_l; [by apply (rr_serve_end cfg cfgAddr _ ServeClosed)|]. cbn.
  eapply rtc_l; [by eapply rr_sel_server|]. cbn. apply rtc_refl.
Qed.

(** when an upstream has failed for good [ListenAndServe] returns its error, but
    the downstream server is left running: only the relay's own channel is
    closed, which the server does not look at, where a comment says that this
    kicks the downstream into shutdown. *)
Theorem failed_upstream_leaves_server_running url e interval cap cfgAddr :
  negb (bool_decide (cfgAddr = ""%string)) && negb (endsWith cfgAddr ":0") = true ->
  let cfg := mkRelayConfig [url] interval 0 cap in
  exists s, rrreach cfg cfgAddr s /\ rr_ctx s = false /\ rr_server s = DRunning /\ rr_main s = MReturned (Some e).
Proof.
  intros Hb cfg. set (u := mkUpstream [(AFail e, true)] (Some (UFailed e))).
  exists (mkRelayRun false true DRunning "" [u] [] true (MReturned (Some e))). split_and!; try done.
  unfold rrreach. eapply rtc_l; [by apply (rr_bind cfg cfgAddr newRun)|]. cbn.
  eapply rtc_l; [by apply (rr_round cfg cfgAddr _ 0 (mkUpstream [] None) (AFail e, true))|]. cbn.
  eapply rtc_l; [by eapply (rr_sel_pump cfg cfgAddr _ None (Some e) [])|]. cbn.
  eapply rtc_l; [apply rr_close_pumpErr; [done|by apply Forall_singleton]|]. cbn.
  eapply rtc_l; [by apply (rr_sel_done cfg cfgAddr _ (Some e))|]. cbn. apply rtc_refl.
Qed.

Module RelayRunDemo.
Definition demo_cfg : relayConfig := mkRelayConfig ["up"%string] 1000000000 0 256.

Lemma demo_bound : negb (bool_decide (":4433" = ""%string)) && negb (endsWith ":4433" ":0") = true.
Proof. reflexivity. Qed.

Lemma demo_failed : exists s, rrreach demo_cfg ":4433" s /\ rr_main s = MReturned (Some ErrIdle).
Proof.
  destruct (failed_upstream_leaves_server_running "up" ErrIdle 1000000000 256 ":4433" demo_bound) as (s & Hr & _ & _ & Hm). eauto.
Qed.

Lemma relay_serve_result_witness :
  exists s, rrreach demo_cfg ":4433" s /\ (rr_ups s = [] \/ (exists e, rr_server s = DTaken e) \/ rr_ctx s = true \/ failed s ErrIdle).
Proof.
  destruct demo_failed as (s & Hr & Hm). exists s. split; [exact Hr|].
  destruct (relay_serve_result demo_cfg ":4433" s (Some ErrIdle) Hr Hm) as
    [[[H _] | [(e & H & _) | [(H & _) | [_ H]]]] _]; [by left|by right; left; exists e|by right; right; left|by right; right; right].
Defined.

Definition cancelled : relayRun := mkRelayRun true false DRunning "" [] [] false MBind.

Lemma relay_can_stop_witness :
  exists s' err, rtc (rrstep demo_cfg ":4433") cancelled s' /\ rr_main s' = MReturned err.
Proof.
  apply (relay_can_stop demo_cfg ":4433" cancelled); [|reflexivity].
  apply rtc_once. exact (rr_cancel demo_cfg ":4433" newRun).
Defined.
End RelayRunDemo.
