(* ===== verification/Adapters.v ===== *)
(** * The transport interface and its two implementations

    The interface of [transport/transport.go] is the class [Transport], its
    promises on the life of a connection are [TransportLaws]; the publisher's
    adapter of [server/transport.go] is [serverTransport] over the server of
    [Server.v], the subscriber's of [client/transport.go] is [clientTransport]
    over the client of [Client.v].  A call is a relation, since it may wait for
    the peer; [None] is a panic.  What the goroutines of the session do between
    calls, and while a call waits, is [tEnv]. *)

From S2P Require Import Prelude Wire Track Replay Pubsub PubsubCalls RateLimit Pump DataChannel Inbound SessionStore.
From S2P Require Import Session Server Client ServerRun ShareLink.

(** ** transport: errors, options, the interface *)

Definition ErrUnsupported : error := ErrMsg "quicrtc/transport: operation not supported by this transport".
Definition ErrAlreadyConnected : error := ErrMsg "quicrtc/transport: already connected".
Definition ErrNotConnected : error := ErrMsg "quicrtc/transport: not connected".

Definition RolePublisher : string := "publisher".
Definition RoleSubscriber : string := "subscriber".

Record NativeOpts := mkNativeOpts {
  no_Role : string;
  no_ServerAddr : string;
  no_SDP : option SDP; (* [None]: the zero value *)
  no_CertExtraIPs : list string;
  no_AllowedOrigins : list string;
  no_MaxSessions : Z;
  no_ServerURL : string;
  no_CertHashB64URL : string;
  no_HelloTimeout : Z;
  no_Slug : string;
}.

Record RemoteTrack := mkRemoteTrack {
  rt_Name : string; rt_Kind : Kind; rt_Codec : string; rt_Priority : Z; rt_Delivery : Z }.

(** [Recv] is [RecvOn] on "primary" in both implementations; [Kind] and [Stats]
    have no state. *)
Class Transport (T : Type) := {
  tSender : Type;
  tChannel : Type;
  tConnect : option NativeOpts -> T -> option (option error * T) -> Prop;
  tPublish : LocalTrack -> T -> option (result tSender * T) -> Prop;
  tUnpublish : string -> T -> option (option error * T) -> Prop;
  tRecvOn : string -> T -> result AccessUnit * T -> Prop;
  tDataChannel : T -> result tChannel * T -> Prop;
  tRemoteTrack : T -> option RemoteTrack;
  tClose : T -> option (option error * T) -> Prop;
  tEnv : T -> T -> Prop;
}.

(** ** server/transport.go: the publisher *)

Definition HasSuffix (s suffix : string) : bool :=
  (String.length suffix <=? String.length s)%nat &&
  String.eqb (String.substring (String.length s - String.length suffix) (String.length suffix) s) suffix.

(** One poll of [Connect]: the server's [addr] (empty until it is bound), the
    state of the caller's context, and whether the two seconds are over. *)
Record poll := mkPoll { po_addr : string; po_ctxErr : option error; po_late : bool }.

Section ServerAdapter.
Context {W W' : Type} {JA : JSON Announce} {JU : JSON Unannounce}.

(** [st_ctxs] has a context per call of [ListenAndServe], with whether it is
    cancelled; [t.cancel] is that of the last.  A sender and a data channel are
    known by the address of their broadcaster and their number. *)
Record serverTransport := mkServerTransport {
  st_base : Config;
  st_buffer : Z;
  st_cfgAddr : string;
  st_core : core W;
  st_sessions : list (session W');
  st_addr : string;
  st_slug : string;
  st_started : bool;
  st_ctxs : list bool;
  st_senders : gmap string nat;
  st_dcCh : chan nat;
  st_dcLatest : option nat;
}.

Definition with_started (t : serverTransport) (started : bool) (ctxs : list bool) : serverTransport :=
  mkServerTransport (st_base t) (st_buffer t) (st_cfgAddr t) (st_core t) (st_sessions t) (st_addr t) (st_slug t)
    started ctxs (st_senders t) (st_dcCh t) (st_dcLatest t).
Definition with_addr (t : serverTransport) (addr : string) : serverTransport :=
  mkServerTransport (st_base t) (st_buffer t) (st_cfgAddr t) (st_core t) (st_sessions t) addr (st_slug t)
    (st_started t) (st_ctxs t) (st_senders t) (st_dcCh t) (st_dcLatest t).
Definition with_slug (t : serverTransport) (slug : string) : serverTransport :=
  mkServerTransport (st_base t) (st_buffer t) (st_cfgAddr t) (st_core t) (st_sessions t) (st_addr t) slug
    (st_started t) (st_ctxs t) (st_senders t) (st_dcCh t) (st_dcLatest t).
Definition with_server (t : serverTransport) (c : core W) (ss : list (session W')) : serverTransport :=
  mkServerTransport (st_base t) (st_buffer t) (st_cfgAddr t) c ss (st_addr t) (st_slug t)
    (st_started t) (st_ctxs t) (st_senders t) (st_dcCh t) (st_dcLatest t).
Definition with_senders (t : serverTransport) (m : gmap string nat) : serverTransport :=
  mkServerTransport (st_base t) (st_buffer t) (st_cfgAddr t) (st_core t) (st_sessions t) (st_addr t) (st_slug t)
    (st_started t) (st_ctxs t) m (st_dcCh t) (st_dcLatest t).
Definition with_dc (t : serverTransport) (ch : chan nat) (latest : option nat) : serverTransport :=
  mkServerTransport (st_base t) (st_buffer t) (st_cfgAddr t) (st_core t) (st_sessions t) (st_addr t) (st_slug t)
    (st_started t) (st_ctxs t) (st_senders t) ch latest.

(** [NewTransport], around the server that [server.New] returned. *)
Definition newServerTransport (base : Config) (buffer : Z) (cfgAddr slug : string) (c : core W) : serverTransport :=
  mkServerTransport base buffer cfgAddr c [] "" slug false [] ∅ (make_chan nat 1) None.

(** The callback [NewTransport] installs, up to the user's own callback. *)
Definition OnDataChannel (dc : nat) (t : serverTransport) : option serverTransport :=
  match try_send (st_dcCh t) dc with
  | SendPanic => None
  | Sent ch => Some (with_dc t ch (Some dc))
  | SendFull => Some (with_dc t (st_dcCh t) (Some dc))
  end.

(** [Addr] of the server. *)
Definition Addr (t : serverTransport) : string := if decide (st_addr t = ""%string) then st_cfgAddr t else st_addr t.

(** [t.cancel()]. *)
Definition cancelLast (ctxs : list bool) : list bool :=
  match length ctxs with O => [] | S n => <[n := true]> ctxs end.

Definition errBindTimeout (addr : string) : error := ErrMsg ("server transport: bind timeout, addr=" +:+ addr).

(** The loop of [Connect]; [None]: it is still polling. *)
Fixpoint waitBound (polls : list poll) (t : serverTransport) : option (option error * serverTransport) :=
  match polls with
  | [] => None
  | p :: polls' =>
      let t := with_addr t (po_addr p) in
      if negb (HasSuffix (Addr t) ":0") then Some (None, with_started t true (st_ctxs t))
      else match po_ctxErr p with
           | Some e => Some (Some e, with_started t (st_started t) (cancelLast (st_ctxs t)))
           | None =>
               if po_late p then
                 Some (Some (errBindTimeout (Addr t)), with_started t (st_started t) (cancelLast (st_ctxs t)))
               else waitBound polls' t
           end
  end.

Definition errPublisherOpts : error := ErrMsg "server transport requires Native publisher opts".

Definition st_Connect (polls : list poll) (opts : option NativeOpts) (t : serverTransport)
    : option (option error * serverTransport) :=
  if st_started t then Some (Some ErrAlreadyConnected, t)
  else match opts with
       | None => Some (Some errPublisherOpts, t)
       | Some n =>
           if negb (bool_decide (no_Role n = RolePublisher)) then Some (Some errPublisherOpts, t)
           else
             let t := if decide (no_Slug n = ""%string) then t else with_slug t (no_Slug n) in
             waitBound polls (with_started t (st_started t) (st_ctxs t ++ [false]))
       end.

Definition st_Publish (lt : LocalTrack) (t : serverTransport) : option (result nat * serverTransport) :=
  if negb (st_started t) then Some (Err ErrNotConnected, t)
  else
    let name := publishName lt in
    match st_senders t !! name with
    | Some s => Some (Ok s, t)
    | None =>
        res ← AddTrackWithPriority (st_base t) (st_buffer t) name (u8 (lt_Priority lt)) (st_core t) (st_sessions t);
        e ← sv_tracks res.1 !! name;
        Some (Ok (te_bc e), with_senders (with_server t res.1 res.2) (<[name := te_bc e]> (st_senders t)))
    end.

Definition st_Unpublish (closeOrder : gset nat -> list nat) (name : string) (t : serverTransport)
    : option (option error * serverTransport) :=
  if negb (st_started t) then Some (Some ErrNotConnected, t)
  else
    let name := if decide (name = ""%string) then "primary"%string else name in
    match st_senders t !! name with
    | None => Some (None, t)
    | Some _ =>
        res ← RemoveTrack closeOrder name (st_core t) (st_sessions t);
        Some (None, with_senders (with_server t res.1 res.2) (delete name (st_senders t)))
    end.

(** [Send] of a sender. *)
Definition st_Send (s : nat) (au : AccessUnit) (order : list nat) (sched : nat -> nat * nat) (t : serverTransport)
    : option serverTransport :=
  c ← Server.publishAt s au order sched (st_core t); Some (with_server t c (st_sessions t)).

(** What happens without a call: sessions come, go and work, the server binds,
    and data channels open.  The set of tracks changes by calls only. *)
Inductive st_env : serverTransport -> serverTransport -> Prop :=
  | se_server t c ss :
      sv_tracks c = sv_tracks (st_core t) -> st_env t (with_server t c ss)
  | se_bound t addr : st_env t (with_addr t addr)
  | se_channel t dc t' : OnDataChannel dc t = Some t' -> st_env t t'.

Definition with_in (s : session W') (d : dstate) : session W' :=
  mkSession (ss_id s) (ss_ob s) d (ss_dc s) (ss_bytesOut s) (ss_lastAttempt s) (ss_lastPing s) (ss_ctl s)
    (ss_out s) (ss_world s).

(** [RecvOn]: [AnySession] is any registered session; the wait for one ends with
    the context or after two seconds; the session's [InboundRecv] finds or makes
    the queue and waits on it. *)
Inductive st_RecvOn (name : string) (t : serverTransport) : result AccessUnit * serverTransport -> Prop :=
  | sr_not : st_started t = false -> st_RecvOn name t (Err ErrNotConnected, t)
  | sr_ctx t1 e : st_started t = true -> rtc st_env t t1 -> st_sessions t1 = [] -> st_RecvOn name t (Err e, t1)
  | sr_timeout t1 :
      st_started t = true -> rtc st_env t t1 -> st_sessions t1 = [] ->
      st_RecvOn name t (Err (ErrMsg "server transport: no subscriber session"), t1)
  | sr_recv t1 i s a ib t2 s2 res d :
      st_started t = true -> rtc st_env t t1 -> st_sessions t1 !! i = Some s ->
      inboundTrackChan name (d_ib (ss_in s)) = (a, ib) ->
      rtc st_env (with_server t1 (st_core t1) (<[i := with_in s (with_ib (ss_in s) ib)]> (st_sessions t1))) t2 ->
      st_sessions t2 !! i = Some s2 -> InboundRecv a (ss_in s2) res d ->
      st_RecvOn name t (res, with_server t2 (st_core t2) (<[i := with_in s2 d]> (st_sessions t2))).

(** [DataChannel]: the latched channel, or the first one to come. *)
Inductive st_DataChannel (t : serverTransport) : result nat * serverTransport -> Prop :=
  | sd_not : st_started t = false -> st_DataChannel t (Err ErrNotConnected, t)
  | sd_latest dc : st_started t = true -> st_dcLatest t = Some dc -> st_DataChannel t (Ok dc, t)
  | sd_first t1 dc ch :
      st_started t = true -> st_dcLatest t = None -> rtc st_env t t1 -> try_recv (st_dcCh t1) = Got dc ch ->
      st_DataChannel t (Ok dc, with_dc t1 ch (Some (default dc (st_dcLatest t1))))
  | sd_timeout t1 :
      st_started t = true -> st_dcLatest t = None -> rtc st_env t t1 ->
      st_DataChannel t (Err (ErrMsg "server transport: no subscriber DC available yet"), t1).

Definition st_Close (t : serverTransport) : option error * serverTransport :=
  (None, with_started t false (cancelLast (st_ctxs t))).

#[export] Instance server_transport : Transport serverTransport := {|
  tSender := nat;
  tChannel := nat;
  tConnect opts t res := exists polls e t', st_Connect polls opts t = Some (e, t') /\ res = Some (e, t');
  tPublish lt t res := res = st_Publish lt t;
  tUnpublish name t res := exists closeOrder, (forall rs, closeOrder rs ≡ₚ elements rs) /\ res = st_Unpublish closeOrder name t;
  tRecvOn := st_RecvOn;
  tDataChannel := st_DataChannel;
  tRemoteTrack _ := None;
  tClose t res := res = Some (st_Close t);
  tEnv := st_env;
|}.
End ServerAdapter.
Arguments serverTransport : clear implicits.

(** ** client/transport.go: the subscriber *)

(** [url.Parse], as [Client.parseURL] takes it. *)
Class UrlParser := Parse : string -> result URL.

Section ClientAdapter.
Context {UP : UrlParser} {JH : JSON Hello} {JS : JSON SDP} {JA : JSON Announce} {JU : JSON Unannounce}.

Record clientTransport := mkClientTransport {
  ct_c : option Client;
  ct_url : string;
  ct_opts : Options;
  ct_started : bool;
  ct_remote : option RemoteTrack;
}.

(** [NewTransport]. *)
Definition newClientTransport (url : string) (opts : Options) : clientTransport :=
  mkClientTransport None url opts false None.

Definition with_client (t : clientTransport) (c : Client) : clientTransport :=
  mkClientTransport (Some c) (ct_url t) (ct_opts t) (ct_started t) (ct_remote t).

(** The overrides of [Connect] and its default time-out. *)
Definition overrideOpts (n : NativeOpts) (o : Options) : Options :=
  mkOptions (if decide (no_CertHashB64URL n = ""%string) then o_CertHashB64URL o else no_CertHashB64URL n)
    (o_InsecureSkipVerify o)
    (if decide (no_Slug n = ""%string) then o_Slug o else no_Slug n)
    (if no_HelloTimeout n >? 0 then no_HelloTimeout n else o_HelloTimeout o)
    (o_SessionID o) (o_LastSeenSeq o) (o_Features o) (o_DataInboundBuffer o).

Definition defaultTimeout (o : Options) : Options :=
  mkOptions (o_CertHashB64URL o) (o_InsecureSkipVerify o) (o_Slug o)
    (if o_HelloTimeout o <=? 0 then 5 * 1000000000 else o_HelloTimeout o)
    (o_SessionID o) (o_LastSeenSeq o) (o_Features o) (o_DataInboundBuffer o).

Definition connectURL (copts : option NativeOpts) (url : string) : string :=
  match copts with
  | Some n => if decide (no_ServerURL n = ""%string) then url else no_ServerURL n
  | None => url
  end.

Definition connectOptions (copts : option NativeOpts) (o : Options) : Options :=
  defaultTimeout (match copts with Some n => overrideOpts n o | None => o end).

Definition ct_Connect (connect : URL -> trust -> Z -> result (reader * writer)) (copts : option NativeOpts)
    (t : clientTransport) : option (option error * clientTransport) :=
  if ct_started t then Some (Some ErrAlreadyConnected, t)
  else
    let url := connectURL copts (ct_url t) in
    let opts := connectOptions copts (ct_opts t) in
    res ← Dial Parse connect url opts;
    Some (match res with
          | Err e => (Some e, mkClientTransport (ct_c t) url opts (ct_started t) (ct_remote t))
          | Ok c =>
              let codec := match c_sdp c with Some sdp => sdp_Codec sdp | None => ""%string end in
              (None, mkClientTransport (Some c) url opts true
                       (Some (mkRemoteTrack "primary" KindVideo codec PriorityHigh DeliveryStreamGOP)))
          end).

Definition ct_Publish (lt : LocalTrack) (t : clientTransport) : option (result clientSender * clientTransport) :=
  match ct_started t, ct_c t with
  | true, Some c =>
      res ← Client.Publish lt c;
      Some (match res.1 with Ok s => Ok s | Err _ => Err ErrUnsupported end, with_client t res.2)
  | _, _ => Some (Err ErrNotConnected, t)
  end.

Definition ct_Unpublish (order : list nat) (name : string) (t : clientTransport)
    : option (option error * clientTransport) :=
  match ct_c t with
  | None => Some (Some ErrNotConnected, t)
  | Some c => c ← Unpublish name order c; Some (None, with_client t c)
  end.

(** The goroutines of the client run as they will. *)
Inductive ct_env : clientTransport -> clientTransport -> Prop :=
  | ce_client t c c' : ct_c t = Some c -> ct_env t (with_client t c').

Inductive ct_RecvOn (name : string) (t : clientTransport) : result AccessUnit * clientTransport -> Prop :=
  | cr_not : ct_started t = false \/ ct_c t = None -> ct_RecvOn name t (Err ErrNotConnected, t)
  | cr_recv c a d c1 c2 ctxErr r c3 :
      ct_started t = true -> ct_c t = Some c -> recvBegin name c = (a, d, c1) ->
      recvSelect ctxErr name a d c2 r c3 -> ct_RecvOn name t (recvResult r, with_client t c3).

Inductive ct_DataChannel (t : clientTransport) : result Channel * clientTransport -> Prop :=
  | cd_not : ct_started t = false \/ ct_c t = None -> ct_DataChannel t (Err ErrNotConnected, t)
  | cd_some c : ct_started t = true -> ct_c t = Some c -> ct_DataChannel t (Ok (c_dc c), t).

Definition ct_Close (t : clientTransport) : option (option error * clientTransport) :=
  let t' := mkClientTransport None (ct_url t) (ct_opts t) false (ct_remote t) in
  match ct_c t with
  | None => Some (None, t')
  | Some c => _ ← Client.Close c; Some (None, t')
  end.

#[export] Instance client_transport : Transport clientTransport := {|
  tSender := clientSender;
  tChannel := Channel;
  tConnect copts t res := exists connect, res = ct_Connect connect copts t;
  tPublish lt t res := res = ct_Publish lt t;
  tUnpublish name t res := exists order, res = ct_Unpublish order name t;
  tRecvOn := ct_RecvOn;
  tDataChannel := ct_DataChannel;
  tRemoteTrack := ct_remote;
  tClose t res := res = ct_Close t;
  tEnv := ct_env;
|}.
End ClientAdapter.

(** ** What the interface promises on the life of a connection *)

(** A call that needs a connection: it never changes whether there is one, and
    without one it fails with [ErrNotConnected]. *)
Definition guarded {T} (connected : T -> bool) (inv : T -> Prop) (t : T) (e : option error) (t' : T) : Prop :=
  inv t' /\ connected t' = connected t /\ (connected t = false -> e = Some ErrNotConnected).

Definition err_of {A} (r : result A) : option error := match r with Ok _ => None | Err e => Some e end.

Class TransportLaws (T : Type) `{Transport T} := {
  connected : T -> bool;
  tx_inv : T -> Prop;
  law_connect opts t e t' : tx_inv t -> tConnect opts t (Some (e, t')) -> tx_inv t' /\
    (if connected t then e = Some ErrAlreadyConnected /\ t' = t else connected t' = bool_decide (e = None));
  law_publish lt t r t' : tx_inv t -> tPublish lt t (Some (r, t')) -> guarded connected tx_inv t (err_of r) t';
  law_unpublish name t e t' : tx_inv t -> tUnpublish name t (Some (e, t')) -> guarded connected tx_inv t e t';
  law_recv name t r t' : tx_inv t -> tRecvOn name t (r, t') -> guarded connected tx_inv t (err_of r) t';
  law_channel t r t' : tx_inv t -> tDataChannel t (r, t') -> guarded connected tx_inv t (err_of r) t';
  law_close t e t' : tx_inv t -> tClose t (Some (e, t')) -> tx_inv t' /\ e = None /\ connected t' = false;
  law_env t t' : tx_inv t -> tEnv t t' -> tx_inv t' /\ connected t' = connected t;
}.

Section ServerLaws.
Context {W W' : Type} {JA : JSON Announce} {JU : JSON Unannounce}.
Implicit Types t : serverTransport W W'.

(** Every sender the adapter holds is the publisher of the registered track of
    that name. *)
Definition senders_live t : Prop :=
  forall name s, st_senders t !! name = Some s -> exists e, sv_tracks (st_core t) !! name = Some e /\ te_bc e = s.

(** At most the last server context is live, and it is while the adapter is
    started. *)
Definition ctxs_ok t : Prop :=
  if st_started t then exists l, st_ctxs t = l ++ [false] /\ Forall (eq true) l else Forall (eq true) (st_ctxs t).

Definition server_inv t : Prop := senders_live t /\ ctxs_ok t.

Lemma cancelLast_snoc l b : cancelLast (l ++ [b]) = l ++ [true].
Proof.
  unfold cancelLast. rewrite length_app. simpl. rewrite Nat.add_1_r.
  rewrite insert_app_r_alt by lia. by rewrite Nat.sub_diag.
Qed.

Lemma cancelLast_all t : ctxs_ok t -> Forall (eq true) (cancelLast (st_ctxs t)).
Proof.
  unfold ctxs_ok. destruct (st_started t).
  - intros (l & -> & Hl). rewrite cancelLast_snoc. apply Forall_app. by split; [|constructor].
  - destruct (st_ctxs t) as [|x l'] using rev_ind; [done|]. rewrite cancelLast_snoc, !Forall_app. intros [? _]. split; [done|by constructor].
Qed.

Lemma st_env_inv t t' : st_env t t' -> server_inv t -> server_inv t' /\ st_started t' = st_started t.
Proof.
  intros [t0 c ss Hc | t0 addr | t0 dc t1 E] [Hs Hx].
  - split; [|done]. split; [|done]. intros name s Hn. cbn in *. rewrite Hc. by apply Hs.
  - by split.
  - unfold OnDataChannel in E. destruct (try_send _ _); simplify_eq; by split.
Qed.

Lemma st_envs_inv t t' : rtc st_env t t' -> server_inv t -> server_inv t' /\ st_started t' = st_started t.
Proof.
  induction 1 as [|t t1 t' He _ IH]; [done|]. intros Hi. destruct (st_env_inv _ _ He Hi) as [Hi1 E1].
  destruct (IH Hi1) as [? ?]. split; [done|congruence].
Qed.

Lemma waitBound_inv polls : forall t e t',
  senders_live t -> st_started t = false -> (exists l, st_ctxs t = l ++ [false] /\ Forall (eq true) l) ->
  waitBound polls t = Some (e, t') -> server_inv t' /\ st_started t' = bool_decide (e = None).
Proof.
  induction polls as [|p polls IH]; intros t e t' Hs Hst Hc; cbn [waitBound]; [done|].
  destruct (negb _).
  { intros [= <- <-]. by split. }
  assert (Forall (eq true) (cancelLast (st_ctxs t))) as Hcan.
  { destruct Hc as (l & -> & Hl). rewrite cancelLast_snoc. apply Forall_app. by split; [|constructor]. }
  destruct (po_ctxErr p) as [e1|].
  { intros [= <- <-]. unfold server_inv, ctxs_ok. cbn. rewrite Hst. by split. }
  destruct (po_late p).
  { intros [= <- <-]. unfold server_inv, ctxs_ok. cbn. rewrite Hst. by split. }
  by apply IH.
Qed.

Lemma st_Connect_inv polls opts t e t' :
  server_inv t -> st_Connect polls opts t = Some (e, t') ->
  server_inv t' /\ (if st_started t then e = Some ErrAlreadyConnected /\ t' = t else st_started t' = bool_decide (e = None)).
Proof.
  intros Hi. pose proof Hi as [Hs Hc]. unfold st_Connect. destruct (st_started t) eqn:Est.
  { by intros [= <- <-]. }
  destruct opts as [n|]; [|intros [= <- <-]; by rewrite Est].
  destruct (negb _); [intros [= <- <-]; by rewrite Est|].
  unfold ctxs_ok in Hc. rewrite Est in Hc. apply waitBound_inv; case_decide; cbn; eauto.
Qed.

Lemma st_Publish_inv lt t r t' :
  server_inv t -> st_Publish lt t = Some (r, t') -> guarded st_started server_inv t (err_of r) t'.
Proof.
  intros Hi. pose proof Hi as [Hs Hc]. unfold st_Publish, guarded. destruct (st_started t) eqn:Est; cbn [negb].
  2:{ intros [= <- <-]. by rewrite Est. }
  destruct (st_senders t !! publishName lt) as [s|] eqn:En; [intros [= <- <-]; by rewrite Est|].
  intros ([c ss] & E & (e & He & [= <- <-])%bind_Some)%bind_Some. split; [|done]. split; [|done].
  intros name s. cbn in *. destruct (decide (name = publishName lt)) as [-> | Hne].
  - rewrite lookup_insert_eq. intros [= <-]. eauto.
  - rewrite lookup_insert_ne by done. intros (e1 & He1 & Hb)%Hs. exists e1. split; [|done].
    apply AddTrackSpec_tracks in E. cbn [spec_Name] in E. destruct (sv_tracks (st_core t) !! publishName lt).
    + by rewrite E.
    + destruct E as [b ->]. by rewrite lookup_insert_ne.
Qed.

Lemma st_Unpublish_inv closeOrder name t e t' :
  server_inv t -> st_Unpublish closeOrder name t = Some (e, t') -> guarded st_started server_inv t e t'.
Proof.
  intros Hi. pose proof Hi as [Hs Hc]. unfold st_Unpublish, guarded. destruct (st_started t) eqn:Est; cbn [negb].
  2:{ intros [= <- <-]. by rewrite Est. }
  set (nm := if decide (name = ""%string) then _ else _). destruct (st_senders t !! nm) as [s|].
  2:{ intros [= <- <-]. by rewrite Est. }
  intros ([c ss] & E & [= <- <-])%bind_Some. split; [|done]. split; [|done]. intros k s1. cbn.
  intros (Hne & Hk)%lookup_delete_Some. destruct (Hs _ _ Hk) as (e1 & He1 & Hb). exists e1. split; [|done].
  by rewrite (RemoveTrack_tracks _ _ _ _ _ _ E), lookup_delete_ne.
Qed.

Lemma st_RecvOn_inv name t r t' :
  server_inv t -> st_RecvOn name t (r, t') -> guarded st_started server_inv t (err_of r) t'.
Proof.
  intros Hi Hr. unfold guarded. inversion Hr as [Hst|t1 e Hst He _|t1 Hst He _|t1 i s a ib t2 s2 res d Hst He _ _ He2 _ _]; subst.
  - done.
  - destruct (st_envs_inv _ _ He Hi). split_and!; [done|done|congruence].
  - destruct (st_envs_inv _ _ He Hi). split_and!; [done|done|congruence].
  - destruct (st_envs_inv _ _ He Hi) as [Hi1 E1].
    destruct (st_envs_inv _ _ He2) as [Hi2 E2]; [apply (st_env_inv t1); [by constructor|done]|]. cbn in E2.
    split; [|cbn; split; congruence]. apply (st_env_inv t2); [by constructor|done].
Qed.

Lemma st_DataChannel_inv t r t' :
  server_inv t -> st_DataChannel t (r, t') -> guarded st_started server_inv t (err_of r) t'.
Proof.
  intros Hi Hr. unfold guarded. inversion Hr as [Hst|dc Hst _|t1 dc ch Hst _ He _|t1 Hst _ He]; subst; try by rewrite Hst.
  - destruct (st_envs_inv _ _ He Hi) as [Hi1 E1]. cbn. split_and!; [exact Hi1|done|congruence].
  - destruct (st_envs_inv _ _ He Hi) as [Hi1 E1]. split_and!; [done|done|congruence].
Qed.

#[export, program] Instance server_laws : TransportLaws (serverTransport W W') := {|
  connected := st_started;
  tx_inv := server_inv;
  law_publish lt t r t' Hi E := st_Publish_inv lt t r t' Hi (eq_sym E);
  law_recv name t r t' := st_RecvOn_inv name t r t';
  law_channel t r t' := st_DataChannel_inv t r t';
|}.
Next Obligation. intros opts t e t' Hi (polls & e1 & t1 & E & [= -> ->]). by eapply st_Connect_inv. Qed.
Next Obligation. intros name t e t' Hi (o & _ & E). by eapply st_Unpublish_inv. Qed.
Next Obligation. intros t e t' [Hs Hc] [= -> ->]. split_and!; [|done|done]. split; [done|]. by apply cancelLast_all. Qed.
Next Obligation. intros t t' Hi He. by apply (st_env_inv t t'). Qed.
End ServerLaws.

Section ClientLaws.
Context {UP : UrlParser} {JH : JSON Hello} {JS : JSON SDP} {JA : JSON Announce} {JU : JSON Unannounce}.

Definition client_inv (t : clientTransport) : Prop := ct_started t = true <-> is_Some (ct_c t).

Lemma client_not t : client_inv t -> (ct_started t = false <-> ct_c t = None).
Proof. unfold client_inv. rewrite eq_None_not_Some. intros <-. destruct (ct_started t); naive_solver. Qed.

Lemma client_guarded t c e : client_inv t -> ct_c t = Some c -> forall c', guarded ct_started client_inv t e (with_client t c').
Proof.
  intros Hi Hc c'. assert (ct_started t = true) as Hst by (apply Hi; by rewrite Hc).
  split_and!; [|done|congruence]. unfold client_inv. cbn. by rewrite Hst.
Qed.

Lemma client_unguarded t : client_inv t -> ct_started t = false \/ ct_c t = None ->
  guarded ct_started client_inv t (Some ErrNotConnected) t.
Proof. done. Qed.

#[export, program] Instance client_laws : TransportLaws clientTransport := {|
  connected := ct_started;
  tx_inv := client_inv;
|}.
Next Obligation.
  intros opts t e t' Hi [connect E]. unfold ct_Connect in E. destruct (ct_started t) eqn:Est; [by simplify_eq|].
  symmetry in E. apply bind_Some in E as (res & _ & E). destruct res as [c|e1]; simplify_eq; (split; [|done]); unfold client_inv; cbn.
  - done.
  - apply (client_not t Hi) in Est. rewrite Est. split; [done|by intros []].
Qed.
Next Obligation.
  intros lt t r t' Hi E. change (Some (r, t') = ct_Publish lt t) in E. unfold ct_Publish in E. destruct (ct_started t) eqn:Est; [|injection E as -> ->; apply client_unguarded; auto].
  destruct (ct_c t) as [c|] eqn:Ec; [|injection E as -> ->; apply client_unguarded; auto]. symmetry in E. apply bind_Some in E as (res & _ & E). simplify_eq.
  by eapply client_guarded.
Qed.
Next Obligation.
  intros name t e t' Hi [o E]. unfold ct_Unpublish in E. destruct (ct_c t) as [c|] eqn:Ec; [|injection E as -> ->; apply client_unguarded; auto].
  symmetry in E. apply bind_Some in E as (c' & _ & E). simplify_eq. by eapply client_guarded.
Qed.
Next Obligation. intros name t r t' Hi Hr. inversion Hr; subst; [by apply client_unguarded|by eapply client_guarded]. Qed.
Next Obligation.
  intros t r t' Hi Hr. inversion Hr as [|c Hst Hc]; subst; [by apply client_unguarded|]. split_and!; [done|done|congruence].
Qed.
Next Obligation.
  intros t e t' Hi E. change (Some (e, t') = ct_Close t) in E. unfold ct_Close in E.
  assert (Some (e, t') = Some (None, mkClientTransport None (ct_url t) (ct_opts t) false (ct_remote t))) as [= -> ->].
  { destruct (ct_c t); [symmetry in E; apply bind_Some in E as (? & _ & E)|]; congruence. }
  split_and!; [|done|done]. unfold client_inv. cbn. split; [done|by intros []].
Qed.
Next Obligation. intros t t' Hi He. revert Hi. destruct He as [t0 c c' Hc]. intros Hi. destruct (client_guarded t0 c None Hi Hc c') as (? & ? & _). done. Qed.
End ClientLaws.

(** * Claims *)

(** the publisher's adapter drops the kind of the track it is given: a new
    track published through it is registered as video with the track's
    priority, 4 for the priority 0 of an audio track, so that it gets a
    video track's delivery class whatever class it asks for. *)
Theorem publisher_drops_kind {W W'} {JA : JSON Announce} {JU : JSON Unannounce} lt (t : serverTransport W W') s t' :
  st_Publish lt t = Some (Ok s, t') -> st_senders t !! publishName lt = None ->
  sv_tracks (st_core t) !! publishName lt = None ->
  sv_tracks (st_core t') =
    <[publishName lt := mkTrackEntry KindVideo (if u8 (lt_Priority lt) =? 0 then PriorityNormal else u8 (lt_Priority lt))
                          x00 s]> (sv_tracks (st_core t)) /\
  kindFor (st_core t') (publishName lt) = KindVideo /\
  forall name codec, DefaultDeliveryClass KindVideo <> lt_Delivery (Tokens name) /\
    DefaultDeliveryClass KindVideo <> lt_Delivery (ToolCalls name) /\
    DefaultDeliveryClass KindVideo <> lt_Delivery (Telemetry name) /\
    PriorityNormal <> lt_Priority (Audio name codec).
Proof.
  unfold st_Publish. destruct (st_started t); cbn [negb]; [|done]. intros E Hs Ht. rewrite Hs in E.
  apply bind_Some in E as ([c ss] & E & (e & He & [= <- <-])%bind_Some). apply AddTrackSpec_tracks in E.
  cbn [spec_Name] in E. rewrite Ht in E. destruct E as [b E].
  assert (sv_tracks c = <[publishName lt := mkTrackEntry KindVideo
    (if u8 (lt_Priority lt) =? 0 then PriorityNormal else u8 (lt_Priority lt)) x00 b]> (sv_tracks (st_core t))) as Et by exact E.
  cbn in *. rewrite Et, lookup_insert_eq in He. injection He as <-. cbn. split_and!; [done| |done].
  unfold kindFor. by rewrite Et, lookup_insert_eq.
Qed.

(** a call of [Connect] with a fixed port (an address that does not end in
    ":0") succeeds at its first poll although the server is not bound, whatever
    becomes of the listener: the address polled is then the configured one. *)
Theorem connect_does_not_wait_for_fixed_port {W W'} {JA : JSON Announce} {JU : JSON Unannounce}
    (t : serverTransport W W') n polls ctxErr late :
  HasSuffix (st_cfgAddr t) ":0" = false -> st_started t = false -> no_Role n = RolePublisher ->
  exists t', st_Connect (mkPoll "" ctxErr late :: polls) (Some n) t = Some (None, t') /\
    st_started t' = true /\ st_addr t' = ""%string.
Proof.
  intros Ha Hs Hr. unfold st_Connect. rewrite Hs. cbn [negb]. rewrite bool_decide_eq_true_2 by done. cbn [negb waitBound].
  set (t1 := with_addr _ _). assert (Addr t1 = st_cfgAddr t) as -> by (unfold t1; case_decide; done).
  rewrite Ha. cbn [negb]. eexists. split; [done|]. unfold t1. by case_decide.
Qed.

Module AdapterDemo.
#[export] Instance json_announce : JSON Announce := {| Marshal _ := Ok []; Unmarshal _ := Err EOF |}.
#[export] Instance json_unannounce : JSON Unannounce := {| Marshal _ := Ok []; Unmarshal _ := Err EOF |}.

Definition demo_core : core unit := mkCore ∅ ∅ (NewMemorySessionStore 0) [] tt.
Definition demo_publisher : serverTransport unit unit := newServerTransport (cfg0 false) 0 "127.0.0.1:4433" "slug" demo_core.
Definition demo_opts : NativeOpts := mkNativeOpts RolePublisher "127.0.0.1:4433" None [] [] 0 "" "" 0 "".
Definition demo_connected : serverTransport unit unit :=
  from_option snd demo_publisher (st_Connect [mkPoll "" None false] (Some demo_opts) demo_publisher).

Lemma connect_does_not_wait_for_fixed_port_witness :
  exists t', st_Connect [mkPoll "" None false] (Some demo_opts) demo_publisher = Some (None, t') /\ st_addr t' = ""%string.
Proof.
  destruct (connect_does_not_wait_for_fixed_port demo_publisher demo_opts [] None false) as (t' & E & _ & Ha);
    [reflexivity|reflexivity|reflexivity|]. exists t'. split; [exact E|exact Ha].
Defined.

Lemma demo_audio : exists s t', st_Publish (Audio "mic" "") demo_connected = Some (Ok s, t').
Proof. vm_compute. by do 2 eexists. Qed.

Lemma publisher_drops_kind_witness :
  exists s t', st_Publish (Audio "mic" "") demo_connected = Some (Ok s, t') /\
    sv_tracks (st_core t') !! "mic"%string = Some (mkTrackEntry KindVideo PriorityNormal x00 s).
Proof.
  destruct demo_audio as (s & t' & E). exists s, t'. split; [exact E|].
  destruct (publisher_drops_kind (Audio "mic" "") demo_connected s t' E eq_refl eq_refl) as [Ht _].
  rewrite Ht. reflexivity.
Defined.
End AdapterDemo.
