(* ===== verification/PeerConnection.v ===== *)
(** * Package peerconnection

    [peerconnection/config.go] and [peerconnection/peerconnection.go]: a
    connection holds one transport, chosen by its configuration, and forwards
    its calls to it.  [PeerConnection T] is over any [Transport T]; [New] makes
    one over the sum of the two adapters of [Adapters.v].  Calls of the
    application are taken one at a time; [CEnv] is anything the goroutines of
    the session do in between. *)

From S2P Require Import Prelude Wire Track Replay Pubsub PubsubCalls RateLimit Pump DataChannel Inbound SessionStore.
From S2P Require Import Session Server Client ServerRun ShareLink Adapters.

(** ** Configuration *)

Definition TransportAuto : Z := 0.
Definition TransportNativeOnly : Z := 1.

(** [server.Config], as far as the package looks at it. *)
Record publisherConfig := mkPublisherConfig { pub_Addr : string; pub_SDP : option SDP }.

Record NativeConfig := mkNativeConfig {
  nc_Role : string;
  nc_PublisherConfig : publisherConfig;
  nc_SubscriberURL : string;
  nc_SubscriberOpts : Options;
}.

Record pcConfig := mkPcConfig { pcc_Transport : Z; pcc_Native : option NativeConfig }.

Definition connectOpts (c : pcConfig) : option NativeOpts :=
  match pcc_Native c with
  | Some n =>
      Some (mkNativeOpts (nc_Role n) (pub_Addr (nc_PublisherConfig n)) (pub_SDP (nc_PublisherConfig n)) [] [] 0
              (nc_SubscriberURL n) (o_CertHashB64URL (nc_SubscriberOpts n)) (o_HelloTimeout (nc_SubscriberOpts n))
              (o_Slug (nc_SubscriberOpts n)))
  | None => None
  end.

(** The two implementations behind one interface value. *)
Section Sum.
Context {A B : Type} `{TA : Transport A, TB : Transport B}.

#[export] Instance sum_transport : Transport (A + B) := {|
  tSender := @tSender A _ + @tSender B _;
  tChannel := @tChannel A _ + @tChannel B _;
  tConnect o t res := match t with
    | inl a => exists r, tConnect o a r /\ res = prod_map id inl <$> r
    | inr b => exists r, tConnect o b r /\ res = prod_map id inr <$> r
    end;
  tPublish lt t res := match t with
    | inl a => exists r, tPublish lt a r /\ res = prod_map (fun x => match x with Ok s => Ok (inl s) | Err e => Err e end) inl <$> r
    | inr b => exists r, tPublish lt b r /\ res = prod_map (fun x => match x with Ok s => Ok (inr s) | Err e => Err e end) inr <$> r
    end;
  tUnpublish n t res := match t with
    | inl a => exists r, tUnpublish n a r /\ res = prod_map id inl <$> r
    | inr b => exists r, tUnpublish n b r /\ res = prod_map id inr <$> r
    end;
  tRecvOn n t res := match t with
    | inl a => exists r, tRecvOn n a r /\ res = prod_map id inl r
    | inr b => exists r, tRecvOn n b r /\ res = prod_map id inr r
    end;
  tDataChannel t res := match t with
    | inl a => exists r, tDataChannel a r /\ res = prod_map (fun x => match x with Ok s => Ok (inl s) | Err e => Err e end) inl r
    | inr b => exists r, tDataChannel b r /\ res = prod_map (fun x => match x with Ok s => Ok (inr s) | Err e => Err e end) inr r
    end;
  tRemoteTrack t := match t with inl a => tRemoteTrack a | inr b => tRemoteTrack b end;
  tClose t res := match t with
    | inl a => exists r, tClose a r /\ res = prod_map id inl <$> r
    | inr b => exists r, tClose b r /\ res = prod_map id inr <$> r
    end;
  tEnv t t' := match t, t' with inl a, inl a' => tEnv a a' | inr b, inr b' => tEnv b b' | _, _ => False end;
|}.
End Sum.

Section SumLaws.
Context {A B : Type} `{LA : TransportLaws A, LB : TransportLaws B}.

Definition sum_connected (t : A + B) : bool := match t with inl a => connected a | inr b => connected b end.
Definition sum_inv (t : A + B) : Prop := match t with inl a => tx_inv a | inr b => tx_inv b end.

Lemma err_of_map {X Y} (f : X -> Y) (r : result X) :
  err_of (match r with Ok s => Ok (f s) | Err e => Err e end) = err_of r.
Proof. by destruct r. Qed.

#[export, program] Instance sum_laws : TransportLaws (A + B) := {| connected := sum_connected; tx_inv := sum_inv |}.
Next Obligation.
  intros o [a|b] e t' Hi ([[e1 t1]|] & Hc & [= -> ->]);
    [destruct (law_connect o a e1 t1 Hi Hc) as [? Hr]|destruct (law_connect o b e1 t1 Hi Hc) as [? Hr]];
    (split; [done|]); cbn; [destruct (connected a)|destruct (connected b)]; try done; destruct Hr as [-> ->]; done.
Qed.
Next Obligation.
  intros lt [a|b] r t' Hi ([[r1 t1]|] & Hc & [= -> ->]); rewrite err_of_map;
    [exact (law_publish lt a r1 t1 Hi Hc)|exact (law_publish lt b r1 t1 Hi Hc)].
Qed.
Next Obligation.
  intros n [a|b] e t' Hi ([[e1 t1]|] & Hc & [= -> ->]);
    [exact (law_unpublish n a e1 t1 Hi Hc)|exact (law_unpublish n b e1 t1 Hi Hc)].
Qed.
Next Obligation.
  intros n [a|b] r t' Hi ([r1 t1] & Hc & [= -> ->]); [exact (law_recv n a r1 t1 Hi Hc)|exact (law_recv n b r1 t1 Hi Hc)].
Qed.
Next Obligation.
  intros [a|b] r t' Hi ([r1 t1] & Hc & [= -> ->]); rewrite err_of_map;
    [exact (law_channel a r1 t1 Hi Hc)|exact (law_channel b r1 t1 Hi Hc)].
Qed.
Next Obligation.
  intros [a|b] e t' Hi ([[e1 t1]|] & Hc & [= -> ->]); [exact (law_close a e1 t1 Hi Hc)|exact (law_close b e1 t1 Hi Hc)].
Qed.
Next Obligation. intros [a|b] [a'|b'] Hi He; try done; [exact (law_env a a' Hi He)|exact (law_env b b' Hi He)]. Qed.
End SumLaws.

(** ** The connection *)

Record PeerConnection (T : Type) := mkPeerConnection {
  pc_cfg : pcConfig;
  pc_tx : T;
  pc_closed : bool; (* [closeOnce] has run *)
  pc_closeErr : option error;
}.
Arguments mkPeerConnection {T}.
Arguments pc_cfg {T}. Arguments pc_tx {T}. Arguments pc_closed {T}. Arguments pc_closeErr {T}.

(** [newTransport] with [nativeTransportFactory]; [serverNew] is [server.New],
    with what the adapter keeps of the server it returns. *)
Section NewConnection.
Context {W W' : Type} (serverNew : publisherConfig -> result (Config * Z * string * core W)).

Definition NewServerTransport (c : publisherConfig) : result (serverTransport W W') :=
  match serverNew c with
  | Err e => Err e
  | Ok (base, buffer, slug, core) => Ok (newServerTransport base buffer (pub_Addr c) slug core)
  end.

Definition newTransport (cfg : pcConfig) : result (serverTransport W W' + clientTransport) :=
  if decide (pcc_Transport cfg = TransportNativeOnly \/ pcc_Transport cfg = TransportAuto) then
    match pcc_Native cfg with
    | None => Err (ErrMsg "quicrtc/peerconnection: NativeConfig required")
    | Some c =>
        if decide (nc_Role c = RolePublisher) then
          match NewServerTransport (nc_PublisherConfig c) with Ok s => Ok (inl s) | Err e => Err e end
        else if decide (nc_Role c = RoleSubscriber) then
          Ok (inr (newClientTransport (nc_SubscriberURL c) (nc_SubscriberOpts c)))
        else Err (ErrMsg "quicrtc/peerconnection: NativeConfig.Role required (publisher | subscriber)")
    end
  else Err (ErrMsg "quicrtc/peerconnection: unknown TransportPolicy").

Definition New (cfg : pcConfig) : result (PeerConnection (serverTransport W W' + clientTransport)) :=
  match newTransport cfg with
  | Err e => Err e
  | Ok tx => Ok (mkPeerConnection cfg tx false None)
  end.
End NewConnection.

Definition with_tx {T} (pc : PeerConnection T) (tx : T) : PeerConnection T :=
  mkPeerConnection (pc_cfg pc) tx (pc_closed pc) (pc_closeErr pc).

(** A call with the error it returned. *)
Inductive call :=
  | CConnect (e : option error) | CAddTrack (lt : LocalTrack) (e : option error) | CRemoveTrack (name : string) (e : option error)
  | CRecvOn (name : string) (e : option error) | CDataChannel (e : option error) | CClose (e : option error) | CEnv.

Inductive pcstep {T} `{Transport T} (pc : PeerConnection T) : call -> PeerConnection T -> Prop :=
  | pc_Connect e tx : tConnect (connectOpts (pc_cfg pc)) (pc_tx pc) (Some (e, tx)) -> pcstep pc (CConnect e) (with_tx pc tx)
  | pc_AddTrack lt r tx : tPublish lt (pc_tx pc) (Some (r, tx)) -> pcstep pc (CAddTrack lt (err_of r)) (with_tx pc tx)
  | pc_RemoveTrack name e tx : tUnpublish name (pc_tx pc) (Some (e, tx)) -> pcstep pc (CRemoveTrack name e) (with_tx pc tx)
  | pc_RecvOn name r tx : tRecvOn name (pc_tx pc) (r, tx) -> pcstep pc (CRecvOn name (err_of r)) (with_tx pc tx)
  | pc_DataChannel r tx : tDataChannel (pc_tx pc) (r, tx) -> pcstep pc (CDataChannel (err_of r)) (with_tx pc tx)
  | pc_Close e tx :
      pc_closed pc = false -> tClose (pc_tx pc) (Some (e, tx)) ->
      pcstep pc (CClose e) (mkPeerConnection (pc_cfg pc) tx true e)
  | pc_Closed : pc_closed pc = true -> pcstep pc (CClose (pc_closeErr pc)) pc
  | pc_env tx : tEnv (pc_tx pc) tx -> pcstep pc CEnv (with_tx pc tx).

Inductive pc_run {T} `{Transport T} : PeerConnection T -> list call -> PeerConnection T -> Prop :=
  | run_nil pc : pc_run pc [] pc
  | run_cons pc c pc1 cs pc2 : pcstep pc c pc1 -> pc_run pc1 cs pc2 -> pc_run pc (c :: cs) pc2.

(** The same calls on a transport itself, where [Close] is not limited to once. *)
Inductive txstep {T} `{Transport T} (opts : option NativeOpts) (t : T) : call -> T -> Prop :=
  | tx_Connect e t' : tConnect opts t (Some (e, t')) -> txstep opts t (CConnect e) t'
  | tx_Publish lt r t' : tPublish lt t (Some (r, t')) -> txstep opts t (CAddTrack lt (err_of r)) t'
  | tx_Unpublish name e t' : tUnpublish name t (Some (e, t')) -> txstep opts t (CRemoveTrack name e) t'
  | tx_RecvOn name r t' : tRecvOn name t (r, t') -> txstep opts t (CRecvOn name (err_of r)) t'
  | tx_DataChannel r t' : tDataChannel t (r, t') -> txstep opts t (CDataChannel (err_of r)) t'
  | tx_Close e t' : tClose t (Some (e, t')) -> txstep opts t (CClose e) t'
  | tx_env t' : tEnv t t' -> txstep opts t CEnv t'.

Inductive tx_run {T} `{Transport T} (opts : option NativeOpts) : T -> list call -> T -> Prop :=
  | tx_nil t : tx_run opts t [] t
  | tx_cons t c t1 cs t2 : txstep opts t c t1 -> tx_run opts t1 cs t2 -> tx_run opts t (c :: cs) t2.

(** ** The life of a connection, as a specification

    The state is whether the connection is up; [None] is a behaviour the
    specification excludes. *)

Definition needs_connection (conn : bool) (e : option error) : bool :=
  conn || bool_decide (e = Some ErrNotConnected).

Definition life_step (conn : bool) (c : call) : option bool :=
  match c with
  | CConnect e =>
      if conn then (if decide (e = Some ErrAlreadyConnected) then Some true else None)
      else Some (bool_decide (e = None))
  | CAddTrack _ e | CRemoveTrack _ e | CRecvOn _ e | CDataChannel e => if needs_connection conn e then Some conn else None
  | CClose e => if decide (e = None) then Some false else None
  | CEnv => Some conn
  end.

Fixpoint life (conn : bool) (cs : list call) : option bool :=
  match cs with
  | [] => Some conn
  | c :: cs' => conn' ← life_step conn c; life conn' cs'
  end.

Definition is_Connect (c : call) : bool := match c with CConnect _ => true | _ => false end.

(** * Properties *)

Section Life.
Context {T : Type} `{TransportLaws T}.

Definition pc_inv (pc : PeerConnection T) : Prop := tx_inv (pc_tx pc) /\ pc_closeErr pc = None.

Lemma guarded_life t e t' :
  guarded connected tx_inv t e t' -> tx_inv t' /\ needs_connection (connected t) e = true /\ connected t' = connected t.
Proof.
  intros (Hi & Hc & He). split_and!; [done| |done]. unfold needs_connection. destruct (connected t); [done|].
  cbn. by apply bool_decide_eq_true_2, He.
Qed.

Lemma txstep_life opts t c t' : tx_inv t -> txstep opts t c t' -> tx_inv t' /\ life_step (connected t) c = Some (connected t').
Proof.
  intros Hi [e t1 Hc|lt r t1 Hc|name e t1 Hc|name r t1 Hc|r t1 Hc|e t1 Hc|t1 Hc].
  - destruct (law_connect _ _ _ _ Hi Hc) as [Hi' Hr]. split; [done|]. cbn. destruct (connected t) eqn:Ec.
    + destruct Hr as [-> ->]. by rewrite decide_True, Ec.
    + by rewrite Hr.
  - destruct (guarded_life _ _ _ (law_publish _ _ _ _ Hi Hc)) as (? & Hg & ->). split; [done|]. cbn. by rewrite Hg.
  - destruct (guarded_life _ _ _ (law_unpublish _ _ _ _ Hi Hc)) as (? & Hg & ->). split; [done|]. cbn. by rewrite Hg.
  - destruct (guarded_life _ _ _ (law_recv _ _ _ _ Hi Hc)) as (? & Hg & ->). split; [done|]. cbn. by rewrite Hg.
  - destruct (guarded_life _ _ _ (law_channel _ _ _ Hi Hc)) as (? & Hg & ->). split; [done|]. cbn. by rewrite Hg.
  - destruct (law_close _ _ _ Hi Hc) as (Hi' & -> & Hc'). split; [done|]. cbn. by rewrite decide_True, Hc'.
  - destruct (law_env _ _ Hi Hc) as [Hi' Hc']. split; [done|]. cbn. by rewrite Hc'.
Qed.

Lemma tx_run_life opts t cs t' : tx_inv t -> tx_run opts t cs t' -> tx_inv t' /\ life (connected t) cs = Some (connected t').
Proof.
  intros Hi Hr. induction Hr as [t|t c t1 cs t2 Hs _ IH]; [done|].
  destruct (txstep_life _ _ _ _ Hi Hs) as [Hi1 E1]. destruct (IH Hi1) as [? E2]. split; [done|]. cbn [life]. by rewrite E1.
Qed.

(** A call of the connection is one of its transport, but for a [Close] after the
    first. *)
Lemma pcstep_forwards pc c pc' :
  pc_inv pc -> pcstep pc c pc' ->
  pc_inv pc' /\ pc_cfg pc' = pc_cfg pc /\ (pc_closed pc = true -> pc_closed pc' = true) /\
  (txstep (connectOpts (pc_cfg pc)) (pc_tx pc) c (pc_tx pc') \/ pc_closed pc = true /\ c = CClose None /\ pc' = pc).
Proof.
  intros Hinv Hs. assert (forall c' t', txstep (connectOpts (pc_cfg pc)) (pc_tx pc) c' t' -> tx_inv t') as Hk
    by (intros c' t' Ht; destruct Hinv as [Hi _]; by apply (txstep_life _ _ _ _ Hi Ht)).
  pose proof Hinv as [Hi Hn]. destruct Hs as [e tx Hc|lt r tx Hc|name e tx Hc|name r tx Hc|r tx Hc|e tx Hcl Hc|Hcl|tx Hc].
  1-5,8: (match goal with |- context [txstep _ _ ?c _] =>
            assert (txstep (connectOpts (pc_cfg pc)) (pc_tx pc) c tx) as Ht by (by constructor) end;
          split_and!; [split; [exact (Hk _ _ Ht)|done]|done|done|by left]).
  - assert (txstep (connectOpts (pc_cfg pc)) (pc_tx pc) (CClose e) tx) as Ht by (by constructor).
    destruct (law_close _ _ _ Hi Hc) as (_ & -> & _). split_and!; [split; [exact (Hk _ _ Ht)|done]|done|done|by left].
  - split_and!; [done|done|done|]. right. by rewrite Hn.
Qed.

Lemma closed_stays pc cs pc' : pc_inv pc -> pc_run pc cs pc' -> pc_closed pc = true -> pc_closed pc' = true.
Proof.
  intros Hi Hr. induction Hr as [|pc c pc1 cs pc2 Hs _ IH]; [done|]. intros Hc.
  destruct (pcstep_forwards _ _ _ Hi Hs) as (Hi1 & _ & Hk & _). auto.
Qed.

(** Until it is closed, a connection is its transport. *)
Lemma pc_run_open pc cs pc' :
  pc_inv pc -> pc_run pc cs pc' -> pc_closed pc' = false ->
  pc_inv pc' /\ tx_run (connectOpts (pc_cfg pc)) (pc_tx pc) cs (pc_tx pc').
Proof.
  intros Hi Hr. induction Hr as [pc|pc c pc1 cs pc2 Hs Hr IH]; intros Hc; [split; [done|constructor]|].
  destruct (pcstep_forwards _ _ _ Hi Hs) as (Hi1 & Ecfg & _ & Hf). destruct (IH Hi1 Hc) as [Hi2 Ht]. split; [done|].
  rewrite Ecfg in Ht. destruct Hf as [Hf|(Hcl & _ & ->)]; [by econstructor|].
  by rewrite (closed_stays _ _ _ Hi Hr Hcl) in Hc.
Qed.

(** A connection that is down and not connected again stays down. *)
Lemma pc_run_down pc cs pc' :
  pc_inv pc -> pc_run pc cs pc' -> connected (pc_tx pc) = false -> Forall (fun c => is_Connect c = false) cs ->
  life false cs = Some false /\ connected (pc_tx pc') = false.
Proof.
  intros Hi Hr. induction Hr as [pc|pc c pc1 cs pc2 Hs _ IH]; intros Hd Hall; [done|].
  apply Forall_cons in Hall as [Hc Hall]. destruct (pcstep_forwards _ _ _ Hi Hs) as (Hi1 & _ & _ & Hf).
  assert (life_step false c = Some false /\ connected (pc_tx pc1) = false) as [El Hd1].
  { destruct Hf as [Hf|(_ & -> & ->)]; [|done]. destruct Hi as [Hi _].
    destruct (txstep_life _ _ _ _ Hi Hf) as [_ E]. rewrite Hd in E.
    destruct c; cbn in Hc, E |- *; try done; repeat case_match; try done; simplify_eq; by rewrite <- ?E. }
  cbn [life]. rewrite El. by apply IH.
Qed.

(** A connection that is up after it was closed stays up. *)
Lemma pc_run_up pc cs pc' :
  pc_inv pc -> pc_run pc cs pc' -> pc_closed pc = true -> connected (pc_tx pc) = true -> connected (pc_tx pc') = true.
Proof.
  intros Hi Hr. induction Hr as [pc|pc c pc1 cs pc2 Hs _ IH]; intros Hcl Hup; [done|].
  destruct (pcstep_forwards _ _ _ Hi Hs) as (Hi1 & _ & Hk & Hf). apply IH; [done|auto|].
  destruct Hf as [Hf|(_ & _ & ->)]; [|done]. destruct Hi as [Hi _]. destruct (txstep_life _ _ _ _ Hi Hf) as [_ E]. rewrite Hup in E.
  destruct Hs; cbn in E |- *; try case_decide; congruence.
Qed.
End Life.

(** * Claims *)

Section Claims.
Context {W W' : Type} {UP : UrlParser} {JH : JSON Hello} {JS : JSON SDP} {JA : JSON Announce} {JU : JSON Unannounce}.
Context (serverNew : publisherConfig -> result (Config * Z * string * core W)).
Implicit Types pc : PeerConnection (serverTransport W W' + clientTransport).

Lemma New_inv cfg pc : New serverNew cfg = Ok pc -> pc_inv pc /\ pc_closed pc = false /\ connected (pc_tx pc) = false.
Proof.
  unfold New, newTransport, NewServerTransport. case_decide; [|done]. destruct (pcc_Native cfg) as [n|]; [|done].
  case_decide; [|case_decide; [|done]].
  - destruct (serverNew _) as [[[[base buffer] slug] c]|]; [|done]. intros [= <-]. split; [|done]. split; [|done]. split; [|by constructor].
    intros name s. cbn. by rewrite lookup_empty.
  - intros [= <-]. split; [|done]. split; [|done]. split; [done|by intros []].
Qed.

(** C21: a connection of either role, from [New] to [Close], behaves as its
    documentation says: tracks, units and data channels are there only after a
    successful [Connect], and any such call before it fails with
    ErrNotConnected; a second [Connect] fails with ErrAlreadyConnected and
    changes nothing; [Close] returns nil, ends the connection and leaves no
    server of a publisher running; after it, until a new [Connect], every such
    call fails with ErrNotConnected and [Close] goes on to return nil.  The
    transport behind it keeps to this in every sequence of calls. *)
Theorem pc_refines_lifecycle cfg pc cs pc1 :
  New serverNew cfg = Ok pc -> pc_run pc cs pc1 -> pc_closed pc1 = false ->
  life false cs = Some (connected (pc_tx pc1)) /\
  (forall e pc2, pcstep pc1 (CClose e) pc2 ->
     e = None /\ connected (pc_tx pc2) = false /\
     (forall t, pc_tx pc2 = inl t -> Forall (eq true) (st_ctxs t)) /\
     forall cs2 pc3, pc_run pc2 cs2 pc3 -> Forall (fun c => is_Connect c = false) cs2 ->
       life false cs2 = Some false /\ connected (pc_tx pc3) = false) /\
  (forall opts cs' t, tx_run opts (pc_tx pc) cs' t -> life false cs' = Some (connected t)).
Proof.
  intros (Hi & _ & Hd)%New_inv Hr Hop. destruct (pc_run_open pc cs pc1 Hi Hr Hop) as [Hi1 Ht].
  pose proof Hi as [Hti _]. pose proof (fun opts cs t H => proj2 (tx_run_life opts _ cs t Hti H)) as Hlife. rewrite Hd in Hlife.
  split_and!; [by eapply Hlife| |exact Hlife].
  intros e pc2 Hcl. destruct (pcstep_forwards _ _ _ Hi1 Hcl) as (Hi2 & _ & _ & [Hf|(Hc & _)]); [|congruence].
  pose proof Hi1 as [Hti1 _]. destruct (txstep_life _ _ _ _ Hti1 Hf) as [_ E]. cbn in E. case_decide as He; [|done].
  injection E as E. split; [done|]. split; [done|]. split; [|intros cs2 pc3 H2; by apply (pc_run_down pc2)].
  intros t Ht2. destruct Hi2 as [Hi2 _]. rewrite Ht2 in Hi2, E. destruct Hi2 as [_ Hx]. unfold ctxs_ok in Hx. cbn in E. by rewrite <- E in Hx.
Qed.

(** [Close] works once in the life of the object: a connection that was
    closed and then connected again, which [Connect] allows, stays connected
    whatever is called on it, further calls of [Close] included. *)
Theorem reconnected_never_closes cfg pc cs pc1 cs' pc2 :
  New serverNew cfg = Ok pc -> pc_run pc cs pc1 -> pc_closed pc1 = true -> connected (pc_tx pc1) = true ->
  pc_run pc1 cs' pc2 -> connected (pc_tx pc2) = true.
Proof.
  intros (Hi & _)%New_inv Hr Hc Hu Hr'. apply (pc_run_up pc1 cs' pc2); try done.
  clear -Hi Hr. induction Hr as [|pc c pc1 cs pc2 Hs _ IH]; [done|]. apply IH. by apply (pcstep_forwards _ _ _ Hi Hs).
Qed.
End Claims.

Module PcDemo.
Import AdapterDemo.
#[local] Instance json_hello : JSON Hello := {| Marshal _ := Ok []; Unmarshal _ := Err EOF |}.
#[local] Instance json_sdp : JSON SDP := {| Marshal _ := Ok []; Unmarshal _ := Err EOF |}.
#[local] Instance demo_parser : UrlParser := fun s => Ok (mkURL s "").

Definition demo_serverNew (c : publisherConfig) : result (Config * Z * string * core unit) :=
  Ok (cfg0 false, 0, "slug"%string, demo_core).
Definition demo_config : pcConfig :=
  mkPcConfig TransportAuto (Some (mkNativeConfig RolePublisher (mkPublisherConfig "127.0.0.1:4433" None) ""
    (mkOptions "" false "" 0 "" ∅ None 0))).

Definition demo_tx : serverTransport unit unit := newServerTransport (cfg0 false) 0 "127.0.0.1:4433" "slug" demo_core.
Definition demo_up (t : serverTransport unit unit) : serverTransport unit unit :=
  from_option snd t (st_Connect [mkPoll "" None false] (connectOpts demo_config) t).
Definition demo_down (t : serverTransport unit unit) : serverTransport unit unit := (st_Close t).2.
Definition demo_pc (t : serverTransport unit unit) (closed : bool) : PeerConnection (serverTransport unit unit + clientTransport) :=
  mkPeerConnection demo_config (inl t) closed None.

Lemma demo_connect t closed :
  st_Connect [mkPoll "" None false] (connectOpts demo_config) t = Some (None, demo_up t) ->
  pcstep (demo_pc t closed) (CConnect None) (demo_pc (demo_up t) closed).
Proof.
  intros E. apply (pc_Connect (demo_pc t closed) None (inl (demo_up t))). exists (Some (None, demo_up t)).
  split; [|done]. by exists [mkPoll "" None false], None, (demo_up t).
Qed.

Lemma demo_close t : pcstep (demo_pc t false) (CClose None) (demo_pc (demo_down t) true).
Proof. apply (pc_Close (demo_pc t false) None (inl (demo_down t)) eq_refl). by exists (Some (st_Close t)). Qed.

Definition demo_calls : list call := [CConnect None; CClose None; CConnect None].
Definition demo_end : PeerConnection (serverTransport unit unit + clientTransport) :=
  demo_pc (demo_up (demo_down (demo_up demo_tx))) true.

Lemma demo_connects1 : st_Connect [mkPoll "" None false] (connectOpts demo_config) demo_tx = Some (None, demo_up demo_tx).
Proof. vm_compute. reflexivity. Qed.

Lemma demo_connects2 :
  st_Connect [mkPoll "" None false] (connectOpts demo_config) (demo_down (demo_up demo_tx)) =
    Some (None, demo_up (demo_down (demo_up demo_tx))).
Proof. vm_compute. reflexivity. Qed.

Lemma demo_reconnect : pc_run (demo_pc demo_tx false) demo_calls demo_end.
Proof.
  eapply run_cons; [exact (demo_connect _ _ demo_connects1)|]. eapply run_cons; [apply demo_close|].
  eapply run_cons; [exact (demo_connect _ _ demo_connects2)|]. apply run_nil.
Qed.

Lemma demo_new : New demo_serverNew demo_config = Ok (demo_pc demo_tx false).
Proof. vm_compute. reflexivity. Qed.

Lemma demo_is_up : connected (pc_tx demo_end) = true.
Proof. vm_compute. reflexivity. Qed.

Lemma demo_opened : pc_run (demo_pc demo_tx false) [CConnect None] (demo_pc (demo_up demo_tx) false).
Proof. eapply run_cons; [exact (demo_connect _ _ demo_connects1)|apply run_nil]. Qed.

Lemma pc_refines_lifecycle_witness :
  life false [CConnect None] = Some (connected (pc_tx (demo_pc (demo_up demo_tx) false))) /\
  connected (pc_tx (demo_pc (demo_down (demo_up demo_tx)) true)) = false.
Proof.
  destruct (pc_refines_lifecycle demo_serverNew demo_config _ _ _ demo_new demo_opened eq_refl) as (H1 & H2 & _).
  split; [exact H1|]. apply (H2 None _ (demo_close _)).
Defined.

Lemma reconnected_never_closes_witness :
  exists pc2, pc_run demo_end [CClose None] pc2 /\ connected (pc_tx pc2) = true.
Proof.
  assert (pc_run demo_end [CClose None] demo_end) as Hr.
  { eapply run_cons; [apply pc_Closed; reflexivity|apply run_nil]. }
  exists demo_end. split; [exact Hr|].
  exact (reconnected_never_closes demo_serverNew demo_config _ _ demo_end _ _ demo_new demo_reconnect eq_refl demo_is_up Hr).
Defined.
End PcDemo.
