(* ===== verification/GoText.v ===== *)
(** * Go text: decimal formatting and UTF-8

    The parts of [fmt], [strings] and [unicode/utf8] that the programs use:
    [%d] and [%0nd], [[]rune(s)], [string(runes)], [strings.ReplaceAll] on one
    byte and [strings.TrimSpace].  A rune is its code point. *)

From S2P Require Import Prelude.
From stdpp Require Import pretty.

#[local] Open Scope Z_scope.

(** ** Decimal *)

(** [%d]. *)
Definition fmt_d (z : Z) : string := pretty z.

(** [%0wd]: zeros between the sign and the digits, the sign counts. *)
Definition fmt_0d (w : nat) (z : Z) : string :=
  let s := fmt_d (Z.abs z) in
  let w := if z <? 0 then (w - 1)%nat else w in
  let s := String.append (string_of (repeat x30 (w - String.length s))) s in
  if z <? 0 then String.append "-" s else s.

Lemma fmt_d_inj x y : fmt_d x = fmt_d y -> x = y.
Proof. apply (inj pretty). Qed.

(** ** UTF-8 *)

Definition RuneError : Z := 0xFFFD.
Definition is_cont (z : Z) : bool := (0x80 <=? z) && (z <? 0xC0).
Definition is_surrogate (r : Z) : bool := (0xD800 <=? r) && (r <=? 0xDFFF).
Definition valid_rune (r : Z) : bool := (0 <=? r) && (r <=? 0x10FFFF) && negb (is_surrogate r).

(** [utf8.EncodeRune]. *)
Definition encodeRune (r : Z) : list Z :=
  let r := if valid_rune r then r else RuneError in
  if r <? 0x80 then [r]
  else if r <? 0x800 then [0xC0 + r / 64; 0x80 + r mod 64]
  else if r <? 0x10000 then [0xE0 + r / 4096; 0x80 + (r / 64) mod 64; 0x80 + r mod 64]
  else [0xF0 + r / 262144; 0x80 + (r / 4096) mod 64; 0x80 + (r / 64) mod 64; 0x80 + r mod 64].

(** [utf8.DecodeRune] of a non-empty sequence: the rune and its width; a byte
    that starts no valid encoding is a [RuneError] of width one. *)
Definition decodeRune (b0 : Z) (rest : list Z) : Z * nat :=
  if b0 <? 0x80 then (b0, 1%nat)
  else
    match rest with
    | b1 :: rest1 =>
        let r2 := (b0 - 0xC0) * 64 + (b1 - 0x80) in
        if (0xC0 <=? b0) && (b0 <? 0xE0) && is_cont b1 && (0x80 <=? r2) then (r2, 2%nat)
        else
          match rest1 with
          | b2 :: rest2 =>
              let r3 := (b0 - 0xE0) * 4096 + (b1 - 0x80) * 64 + (b2 - 0x80) in
              if (0xE0 <=? b0) && (b0 <? 0xF0) && is_cont b1 && is_cont b2 && (0x800 <=? r3) && negb (is_surrogate r3)
              then (r3, 3%nat)
              else
                match rest2 with
                | b3 :: _ =>
                    let r4 := (b0 - 0xF0) * 262144 + (b1 - 0x80) * 4096 + (b2 - 0x80) * 64 + (b3 - 0x80) in
                    if (0xF0 <=? b0) && is_cont b1 && is_cont b2 && is_cont b3 && (0x10000 <=? r4) && (r4 <=? 0x10FFFF)
                    then (r4, 4%nat) else (RuneError, 1%nat)
                | [] => (RuneError, 1%nat)
                end
          | [] => (RuneError, 1%nat)
          end
    | [] => (RuneError, 1%nat)
    end.

Fixpoint decodeRunes (fuel : nat) (l : list Z) : list Z :=
  match fuel, l with
  | S fuel', b0 :: rest => let '(r, n) := decodeRune b0 rest in r :: decodeRunes fuel' (drop (n - 1) rest)
  | _, _ => []
  end.

(** [[]rune(s)] and [string(rs)].  A rune takes at least one byte. *)
Definition runes_of (s : list byte) : list Z := decodeRunes (length s) (Z_of_byte <$> s).
Definition string_runes (rs : list Z) : list byte := byte_of_Z <$> concat (encodeRune <$> rs).

Lemma encodeRune_range r : Forall (fun z => 0 <= z < 256) (encodeRune r).
Proof.
  unfold encodeRune. set (q := if valid_rune r then r else RuneError).
  assert (0 <= q <= 0x10FFFF) by (unfold q, valid_rune, RuneError; split_ifs; lia).
  clearbody q. cbv zeta. split_ifs; repeat constructor; Z.to_euclidean_division_equations; lia.
Qed.

Lemma encodeRune_cons r : exists b0 rest, encodeRune r = b0 :: rest.
Proof. unfold encodeRune. split_ifs; eauto. Qed.

(** Settles every [if] of the goal by arithmetic. *)
Ltac decide_ifs :=
  repeat match goal with |- context [if ?b then _ else _] =>
    first [replace b with true by (symmetry; Z.to_euclidean_division_equations; lia)
          |replace b with false by (symmetry; Z.to_euclidean_division_equations; lia)] end.

(** Decoding reads back an encoded rune, whatever follows. *)
Lemma decodeRune_encode r b0 rest tl :
  valid_rune r = true -> encodeRune r = b0 :: rest ->
  decodeRune b0 (rest ++ tl) = (r, S (length rest)).
Proof.
  intros Hv. unfold encodeRune. rewrite Hv. unfold valid_rune in Hv.
  destruct (r <? 0x80) eqn:E1; [intros [= <- <-]|].
  { unfold decodeRune. by rewrite E1. }
  destruct (r <? 0x800) eqn:E2; [intros [= <- <-]|destruct (r <? 0x10000) eqn:E3; intros [= <- <-]];
    cbn [app length]; unfold decodeRune, is_cont, is_surrogate in *.
  - replace ((0xC0 + r / 64 - 0xC0) * 64 + (0x80 + r mod 64 - 0x80)) with r by (Z.to_euclidean_division_equations; lia).
    decide_ifs. done.
  - replace ((0xE0 + r / 4096 - 0xE0) * 4096 + (0x80 + (r / 64) mod 64 - 0x80) * 64 + (0x80 + r mod 64 - 0x80)) with r
      by (Z.to_euclidean_division_equations; lia).
    decide_ifs. done.
  - replace ((0xF0 + r / 262144 - 0xF0) * 262144 + (0x80 + (r / 4096) mod 64 - 0x80) * 4096
       + (0x80 + (r / 64) mod 64 - 0x80) * 64 + (0x80 + r mod 64 - 0x80)) with r
      by (Z.to_euclidean_division_equations; lia).
    decide_ifs. done.
Qed.

Lemma decodeRunes_encode rs fuel :
  Forall (fun r => valid_rune r = true) rs -> (length (concat (encodeRune <$> rs)) <= fuel)%nat ->
  decodeRunes fuel (concat (encodeRune <$> rs)) = rs.
Proof.
  intros H; revert fuel; induction H as [|r rs Hr _ IH]; intros fuel Hf; cbn [fmap list_fmap concat] in *.
  { by destruct fuel. }
  destruct (encodeRune_cons r) as (b0 & rest & E). rewrite E in *. cbn [app length] in Hf.
  destruct fuel as [|fuel]; [lia|]. rewrite length_app in Hf. cbn [app decodeRunes].
  rewrite (decodeRune_encode r b0 rest); [|done|done].
  f_equal. replace (S (length rest) - 1)%nat with (length rest) by lia.
  rewrite drop_app_length. apply IH. lia.
Qed.

Lemma bytes_range l : Forall (fun z => 0 <= z < 256) l -> Z_of_byte <$> (byte_of_Z <$> l) = l.
Proof.
  induction 1 as [|z l Hz _ IH]; csimpl; [done|]. rewrite IH. f_equal.
  rewrite Z_of_byte_of_Z. apply Z.mod_small. lia.
Qed.

(** [[]rune(string(rs))] is [rs] when the runes are valid. *)
Lemma runes_of_string_runes rs :
  Forall (fun r => valid_rune r = true) rs -> runes_of (string_runes rs) = rs.
Proof.
  intros H. unfold runes_of, string_runes. rewrite bytes_range.
  - apply decodeRunes_encode; [done|]. by rewrite length_fmap.
  - apply Forall_concat, Forall_fmap, Forall_true. intros r. apply encodeRune_range.
Qed.

Lemma decodeRune_valid b0 rest : 0 <= b0 < 256 -> valid_rune (decodeRune b0 rest).1 = true.
Proof.
  intros H. unfold decodeRune, is_cont, is_surrogate. destruct rest as [|b1 [|b2 [|b3 rest]]];
    repeat match goal with |- context [if ?b then _ else _] => destruct b eqn:? end; cbn [fst];
    unfold valid_rune, is_surrogate, RuneError; lia.
Qed.

Lemma decodeRunes_valid fuel l :
  Forall (fun z => 0 <= z < 256) l -> Forall (fun r => valid_rune r = true) (decodeRunes fuel l).
Proof.
  revert l; induction fuel as [|fuel IH]; intros [|b0 rest] H; cbn [decodeRunes]; try constructor.
  apply Forall_cons in H as [H0 H]. pose proof (decodeRune_valid b0 rest H0) as Hv.
  destruct (decodeRune b0 rest) as [r n]. constructor; [done|]. apply IH. by apply Forall_drop.
Qed.

(** Whatever the bytes are, the runes of a string are valid. *)
Lemma runes_of_valid s : Forall (fun r => valid_rune r = true) (runes_of s).
Proof.
  unfold runes_of. apply decodeRunes_valid, Forall_fmap, Forall_true.
  intros b. apply Z_of_byte_range.
Qed.

(** ** Replacing and trimming *)

(** [strings.ReplaceAll(s, a, b)] for one-byte [a] and [b]. *)
Definition replaceByte (a b : byte) (s : list byte) : list byte :=
  (fun c => if decide (c = a) then b else c) <$> s.

(** [unicode.IsSpace]. *)
Definition isSpace (r : Z) : bool :=
  ((9 <=? r) && (r <=? 13)) || (r =? 32) || (r =? 0x85) || (r =? 0xA0) || (r =? 0x1680)
  || ((0x2000 <=? r) && (r <=? 0x200a)) || (r =? 0x2028) || (r =? 0x2029) || (r =? 0x202f)
  || (r =? 0x205f) || (r =? 0x3000).

(** The widths of the runes of a string, with the runes. *)
Fixpoint decodeWidths (fuel : nat) (l : list Z) : list (Z * nat) :=
  match fuel, l with
  | S fuel', b0 :: rest =>
      let '(r, n) := decodeRune b0 rest in (r, n) :: decodeWidths fuel' (drop (n - 1) rest)
  | _, _ => []
  end.

Fixpoint spaceWidth (l : list (Z * nat)) : nat :=
  match l with
  | (r, n) :: l' => if isSpace r then (n + spaceWidth l')%nat else 0%nat
  | [] => 0%nat
  end.

(** [strings.TrimSpace]: the bytes of the leading and of the trailing runs of
    white space are dropped. *)
Definition TrimSpace (s : list byte) : list byte :=
  let ws := decodeWidths (length s) (Z_of_byte <$> s) in
  let lead := spaceWidth ws in
  let trail := spaceWidth (rev ws) in
  take (length s - lead - trail) (drop lead s).

(** What is trimmed is a contiguous part of the string. *)
Lemma TrimSpace_infix s : exists a b, s = a ++ TrimSpace s ++ b.
Proof.
  unfold TrimSpace. set (k := spaceWidth _). set (j := spaceWidth (rev _)).
  exists (take k s), (drop (length s - k - j) (drop k s)). rewrite take_drop. by rewrite take_drop.
Qed.

Lemma elem_of_replace a b c s : a <> b -> c ∈ replaceByte a b s -> c <> a.
Proof.
  intros Hab Hc. unfold replaceByte in Hc. apply list_elem_of_fmap in Hc as (x & -> & _).
  destruct (decide (x = a)); congruence.
Qed.

Lemma elem_of_replace_inv a b c s : c ∈ replaceByte a b s -> c = b \/ c ∈ s.
Proof.
  unfold replaceByte. intros Hc. apply list_elem_of_fmap in Hc as (x & -> & Hx).
  destruct (decide (x = a)); [by left|by right].
Qed.

(** ** ASCII in UTF-8 *)

Lemma decodeRune_ascii b0 rest : 0 <= b0 < 256 -> (decodeRune b0 rest).1 < 0x80 -> (decodeRune b0 rest).1 = b0.
Proof.
  intros H. unfold decodeRune, is_cont, is_surrogate, RuneError. destruct rest as [|b1 [|b2 [|b3 rest]]];
    repeat match goal with |- context [if ?b then _ else _] => destruct b eqn:? end; cbn [fst]; lia.
Qed.

(** A rune below 128 comes from the byte of the same value. *)
Lemma runes_of_ascii s r : r ∈ runes_of s -> r < 0x80 -> r ∈ Z_of_byte <$> s.
Proof.
  unfold runes_of. assert (Forall (fun z => 0 <= z < 256) (Z_of_byte <$> s)) as H.
  { apply Forall_fmap, Forall_true. intros b. apply Z_of_byte_range. }
  revert H. generalize (Z_of_byte <$> s) as l. generalize (length s) as fuel.
  induction fuel as [|fuel IH]; intros [|b0 rest] H Hr Hlt; cbn [decodeRunes] in Hr; try by apply elem_of_nil in Hr.
  apply Forall_cons in H as [H0 H]. pose proof (decodeRune_ascii b0 rest H0) as Ha.
  destruct (decodeRune b0 rest) as [q n]. cbn [fst] in Ha. apply elem_of_cons in Hr as [->|Hr].
  - rewrite Ha by done. left.
  - right. eapply elem_of_drop_in, IH; [by apply Forall_drop|exact Hr|done].
Qed.

(** A byte below 128 of an encoding is the rune itself. *)
Lemma string_runes_ascii rs b :
  Forall (fun r => valid_rune r = true) rs -> b ∈ string_runes rs -> Z_of_byte b < 0x80 -> Z_of_byte b ∈ rs.
Proof.
  intros Hv Hb Hlt. unfold string_runes in Hb. apply list_elem_of_fmap in Hb as (z & -> & Hz).
  apply list_elem_of_In, in_concat in Hz as (l & Hl & Hz). apply list_elem_of_In in Hl, Hz.
  apply list_elem_of_fmap in Hl as (r & -> & Hr). rewrite Forall_forall in Hv. specialize (Hv r Hr).
  pose proof (encodeRune_range r) as Hrg. rewrite Forall_forall in Hrg. specialize (Hrg z Hz).
  rewrite Z_of_byte_of_Z, Z.mod_small in * by lia. replace z with r; [done|].
  unfold encodeRune in Hz. rewrite Hv in Hz. unfold valid_rune in Hv. cbv zeta in Hz.
  repeat match type of Hz with context [if ?b then _ else _] => destruct b eqn:? end;
    repeat (apply elem_of_cons in Hz as [->|Hz]); try by apply elem_of_nil in Hz.
  all: Z.to_euclidean_division_equations; lia.
Qed.
