(* ===== verification/ReplayTool.v ===== *)
(** * The replay viewer

    [examples/replay/main.go]: a recording is made from a capture manifest
    ([importManifest]) or synthesized ([generateSample]) through the recorder
    of [Record.v], and shown on one clock as a log, a snapshot or JSON.

    Reading files, parsing the manifest, PNG and base64 encoding and
    [strconv.Quote] are arguments.  The recorder's writer goroutine runs beside
    the program: [imstep] interleaves the two. *)

From S2P Require Import Prelude GoText Wire Track Replay Record.

#[local] Open Scope Z_scope.

(** ** Importing a manifest *)

Record manifestFrame := mkManifestFrame {
  mf_Track : string;
  mf_Kind : string;
  mf_RelMS : Z;
  mf_Keyframe : bool;
  mf_Text : string;
  mf_File : string;
}.

(** One call of [rec.Write]. *)
Record recCall := mkRecCall { ic_track : string; ic_kind : string; ic_au : AccessUnit }.

(** [seq[name]] and [seq[name] = s + 1] on a [map[string]uint32]. *)
Definition nextSeq (seq : gmap string Z) (name : string) : Z * gmap string Z :=
  let s := default 0 (seq !! name) in
  (s, <[name := u32 (s + 1)]> seq).

(** The access unit both producers build; [now] is [time.Now().UnixMicro()]. *)
Definition recUnit (b : list byte) (kf : bool) (s now : Z) : AccessUnit :=
  mkAU b kf (u64 now) s false 0 ∅ 0 0.

Section Importing.
Context (readFile : string -> result (list byte)).
Context (now : nat -> Z).

Definition framePayload (f : manifestFrame) : list byte :=
  let b := bytes_of (mf_Text f) in
  if negb (bool_decide (mf_File f = ""))
  then match readFile (mf_File f) with Ok fb => fb | Err _ => b end
  else b.

(** The loop over the sorted frames: per frame the nanoseconds slept before
    it and the call of the recorder.  A [time.Duration] is an [int64]. *)
Fixpoint importLoop (i : nat) (seq : gmap string Z) (last : Z) (fs : list manifestFrame) : list (Z * recCall) :=
  match fs with
  | [] => []
  | f :: fs' =>
      let '(gap, last) :=
        if mf_RelMS f >? last then (s64 (u64 ((mf_RelMS f - last) * 1000000)), mf_RelMS f) else (0, last) in
      let b := framePayload f in
      let '(s, seq) := nextSeq seq (mf_Track f) in
      (gap, mkRecCall (mf_Track f) (mf_Kind f) (recUnit b (mf_Keyframe f) s (now i)))
        :: importLoop (S i) seq last fs'
  end.

(** What [importManifest] does before it closes the recorder, or the error it
    exits with.  [created] is the outcome of [record.NewFileRecorder]. *)
Definition importManifest `{JSON (list manifestFrame)} (created : result unit) (manifestPath : string)
    : result (list (Z * recCall)) :=
  match readFile manifestPath with
  | Err e => Err e
  | Ok raw =>
      match Unmarshal raw with
      | Err e => Err e
      | Ok frames =>
          let frames := sort_less (key_less mf_RelMS) frames in
          match created with
          | Err e => Err e
          | Ok _ => Ok (importLoop 0 ∅ 0 frames)
          end
      end
  end.
End Importing.

(** ** The program beside the recorder's goroutine *)

Definition NewFileRecorder : rconf := rinit DefaultChannelDepth.

Definition writeCall (c : rconf) (w : recCall) : option rconf :=
  r' ← recWrite (rk c) (ic_track w) (ic_kind w) (ic_au w);
  Some (mkRconf r'
          (if (length (ch_buf (rc_ch (rk c))) <? length (ch_buf (rc_ch r')))%nat
           then rk_accepted c ++ [mkRecordedAU (ic_track w) (ic_kind w) (ic_au w) (au_Bytes (ic_au w))]
           else rk_accepted c)
          (rk_frames c) (S (rk_attempts c)) (rk_done c)).

(** The program makes its calls in order, then closes the recorder; the
    goroutine writes one record at a time and returns on the closed channel. *)
Inductive imstep : list recCall * rconf -> list recCall * rconf -> Prop :=
  | im_write w todo c c' : writeCall c w = Some c' -> imstep (w :: todo, c) (todo, c')
  | im_close c b r' :
      rc_closed (rk c) = false -> recCloseBegin (rk c) = Some (b, r') ->
      imstep ([], c) ([], mkRconf r' (rk_accepted c) (rk_frames c) (rk_attempts c) (rk_done c))
  | im_run todo r acc fs n now f r' :
      recRun r now = Some (Some (f, r')) ->
      imstep (todo, mkRconf r acc fs n false) (todo, mkRconf r' acc (fs ++ [f]) n false)
  | im_return todo r acc fs n now :
      recRun r now = Some None ->
      imstep (todo, mkRconf r acc fs n false) (todo, mkRconf r acc fs n true).

Definition imsteps := rtc imstep.

(** ** The sample session *)

Section Sample.
Context (now : nat -> Z) (synthScreen : string -> Z -> Z -> list byte).

(** [put], with the sequence numbers and the clock readings so far. *)
Definition put (name kind : string) (b : list byte) (kf : bool) (gap : Z)
    (st : gmap string Z * list (Z * recCall)) : gmap string Z * list (Z * recCall) :=
  let '(seq, out) := st in
  let '(s, seq) := nextSeq seq name in
  (seq, out ++ [(gap, mkRecCall name kind (recUnit b kf s (now (length out))))]).

Definition tok (text : string) (gap : Z) := put "reasoning" KindTokens (bytes_of text) false gap.
Definition tool (j : list byte) (gap : Z) := put "toolcalls" KindToolCalls j true gap.
Definition tele (j : list byte) (gap : Z) := put "telemetry" KindTelemetry j false gap.
Definition scr (phase : string) (cx cy : Z) (kf : bool) (gap : Z) :=
  put "screen" KindVideo (synthScreen phase cx cy) kf gap.

(** A JSON text of the program, its double quotes written as single ones. *)
Definition jsonText (t : string) : list byte := replaceByte x27 x22 (bytes_of t).

(** Each call with the milliseconds slept after it. *)
Definition generateSample : list (Z * recCall) :=
  let st := (∅, []) in
  let st := scr "login" 60 70 true 40 st in
  let st := tok "The page is the demo dashboard login." 30 st in
  let st := tok "I'll click the email field and type the address." 30 st in
  let st := tool (jsonText "{'action':'left_click','x':190,'y':140}") 50 st in
  let st := scr "email_filled" 190 140 false 40 st in
  let st := tool (jsonText "{'action':'type','text':'demo@quicrtc.dev'}") 30 st in
  let st := tele (jsonText "{'heap_mb':38,'goroutines':9,'frame':2}") 20 st in
  let st := scr "creds_filled" 200 226 false 40 st in
  let st := tok "Credentials entered; submitting the form." 30 st in
  let st := tool (jsonText "{'action':'key','key':'Return'}") 60 st in
  let st := scr "dashboard" 320 168 true 40 st in
  let st := tok "Dashboard loaded. The payout total reads $48,120." 20 st in
  let st := tele (jsonText "{'heap_mb':41,'goroutines':11,'frame':4}") 0 st in
  st.2.
End Sample.

(** * Importing loses nothing *)

Definition recorded (w : recCall) : recordedAU :=
  mkRecordedAU (ic_track w) (ic_kind w) (ic_au w) (au_Bytes (ic_au w)).

(** With no more calls than the channel holds, nothing is refused: what was
    accepted and what is still to do are all the calls. *)
Record im_inv (all : list recCall) (p : list recCall * rconf) : Prop := {
  im_rec : rec_inv p.2;
  im_cap : ch_cap (rc_ch (rk p.2)) = Z.to_nat DefaultChannelDepth;
  im_all : rk_accepted p.2 ++ (recorded <$> p.1) = recorded <$> all;
  im_open : rc_closed (rk p.2) = true -> p.1 = [];
  im_count : rk_attempts p.2 = length (rk_accepted p.2);
}.

Lemma writeCall_rcstep c w : rcstep c (writeCall c w).
Proof. destruct c as [r acc fs n d]. apply (rc_write r acc fs n d (ic_track w) (ic_kind w) (ic_au w)). Qed.

(** A call made while the recorder is open and its channel has room. *)
Lemma writeCall_room c w :
  rec_inv c -> rc_closed (rk c) = false ->
  (length (ch_buf (rc_ch (rk c))) < ch_cap (rc_ch (rk c)))%nat ->
  exists c', writeCall c w = Some c' /\ rk_accepted c' = rk_accepted c ++ [recorded w] /\
    ch_cap (rc_ch (rk c')) = ch_cap (rc_ch (rk c)) /\ rc_closed (rk c') = false /\ rk_attempts c' = S (rk_attempts c).
Proof.
  intros Hinv Ho Hl. unfold writeCall, recWrite, try_send. rewrite Ho, (ri_closed _ Hinv), Ho.
  apply Nat.ltb_lt in Hl as ->. cbn [mbind option_bind].
  eexists. split; [done|]. cbn [rk_accepted rk rc_ch ch_buf ch_cap rc_closed rk_attempts]. split_and!; [|done..].
  rewrite length_app. cbn [length].
  by assert ((length (ch_buf (rc_ch (rk c))) <? length (ch_buf (rc_ch (rk c))) + 1)%nat = true) as -> by (apply Nat.ltb_lt; lia).
Qed.

(** There is room as long as a call is still to be made. *)
Lemma im_room all w todo c :
  zlen all <= DefaultChannelDepth -> im_inv all (w :: todo, c) ->
  (length (ch_buf (rc_ch (rk c))) < ch_cap (rc_ch (rk c)))%nat.
Proof.
  intros Hn [Hinv Hcap Hall _ _]. cbn [fst snd] in *. destruct (ri_acc _ Hinv) as (taken & Ha & _).
  apply (f_equal length) in Hall. rewrite Ha, !length_app, !length_fmap in Hall. cbn [length] in Hall.
  unfold zlen in Hn. rewrite Hcap. unfold DefaultChannelDepth in *. lia.
Qed.

Lemma imstep_inv all p p' :
  zlen all <= DefaultChannelDepth -> im_inv all p -> imstep p p' -> im_inv all p'.
Proof.
  intros Hn Hinv Hst. destruct Hst as [w todo c c' Hw|c b r' Ho Hc|todo r acc fs n now f r' Hr|todo r acc fs n now Hr];
    pose proof Hinv as [H1 H2 H3 H4 H5]; cbn [fst snd] in *.
  - assert (rc_closed (rk c) = false) as Ho by (destruct (rc_closed (rk c)); [by specialize (H4 eq_refl)|done]).
    destruct (writeCall_room c w H1 Ho (im_room _ _ _ _ Hn Hinv)) as (c'' & E & Ea & Ec & Eo & En).
    rewrite Hw in E. injection E as <-. split; cbn [fst snd].
    + destruct (rcstep_ok c _ H1 (writeCall_rcstep c w)) as (c'' & E & Hok). rewrite Hw in E. by injection E as <-.
    + by rewrite Ec.
    + rewrite Ea, <- app_assoc. exact H3.
    + by rewrite Eo.
    + rewrite En, Ea, length_app, H5. cbn [length]. lia.
  - destruct c as [r acc fs n d]. cbn [rk rk_accepted rk_frames rk_attempts rk_done] in *.
    destruct (rcstep_ok _ _ H1 (rc_close r acc fs n d)) as (c'' & E & Hok). rewrite Hc in E. injection E as <-.
    split; cbn [fst snd rk rk_accepted]; [done| |done|done|done].
    unfold recCloseBegin in Hc. rewrite Ho in Hc. destruct (ch_closed (rc_ch r)); [done|]. by injection Hc as _ <-.
  - destruct (rcstep_ok _ _ H1 (rc_run r acc fs n now f r' Hr)) as (c'' & E & Hok). injection E as <-.
    unfold recRun in Hr. destruct (try_recv (rc_ch r)) as [x c'| |] eqn:Et; [|done|done]. injection Hr as <- <-.
    split; cbn [fst snd rk rk_accepted rc_ch rc_closed] in *; [done| |done|done|done].
    unfold try_recv in Et. destruct (ch_buf (rc_ch r)); [by destruct (ch_closed _)|]. by injection Et as <- <-.
  - destruct (rcstep_ok _ _ H1 (rc_return r acc fs n now Hr)) as (c'' & E & Hok). by injection E as <-.
Qed.

Lemma imsteps_inv all p :
  zlen all <= DefaultChannelDepth -> imsteps (all, NewFileRecorder) p -> im_inv all p.
Proof.
  intros Hn Hs. assert (im_inv all (all, NewFileRecorder)) as H0.
  { split; cbn [fst snd]; [apply rinit_ok|done|done|done|done]. }
  remember (all, NewFileRecorder) as p0 eqn:E. clear E.
  induction Hs as [|p1 p2 p3 Hst _ IH]; [done|]. apply IH. by eapply imstep_inv.
Qed.

Lemma im_finish_calls all todo c :
  zlen all <= DefaultChannelDepth -> im_inv all (todo, c) -> exists c', imsteps (todo, c) ([], c').
Proof.
  intros Hn. revert c; induction todo as [|w todo IH]; intros c Hinv; [by exists c; apply rtc_refl|].
  assert (rc_closed (rk c) = false) as Ho
    by (destruct (rc_closed (rk c)) eqn:E; [by pose proof (im_open _ _ Hinv E)|done]).
  destruct (writeCall_room c w (im_rec _ _ Hinv) Ho (im_room _ _ _ _ Hn Hinv)) as (c1 & E & _).
  apply (im_write _ todo) in E. destruct (IH c1) as (c' & Hc'); [by eapply imstep_inv|].
  exists c'. by eapply rtc_l.
Qed.

(** The goroutine drains a closed channel and returns. *)
Lemma im_drain r acc fs n :
  ch_closed (rc_ch r) = true ->
  exists c', imsteps ([], mkRconf r acc fs n false) ([], c') /\ rk_done c' = true.
Proof.
  remember (ch_buf (rc_ch r)) as b eqn:Eb. revert r fs Eb.
  induction b as [|x b IH]; intros r fs Eb Hc.
  - eexists. split; [apply rtc_once, (im_return _ _ _ _ _ 0)|done].
    unfold recRun, try_recv. by rewrite <- Eb, Hc.
  - destruct (IH (mkFileRecorder (mkChan b (ch_cap (rc_ch r)) (ch_closed (rc_ch r)))
                    (rc_buf r ++ encoded (recFrame x 0)) (rc_dropped r) (rc_closed r)) (fs ++ [recFrame x 0]))
      as (c' & Hs & Hd); [done|done|].
    exists c'. split; [|done]. eapply rtc_l; [|exact Hs]. apply (im_run _ _ _ _ _ 0).
    unfold recRun, try_recv. by rewrite <- Eb.
Qed.

Lemma im_close_drain all c :
  im_inv all ([], c) -> exists c', imsteps ([], c) ([], c') /\ rk_done c' = true.
Proof.
  intros [Hinv _ _ _ _]. cbn [snd] in Hinv. destruct c as [r acc fs n [|]]; [by eexists; split; [apply rtc_refl|]|].
  pose proof (ri_closed _ Hinv) as Hcl. cbn [rk] in Hcl. destruct (rc_closed r) eqn:Eo; [by apply im_drain|].
  destruct (im_drain (mkFileRecorder (close_chan (rc_ch r)) (rc_buf r) (rc_dropped r) true) acc fs n) as (c' & Hs & Hd);
    [done|].
  exists c'. split; [|done]. eapply rtc_l; [|exact Hs].
  apply (im_close (mkRconf r acc fs n false) true); [done|]. unfold recCloseBegin. cbn [rk]. by rewrite Eo, Hcl.
Qed.

Lemma im_progress all todo c :
  zlen all <= DefaultChannelDepth -> im_inv all (todo, c) ->
  exists c', imsteps (todo, c) ([], c') /\ rk_done c' = true.
Proof.
  intros Hn Hinv. destruct (im_finish_calls _ _ _ Hn Hinv) as (c1 & H1).
  assert (im_inv all ([], c1)) as Hinv1.
  { remember (todo, c) as p eqn:E. clear E todo c. remember ([], c1) as q eqn:E. clear E.
    induction H1 as [|p1 p2 p3 Hst _ IH]; [done|]. apply IH. by eapply imstep_inv. }
  destruct (im_close_drain _ _ Hinv1) as (c' & H2 & Hd). exists c'. split; [by etrans|done].
Qed.

(** ** Numbers and pauses of the imported frames *)

Definition sameTrack (f g : manifestFrame) : Prop := mf_Track g = mf_Track f.
#[global] Instance sameTrack_dec f g : Decision (sameTrack f g).
Proof. unfold sameTrack. apply _. Defined.

(** The frames of [f]'s track among the first [k]. *)
Definition earlier (fs : list manifestFrame) (k : nat) (f : manifestFrame) : Z :=
  zlen (filter (sameTrack f) (take k fs)).

Lemma earlier_bound fs k f : 0 <= earlier fs k f <= zlen fs.
Proof.
  unfold earlier, zlen. pose proof (length_filter (sameTrack f) (take k fs)) as H. rewrite length_take in H. lia.
Qed.

Section ImportFacts.
Context (readFile : string -> result (list byte)) (now : nat -> Z).

Definition importCall (fs : list manifestFrame) (base : string -> Z) (i k : nat) (f : manifestFrame) : recCall :=
  mkRecCall (mf_Track f) (mf_Kind f)
    (recUnit (framePayload readFile f) (mf_Keyframe f) (u32 (base (mf_Track f) + earlier fs k f)) (now (i + k))).

Lemma u32_succ z : u32 (u32 z + 1) = u32 (z + 1).
Proof. unfold u32. by rewrite Zplus_mod_idemp_l. Qed.

Lemma importLoop_lookup fs i seq base last k f :
  (forall t, default 0 (seq !! t) = u32 (base t)) -> fs !! k = Some f ->
  exists gap, importLoop readFile now i seq last fs !! k = Some (gap, importCall fs base i k f).
Proof.
  revert i seq base last k; induction fs as [|g fs IH]; intros i seq base last k Hb Hk; [done|].
  cbn [importLoop]. destruct (if mf_RelMS g >? last then _ else _) as [gap last'].
  destruct k as [|k].
  - injection Hk as <-. exists gap. unfold importCall, earlier, nextSeq. cbn [lookup list_lookup take filter list_filter].
    rewrite Hb, zlen_nil, Z.add_0_r, Nat.add_0_r. done.
  - change (fs !! k = Some f) in Hk. unfold nextSeq. cbn [lookup list_lookup].
    destruct (IH (S i) (<[mf_Track g := u32 (default 0 (seq !! mf_Track g) + 1)]> seq)
                (fun t => base t + if decide (mf_Track g = t) then 1 else 0) last' k) as (gap' & E); [|done|].
    + intros t. destruct (decide (mf_Track g = t)) as [<-|Ht].
      * rewrite lookup_insert_eq. cbn [default]. by rewrite Hb, u32_succ.
      * rewrite lookup_insert_ne by done. by rewrite Hb, Z.add_0_r.
    + exists gap'. change (importLoop readFile now (S i) (<[mf_Track g := u32 (default 0 (seq !! mf_Track g) + 1)]> seq) last' fs !! k
        = Some (gap', importCall (g :: fs) base i (S k) f)).
      rewrite E. do 2 f_equal. unfold importCall, earlier. cbn [take]. rewrite filter_cons.
      replace (S i + k)%nat with (i + S k)%nat by lia. do 2 f_equal. f_equal. unfold sameTrack.
      destruct (decide (mf_Track g = mf_Track f)); rewrite ?zlen_cons; lia.
Qed.

Lemma importLoop_length i seq last fs : length (importLoop readFile now i seq last fs) = length fs.
Proof.
  revert i seq last; induction fs as [|f fs IH]; intros i seq last; [done|]. cbn [importLoop].
  destruct (if mf_RelMS f >? last then _ else _) as [gap last']. unfold nextSeq. cbn [length]. by rewrite IH.
Qed.

(** The pauses before frame [k] add up to its relative time. *)
Definition slept (k : nat) (l : list (Z * recCall)) : Z := foldr Z.add 0 (fst <$> take (S k) l).

Lemma importLoop_slept fs i seq last k f :
  ordered (key_less mf_RelMS) fs -> Forall (fun g => mf_RelMS g * 1000000 < 2 ^ 63) fs -> 0 <= last ->
  fs !! k = Some f ->
  slept k (importLoop readFile now i seq last fs) = (Z.max last (mf_RelMS f) - last) * 1000000.
Proof.
  intros Ho; revert i seq last k; induction Ho as [|g fs Ho IH Hg]; intros i seq last k Hr Hl Hk; [done|].
  apply Forall_cons in Hr as [Hrg Hr]. cbn [importLoop].
  destruct (if mf_RelMS g >? last then _ else _) as [gap last'] eqn:Eg.
  assert (gap = (last' - last) * 1000000 /\ last' = Z.max last (mf_RelMS g)) as [-> El].
  { destruct (mf_RelMS g >? last) eqn:E; injection Eg as <- <-; [|lia].
    rewrite s64_u64 by (unfold is_s64; lia). lia. }
  unfold nextSeq, slept. cbn [take fmap list_fmap foldr fst]. destruct k as [|k].
  - injection Hk as <-. rewrite take_0. cbn [fmap list_fmap foldr]. lia.
  - change (fs !! k = Some f) in Hk. fold (slept k (importLoop readFile now (S i)
      (<[mf_Track g := u32 (default 0 (seq !! mf_Track g) + 1)]> seq) last' fs)).
    rewrite IH; [|done|lia|done]. rewrite Forall_forall in Hg.
    specialize (Hg f (list_elem_of_lookup_2 _ _ _ Hk)). unfold key_less in Hg. lia.
Qed.
End ImportFacts.

(** C36: importing a manifest of at most [DefaultChannelDepth] frames loses
    nothing, however the program and the recorder's goroutine interleave: from
    every state they can finish, and when the goroutine has returned, the
    closed file has one entry per frame in the order of their relative times,
    with the frame's track, kind and keyframe mark, numbered from zero within
    its track, and its payload is the frame's file or text; before frame [k]
    the program has slept its relative time. *)
Theorem import_lossless readFile now frames todo c room :
  let sorted := sort_less (key_less mf_RelMS) frames in
  let calls := importLoop readFile now 0 ∅ 0 sorted in
  zlen frames <= DefaultChannelDepth ->
  Forall (fun f => mf_RelMS f * 1000000 < 2 ^ 63) frames ->
  imsteps (snd <$> calls, NewFileRecorder) (todo, c) ->
  (exists c', imsteps (todo, c) ([], c') /\ rk_done c' = true) /\
  rc_dropped (rk c) = 0 /\
  (forall k f, sorted !! k = Some f -> slept k calls = Z.max 0 (mf_RelMS f) * 1000000) /\
  (rk_done c = true -> Forall rec_ok (rk_frames c) ->
   (length (rc_buf (rk c) ++ eofMarker) <= room)%nat ->
   exists tl, BuildTimeline (recCloseFinish room (rk c)).1 = Ok tl /\ length tl = length frames /\
     forall k f, sorted !! k = Some f ->
       exists e au, tl !! k = Some e /\
         e_TrackName e = mf_Track f /\ e_Kind e = mf_Kind f /\ e_Keyframe e = mf_Keyframe f /\
         e_Seq e = earlier sorted k f /\
         ReadPayload (recCloseFinish room (rk c)).1 e = Ok au /\ au_Bytes au = framePayload readFile f).
Proof.
  intros sorted calls Hn Hr Hs.
  assert (length calls = length frames) as Hlen.
  { unfold calls. rewrite importLoop_length. unfold sorted. by rewrite sort_less_perm. }
  assert (zlen (snd <$> calls) <= DefaultChannelDepth) as Hn' by (unfold zlen in *; rewrite length_fmap; lia).
  pose proof (imsteps_inv _ _ Hn' Hs) as Hinv. pose proof (im_rec _ _ Hinv) as Hrec. cbn [snd] in Hrec.
  split_and!.
  - by eapply im_progress.
  - rewrite (ri_count _ Hrec). pose proof (im_count _ _ Hinv) as Hc. cbn [snd] in Hc. rewrite Hc. unfold zlen. by rewrite Z.sub_diag.
  - intros k f Hk. unfold calls. rewrite (importLoop_slept _ _ _ _ _ _ _ f); [lia|apply sort_key_ordered| |lia|done].
    unfold sorted. by rewrite sort_less_perm.
  - intros Hd Hok Hroom. destruct (rec_done_file c room Hrec Hd Hok Hroom) as (Ef & _ & Hm). rewrite Ef. cbn [fst].
    destruct (timeline_exact (rk_frames c) Hok) as (tl & Et & Hl & Hent). exists tl.
    assert (todo = []) as -> by (apply (im_open _ _ Hinv); by destruct (ri_done _ Hrec Hd)).
    pose proof (im_all _ _ Hinv) as Hall. cbn [fst snd] in Hall. rewrite app_nil_r in Hall.
    rewrite Hall in Hm. apply Forall2_length in Hm as Hml. rewrite !length_fmap in Hml.
    split_and!; [done|lia|]. intros k f Hk.
    destruct (importLoop_lookup readFile now sorted 0 ∅ (fun _ => 0) 0 k f) as (gap & Ec); [done|done|].
    fold calls in Ec.
    destruct (lookup_lt_is_Some_2 tl k) as [e He].
    { rewrite Hl, Hml, Hlen. apply lookup_lt_Some in Hk. unfold sorted in Hk. by rewrite sort_less_perm in Hk. }
    destruct (Hent k e He) as (fr & Hfr & Ee & Hp). exists e, (au_of_frame fr).
    destruct (Forall2_lookup_l _ _ _ _ _ Hm Hfr) as (rec & Hrk & now' & ->).
    rewrite !list_lookup_fmap, Ec in Hrk. cbn in Hrk. injection Hrk as <-.
    split; [done|]. split; [by rewrite Ee|]. split; [by rewrite Ee|]. split; [by rewrite Ee|].
    split; [|by split].
    rewrite Ee. cbn [entry_of e_Seq recFrame fr_Seq recorded ra_au importCall ic_au recUnit au_Seq]. unfold earlier, u32. apply Z.mod_small.
    pose proof (earlier_bound sorted k f). unfold earlier in *.
    assert (zlen sorted = zlen frames) by (unfold zlen, sorted; by rewrite sort_less_perm).
    unfold DefaultChannelDepth in *. lia.
Qed.

(** Two frames out of order, one with a file; the goroutine runs after the
    first call and again after [Close]. *)
Definition demo_manifest : list manifestFrame :=
  [mkManifestFrame "reasoning" "tokens" 20 false "done" "";
   mkManifestFrame "screen" "video" 0 true "" "a.png"].
Definition demo_read (p : string) : result (list byte) :=
  if decide (p = "a.png") then Ok [x89; x50] else Err (ErrMsg "no such file").
Definition demo_calls : list recCall :=
  snd <$> importLoop demo_read Z.of_nat 0 ∅ 0 (sort_less (key_less mf_RelMS) demo_manifest).

Lemma demo_import :
  exists c, imsteps (demo_calls, NewFileRecorder) ([], c) /\ rk_done c = true /\ Forall rec_ok (rk_frames c) /\
    (length (rc_buf (rk c) ++ eofMarker) <= 1000)%nat.
Proof.
  eexists. split; [|split; [|split]].
  - eapply rtc_l; [apply im_write; vm_compute; reflexivity|].
    eapply rtc_l; [apply (im_run _ _ _ _ _ 5); vm_compute; reflexivity|].
    eapply rtc_l; [apply im_write; vm_compute; reflexivity|].
    eapply rtc_l; [eapply im_close; vm_compute; reflexivity|].
    eapply rtc_l; [apply (im_run _ _ _ _ _ 9); vm_compute; reflexivity|].
    apply rtc_once. apply (im_return _ _ _ _ _ 0). vm_compute; reflexivity.
  - reflexivity.
  - vm_compute. repeat constructor; vm_compute; intuition discriminate.
  - apply Nat.leb_le. vm_compute. reflexivity.
Qed.

Lemma import_lossless_witness :
  exists c tl, BuildTimeline (recCloseFinish 1000 (rk c)).1 = Ok tl /\ length tl = 2%nat.
Proof.
  destruct demo_import as (c & Hs & Hd & Hok & Hroom).
  destruct (import_lossless demo_read Z.of_nat demo_manifest [] c 1000) as (_ & _ & _ & H).
  - vm_compute. discriminate.
  - repeat constructor.
  - exact Hs.
  - destruct (H Hd Hok Hroom) as (tl & E & Hl & _). exists c, tl. split; [exact E|exact Hl].
Defined.
