(* ===== verification/ReplayView.v ===== *)
(** * What the replay viewer shows

    The output side of [examples/replay/main.go]: the log, the snapshot, the
    JSON of a recording, and the synthesized screens of the sample.  A row of a
    table is the list of its columns, without the padding.  [strconv.Quote],
    base64, the text of an error and the order in which a map is iterated are
    arguments. *)

From S2P Require Import Prelude GoText Wire Track Replay Record ReplayTool.

#[local] Open Scope Z_scope.

Definition keyframeMark (kf : bool) : string := if kf then "K" else ".".

(** [time.Duration(capturedAt-origin) * time.Microsecond], an [int64]. *)
Definition relTime (capturedAt origin : Z) : string :=
  let d := s64 (u64 (s64 (u64 (capturedAt - origin)) * 1000)) in
  let ms := Z.quot d 1000000 in
  "+" +:+ fmt_d (Z.quot ms 1000) +:+ "." +:+ fmt_0d 3 (Z.rem ms 1000) +:+ "s".

Definition ellipsis : string := string_of [xe2; x80; xa6].

Record frameJSON := mkFrameJSON {
  fj_Track : string;
  fj_Kind : string;
  fj_RelMS : Z;
  fj_CapturedAtMicros : Z;
  fj_PTSMicros : Z;
  fj_Seq : Z;
  fj_Keyframe : bool;
  fj_PayloadLen : Z;
  fj_Preview : string;
  fj_PayloadB64 : string;
}.

Record timelineJSON := mkTimelineJSON { tj_Tracks : list RTrack; tj_Frames : list frameJSON }.

Record flags := mkFlags {
  fl_file : string; fl_at : Z; fl_json : bool; fl_payloads : bool; fl_gen : string; fl_import : string }.

Inductive shown :=
  | ExitCode (code : Z)
  | Imports (manifest out : string)
  | Generates (out : string)
  | ShowJSON (j : timelineJSON)
  | ShowSnapshot (rows : list (list string * Entry))
  | ShowLog (tracks : list RTrack) (rows : list (list string)).

Section View.
Context (Quote : list byte -> string) (b64 : list byte -> string) (errText : error -> string).
Context (iterate : list RTrack -> list RTrack).

Definition quoteShort (s : list byte) (max : Z) : string :=
  let s := replaceByte x0a x20 s in
  let s := replaceByte x09 x20 s in
  let s := TrimSpace s in
  let r := runes_of s in
  if zlen r >? max then Quote (string_runes (take (Z.to_nat max) r)) +:+ ellipsis else Quote s.

Definition preview (file : list byte) (e : Entry) : string :=
  if decide (e_Kind e = KindTokens \/ e_Kind e = KindToolCalls) then
    match ReadPayload file e with
    | Err err => "<read error: " +:+ errText err +:+ ">"
    | Ok au => quoteShort (au_Bytes au) 80
    end
  else "<" +:+ fmt_d (e_PayloadLen e) +:+ " bytes>".

Definition frameOf (file : list byte) (origin : Z) (withPayloads : bool) (e : Entry) : frameJSON :=
  mkFrameJSON (e_TrackName e) (e_Kind e) (Z.quot (s64 (u64 (e_CapturedAtMicros e - origin))) 1000)
    (e_CapturedAtMicros e) (e_PTSMicros e) (e_Seq e) (e_Keyframe e) (e_PayloadLen e) (preview file e)
    (if withPayloads then match ReadPayload file e with Ok au => b64 (au_Bytes au) | Err _ => "" end else "").

Definition emitJSON (file : list byte) (tl frames : list Entry) (origin : Z) (withPayloads : bool) : timelineJSON :=
  mkTimelineJSON (Tracks tl) (frameOf file origin withPayloads <$> frames).

Definition printTimeline (file : list byte) (tl frames : list Entry) (origin : Z) : shown :=
  ShowLog (Tracks tl)
    ((fun e => [relTime (e_CapturedAtMicros e) origin; e_TrackName e; e_Kind e; fmt_d (e_PayloadLen e);
                keyframeMark (e_Keyframe e); preview file e]) <$> frames).

(** [sort.Slice] on the names: [iterate] is the order the map's keys come in. *)
Definition printSnapshot (file : list byte) (tl : list Entry) (origin atMS : Z) : shown :=
  let target := s64 (u64 (origin + s64 (u64 (atMS * 1000)))) in
  let snap := SeekSnapshot tl target in
  let keys := sort_less (fun a b : RTrack => str_lt a.1 b.1) (iterate (elements (dom snap))) in
  ShowSnapshot
    (omap (fun k => e ← snap !! k;
             Some ([e_TrackName e; e_Kind e; relTime (e_CapturedAtMicros e) origin; fmt_d (e_Seq e);
                    fmt_d (e_PayloadLen e); keyframeMark (e_Keyframe e); preview file e], e)) keys).

Definition main (readFile : string -> result (list byte)) (f : flags) : shown :=
  if negb (bool_decide (fl_import f = "")) then
    if bool_decide (fl_gen f = "") then ExitCode 2 else Imports (fl_import f) (fl_gen f)
  else if negb (bool_decide (fl_gen f = "")) then Generates (fl_gen f)
  else if bool_decide (fl_file f = "") then ExitCode 2
  else
    match readFile (fl_file f) with
    | Err _ => ExitCode 1
    | Ok file =>
        match BuildTimeline file with
        | Err _ => ExitCode 1
        | Ok tl =>
            match Frames tl with
            | [] => ExitCode 1
            | e0 :: _ =>
                let origin := e_CapturedAtMicros e0 in
                if fl_json f then ShowJSON (emitJSON file tl (Frames tl) origin (fl_payloads f))
                else if 0 <=? fl_at f then printSnapshot file tl origin (fl_at f)
                else printTimeline file tl (Frames tl) origin
            end
        end
    end.
End View.

(** ** The synthesized screens *)

Definition rgba : Type := Z * Z * Z * Z.
Definition screenW : Z := 480.
Definition screenH : Z := 320.

(** An image is the colour of each pixel. *)
Definition image : Type := Z -> Z -> rgba.

(** [fill]: the rectangle is clipped, then every pixel of it is set. *)
Definition fill (x0 y0 x1 y1 : Z) (c : rgba) (img : image) : image :=
  let x0 := if x0 <? 0 then 0 else x0 in
  let y0 := if y0 <? 0 then 0 else y0 in
  let x1 := if x1 >? screenW then screenW else x1 in
  let y1 := if y1 >? screenH then screenH else y1 in
  fun x y => if (y0 <=? y) && (y <? y1) && ((x0 <=? x) && (x <? x1)) then c else img x y.

Definition white : rgba := (255, 255, 255, 255).
Definition chrome : rgba := (232, 234, 238, 255).
Definition field : rgba := (238, 240, 245, 255).
Definition filled : rgba := (198, 221, 255, 255).
Definition blue : rgba := (56, 121, 217, 255).
Definition green : rgba := (34, 170, 100, 255).
Definition dark : rgba := (70, 76, 88, 255).
Definition red : rgba := (220, 40, 60, 255).

Definition dashboard (img : image) : image :=
  let img := fill 0 60 screenW 98 blue img in
  let img := fill 18 73 130 85 white img in
  let img := foldl (fun img r => fill 24 (122 + r * 32) 250 (122 + r * 32 + 20) field img) img [0; 1; 2; 3] in
  let img := fill 280 116 456 210 (226, 246, 233, 255) img in
  let img := fill 296 130 360 138 dark img in
  fill 296 150 420 190 green img.

Definition loginForm (phase : string) (img : image) : image :=
  let '(cx0, cy0, cx1) := (130, 84, 350) in
  let img := fill cx0 cy0 cx1 256 (250, 251, 253, 255) img in
  let img := fill cx0 cy0 cx1 (cy0 + 26) chrome img in
  let img := fill (cx0 + 20) (cy0 + 10) (cx0 + 110) (cy0 + 18) dark img in
  let efill := if decide (phase = "email_filled" \/ phase = "creds_filled") then filled else field in
  let img := fill (cx0 + 24) (cy0 + 44) (cx1 - 24) (cy0 + 70) efill img in
  let pfill := if decide (phase = "creds_filled") then filled else field in
  let img := fill (cx0 + 24) (cy0 + 84) (cx1 - 24) (cy0 + 110) pfill img in
  let btn := if decide (phase = "creds_filled") then (38, 92, 184, 255) else blue in
  fill (cx0 + 24) (cy0 + 128) (cx1 - 24) (cy0 + 156) btn img.

(** [synthScreen] before the PNG encoding; a new image is transparent. *)
Definition synthScreen (phase : string) (cx cy : Z) : image :=
  let img : image := fun _ _ => (0, 0, 0, 0) in
  let img := fill 0 0 screenW screenH white img in
  let img := fill 0 0 screenW 26 chrome img in
  let img := fill 12 9 22 19 (237, 106, 94, 255) img in
  let img := fill 28 9 38 19 (245, 191, 79, 255) img in
  let img := fill 44 9 54 19 (98, 197, 84, 255) img in
  let img := fill 40 32 (screenW - 12) 52 field img in
  let img := fill 46 37 56 47 green img in
  let img := fill 62 40 250 44 dark img in
  let img := if decide (phase = "dashboard") then dashboard img else loginForm phase img in
  let img := fill (cx - 9) (cy - 1) (cx + 10) (cy + 1) red img in
  fill (cx - 1) (cy - 9) (cx + 1) (cy + 10) red img.

(** * The merged order *)

Lemma str_lt_trans a b c : str_lt a b = true -> str_lt b c = true -> str_lt a c = true.
Proof.
  unfold str_lt. revert b c; induction a as [|x a IH]; intros [|y b] [|z c]; simpl; try done.
  unfold Ascii.compare.
  destruct (N.compare_spec (Ascii.N_of_ascii x) (Ascii.N_of_ascii y)) as [E1|E1|E1]; [| |done];
  destruct (N.compare_spec (Ascii.N_of_ascii y) (Ascii.N_of_ascii z)) as [E2|E2|E2]; try done;
  destruct (N.compare_spec (Ascii.N_of_ascii x) (Ascii.N_of_ascii z)) as [E3|E3|E3]; try done; try lia.
  apply IH.
Qed.

Lemma str_lt_tri a b : str_lt a b = true \/ a = b \/ str_lt b a = true.
Proof.
  unfold str_lt. rewrite (String.compare_antisym b a). destruct (String.compare a b) eqn:E; simpl; auto.
  right; left. by apply String.compare_eq_iff.
Qed.

Lemma str_lt_asym a b : str_lt a b = true -> str_lt b a = false.
Proof. unfold str_lt. rewrite (String.compare_antisym b a). by destruct (String.compare a b). Qed.

Lemma str_lt_irrefl a : str_lt a a = false.
Proof. destruct (str_lt a a) eqn:E; [|done]. by rewrite (str_lt_asym _ _ E) in E. Qed.

Lemma entryLess_spec a b :
  entryLess a b = true <->
  e_CapturedAtMicros a < e_CapturedAtMicros b \/
  (e_CapturedAtMicros a = e_CapturedAtMicros b /\
   (str_lt (e_TrackName a) (e_TrackName b) = true \/ (e_TrackName a = e_TrackName b /\ e_Seq a < e_Seq b))).
Proof.
  unfold entryLess. destruct (e_CapturedAtMicros a =? e_CapturedAtMicros b) eqn:E1; cbn [negb].
  - case_bool_decide as E2; cbn [negb]; [rewrite E2, str_lt_irrefl|]; intuition lia.
  - intuition lia.
Qed.

Lemma entryLess_asym a b : entryLess a b = true -> entryLess b a = false.
Proof.
  intros H%entryLess_spec. destruct (entryLess b a) eqn:E; [|done]. apply entryLess_spec in E.
  destruct H as [H|(H & [Hs|[Hs Hq]])], E as [E|(E & [Es|[Es Eq]])]; try lia.
  - by rewrite (str_lt_asym _ _ Hs) in Es.
  - by rewrite Es, str_lt_irrefl in Hs.
  - by rewrite Hs, str_lt_irrefl in Es.
Qed.

Lemma entryLess_trans a b c : entryLess a b = true -> entryLess b c = true -> entryLess a c = true.
Proof.
  rewrite !entryLess_spec. intros [H|(H & [Hs|[Hs Hq]])] [G|(G & [Gs|[Gs Gq]])]; try (left; lia); right; (split; [lia|]).
  - left. by eapply str_lt_trans.
  - left. by rewrite <- Gs.
  - left. by rewrite Hs.
  - right. split; [congruence|lia].
Qed.

(** Entries that differ in capture time, track or number are comparable. *)
Lemma entryLess_geq_trans a b c : entryLess b a = false -> entryLess c b = false -> entryLess c a = false.
Proof.
  assert (forall x y, entryLess x y = false ->
    e_CapturedAtMicros y < e_CapturedAtMicros x \/ (e_CapturedAtMicros x = e_CapturedAtMicros y /\
      (str_lt (e_TrackName y) (e_TrackName x) = true \/ (e_TrackName x = e_TrackName y /\ e_Seq y <= e_Seq x)))) as Hn.
  { intros x y H. assert (~ entryLess x y = true) as H' by congruence. rewrite entryLess_spec in H'.
    assert (~ e_CapturedAtMicros x < e_CapturedAtMicros y) by tauto.
    destruct (decide (e_CapturedAtMicros x = e_CapturedAtMicros y)) as [Ec|Ec]; [right; split; [done|]|left; lia].
    destruct (str_lt_tri (e_TrackName x) (e_TrackName y)) as [?|[?|?]]; [tauto|right|by left].
    split; [done|]. assert (~ e_Seq x < e_Seq y) by tauto. lia. }
  intros H%Hn G%Hn. destruct (entryLess c a) eqn:E; [|done]. apply entryLess_spec in E. exfalso.
  destruct H as [H|(H & [Hs|[Hs Hq]])], G as [G|(G & [Gs|[Gs Gq]])], E as [E|(E & [Es|[Es Eq]])]; try lia.
  all: repeat match goal with
       | H1 : e_TrackName ?x = e_TrackName ?y |- _ => rewrite H1 in *; clear H1
       | H1 : str_lt ?x ?y = true, H2 : str_lt ?y ?x = true |- _ => rewrite (str_lt_asym _ _ H1) in H2; discriminate H2
       | H1 : str_lt ?x ?x = true |- _ => rewrite str_lt_irrefl in H1; discriminate H1
       end.
  all: try by rewrite (str_lt_asym _ _ (str_lt_trans _ _ _ Hs Gs)) in Es.
Qed.

(** [Frames] is in capture order, and holds every entry once. *)
Lemma Frames_ordered tl : ordered entryLess (Frames tl).
Proof. apply sort_less_ordered; [apply entryLess_asym|apply entryLess_geq_trans]. Qed.

Lemma ordered_captured l : ordered entryLess l -> StronglySorted (fun a b => e_CapturedAtMicros a <= e_CapturedAtMicros b) l.
Proof.
  induction 1 as [|a l Hl IH Ha]; constructor; [done|]. eapply Forall_impl; [exact Ha|].
  intros b Hb. destruct (decide (e_CapturedAtMicros a <= e_CapturedAtMicros b)); [done|].
  assert (entryLess b a = true) by (apply entryLess_spec; left; lia). congruence.
Qed.

(** * Claims on the viewer *)

(** A recorded clock: micros since 1970 that fit the viewer's [int64]. *)
Definition clock_ok (f : frame) : Prop := 0 <= fr_CapturedAtMicros f < 2 ^ 63.

(** An emitted frame carries a recorded one. *)
Definition shows (b64 : list byte -> string) (j : frameJSON) (f : frame) : Prop :=
  fj_Track j = fr_TrackName f /\ fj_Kind j = fr_Kind f /\ fj_CapturedAtMicros j = fr_CapturedAtMicros f /\
  fj_PTSMicros j = fr_PTSMicros f /\ fj_Seq j = fr_Seq f /\ fj_Keyframe j = fr_Keyframe f /\
  fj_PayloadLen j = zlen (fr_Payload f) /\ fj_PayloadB64 j = b64 (fr_Payload f).

Lemma frames_of_entries (P : Entry -> frame -> Prop) tl fs :
  length tl = length fs ->
  (forall i e, tl !! i = Some e -> exists f, fs !! i = Some f /\ P e f) -> Forall2 P tl fs.
Proof.
  intros Hl H. apply Forall2_same_length_lookup_2; [done|]. intros i e f He Hf.
  destruct (H i e He) as (f' & Hf' & HP). congruence.
Qed.

(** The rebased time of a frame not before the origin. *)
Lemma rel_ms c o : 0 <= o <= c -> c < 2 ^ 63 -> Z.quot (s64 (u64 (c - o))) 1000 = (c - o) / 1000.
Proof. intros H1 H2. rewrite s64_u64 by (unfold is_s64; lia). apply Z.quot_div_nonneg; lia. Qed.

Lemma sorted_fmap {A B} (R : A -> A -> Prop) (R' : B -> B -> Prop) (g : A -> B) (l : list A) :
  (forall a b, a ∈ l -> b ∈ l -> R a b -> R' (g a) (g b)) -> StronglySorted R l -> StronglySorted R' (g <$> l).
Proof.
  intros Hg H. induction H as [|a l Hl IH Ha]; constructor.
  - apply IH. intros x y Hx Hy. apply Hg; by right.
  - apply Forall_fmap. rewrite Forall_forall in Ha |- *. intros b Hb. simpl. apply Hg; [left|by right|by apply Ha].
Qed.

Lemma elem_of_Tracks tl t : t ∈ Tracks tl <-> exists e, e ∈ tl /\ track_of e = t.
Proof.
  unfold Tracks. set (F := fun _ _ => _).
  assert ((forall x, x ∈ (foldl F (∅, []) tl).1 <-> x ∈ (foldl F (∅, []) tl).2) /\
          (forall x, x ∈ (foldl F (∅, []) tl).2 <-> exists e, e ∈ tl /\ track_of e = x)) as [_ H]; [|apply H].
  induction tl as [|e tl [IH1 IH2]] using rev_ind.
  { split; intros x; [set_solver|]. split; [by intros ?%elem_of_nil|by intros (? & ?%elem_of_nil & _)]. }
  rewrite foldl_app. cbn [foldl]. destruct (foldl F (∅, []) tl) as [seen out]. cbn [fst snd] in *.
  assert (forall x, (exists e', e' ∈ tl ++ [e] /\ track_of e' = x) <-> x ∈ out \/ x = track_of e) as Hx.
  { intros x. rewrite IH2. split.
    - intros (e' & [He'| ->%list_elem_of_singleton]%elem_of_app & Ht); [left; by exists e'|by right].
    - intros [(e' & He' & Ht)| ->]; [exists e'|exists e]; (split; [apply elem_of_app|done]); [by left|].
      right. by apply list_elem_of_singleton. }
  unfold F. destruct (decide (track_of e ∈ seen)) as [Hin|Hin]; cbn [fst snd].
  - split; [done|]. intros x. rewrite Hx. apply IH1 in Hin. split; [by left|by intros [?| ->]].
  - split; intros x; rewrite ?Hx, elem_of_app, list_elem_of_singleton; [|done].
    rewrite elem_of_union, elem_of_singleton, IH1. tauto.
Qed.

(** C38: with [-json -payloads] the viewer of a recording emits every frame of
    the file exactly once, with its metadata and payload, in capture order;
    the times are relative to the first capture, so the first frame is at zero
    and none is negative. *)
Theorem json_shows_recording Quote b64 errText iterate readFile f fs :
  Forall rec_ok fs -> Forall clock_ok fs -> fs <> [] ->
  fl_import f = "" -> fl_gen f = "" -> fl_file f <> "" -> fl_json f = true -> fl_payloads f = true ->
  readFile (fl_file f) = Ok (file_bytes fs) ->
  exists out fs', main Quote b64 errText iterate readFile f = ShowJSON out /\
    fs' ≡ₚ fs /\ Forall2 (shows b64) (tj_Frames out) fs' /\
    StronglySorted (fun a b => fj_CapturedAtMicros a <= fj_CapturedAtMicros b /\ fj_RelMS a <= fj_RelMS b) (tj_Frames out) /\
    (exists j rest, tj_Frames out = j :: rest /\ fj_RelMS j = 0) /\
    (forall t, t ∈ tj_Tracks out <-> exists g, g ∈ fs /\ t = (fr_TrackName g, fr_Kind g)).
Proof.
  intros Hok Hck Hne Hi Hg Hf Hj Hp Hread.
  destruct (timeline_exact fs Hok) as (tl & Et & Hl & Hent).
  assert (Forall2 (fun e g => e = entry_of g (e_Offset e) /\ ReadPayload (file_bytes fs) e = Ok (au_of_frame g)) tl fs) as HF.
  { apply frames_of_entries; [done|]. intros i e He. destruct (Hent i e He) as (g & H1 & H2 & H3). by exists g. }
  assert (Frames tl ≡ₚ tl) as HP by apply sort_less_perm.
  destruct (Permutation_Forall2 (symmetry HP) HF) as (fs' & HPf & HF').
  assert (Forall clock_ok fs') as Hck' by (by rewrite <- HPf).
  pose proof (ordered_captured _ (Frames_ordered tl)) as Hso.
  unfold main. rewrite Hi, Hg, Hj, Hp, Hread, Et.
  rewrite (bool_decide_eq_true_2 ("" = "")), (bool_decide_eq_false_2 (fl_file f = "")) by done. cbn [negb].
  destruct (Frames tl) as [|e0 rest] eqn:Ef.
  { apply Forall2_nil_inv_l in HF'. subst fs'. by apply Permutation_nil_r in HPf. }
  assert (forall e, e ∈ e0 :: rest -> e_CapturedAtMicros e0 <= e_CapturedAtMicros e < 2 ^ 63 /\ 0 <= e_CapturedAtMicros e0) as Hrange.
  { assert (forall e, e ∈ e0 :: rest -> 0 <= e_CapturedAtMicros e < 2 ^ 63) as Hc.
    { intros e He. apply list_elem_of_lookup in He as (i & He).
      destruct (Forall2_lookup_l _ _ _ _ _ HF' He) as (g & Hgi & -> & _).
      rewrite Forall_lookup in Hck'. apply (Hck' i g Hgi). }
    intros e He. split; [|apply Hc; left]. split; [|by apply Hc].
    apply StronglySorted_inv in Hso as [_ Hso]. rewrite Forall_forall in Hso.
    apply elem_of_cons in He as [->|He]; [lia|by apply Hso]. }
  eexists (emitJSON _ _ _ _ tl (e0 :: rest) (e_CapturedAtMicros e0) true), fs'. split; [done|].
  cbn [emitJSON tj_Frames tj_Tracks]. split_and!.
  - by rewrite HPf.
  - apply Forall2_fmap_l. eapply Forall2_impl; [exact HF'|]. intros e g [He Hr]. unfold shows, frameOf. simpl.
    rewrite Hr. rewrite He. done.
  - eapply sorted_fmap; [|exact Hso]. intros a b Ha Hb Hab. cbv beta in Hab. cbn [frameOf fj_CapturedAtMicros fj_RelMS].
    destruct (Hrange a Ha), (Hrange b Hb). split; [done|]. rewrite !rel_ms by lia. apply Z.div_le_mono; lia.
  - eexists _, _. split; [done|]. cbn [frameOf fj_RelMS]. by rewrite Z.sub_diag.
  - intros t. rewrite elem_of_Tracks. split.
    + intros (e & He & <-). apply list_elem_of_lookup in He as (i & He).
      destruct (Forall2_lookup_l _ _ _ _ _ HF He) as (g & Hgi & -> & _). exists g. split; [|done].
      by eapply list_elem_of_lookup_2.
    + intros (g & Hgi & ->). apply list_elem_of_lookup in Hgi as (i & Hgi).
      destruct (Forall2_lookup_r _ _ _ _ _ HF Hgi) as (e & He & Ee & _). exists e.
      split; [by eapply list_elem_of_lookup_2|by rewrite Ee].
Qed.

Definition demo_flags : flags := mkFlags "s.qrtc" (-1) true true "" "".
Definition demo_file : list frame := [frame0 "b" 1 1700; frame0 "a" 1 500].

Lemma json_shows_recording_witness :
  exists out, main string_of string_of (fun _ => "") (fun l => l) (fun _ => Ok (file_bytes demo_file)) demo_flags = ShowJSON out
    /\ fj_RelMS <$> tj_Frames out = [0; 1].
Proof.
  destruct (json_shows_recording string_of string_of (fun _ => "") (fun l => l) (fun _ => Ok (file_bytes demo_file))
              demo_flags demo_file) as (out & fs' & E & _).
  - constructor; [split; vm_compute; intuition discriminate|].
    constructor; [split; vm_compute; intuition discriminate|constructor].
  - repeat constructor; discriminate.
  - discriminate.
  - reflexivity.
  - reflexivity.
  - discriminate.
  - reflexivity.
  - reflexivity.
  - reflexivity.
  - exists out. split; [exact E|]. vm_compute in E. injection E as <-. reflexivity.
Defined.

(** ** Previews and the snapshot *)

Lemma trimmed_in s b : b ∈ TrimSpace s -> b ∈ s.
Proof. intros H. destruct (TrimSpace_infix s) as (l & r & E). rewrite E, !elem_of_app. auto. Qed.

(** Whatever the payload is, the text a preview quotes has at most [max] runes
    and is on one line, without tabs. *)
Theorem quoteShort_short Quote s max :
  0 <= max ->
  exists t, (quoteShort Quote s max = Quote t \/ quoteShort Quote s max = Quote t +:+ ellipsis) /\
    zlen (runes_of t) <= max /\ ~ (x0a ∈ t) /\ ~ (x09 ∈ t).
Proof.
  intros Hm. unfold quoteShort. set (u := TrimSpace _).
  assert (forall c, c ∈ u -> c <> x0a /\ c <> x09) as Hu.
  { intros c Hc%trimmed_in. split; [|eapply elem_of_replace; [|exact Hc]; done].
    intros ->. apply elem_of_replace_inv in Hc as [?|Hc]; [done|]. by apply elem_of_replace in Hc. }
  destruct (zlen (runes_of u) >? max) eqn:E.
  - assert (Forall (fun r => valid_rune r = true) (take (Z.to_nat max) (runes_of u))) as Hv
      by (apply Forall_take, runes_of_valid).
    exists (string_runes (take (Z.to_nat max) (runes_of u))). split; [by right|].
    rewrite runes_of_string_runes by done. split; [unfold zlen in *; rewrite length_take; lia|].
    assert (forall c, c ∈ string_runes (take (Z.to_nat max) (runes_of u)) -> Z_of_byte c < 0x80 -> c ∈ u) as Hin.
    { intros c Hc Hlt. apply string_runes_ascii in Hc; [|done|done]. apply elem_of_take in Hc as (i & Hc & _).
      apply list_elem_of_lookup_2, runes_of_ascii, list_elem_of_fmap in Hc; [|done].
      destruct Hc as (c' & Hc & Hc'). by apply Z_of_byte_inj in Hc as ->. }
    split; intros Hc; by destruct (Hu _ (Hin _ Hc eq_refl)).
  - exists u. split; [by left|]. split; [lia|]. split; intros Hc; by destruct (Hu _ Hc).
Qed.

Lemma quoteShort_short_witness :
  exists t, quoteShort string_of [x68; x0a; x69; x0a] 2 = string_of t +:+ ellipsis /\ zlen (runes_of t) <= 2.
Proof.
  destruct (quoteShort_short string_of [x68; x0a; x69; x0a] 2) as (t & H & Hl & _); [discriminate|].
  exists t. split; [|exact Hl]. destruct H as [H|H]; [exfalso|exact H].
  assert (t = bytes_of (string_of t)) as Ht by (symmetry; apply bytes_of_string_of).
  rewrite <- H in Ht. rewrite Ht in Hl. vm_compute in Hl. congruence.
Defined.

Lemma snapshot_track tl m t e : SeekSnapshot tl m !! t = Some e -> track_of e = t.
Proof. intros H. pose proof (seek_snapshot_latest tl m t) as Hs. rewrite H in Hs. simpl in Hs. tauto. Qed.

Lemma omap_lookup_fst {A B : Type} (m : gmap RTrack A) (g : A -> B) (ks : list RTrack) :
  (forall k, k ∈ ks -> is_Some (m !! k)) ->
  exists es, Forall2 (fun k e => m !! k = Some e) ks es /\
    omap (fun k => e ← m !! k; Some (g e, e)) ks = (fun e => (g e, e)) <$> es.
Proof.
  induction ks as [|k ks IH]; intros H; [by exists []|].
  destruct (H k) as [e He]; [left|]. destruct IH as (es & H1 & H2); [intros k' Hk'; apply H; by right|].
  exists (e :: es). split; [by constructor|]. cbn [omap list_omap]. rewrite He. cbn [mbind option_bind fmap list_fmap].
  f_equal. exact H2.
Qed.

Lemma snd_pairs {A B : Type} (g : A -> B) (l : list A) : snd <$> ((fun e => (g e, e)) <$> l) = l.
Proof. induction l as [|a l IH]; [done|]. csimpl. by rewrite IH. Qed.

(** The snapshot at [atMS] has one row per track that had a frame by then: a
    latest one, in the order of the tracks' names, however the map is
    iterated. *)
Theorem snapshot_shows_latest Quote errText iterate file tl origin atMS :
  (forall l, iterate l ≡ₚ l) -> 0 <= origin -> 0 <= atMS -> origin + atMS * 1000 < 2 ^ 63 ->
  exists rows, printSnapshot Quote errText iterate file tl origin atMS = ShowSnapshot rows /\
    NoDup (track_of <$> (snd <$> rows)) /\
    ordered (fun a b : RTrack => str_lt a.1 b.1) (track_of <$> (snd <$> rows)) /\
    (forall e, e ∈ snd <$> rows -> snapshot_spec tl (origin + atMS * 1000) (track_of e) (Some e)) /\
    (forall t, t ∈ track_of <$> (snd <$> rows) <-> exists e, e ∈ tl /\ track_of e = t /\ e_CapturedAtMicros e <= origin + atMS * 1000).
Proof.
  intros Hit Ho Ha Hb. unfold printSnapshot. rewrite (s64_u64 (atMS * 1000)), s64_u64 by (unfold is_s64; lia).
  set (snap := SeekSnapshot tl (origin + atMS * 1000)).
  set (less := fun a b : RTrack => str_lt a.1 b.1). set (keys := sort_less less _).
  assert (keys ≡ₚ elements (dom snap)) as Hp by (unfold keys; by rewrite sort_less_perm, Hit).
  assert (forall k, k ∈ keys <-> is_Some (snap !! k)) as Hk
    by (intros k; rewrite Hp, elem_of_elements; apply elem_of_dom).
  destruct (omap_lookup_fst snap (fun e => [e_TrackName e; e_Kind e; relTime (e_CapturedAtMicros e) origin; fmt_d (e_Seq e);
     fmt_d (e_PayloadLen e); keyframeMark (e_Keyframe e); preview Quote errText file e]) keys) as (es & HF & ->);
    [intros k; apply Hk|].
  eexists. split; [done|]. rewrite snd_pairs.
  assert (track_of <$> es = keys) as ->.
  { clear -HF. induction HF as [|k e ks es He _ IH]; [done|]. csimpl. rewrite IH. f_equal. by eapply snapshot_track. }
  split_and!.
  - rewrite Hp. apply NoDup_elements.
  - apply sort_less_ordered; unfold less; [intros a b; apply str_lt_asym|]. intros a b c H1 H2.
    destruct (str_lt c.1 a.1) eqn:E; [|done]. destruct (str_lt_tri c.1 b.1) as [?|[E'|E']]; [congruence| |].
    + rewrite E' in E. congruence.
    + pose proof (str_lt_trans _ _ _ E' E). congruence.
  - intros e He. apply list_elem_of_lookup in He as (i & He). destruct (Forall2_lookup_r _ _ _ _ _ HF He) as (k & _ & Hs).
    pose proof (seek_snapshot_latest tl (origin + atMS * 1000) k) as Hspec. unfold snap in Hs.
    rewrite Hs in Hspec. by rewrite (snapshot_track _ _ _ _ Hs).
  - intros t. rewrite Hk. pose proof (seek_snapshot_latest tl (origin + atMS * 1000) t) as Hspec. fold snap in Hspec.
    destruct (snap !! t) as [e|]; simpl in Hspec.
    + split; [|by eauto]. intros _. exists e. tauto.
    + split; [by intros []|]. intros (e & He & Ht & Hle). specialize (Hspec e He Ht). lia.
Qed.

Lemma snapshot_shows_latest_witness :
  exists rows, printSnapshot string_of (fun _ => "") (fun l => rev l) (file_bytes demo_file) (entries_from 12 demo_file) 500 1
    = ShowSnapshot rows /\ NoDup (track_of <$> (snd <$> rows)).
Proof.
  destruct (snapshot_shows_latest string_of (fun _ => "") (fun l => rev l) (file_bytes demo_file) (entries_from 12 demo_file) 500 1)
    as (rows & E & H & _).
  - intros l. symmetry. apply Permutation_rev.
  - discriminate.
  - discriminate.
  - reflexivity.
  - exists rows. split; [exact E|exact H].
Defined.

(** ** The sample's screens *)

Definition on_screen (x y : Z) : Prop := 0 <= x < screenW /\ 0 <= y < screenH.
Definition opaque (c : rgba) : Prop := c.2 = 255.

(** [fill] changes no pixel outside of the screen, however the rectangle lies. *)
Lemma fill_clipped x0 y0 x1 y1 c img x y : ~ on_screen x y -> fill x0 y0 x1 y1 c img x y = img x y.
Proof.
  unfold on_screen, fill. intros H. destruct (_ && _ && _) eqn:E; [|done]. exfalso. apply H.
  apply andb_prop in E as [[E1 E2]%andb_prop [E3 E4]%andb_prop]. split_ifs_all; lia.
Qed.

Lemma fill_inside x0 y0 x1 y1 c img x y :
  on_screen x y -> x0 <= x < x1 -> y0 <= y < y1 -> fill x0 y0 x1 y1 c img x y = c.
Proof.
  unfold on_screen, fill. intros H Hx Hy. destruct (_ && _ && _) eqn:E; [done|]. exfalso.
  apply andb_false_iff in E as [[E|E]%andb_false_iff|[E|E]%andb_false_iff]; split_ifs_all; lia.
Qed.

Lemma fill_opaque x0 y0 x1 y1 c img x y : opaque c -> opaque (img x y) -> opaque (fill x0 y0 x1 y1 c img x y).
Proof. intros H1 H2. unfold fill. by split_ifs. Qed.

Lemma canvas_opaque img x y : on_screen x y -> opaque (fill 0 0 screenW screenH white img x y).
Proof. intros H. rewrite fill_inside; [done|done|unfold on_screen in H; lia..]. Qed.

(** Every screen of the sample is opaque all over and shows the cursor when it
    is on the screen. *)
Theorem synthScreen_opaque phase cx cy x y :
  on_screen x y -> opaque (synthScreen phase cx cy x y) /\ (on_screen cx cy -> synthScreen phase cx cy cx cy = red).
Proof.
  intros Hs. split.
  - unfold synthScreen. do 2 (apply fill_opaque; [done|]).
    case_decide; unfold dashboard, loginForm; cbv zeta; cbn [foldl];
      repeat first [by apply canvas_opaque|apply fill_opaque; [by repeat case_decide|]].
  - intros Hc. unfold synthScreen. cbv zeta.
    apply fill_inside; [done|lia|lia].
Qed.
