(* ===== verification/CuaServer.v ===== *)
(** * The computer-use host

    [examples/cua/server/main.go]: a server that answers requests sent as
    datagrams, after a simulated delay, and streams a screen beside them, on one
    track ([naive]) or on one track per kind ([multistream]).

    JSON, random bytes, the clock, the PNG encoder and the outcomes of the
    session's and the publishers' calls are arguments.  [None] is a panic,
    which in a goroutine ends the process. *)

From S2P Require Import Prelude Wire Track Replay Pubsub PubsubCalls RateLimit Pump DataChannel Inbound SessionStore Session Server.

#[local] Open Scope Z_scope.

Definition trackData : string := "data".
Definition trackScreen : string := "screen".
Definition trackA11y : string := "a11y".
Definition trackDom : string := "dom".
Definition trackPerf : string := "perf".
Definition trackAcks : string := "acks".

Record request := mkRequest { rq_Turn : Z; rq_Kind : string; rq_MsgID : Z }.
Record response := mkResponse { rs_Turn : Z; rs_Kind : string; rs_MsgID : Z; rs_Body : list byte }.

#[global] Instance request_eq_dec : EqDecision request.
Proof. solve_decision. Defined.
#[global] Instance response_eq_dec : EqDecision response.
Proof. solve_decision. Defined.

Record handlerCfg := mkHandlerCfg { latencyMs : Z; bodyBytes : Z }.

(** [run]: [intn] is what [mrand.Intn] draws, [read n] are [n] random bytes.
    [Intn] panics on an argument that is not positive and [make] on a negative
    length; the duration is in nanoseconds. *)
Definition run (intn : Z -> Z) (read : Z -> list byte) (h : handlerCfg) : option (list byte * Z) :=
  if latencyMs h <=? 0 then None
  else if bodyBytes h <? 0 then None
  else
    let jitter := Z.quot (intn (latencyMs h) * 1000000) 10 in
    Some (read (bodyBytes h), latencyMs h * 1000000 + jitter).

Record options := mkOptions {
  op_mode : string;
  op_actionMs : Z; op_a11yMs : Z; op_domMs : Z; op_perfMs : Z;
  op_screenFPS : Z; op_screenKB : Z;
  op_actionKB : Z; op_a11yKB : Z; op_domKB : Z; op_perfKB : Z;
  op_stress : bool;
  op_datagramMetadata : bool;
}.

(** The defaults of the flags. *)
Definition defaultOptions : options :=
  mkOptions "multistream" 30 12 8 6 5 50 32 4 2 1 false false.

Definition applyStress (o : options) : options :=
  if op_stress o
  then mkOptions (op_mode o) 5 2 2 2 30 1000 (op_actionKB o) 0 0 0 (op_stress o) true
  else o.

Definition handlersOf (o : options) : gmap string handlerCfg :=
  <["action" := mkHandlerCfg (op_actionMs o) (op_actionKB o * 1024)]>
  (<["a11y" := mkHandlerCfg (op_a11yMs o) (op_a11yKB o * 1024)]>
  (<["dom" := mkHandlerCfg (op_domMs o) (op_domKB o * 1024)]>
  (<["perf" := mkHandlerCfg (op_perfMs o) (op_perfKB o * 1024)]> ∅))).

Definition validMode (mode : string) : bool := bool_decide (mode = "naive") || bool_decide (mode = "multistream").

Definition trackForKind (mode kind : string) : string :=
  if decide (mode = "naive") then trackData
  else if decide (kind = "action") then trackAcks
  else if decide (kind = "a11y") then trackA11y
  else if decide (kind = "dom") then trackDom
  else if decide (kind = "perf") then trackPerf
  else trackAcks.

(** ** Registration

    A publisher is named by the track [AddTrackSpec] returned it for. *)
Section Register.
Context {W W' : Type} {JA : JSON Announce} {JU : JSON Unannounce} (base : Config) (buffer : Z).

Definition trackSpecs (mode : string) : list TrackSpec :=
  if decide (mode = "naive") then [mkTrackSpec trackData KindTokens 0 x00]
  else [mkTrackSpec trackScreen KindVideo 0 x00; mkTrackSpec trackA11y KindTokens 0 x00;
        mkTrackSpec trackDom KindTokens 0 x00; mkTrackSpec trackPerf KindTokens 0 x00;
        mkTrackSpec trackAcks KindTokens 0 x00].

Fixpoint addSpecs (specs : list TrackSpec) (out : gmap string string) (c : core W) (ss : list (session W'))
    : option (gmap string string * core W * list (session W')) :=
  match specs with
  | [] => Some (out, c, ss)
  | spec :: specs' =>
      res ← AddTrackSpec base buffer spec c ss;
      addSpecs specs' (<[spec_Name spec := spec_Name spec]> out) res.1 res.2
  end.

Definition registerTracks (mode : string) (c : core W) (ss : list (session W')) :=
  addSpecs (trackSpecs mode) ∅ c ss.
End Register.

(** ** The background screen *)

Section Screen.
Context (encode : nat -> Z -> bool -> result (list byte)) (pad : Z -> list byte) (now : nat -> Z).

(** One tick: the number of the next frame and the unit published, if the
    encoder, which sees the tick [i], gave a picture. *)
Definition screenTick (fps sizeKB : Z) (i : nat) (seq : Z) : option (Z * option AccessUnit) :=
  let period := u32 (fps * 2) in
  if period =? 0 then None
  else
    let keyframe := seq mod period =? 0 in
    match encode i seq keyframe with
    | Err _ => Some (seq, None)
    | Ok png =>
        let needed := sizeKB * 1024 - zlen png in
        let payload := if needed >? 0 then png ++ pad needed else png in
        Some (u32 (seq + 1), Some (mkAU payload keyframe (u64 (now i)) seq false 0 ∅ 0 0))
    end.

(** [n] ticks before the context ends. *)
Fixpoint pumpScreen (fps sizeKB : Z) (n i : nat) (seq : Z) : option (list AccessUnit) :=
  match n with
  | O => Some []
  | S n' =>
      match screenTick fps sizeKB i seq with
      | None => None
      | Some (seq, au) => rest ← pumpScreen fps sizeKB n' (S i) seq; Some (option_list au ++ rest)
      end
  end.

(** The track the screen goes to, when it was registered. *)
Definition screenTarget (mode : string) (pubs : gmap string string) : option string :=
  if decide (mode = "naive") then pubs !! trackData else pubs !! trackScreen.
End Screen.

(** ** Requests and answers *)

Inductive emitted := Datagram (b : list byte) | Published (track : string) (au : AccessUnit).

Definition isMetadata (kind : string) : bool :=
  bool_decide (kind = "a11y") || bool_decide (kind = "dom") || bool_decide (kind = "perf").

Section Requests.
Context `{JSON request} `{JSON response}.

(** The loop of [drainRequests] on one datagram: the request and its handler,
    when a worker is started. *)
Definition accept (handlers : gmap string handlerCfg) (raw : list byte) : option (request * handlerCfg) :=
  match Unmarshal raw with
  | Err _ => None
  | Ok req => cfg ← handlers !! rq_Kind req; Some (req, cfg)
  end.

(** [json.Marshal] with its error dropped. *)
Definition marshal (r : response) : list byte := match Marshal r with Ok b => b | Err _ => [] end.

(** The counters [responses] and [turns]. *)
Record counters := mkCounters { ct_responses : Z; ct_turns : Z }.

(** What a worker does once its timer fired: [sendDatagram] and [publish] say
    whether these calls succeed. *)
Definition answer (mode : string) (useDatagramMetadata : bool) (pubs : gmap string string)
    (sendDatagram : list byte -> bool) (publish : string -> bool) (now : Z)
    (req : request) (body : list byte) : list emitted * counters :=
  let respBytes := marshal (mkResponse (rq_Turn req) (rq_Kind req) (rq_MsgID req) body) in
  if useDatagramMetadata && bool_decide (mode = "multistream") && isMetadata (rq_Kind req)
     && (zlen respBytes <=? 1200) && sendDatagram respBytes
  then ([Datagram respBytes], mkCounters 1 0)
  else
    match pubs !! trackForKind mode (rq_Kind req) with
    | None => ([], mkCounters 0 0)
    | Some pub =>
        let au := mkAU respBytes true (u64 now) (rq_MsgID req) false 0 ∅ 0 0 in
        if publish pub
        then ([Published pub au], mkCounters 1 (if decide (rq_Kind req = "action") then 1 else 0))
        else ([], mkCounters 0 0)
    end.

(** A worker: [cancelled] when the session ends before the timer fires. *)
Definition worker (intn : Z -> Z) (read : Z -> list byte) (mode : string) (useDatagramMetadata : bool)
    (pubs : gmap string string) (sendDatagram : list byte -> bool) (publish : string -> bool)
    (now : Z) (cancelled : bool) (req : request) (cfg : handlerCfg) : option (list emitted * counters) :=
  match run intn read cfg with
  | None => None
  | Some (body, _) =>
      Some (if cancelled then ([], mkCounters 0 0)
            else answer mode useDatagramMetadata pubs sendDatagram publish now req body)
  end.
End Requests.

(** [main] prints the share link once this is false of the server's address. *)
Definition keepsWaiting (addr : string) : bool := bool_decide (addr = "127.0.0.1:0").

(** ** The holder of the publishers

    The global [publishers] is empty until [main] fills it, which it does after
    the server is listening; [drainRequests] reads it once, when its session
    starts. *)
Inductive holderEvent := SessionStarts | Stash (pubs : gmap string string).

(** The holder and what the sessions read, in the order they started. *)
Definition holderStep (st : gmap string string * list (gmap string string)) (e : holderEvent) :=
  match e with
  | SessionStarts => (st.1, st.2 ++ [st.1])
  | Stash pubs => (pubs, st.2)
  end.

Definition holderRun (evs : list holderEvent) : gmap string string * list (gmap string string) :=
  foldl holderStep (∅, []) evs.

(** * Registration at start-up *)

Section RegisterFacts.
Context {W W' : Type} {JA : JSON Announce} {JU : JSON Unannounce} (base : Config) (buffer : Z).

Lemma registerTrack_new name kind priority trackID (c : core W) :
  sv_tracks c !! name = None ->
  exists c' a, registerTrack buffer name kind priority trackID c = (true, c') /\
    sv_tracks c' = <[name := mkTrackEntry kind priority trackID a]> (sv_tracks c).
Proof.
  intros Hn. unfold registerTrack. rewrite Hn. destruct (attachRecordersToTrack _ _ _ _ _) as [b recs].
  eexists _, _. split; [reflexivity|done].
Qed.

(** Before any session, the publishers and the tracks are those of the list. *)
Lemma addSpecs_fresh specs : forall out (c : core W),
  NoDup (spec_Name <$> specs) -> (forall s, s ∈ specs -> sv_tracks c !! spec_Name s = None) ->
  exists pubs c', addSpecs base buffer (W' := W') specs out c [] = Some (pubs, c', []) /\
    (forall n, pubs !! n = if decide (n ∈ spec_Name <$> specs) then Some n else out !! n) /\
    (forall n, n ∉ spec_Name <$> specs -> sv_tracks c' !! n = sv_tracks c !! n) /\
    (forall s, s ∈ specs -> exists t, sv_tracks c' !! spec_Name s = Some t /\ te_kind t = specKind s).
Proof.
  induction specs as [|s specs IH]; intros out c Hnd Hnew.
  { exists out, c. split; [done|]. split_and!; [|done|by intros ? ?%elem_of_nil].
    intros n. rewrite decide_False; [done|]. by intros ?%elem_of_nil. }
  apply NoDup_cons in Hnd as [Hni Hnd]. cbn [addSpecs]. unfold AddTrackSpec, addTrackInternal.
  destruct (registerTrack_new (spec_Name s) (specKind s) (specPriority s) (spec_TrackID s) c) as (c1 & a & -> & Ht);
    [apply Hnew; left|].
  rewrite Ht, lookup_insert_eq. cbn [mbind option_bind notifySessions fst snd te_bc].
  destruct (IH (<[spec_Name s := spec_Name s]> out) c1 Hnd) as (pubs & c' & -> & Hp & Hk & Hs).
  { intros s' Hs'. rewrite Ht, lookup_insert_ne; [apply Hnew; by right|].
    intros E. apply Hni. rewrite E. by apply list_elem_of_fmap_2. }
  exists pubs, c'. split; [done|]. split_and!.
  - intros n. rewrite Hp. destruct (decide (n ∈ spec_Name <$> specs)) as [Hn|Hn].
    + rewrite decide_True by (by right). done.
    + destruct (decide (n = spec_Name s)) as [->|Hne].
      * rewrite lookup_insert_eq, decide_True by left. done.
      * rewrite lookup_insert_ne by done. rewrite decide_False; [done|]. by intros [?|?]%elem_of_cons.
  - intros n Hn. csimpl in Hn. apply not_elem_of_cons in Hn as [Hne Hn]. rewrite Hk by done. by rewrite Ht, lookup_insert_ne.
  - intros s' [->|Hs']%elem_of_cons; [|by apply Hs]. rewrite Hk by done. rewrite Ht, lookup_insert_eq. by eexists.
Qed.

(** Where each mode looks its publishers up. *)
Lemma registered_pubs mode (c : core W) :
  (forall n, n ∈ [trackData; trackScreen; trackA11y; trackDom; trackPerf; trackAcks] -> sv_tracks c !! n = None) ->
  exists pubs c', registerTracks base buffer (W' := W') mode c [] = Some (pubs, c', []) /\
    (forall kind, pubs !! trackForKind mode kind = Some (trackForKind mode kind) /\
       exists t, sv_tracks c' !! trackForKind mode kind = Some t /\ te_kind t = KindTokens) /\
    exists n t, screenTarget mode pubs = Some n /\ sv_tracks c' !! n = Some t /\
      te_kind t = (if decide (mode = "naive") then KindTokens else KindVideo).
Proof.
  intros Hnew. unfold registerTracks.
  destruct (addSpecs_fresh (trackSpecs mode) ∅ c) as (pubs & c' & E & Hp & _ & Hs).
  { unfold trackSpecs. case_decide; apply (bool_decide_unpack _); vm_compute; exact I. }
  { intros s Hs. apply Hnew. unfold trackSpecs in Hs. case_decide;
      repeat (apply elem_of_cons in Hs as [->|Hs]; [cbn; set_solver|]); by apply elem_of_nil in Hs. }
  exists pubs, c'. split; [exact E|].
  assert (forall s, s ∈ trackSpecs mode -> pubs !! spec_Name s = Some (spec_Name s)) as Hpub.
  { intros s Hin. rewrite Hp, decide_True; [done|]. by apply list_elem_of_fmap_2. }
  split.
  - intros kind.
    assert (exists s, s ∈ trackSpecs mode /\ spec_Name s = trackForKind mode kind /\ specKind s = KindTokens)
      as (s & Hin & <- & Hk).
    { exists (mkTrackSpec (trackForKind mode kind) KindTokens 0 x00). split; [|done].
      unfold trackSpecs, trackForKind. case_decide; [left|]. repeat case_decide; rewrite !elem_of_cons; auto 8. }
    split; [by apply Hpub|]. destruct (Hs s Hin) as (t & Ht & Hkt). exists t. by rewrite Hkt.
  - assert (exists s, s ∈ trackSpecs mode /\ spec_Name s = (if decide (mode = "naive") then trackData else trackScreen) /\
       specKind s = (if decide (mode = "naive") then KindTokens else KindVideo)) as (s & Hin & Hn & Hk).
    { unfold trackSpecs. case_decide; [exists (mkTrackSpec trackData KindTokens 0 x00)|exists (mkTrackSpec trackScreen KindVideo 0 x00)];
        (split; [left|done]). }
    destruct (Hs s Hin) as (t & Ht & Hkt). exists (spec_Name s), t. rewrite Hkt. split_and!; [|done|done].
    unfold screenTarget. rewrite <- (Hpub s Hin), Hn. by case_decide.
Qed.
End RegisterFacts.

(** * Claims on the host *)

(** The bytes a worker put on the wire. *)
Definition emittedBytes (e : emitted) : list byte :=
  match e with Datagram b => b | Published _ au => au_Bytes au end.

Section Answers.
Context `{JSON request} `{JSON response}.

(** A worker emits at most one answer, counts what it emits, and the answer is
    the response to its request. *)
Lemma answer_once mode dm pubs sendD publish now req body ems ct :
  answer mode dm pubs sendD publish now req body = (ems, ct) ->
  ct_responses ct = zlen ems /\ (length ems <= 1)%nat /\
  Forall (fun e => emittedBytes e = marshal (mkResponse (rq_Turn req) (rq_Kind req) (rq_MsgID req) body)) ems.
Proof.
  unfold answer. destruct (_ && _ && _ && _ && _); [|destruct (pubs !! _); [destruct (publish _)|]];
    intros [= <- <-]; repeat constructor.
Qed.

Lemma answer_datagram mode dm pubs sendD publish now req body ems ct b :
  answer mode dm pubs sendD publish now req body = (ems, ct) -> Datagram b ∈ ems ->
  dm = true /\ mode = "multistream" /\ isMetadata (rq_Kind req) = true /\ zlen b <= 1200.
Proof.
  unfold answer. destruct (_ && _ && _ && _ && _) eqn:E.
  - intros [= <- <-] Hin%list_elem_of_singleton. injection Hin as ->.
    apply andb_prop in E as [[[[-> Hm%bool_decide_eq_true_1]%andb_prop Hk]%andb_prop Hl]%andb_prop _].
    split_and!; [done|done|done|lia].
  - destruct (pubs !! _); [destruct (publish _)|]; intros [= <- <-] Hin;
      [by apply list_elem_of_singleton in Hin|by apply elem_of_nil in Hin..].
Qed.

Lemma answer_published mode dm pubs sendD publish now req body ems ct pub au :
  answer mode dm pubs sendD publish now req body = (ems, ct) -> Published pub au ∈ ems ->
  pubs !! trackForKind mode (rq_Kind req) = Some pub /\ au_Keyframe au = true /\ au_Seq au = rq_MsgID req.
Proof.
  unfold answer. destruct (_ && _ && _ && _ && _) eqn:E.
  - intros [= <- <-] Hin. by apply list_elem_of_singleton in Hin.
  - destruct (pubs !! _) as [q|]; [destruct (publish _)|]; intros [= <- <-] Hin; try by apply elem_of_nil in Hin.
    apply list_elem_of_singleton in Hin. by injection Hin as -> ->.
Qed.
End Answers.

(** C37: once the host has registered its tracks (before any session), a request
    of one of the four kinds whose handler has a positive delay is answered:
    its worker does not panic, and unless the session ends first or publishing
    fails it emits exactly one answer, the response with the request's turn,
    kind and identifier.  Datagrams carry only metadata of at most 1200 bytes,
    when asked for, in multistream mode; every other answer is a self-contained
    unit numbered by the request on a registered track of tokens, the one track
    of naive mode or the track of its kind. *)
Theorem request_answered_once `{JSON request} `{JSON response} {W W' : Type} {JA : JSON Announce} {JU : JSON Unannounce}
    base buffer mode (c : core W) o intn read dm sendD publish now raw req :
  (forall n, n ∈ [trackData; trackScreen; trackA11y; trackDom; trackPerf; trackAcks] -> sv_tracks c !! n = None) ->
  Unmarshal raw = Ok req -> rq_Kind req ∈ ["action"; "a11y"; "dom"; "perf"] ->
  (forall k cfg, handlersOf o !! k = Some cfg -> 0 < latencyMs cfg /\ 0 <= bodyBytes cfg) ->
  exists pubs c' cfg, registerTracks base buffer (W' := W') mode c [] = Some (pubs, c', []) /\
    accept (handlersOf o) raw = Some (req, cfg) /\
    forall cancelled, exists ems ct,
      worker intn read mode dm pubs sendD publish now cancelled req cfg = Some (ems, ct) /\
      ct_responses ct = zlen ems /\ (length ems <= 1)%nat /\
      (cancelled = false -> (forall p, publish p = true) -> length ems = 1%nat) /\
      (forall e, e ∈ ems ->
         emittedBytes e = marshal (mkResponse (rq_Turn req) (rq_Kind req) (rq_MsgID req) (read (bodyBytes cfg))) /\
         match e with
         | Datagram b => dm = true /\ mode = "multistream" /\ rq_Kind req <> "action" /\ zlen b <= 1200
         | Published track au => track = trackForKind mode (rq_Kind req) /\ au_Keyframe au = true /\
             au_Seq au = rq_MsgID req /\ exists t, sv_tracks c' !! track = Some t /\ te_kind t = KindTokens
         end).
Proof.
  intros Hnew Hraw Hkind Hcfg. destruct (registered_pubs (W' := W') base buffer mode c Hnew) as (pubs & c' & E & Hp & _).
  assert (exists cfg, handlersOf o !! rq_Kind req = Some cfg) as (cfg & Hh).
  { unfold handlersOf. repeat (apply elem_of_cons in Hkind as [->|Hkind]; [by eexists|]). by apply elem_of_nil in Hkind. }
  exists pubs, c', cfg. split; [exact E|]. split; [unfold accept; by rewrite Hraw, Hh|].
  intros cancelled. unfold worker, run. destruct (Hcfg _ _ Hh) as [Hl Hb].
  destruct (latencyMs cfg <=? 0) eqn:E1; [lia|]. destruct (bodyBytes cfg <? 0) eqn:E2; [lia|]. cbv zeta.
  destruct cancelled; [eexists _, _; split; [done|]; split_and!; [done|simpl; lia|done|by intros e ?%elem_of_nil]|].
  destruct (answer mode dm pubs sendD publish now req (read (bodyBytes cfg))) as [ems ct] eqn:Ea.
  destruct (answer_once _ _ _ _ _ _ _ _ _ _ Ea) as (H1 & H2 & H3). exists ems, ct. split_and!; [done|done|done| |].
  - intros _ Hpub. unfold answer in Ea. destruct (_ && _ && _ && _ && _); [by injection Ea as <- <-|].
    rewrite (proj1 (Hp _)), Hpub in Ea. by injection Ea as <- <-.
  - intros e He. rewrite Forall_forall in H3. split; [by apply H3|]. destruct e as [b|track au].
    + destruct (answer_datagram _ _ _ _ _ _ _ _ _ _ _ Ea He) as (-> & -> & Hm & Hlen). split_and!; try done.
      intros Hk. rewrite Hk in Hm. discriminate.
    + destruct (answer_published _ _ _ _ _ _ _ _ _ _ _ _ Ea He) as (Ht & Hkf & Hs). rewrite (proj1 (Hp _)) in Ht.
      injection Ht as <-. split_and!; try done. apply Hp.
Qed.

Module CuaDemo.
#[local] Instance demo_request : JSON request := {| Marshal _ := Ok [x01]; Unmarshal _ := Ok (mkRequest 3 "dom" 7) |}.
#[local] Instance demo_response : JSON response := {| Marshal r := Ok (rs_Body r); Unmarshal _ := Err EOF |}.
#[local] Instance demo_announce : JSON Announce := {| Marshal _ := Ok []; Unmarshal _ := Err EOF |}.
#[local] Instance demo_unannounce : JSON Unannounce := {| Marshal _ := Ok []; Unmarshal _ := Err EOF |}.

Definition demo_core : core unit := mkCore ∅ ∅ (NewMemorySessionStore 60) [] tt.

Lemma request_answered_once_witness :
  exists pubs c' cfg, registerTracks (cfg0 false) 8 (W' := unit) "naive" demo_core [] = Some (pubs, c', []) /\
    accept (handlersOf defaultOptions) [x01] = Some (mkRequest 3 "dom" 7, cfg).
Proof.
  destruct (request_answered_once (W' := unit) (cfg0 false) 8 "naive" demo_core defaultOptions (fun _ => 0) (fun _ => [x02]) false
    (fun _ => true) (fun _ => true) 0 [x01] (mkRequest 3 "dom" 7)) as (pubs & c' & cfg & E & Ha & _).
  - intros n _. reflexivity.
  - reflexivity.
  - right; right; left.
  - intros k cfg. unfold handlersOf. rewrite !lookup_insert_Some, lookup_empty.
    intros [[_ <-]|[_ [[_ <-]|[_ [[_ <-]|[_ [[_ <-]|[_ Hf]]]]]]]]; [split; simpl; lia..|discriminate].
  - exists pubs, c', cfg. split; [exact E|exact Ha].
Defined.
End CuaDemo.

(** ** The screen *)

(** whatever the encoder returns, the screen stream never panics for a
    usual frame rate, and the units it publishes are numbered 0, 1, 2, ...
    without a gap, a frame that could not be encoded being tried again; every
    [2*fps]-th unit, the first one included, is a keyframe, and each unit has
    the configured size or more. *)
Theorem screen_cadence encode pad now fps sizeKB n :
  0 < fps < 2 ^ 31 -> Z.of_nat n < 2 ^ 32 -> (forall k, zlen (pad k) = Z.max 0 k) ->
  exists aus, pumpScreen encode pad now fps sizeKB n 0 0 = Some aus /\ (length aus <= n)%nat /\
    forall k au, aus !! k = Some au ->
      au_Seq au = Z.of_nat k /\ au_Keyframe au = (Z.of_nat k mod (2 * fps) =? 0) /\ sizeKB * 1024 <= zlen (au_Bytes au).
Proof.
  intros Hf Hn Hpad.
  assert (forall m i seq, 0 <= seq -> seq + Z.of_nat m < 2 ^ 32 ->
    exists aus, pumpScreen encode pad now fps sizeKB m i seq = Some aus /\ (length aus <= m)%nat /\
    forall k au, aus !! k = Some au ->
      au_Seq au = seq + Z.of_nat k /\ au_Keyframe au = ((seq + Z.of_nat k) mod (2 * fps) =? 0) /\
      sizeKB * 1024 <= zlen (au_Bytes au)) as H; [|destruct (H n 0%nat 0) as (aus & E & Hl & Hk); [lia|lia|eauto]].
  induction m as [|m IH]; intros i seq H0 Hs; [by exists []|].
  cbn [pumpScreen]. unfold screenTick.
  assert (u32 (fps * 2) = 2 * fps) as -> by (unfold u32; rewrite Z.mod_small; lia).
  destruct (2 * fps =? 0) eqn:E0; [lia|]. destruct (encode i seq _) as [png|err].
  - assert (u32 (seq + 1) = seq + 1) as -> by (unfold u32; rewrite Z.mod_small; lia).
    destruct (IH (S i) (seq + 1)) as (aus & -> & Hl & Hk); [lia|lia|]. cbn [mbind option_bind option_list app].
    eexists. split; [done|]. split; [simpl; lia|]. intros [|k] au Hau.
    + injection Hau as <-. cbn [au_Seq au_Keyframe au_Bytes]. rewrite Z.add_0_r. split_and!; [done|done|].
      destruct (_ >? 0) eqn:En; [rewrite zlen_app, Hpad; lia|lia].
    + destruct (Hk k au Hau) as (H1 & H2 & H3). rewrite H1, H2.
      replace (seq + 1 + Z.of_nat k) with (seq + Z.of_nat (S k)) by lia. done.
  - destruct (IH (S i) seq) as (aus & -> & Hl & Hk); [lia|lia|]. cbn [mbind option_bind option_list app].
    exists aus. split; [done|]. split; [lia|done].
Qed.

(** An encoder that fails on the first tick. *)
Lemma screen_cadence_witness :
  exists aus, pumpScreen (fun i s _ => if decide (i = 0%nat) then Err EOF else Ok [byte_of_Z s]) (fun k => repeat x00 (Z.to_nat k)) Z.of_nat 5 0 12 0 0 = Some aus
    /\ (length aus <= 12)%nat.
Proof.
  destruct (screen_cadence (fun i s _ => if decide (i = 0%nat) then Err EOF else Ok [byte_of_Z s]) (fun k => repeat x00 (Z.to_nat k)) Z.of_nat 5 0 12)
    as (aus & E & Hl & _).
  - lia.
  - lia.
  - intros k. unfold zlen. rewrite repeat_length. lia.
  - exists aus. split; [exact E|exact Hl].
Defined.

(** ** Where the host differs from what it means to do *)

Section Differs.
Context `{JSON request} `{JSON response}.

(** A session that starts before [main] has filled the holder keeps the empty
    map for its whole life: without datagrams none of its requests is answered,
    though the server was already listening. *)
Theorem early_session_unanswered evs mode sendD publish now req body :
  exists pubs rest, (holderRun (SessionStarts :: evs)).2 = pubs :: rest /\
    answer mode false pubs sendD publish now req body = ([], mkCounters 0 0).
Proof.
  assert (forall evs st p l, st.2 = p :: l -> exists l', (foldl holderStep st evs).2 = p :: l') as Hk.
  { clear. induction evs as [|e evs IH]; intros st p l E; [by exists l|]. cbn [foldl].
    destruct e; cbn; [apply (IH _ p (l ++ [st.1])); cbn; by rewrite E|by apply (IH _ p l)]. }
  destruct (Hk evs (∅, [∅]) ∅ []) as (rest & E); [done|]. exists ∅, rest. split; [exact E|].
  unfold answer. cbn [andb]. by rewrite lookup_empty.
Qed.

(** With [-bind=0.0.0.0:0] the address before the socket is bound is not the one
    [main] waits for to change, so the link is printed with port zero. *)
Theorem other_bind_not_awaited : keepsWaiting "0.0.0.0:0" = false.
Proof. done. Qed.

(** With [-action-ms=0] (or any delay of zero) the first request of that kind
    ends the process. *)
Theorem zero_latency_panics intn read mode dm pubs sendD publish now cancelled req b :
  worker intn read mode dm pubs sendD publish now cancelled req (mkHandlerCfg 0 b) = None.
Proof. done. Qed.
End Differs.
