(* ===== verification/CuaClient.v ===== *)
(** * The computer-use agent simulator

    [examples/cua/client/main.go]: turns of four requests sent as datagrams,
    the table of pending requests shared with the receiving goroutines, and the
    latency statistics.  [Cua.v] runs it against the host of [CuaServer.v].

    Channels live in a store and the table maps identifiers to their addresses,
    since the turn loop and the receivers share them.  Times are nanoseconds. *)

From Stdlib Require Import Floats.SpecFloat.
From S2P Require Import Prelude Wire RateLimit KindStats CuaServer.

#[local] Open Scope Z_scope.

Definition kinds : list string := ["action"; "a11y"; "dom"; "perf"].

Definition modeNaive : string := "naive".
Definition modeMultistream : string := "multistream".

(** ** Pending requests *)

Definition pendingMap : Type := gmap Z nat.
Definition pset (id : Z) (ch : nat) (p : pendingMap) : pendingMap := <[id := ch]> p.
Definition popMsg (id : Z) (p : pendingMap) : option nat * pendingMap :=
  match p !! id with
  | None => (None, p)
  | Some ch => (Some ch, delete id p)
  end.
Definition pdelete (id : Z) (p : pendingMap) : pendingMap := delete id p.

(** ** Statistics *)

Record recorder := mkRecorder { perKind : gmap string (list Z); perTurn : list Z }.

Definition newRecorder : recorder :=
  mkRecorder (<["action" := []]> (<["a11y" := []]> (<["dom" := []]> (<["perf" := []]> ∅)))) [].

(** The latencies of a turn, one per kind: each goes to the list of its kind. *)
Definition record (lat : gmap string Z) (maxLat : Z) (r : recorder) : recorder :=
  mkRecorder
    (map_fold (fun k v m => <[k := default [] (m !! k) ++ [v]]> m) (perKind r) lat)
    (perTurn r ++ [maxLat]).

Record stat := mkStat { st_count : Z; st_p50 : Z; st_p95 : Z; st_max : Z; st_mean : Z }.

Definition f95 : spec_float := fdiv (float64 95) (float64 100).

(** [math.Ceil] of a finite float that is not negative, as an integer. *)
Definition fceil (f : spec_float) : Z :=
  match f with
  | S754_finite false m e => if 0 <=? e then Z.shiftl (Z.pos m) e else - (Z.shiftr (- Z.pos m) (- e))
  | _ => 0
  end.

Definition pctIndex (n : Z) (p : spec_float) : Z :=
  let idx := fceil (fmul p (float64 n)) - 1 in
  let idx := if idx <? 0 then 0 else idx in
  if idx >=? n then n - 1 else idx.

(** [None] would be an index out of range. *)
Definition pct (sorted : list Z) (p : spec_float) : option Z :=
  if zlen sorted =? 0 then Some 0 else sorted !! Z.to_nat (pctIndex (zlen sorted) p).

Definition computeStat (vs : list Z) : option stat :=
  if zlen vs =? 0 then Some (mkStat 0 0 0 0 0)
  else
    let sorted := sort_less (key_less id) vs in
    let sum := foldl (fun s v => s64 (u64 (s + v))) 0 sorted in
    p50 ← pct sorted fhalf;
    p95 ← pct sorted f95;
    mx ← sorted !! (length sorted - 1)%nat;
    Some (mkStat (zlen sorted) p50 p95 mx (Z.quot sum (zlen sorted))).

Record summary := mkSummary { sm_PerKind : gmap string (option stat); sm_PerTurn : option stat }.

Definition summarize (r : recorder) : summary :=
  mkSummary (computeStat <$> perKind r) (computeStat (perTurn r)).

(** ** Detecting the mode *)

(** The last part of [detectMode], on the tracks the polling ended with. *)
Definition detectMode (tracks : list string) : string :=
  let hasData := existsb (fun t => bool_decide (t = "data")) tracks in
  let hasMulti := zlen (filter (fun t => t ∈ ["screen"; "a11y"; "dom"; "perf"; "acks"]) tracks) in
  if hasData && (hasMulti =? 0) then modeNaive else modeMultistream.

(** The polling: each round sees the tracks twice, 50ms apart; [None] in a
    round is the end of the context, and the list ends with the deadline. *)
Fixpoint pollTracks (rounds : list (list string * list string * bool)) (tracks : list string) : list string * bool :=
  match rounds with
  | [] => (tracks, true)
  | (t1, t2, cancelled) :: rounds' =>
      if (1 <=? zlen t1) && (zlen t1 <=? zlen t2) then (t2, true)
      else if cancelled then (t1, false) else pollTracks rounds' t1
  end.

(** The tracks whose units may be responses. *)
Definition responseTracks (tracks : list string) : list string :=
  filter (fun t => t <> "screen" /\ t <> "primary") tracks.

(** ** A turn *)

Record turnState := mkTurnState {
  tu_turn : Z;
  tu_t0 : Z;
  tu_ids : gmap string Z;
  tu_ack : gmap string nat;
  tu_wait : list string;      (* the kinds not awaited yet, in the order of the map *)
  tu_lat : gmap string Z;
  tu_max : Z;
  tu_ok : bool;
}.

Record cuaClient := mkCuaClient {
  cc_next : Z;                (* the loop's turn *)
  cc_seq : Z;                 (* msgSeq *)
  cc_pending : pendingMap;
  cc_chans : gmap nat (chan Z);
  cc_turn : option turnState;
  cc_rec : recorder;
  cc_drops : Z;
}.

Definition newCuaClient : cuaClient := mkCuaClient 0 0 ∅ ∅ None newRecorder 0.

(** One round of the loop that allocates identifiers and channels. *)
Definition allocate (kind : string) (st : Z * pendingMap * gmap nat (chan Z) * gmap string Z * gmap string nat) :=
  let '(seq, pending, chans, ids, ack) := st in
  let id := u32 (seq + 1) in
  let ch := fresh (dom chans) in
  (id, pset id ch pending, <[ch := make_chan Z 1]> chans, <[kind := id]> ids, <[kind := ch]> ack).

(** [order] is the order in which the channels are awaited. *)
Definition beginTurn (t0 : Z) (order : list string) (c : cuaClient) : cuaClient :=
  let '(seq, pending, chans, ids, ack) :=
    foldl (fun st k => allocate k st) (cc_seq c, cc_pending c, cc_chans c, ∅, ∅) kinds in
  mkCuaClient (cc_next c) seq pending chans
    (Some (mkTurnState (cc_next c) t0 ids ack order ∅ 0 true)) (cc_rec c) (cc_drops c).

(** [popMsg] and the send that never blocks; the channel is not closed. *)
Definition deliverResponse (arrival id : Z) (c : cuaClient) : cuaClient :=
  let '(ch, pending) := popMsg id (cc_pending c) in
  let chans :=
    match ch with
    | None => cc_chans c
    | Some a =>
        match cc_chans c !! a with
        | None => cc_chans c
        | Some q => match try_send q arrival with Sent q' => <[a := q']> (cc_chans c) | _ => cc_chans c end
        end
    end in
  mkCuaClient (cc_next c) (cc_seq c) pending chans (cc_turn c) (cc_rec c) (cc_drops c).

(** [case arrival := <-ch]. *)
Definition awaitArrival (c : cuaClient) : option cuaClient :=
  t ← cc_turn c;
  kind ← head (tu_wait t);
  a ← tu_ack t !! kind;
  q ← cc_chans c !! a;
  match try_recv q with
  | Got arrival q' =>
      let lat := arrival - tu_t0 t in
      Some (mkCuaClient (cc_next c) (cc_seq c) (cc_pending c) (<[a := q']> (cc_chans c))
              (Some (mkTurnState (tu_turn t) (tu_t0 t) (tu_ids t) (tu_ack t) (tail (tu_wait t))
                       (<[kind := lat]> (tu_lat t)) (if lat >? tu_max t then lat else tu_max t) (tu_ok t)))
              (cc_rec c) (cc_drops c))
  | _ => None
  end.

(** [case <-turnCtx.Done()]. *)
Definition awaitTimeout (c : cuaClient) : option cuaClient :=
  t ← cc_turn c;
  kind ← head (tu_wait t);
  Some (mkCuaClient (cc_next c) (cc_seq c)
          (match tu_ids t !! kind with Some id => pdelete id (cc_pending c) | None => cc_pending c end) (cc_chans c)
          (Some (mkTurnState (tu_turn t) (tu_t0 t) (tu_ids t) (tu_ack t) (tail (tu_wait t))
                   (tu_lat t) (tu_max t) false))
          (cc_rec c) (cc_drops c + 1)).

(** The end of a turn. *)
Definition finishTurn (warmup : Z) (c : cuaClient) : option cuaClient :=
  t ← cc_turn c;
  match tu_wait t with
  | [] =>
      let rec := if tu_ok t && (warmup <=? tu_turn t) then record (tu_lat t) (tu_max t) (cc_rec c) else cc_rec c in
      Some (mkCuaClient (u32 (cc_next c + 1)) (cc_seq c) (cc_pending c) (cc_chans c) None rec (cc_drops c))
  | _ => None
  end.

(** ** Printing *)

(** [ms]: [float64(d.Microseconds()) / 1000.0]. *)
Definition ms (d : Z) : spec_float := fdiv (float64 (Z.quot d 1000)) (float64 1000).

(** * The percentiles *)

Definition rank_ok (n : Z) : bool :=
  (pctIndex n fhalf =? (n + 1) / 2 - 1) && (pctIndex n f95 =? (95 * n + 99) / 100 - 1).

(** The binary64 product does not round past an integer for any of the sample
    counts of the table. *)
Lemma ranks_ok : forallb rank_ok (seqZ 1 4096) = true.
Proof. vm_compute. reflexivity. Qed.

Lemma pctIndex_spec n : 1 <= n <= 4096 ->
  pctIndex n fhalf = (n + 1) / 2 - 1 /\ pctIndex n f95 = (95 * n + 99) / 100 - 1.
Proof.
  intros Hn. pose proof ranks_ok as H. rewrite forallb_forall in H. specialize (H n).
  rewrite <- list_elem_of_In, elem_of_seqZ in H. specialize (H ltac:(lia)). unfold rank_ok in H. lia.
Qed.

Lemma sorted_lookup_le (l : list Z) i j a b :
  ordered (key_less id) l -> (i <= j)%nat -> l !! i = Some a -> l !! j = Some b -> a <= b.
Proof.
  intros Ho; revert i j; induction Ho as [|x l Hl IH Hx]; intros i j Hij Ha Hb; [done|].
  destruct i as [|i], j as [|j]; [injection Ha as <-; injection Hb as <-; lia| |lia|by apply (IH i j); [lia| |]].
  injection Ha as <-. rewrite Forall_forall in Hx. specialize (Hx b (list_elem_of_lookup_2 l j b Hb)).
  unfold key_less, id in Hx. lia.
Qed.

(** Nearest rank: the sample at position [r], counted from one, of the sorted
    samples. *)
Definition nth_smallest (r : Z) (vs : list Z) (v : Z) : Prop :=
  sort_less (key_less id) vs !! Z.to_nat (r - 1) = Some v.

(** for every number of samples up to 4096 the table's statistics exist and
    are the nearest-rank ones (the product in binary64 rounds past no rank):
    the median is the ceil(n/2)-th smallest sample, p95 the ceil(95n/100)-th,
    the maximum is a sample no other exceeds, and median <= p95 <= maximum. *)
Theorem computeStat_nearest_rank vs :
  1 <= zlen vs <= 4096 ->
  exists s, computeStat vs = Some s /\ st_count s = zlen vs /\
    nth_smallest ((zlen vs + 1) / 2) vs (st_p50 s) /\
    nth_smallest ((95 * zlen vs + 99) / 100) vs (st_p95 s) /\
    st_max s ∈ vs /\ (forall v, v ∈ vs -> v <= st_max s) /\
    st_p50 s <= st_p95 s <= st_max s.
Proof.
  intros Hn. unfold computeStat. destruct (zlen vs =? 0) eqn:E0; [lia|].
  set (l := sort_less (key_less id) vs).
  assert (l ≡ₚ vs) as Hp by apply sort_less_perm. assert (length l = length vs) as Hl by (by rewrite Hp).
  assert (zlen l = zlen vs) as Hz by (unfold zlen; lia).
  assert (ordered (key_less id) l) as Ho by apply sort_key_ordered.
  destruct (pctIndex_spec (zlen vs) Hn) as [H50 H95]. unfold pct. rewrite Hz, E0, H50, H95.
  assert (forall i, 0 <= i < zlen vs -> exists v, l !! Z.to_nat i = Some v) as Hat.
  { intros i Hi. apply lookup_lt_is_Some_2. unfold zlen in *. lia. }
  destruct (Hat ((zlen vs + 1) / 2 - 1)) as [p50 E50]; [Z.to_euclidean_division_equations; lia|].
  destruct (Hat ((95 * zlen vs + 99) / 100 - 1)) as [p95 E95]; [Z.to_euclidean_division_equations; lia|].
  destruct (Hat (zlen vs - 1)) as [mx Em]; [lia|].
  replace (length l - 1)%nat with (Z.to_nat (zlen vs - 1)) by (unfold zlen; lia).
  rewrite E50, E95, Em. cbn [mbind option_bind]. eexists. split; [done|].
  cbn [st_count st_p50 st_p95 st_max]. split_and!.
  - done.
  - exact E50.
  - exact E95.
  - rewrite <- Hp. by eapply list_elem_of_lookup_2.
  - intros v Hv. rewrite <- Hp in Hv. apply list_elem_of_lookup in Hv as (i & Hi).
    eapply sorted_lookup_le; [exact Ho| |exact Hi|exact Em]. apply lookup_lt_Some in Hi. unfold zlen. lia.
  - eapply sorted_lookup_le; [exact Ho| |exact E50|exact E95]. Z.to_euclidean_division_equations; lia.
  - eapply sorted_lookup_le; [exact Ho| |exact E95|exact Em]. Z.to_euclidean_division_equations; lia.
Qed.

Lemma computeStat_nearest_rank_witness :
  exists s, computeStat [30; 10; 20] = Some s /\ st_p50 s = 20 /\ st_max s = 30.
Proof.
  destruct (computeStat_nearest_rank [30; 10; 20]) as (s & E & _); [vm_compute; split; discriminate|].
  exists s. split; [exact E|]. vm_compute in E. injection E as <-. split; reflexivity.
Defined.
