(* ===== verification/Cua.v ===== *)
(** * The agent simulator against the host

    The turn loop and the receivers of [examples/cua/client/main.go] composed
    with the workers of [examples/cua/server/main.go].  Datagrams and units may
    be lost, delayed, reordered and delivered again; the kinds of a turn are
    awaited in any order, and a response and the end of the turn's time may
    race.  The channels' owners and the log of received responses are history,
    which the programs do not see. *)

From S2P Require Import Prelude Wire Track Replay Pubsub PubsubCalls RateLimit Pump DataChannel Inbound SessionStore Session Server CuaServer CuaClient.

#[local] Open Scope Z_scope.

(** ** The two ends agree on the mode *)

(** whatever order the tracks are listed in, a client that sees the tracks
    the host registered (and [primary], which every server has) detects the
    host's mode, and it receives on every track on which the host answers. *)
Theorem mode_detected mode tracks :
  validMode mode = true ->
  (forall t, t ∈ tracks <-> t = "primary" \/ t ∈ spec_Name <$> trackSpecs mode) ->
  detectMode tracks = mode /\ forall kind, trackForKind mode kind ∈ responseTracks tracks.
Proof.
  intros Hm Ht. unfold validMode in Hm.
  assert (forall kind, trackForKind mode kind ∈ tracks) as Hin.
  { intros kind. apply Ht. right. unfold trackForKind, trackSpecs. case_decide; [left|].
    repeat case_decide; cbn; rewrite !elem_of_cons; auto 8. }
  split.
  - unfold detectMode. destruct (decide (mode = "naive")) as [->|Hn].
    + assert (existsb (fun t => bool_decide (t = "data")) tracks = true) as ->.
      { apply existsb_exists. exists "data". split; [|done]. apply list_elem_of_In, Ht. right. left. }
      assert (filter (fun t => t ∈ ["screen"; "a11y"; "dom"; "perf"; "acks"]) tracks = []) as ->; [|done].
      apply elem_of_nil_inv. intros t [Hc Hin']%list_elem_of_filter. apply Ht in Hin' as [->|Hin'].
      * by apply (bool_decide_eq_true_2 _) in Hc.
      * apply list_elem_of_singleton in Hin' as ->. by apply (bool_decide_eq_true_2 _) in Hc.
    + assert (mode = "multistream") as -> by (repeat case_bool_decide; done).
      destruct (existsb _ _ && (zlen _ =? 0)) eqn:E; [|done]. exfalso. apply andb_prop in E as [_ E].
      assert ("screen" ∈ filter (fun t => t ∈ ["screen"; "a11y"; "dom"; "perf"; "acks"]) tracks) as Hs.
      { apply list_elem_of_filter. split; [left|]. apply Ht. right. left. }
      apply Z.eqb_eq, zlen_0 in E. rewrite E in Hs. by apply elem_of_nil in Hs.
  - intros kind. unfold responseTracks. apply list_elem_of_filter. split; [|apply Hin].
    unfold trackForKind. repeat case_decide; done.
Qed.

Lemma mode_detected_witness : detectMode ["acks"; "dom"; "primary"; "perf"; "screen"; "a11y"] = "multistream".
Proof.
  apply mode_detected; [reflexivity|]. intros t. unfold trackSpecs. rewrite decide_False by discriminate. cbn.
  rewrite !elem_of_cons. unfold trackScreen, trackA11y, trackDom, trackPerf, trackAcks. tauto.
Defined.

(** ** The system *)

Section System.
Context `{Jq : JSON request} `{Jr : JSON response}.
Context (handlers : gmap string handlerCfg) (mode : string) (dm : bool) (pubs : gmap string string).
Context (turns warmup : Z).

Record system := mkSystem {
  sy_cl : cuaClient;
  sy_up : list (list byte);          (* datagrams sent by the client *)
  sy_down : list (list byte);        (* datagrams and units sent by the host *)
  sy_own : gmap nat request;         (* history: the request a channel was made for *)
  sy_rx : list (Z * response);       (* history: what the receivers parsed, and when *)
}.

Definition initSystem : system := mkSystem newCuaClient [] [] ∅ [].

(** The channels [beginTurn] makes, with the requests they are made for. *)
Definition allocateOwned (turn : Z) (st : (Z * pendingMap * gmap nat (chan Z) * gmap string Z * gmap string nat) * gmap nat request)
    (kind : string) :=
  (allocate kind st.1,
   <[fresh (dom st.1.1.1.2) := mkRequest turn kind (u32 (st.1.1.1.1.1 + 1))]> st.2).

Definition ownersOf (c : cuaClient) (own : gmap nat request) : gmap nat request :=
  (foldl (allocateOwned (cc_next c)) ((cc_seq c, cc_pending c, cc_chans c, ∅, ∅), own) kinds).2.

(** The receivers, of a track's units and of datagrams: what does not parse is
    skipped.  [logResponse] is the history. *)
Definition receiveResponse (arrival : Z) (b : list byte) (c : cuaClient) : cuaClient :=
  match Unmarshal (A := response) b with
  | Err _ => c
  | Ok resp => deliverResponse arrival (rs_MsgID resp) c
  end.

Definition logResponse (arrival : Z) (b : list byte) (rx : list (Z * response)) : list (Z * response) :=
  match Unmarshal b with Err _ => rx | Ok resp => (arrival, resp) :: rx end.

(** The datagram of a request; an error of [Marshal] is ignored. *)
Definition requestBytes (turn : Z) (kind : string) (id : Z) : list byte :=
  match Marshal (mkRequest turn kind id) with Ok b => b | Err _ => [] end.

Inductive cuastep : system -> system -> Prop :=
  | cu_begin c up down own rx t0 order :
      cc_turn c = None -> cc_next c < u32 turns -> order ≡ₚ kinds ->
      cuastep (mkSystem c up down own rx) (mkSystem (beginTurn t0 order c) up down (ownersOf c own) rx)
  | cu_send c up down own rx t kind id :
      cc_turn c = Some t -> tu_ids t !! kind = Some id -> kind ∈ kinds ->
      cuastep (mkSystem c up down own rx) (mkSystem c (requestBytes (tu_turn t) kind id :: up) down own rx)
  | cu_serve c up down own rx raw req cfg intn read sendD publish now cancelled ems ct e :
      raw ∈ up -> accept handlers raw = Some (req, cfg) ->
      worker intn read mode dm pubs sendD publish now cancelled req cfg = Some (ems, ct) -> e ∈ ems ->
      cuastep (mkSystem c up down own rx) (mkSystem c up (emittedBytes e :: down) own rx)
  | cu_screen c up down own rx png err :
      Unmarshal (A := response) png = Err err ->
      cuastep (mkSystem c up down own rx) (mkSystem c up (png :: down) own rx)
  | cu_receive c up down own rx b arrival :
      b ∈ down ->
      cuastep (mkSystem c up down own rx)
        (mkSystem (receiveResponse arrival b c) up down own (logResponse arrival b rx))
  | cu_arrival c up down own rx c' :
      awaitArrival c = Some c' -> cuastep (mkSystem c up down own rx) (mkSystem c' up down own rx)
  | cu_timeout c up down own rx c' :
      awaitTimeout c = Some c' -> cuastep (mkSystem c up down own rx) (mkSystem c' up down own rx)
  | cu_finish c up down own rx c' :
      finishTurn warmup c = Some c' -> cuastep (mkSystem c up down own rx) (mkSystem c' up down own rx).

Definition cuasteps := rtc cuastep.

(** ** Invariants *)

(** [resp] answers [req]. *)
Definition answers (resp : response) (req : request) : Prop :=
  rs_Turn resp = rq_Turn req /\ rs_Kind resp = rq_Kind req /\ rs_MsgID resp = rq_MsgID req.

(** The latency of [kind] in the turn started at [t0] is that of a response to
    this turn's request of this kind. *)
Definition measured (rx : list (Z * response)) (turn t0 : Z) (kind : string) (lat : Z) : Prop :=
  exists arrival resp, (arrival, resp) ∈ rx /\ lat = arrival - t0 /\ rs_Turn resp = turn /\ rs_Kind resp = kind.

(** A complete turn, as the recorder got it. *)
Definition row_ok (rx : list (Z * response)) (row : Z * gmap string Z) : Prop :=
  dom row.2 = list_to_set (C := gset string) kinds /\
  exists t0, forall kind lat, row.2 !! kind = Some lat -> measured rx row.1 t0 kind lat.

Definition maxOf (m : gmap string Z) : Z := map_fold (fun _ v acc => Z.max v acc) 0 m.

Record turn_ok (own : gmap nat request) (rx : list (Z * response)) (t : turnState) : Prop := {
  to_ack : forall kind a, tu_ack t !! kind = Some a ->
             exists r, own !! a = Some r /\ rq_Turn r = tu_turn t /\ rq_Kind r = kind /\ tu_ids t !! kind = Some (rq_MsgID r);
  to_ids : forall kind id, tu_ids t !! kind = Some id -> exists a, tu_ack t !! kind = Some a;
  to_kinds : dom (tu_ack t) = list_to_set (C := gset string) kinds;
  to_wait : NoDup (tu_wait t);
  to_lat : forall kind lat, tu_lat t !! kind = Some lat -> measured rx (tu_turn t) (tu_t0 t) kind lat;
  to_done : tu_ok t = true -> forall kind, kind ∈ kinds <-> kind ∈ tu_wait t \/ kind ∈ dom (tu_lat t);
  to_disj : forall kind, kind ∈ tu_wait t -> kind ∉ dom (tu_lat t);
  to_max : tu_max t = maxOf (tu_lat t);
}.

(** The recorder holds, per kind, the latencies of the complete turns, and per
    turn their maximum. *)
Definition rec_rows (rx : list (Z * response)) (r : recorder) : Prop :=
  exists rows, Forall (row_ok rx) rows /\
    (forall kind, kind ∈ kinds -> perKind r !! kind = Some ((fun row => default 0 (row.2 !! kind)) <$> rows)) /\
    perTurn r = (fun row => maxOf row.2) <$> rows.

(** The number of turns begun. *)
Definition begun (c : cuaClient) : Z := cc_next c + match cc_turn c with Some _ => 1 | None => 0 end.

Record sys_ok (s : system) : Prop := {
  so_next : 0 <= cc_next (sy_cl s) /\ cc_seq (sy_cl s) = 4 * begun (sy_cl s) /\ begun (sy_cl s) <= u32 turns;
  so_own : forall a r, sy_own s !! a = Some r -> 1 <= rq_MsgID r <= cc_seq (sy_cl s);
  so_inj : forall a b r q, sy_own s !! a = Some r -> sy_own s !! b = Some q -> rq_MsgID r = rq_MsgID q -> a = b;
  so_chans : dom (cc_chans (sy_cl s)) = dom (sy_own s);
  so_pending : forall id a, cc_pending (sy_cl s) !! id = Some a ->
                 cc_chans (sy_cl s) !! a = Some (make_chan Z 1) /\
                 exists r, sy_own s !! a = Some r /\ rq_MsgID r = id;
  so_arrived : forall a q v, cc_chans (sy_cl s) !! a = Some q -> v ∈ ch_buf q ->
                 exists r resp, sy_own s !! a = Some r /\ (v, resp) ∈ sy_rx s /\ answers resp r;
  so_up : forall b r, b ∈ sy_up s -> Unmarshal b = Ok r -> exists a, sy_own s !! a = Some r;
  so_down : forall b resp, b ∈ sy_down s -> Unmarshal b = Ok resp -> exists a r, sy_own s !! a = Some r /\ answers resp r;
  so_turn : forall t, cc_turn (sy_cl s) = Some t -> turn_ok (sy_own s) (sy_rx s) t;
  so_rec : rec_rows (sy_rx s) (cc_rec (sy_cl s));
}.

(** *** Beginning a turn *)

Record alloc_ok (turn : Z) (rx : list (Z * response)) (ks : list string)
    (st : (Z * pendingMap * gmap nat (chan Z) * gmap string Z * gmap string nat) * gmap nat request) : Prop := {
  al_own : forall a r, st.2 !! a = Some r -> 1 <= rq_MsgID r <= st.1.1.1.1.1;
  al_inj : forall a b r q, st.2 !! a = Some r -> st.2 !! b = Some q -> rq_MsgID r = rq_MsgID q -> a = b;
  al_chans : dom st.1.1.1.2 = dom st.2;
  al_pending : forall id a, st.1.1.1.1.2 !! id = Some a ->
                 st.1.1.1.2 !! a = Some (make_chan Z 1) /\ exists r, st.2 !! a = Some r /\ rq_MsgID r = id;
  al_arrived : forall a q v, st.1.1.1.2 !! a = Some q -> v ∈ ch_buf q ->
                 exists r resp, st.2 !! a = Some r /\ (v, resp) ∈ rx /\ answers resp r;
  al_ack : forall kind a, st.1.2 !! kind = Some a ->
             exists r, st.2 !! a = Some r /\ rq_Turn r = turn /\ rq_Kind r = kind /\ st.1.1.2 !! kind = Some (rq_MsgID r);
  al_ids : forall kind id, st.1.1.2 !! kind = Some id -> exists a, st.1.2 !! kind = Some a;
  al_dom : dom st.1.2 = list_to_set (C := gset string) ks;
}.

Lemma alloc_step turn rx ks k st :
  alloc_ok turn rx ks st -> k ∉ ks -> 0 <= st.1.1.1.1.1 -> st.1.1.1.1.1 + 1 < 2 ^ 32 ->
  alloc_ok turn rx (k :: ks) (allocateOwned turn st k) /\
  (allocateOwned turn st k).1.1.1.1.1 = st.1.1.1.1.1 + 1 /\ st.2 ⊆ (allocateOwned turn st k).2.
Proof.
  destruct st as [[[[[seq pending] chans] ids] ack] own]. intros [H1 H2 H3 H4 H5 H6 H7 H8] Hk Hs0 Hs.
  cbn [fst snd] in *. unfold allocateOwned, allocate, pset. cbn [fst snd].
  assert (u32 (seq + 1) = seq + 1) as -> by (unfold u32; apply Z.mod_small; lia).
  set (f := fresh (dom chans)). assert (f ∉ dom chans) as Hf by apply is_fresh.
  assert (own !! f = None) as Hfo by (apply not_elem_of_dom; by rewrite <- H3).
  assert (forall a r, own !! a = Some r -> a <> f) as Hne by (intros a r Ha ->; congruence).
  assert (forall a r, own !! a = Some r -> <[f := mkRequest turn k (seq + 1)]> own !! a = Some r) as Hkeep.
  { intros a r Ha. rewrite lookup_insert_ne; [done|]. apply not_eq_sym. by eapply Hne. }
  split; [|split; [done|by apply insert_subseteq]].
  split; cbn [fst snd].
  - intros a r [[<- <-]|[_ Ha]]%lookup_insert_Some; [cbn; lia|]. specialize (H1 a r Ha). lia.
  - intros a b r q [[<- <-]|[Hna Ha]]%lookup_insert_Some [[<- <-]|[Hnb Hb]]%lookup_insert_Some E; [done| | |by eapply H2].
    + specialize (H1 b q Hb). cbn in E. lia.
    + specialize (H1 a r Ha). cbn in E. lia.
  - by rewrite !dom_insert_L, H3.
  - intros id a [[<- <-]|[_ Hp]]%lookup_insert_Some.
    + rewrite !lookup_insert_eq. split; [done|]. by eexists.
    + destruct (H4 id a Hp) as (Hc & r & Hr & Hid). rewrite lookup_insert_ne by (apply not_eq_sym; by eapply Hne).
      split; [done|]. exists r. split; [by apply Hkeep|done].
  - intros a q v [[<- <-]|[_ Hc]]%lookup_insert_Some Hv; [by apply elem_of_nil in Hv|].
    destruct (H5 a q v Hc Hv) as (r & resp & Hr & Hrest). exists r, resp. split; [by apply Hkeep|done].
  - intros kind a [[<- <-]|[Hnk Ha]]%lookup_insert_Some.
    + eexists. rewrite !lookup_insert_eq. done.
    + destruct (H6 kind a Ha) as (r & Hr & Ht & Hkd & Hid). exists r. rewrite (lookup_insert_ne ids) by done. by split; [apply Hkeep|].
  - intros kind id [[<- _]|[Hnk Hi]]%lookup_insert_Some; [by rewrite lookup_insert_eq; eexists|].
    rewrite lookup_insert_ne by done. by eapply H7.
  - by rewrite dom_insert_L, H8.
Qed.

Lemma alloc_all turn rx todo : forall ks st,
  alloc_ok turn rx ks st -> NoDup (todo ++ ks) -> 0 <= st.1.1.1.1.1 -> st.1.1.1.1.1 + zlen todo < 2 ^ 32 ->
  alloc_ok turn rx (rev todo ++ ks) (foldl (allocateOwned turn) st todo) /\
  (foldl (allocateOwned turn) st todo).1.1.1.1.1 = st.1.1.1.1.1 + zlen todo /\
  st.2 ⊆ (foldl (allocateOwned turn) st todo).2.
Proof.
  induction todo as [|k todo IH]; intros ks st Hok Hnd H0 Hs; cbn [foldl].
  { split; [done|]. split; [by rewrite zlen_nil, Z.add_0_r|done]. }
  rewrite zlen_cons in *. pose proof (zlen_nonneg todo).
  cbn [app] in Hnd. apply NoDup_cons in Hnd as [Hni Hnd].
  destruct (alloc_step turn rx ks k st Hok) as (H1 & H2 & H3); [by intros ?; apply Hni, elem_of_app; right|lia|lia|].
  destruct (IH (k :: ks) (allocateOwned turn st k) H1) as (G1 & G2 & G3); [|lia|lia|].
  { rewrite <- Permutation_middle. by constructor. }
  split; [|split; [lia|by etrans]]. cbn [rev]. by rewrite <- app_assoc.
Qed.

Lemma alloc_fst turn todo : forall st,
  (foldl (allocateOwned turn) st todo).1 = foldl (fun s k => allocate k s) st.1 todo.
Proof. induction todo as [|k todo IH]; intros st; [done|]. cbn [foldl]. by rewrite IH. Qed.

(** *** The facts the steps share *)

Context (Hfew : 4 * u32 turns < 2 ^ 32).
Context (Hreq : forall (r : request) b, Marshal r = Ok b -> Unmarshal b = Ok r).
Context (Hresp : forall (r : response) b, Marshal r = Ok b -> Unmarshal b = Ok r).
Context (Hreq0 : exists e, Unmarshal (A := request) [] = Err e).
Context (Hnil : exists e, Unmarshal (A := response) [] = Err e).

Lemma unmarshal_marshal (r r' : response) : Unmarshal (marshal r) = Ok r' -> r' = r.
Proof.
  unfold marshal. destruct (Marshal r) as [b|e] eqn:E.
  - rewrite (Hresp r b E). congruence.
  - destruct Hnil as [e' ->]. discriminate.
Qed.

Lemma maxOf_insert m k v : m !! k = None -> maxOf (<[k := v]> m) = Z.max v (maxOf m).
Proof. intros Hk. unfold maxOf. rewrite map_fold_insert_L; [done|intros; lia|done]. Qed.

Lemma measured_mono rx x turn t0 kind lat : measured rx turn t0 kind lat -> measured (x :: rx) turn t0 kind lat.
Proof. intros (v & resp & Hin & H). exists v, resp. split; [by right|done]. Qed.

Lemma rec_rows_mono rx x r : rec_rows rx r -> rec_rows (x :: rx) r.
Proof.
  intros (rows & H1 & H2). exists rows. split; [|done]. eapply Forall_impl; [exact H1|].
  intros row [Hd (t0 & Hm)]. split; [done|]. exists t0. intros kind lat Hl. by apply measured_mono, Hm.
Qed.

Lemma turn_ok_mono own own' rx x t : own ⊆ own' -> turn_ok own rx t -> turn_ok own' (x :: rx) t.
Proof.
  intros Ho [H1 H2 H3 H4 H5 H6 H7 H8]. split; try done.
  - intros kind a Ha. destruct (H1 kind a Ha) as (r & Hr & Hrest). exists r. split; [|done]. by eapply lookup_weaken.
  - intros kind lat Hl. by apply measured_mono, H5.
Qed.

(** What [record] adds at each kind. *)
Lemma record_lookup lat mx r kind :
  perKind (record lat mx r) !! kind =
    match lat !! kind with Some v => Some (default [] (perKind r !! kind) ++ [v]) | None => perKind r !! kind end.
Proof.
  unfold record. cbn [perKind]. revert kind.
  apply (map_fold_weak_ind (fun m lat => forall kind, m !! kind =
    match lat !! kind with Some v => Some (default [] (perKind r !! kind) ++ [v]) | None => perKind r !! kind end)).
  - done.
  - intros k v m res Hk IH kind. destruct (decide (kind = k)) as [->|Hne].
    + rewrite !lookup_insert_eq. by rewrite IH, Hk.
    + rewrite !lookup_insert_ne by done. apply IH.
Qed.

Lemma rec_rows_record rx r turn t0 lat :
  rec_rows rx r -> dom lat = list_to_set (C := gset string) kinds ->
  (forall kind v, lat !! kind = Some v -> measured rx turn t0 kind v) ->
  rec_rows rx (record lat (maxOf lat) r).
Proof.
  intros (rows & H1 & H2 & H3) Hd Hm. exists (rows ++ [(turn, lat)]). split; [|split].
  - apply Forall_app. split; [done|]. repeat constructor; [done|]. by exists t0.
  - intros kind Hk. rewrite record_lookup, fmap_app. cbn [fmap list_fmap snd].
    assert (kind ∈ dom lat) as [v Hv]%elem_of_dom by (rewrite Hd; by apply elem_of_list_to_set).
    rewrite Hv, (H2 kind Hk). done.
  - cbn [record perTurn]. by rewrite H3, fmap_app.
Qed.

(** *** Preservation, step by step *)

Lemma begin_ok c up down own rx t0 order :
  sys_ok (mkSystem c up down own rx) -> cc_turn c = None -> cc_next c < u32 turns -> order ≡ₚ kinds ->
  sys_ok (mkSystem (beginTurn t0 order c) up down (ownersOf c own) rx).
Proof.
  intros [(N0 & N1 & N2) H1 H2 H3 H4 H5 H6 H7 H8 H9] Ht Hn Ho. cbn [sy_cl sy_up sy_down sy_own sy_rx] in *.
  unfold begun in N1, N2. rewrite Ht in N1, N2.
  destruct (alloc_all (cc_next c) rx kinds [] ((cc_seq c, cc_pending c, cc_chans c, ∅, ∅), own)) as (A & As & Ao).
  { split; cbn [fst snd]; try done. }
  { apply (bool_decide_unpack _). vm_compute. exact I. }
  { cbn [fst]. lia. }
  { cbn [fst]. change (zlen kinds) with 4. lia. }
  pose proof (alloc_fst (cc_next c) kinds ((cc_seq c, cc_pending c, cc_chans c, ∅, ∅), own)) as Ef.
  cbn [fst] in Ef, As. change (zlen kinds) with 4 in As. unfold beginTurn. fold (ownersOf c own) in A, As, Ao. cbn [snd] in Ao.
  unfold ownersOf in *. set (st := foldl (allocateOwned (cc_next c)) _ kinds) in *. rewrite <- Ef.
  destruct st as [[[[[seq pending] chans] ids] ack] own']. destruct A as [A1 A2 A3 A4 A5 A6 A7 A8]. cbn [fst snd] in *.
  split; cbn [sy_cl sy_up sy_down sy_own sy_rx cc_next cc_seq cc_pending cc_chans cc_turn cc_rec]; try done.
  - unfold begun. cbn [cc_next cc_turn]. split_and!; lia.
  - intros b r Hb Hu. destruct (H6 b r Hb Hu) as (a & Hr). exists a. by eapply lookup_weaken.
  - intros b resp Hb Hu. destruct (H7 b resp Hb Hu) as (a & r & Hr & Ha). exists a, r. split; [by eapply lookup_weaken|done].
  - intros t [= <-]. split; cbn [tu_turn tu_t0 tu_ids tu_ack tu_wait tu_lat tu_max tu_ok]; try done.
    + rewrite Ho. apply (bool_decide_unpack _). vm_compute. exact I.
    + intros _ kind. rewrite Ho, dom_empty_L. split; [by left|by intros [?|?%not_elem_of_empty]].
Qed.

Lemma send_ok c up down own rx t kind id :
  sys_ok (mkSystem c up down own rx) -> cc_turn c = Some t -> tu_ids t !! kind = Some id ->
  sys_ok (mkSystem c (requestBytes (tu_turn t) kind id :: up) down own rx).
Proof.
  intros Hok Ht Hid. pose proof Hok as [H0 H1 H2 H3 H4 H5 H6 H7 H8 H9]. split; try done.
  cbn [sy_up sy_own]. intros b' q [->|Hb]%elem_of_cons Hu; [|by eapply H6]. destruct (H8 t Ht) as [T1 T2 _ _ _ _ _ _].
  destruct (T2 kind id Hid) as [a Ha]. destruct (T1 kind a Ha) as (r & Hr & Hrt & Hrk & Hri). unfold requestBytes in Hu.
  destruct (Marshal (mkRequest _ _ _)) as [b|] eqn:Hm; [rewrite (Hreq _ _ Hm) in Hu|destruct Hreq0; congruence].
  exists a. cbn [sy_own] in Hr. rewrite Hr. destruct r as [rt rk ri]. cbn in *. congruence.
Qed.

Lemma serve_ok c up down own rx raw req cfg intn read sendD publish now cancelled ems ct e :
  sys_ok (mkSystem c up down own rx) -> raw ∈ up -> accept handlers raw = Some (req, cfg) ->
  worker intn read mode dm pubs sendD publish now cancelled req cfg = Some (ems, ct) -> e ∈ ems ->
  sys_ok (mkSystem c up (emittedBytes e :: down) own rx).
Proof.
  intros Hok Hraw Hacc Hw He. pose proof Hok as [H0 H1 H2 H3 H4 H5 H6 H7 H8 H9]. split; try done.
  cbn [sy_down sy_own]. intros b resp [->|Hb]%elem_of_cons Hu; [|by eapply H7].
  unfold accept in Hacc. destruct (Unmarshal (A := request) raw) as [r|] eqn:Hur; [|done].
  destruct (H6 raw r Hraw Hur) as (a & Hr).
  destruct (handlers !! rq_Kind r); [|done]. injection Hacc as <- <-.
  unfold worker in Hw. destruct (run intn read _) as [[body d]|]; [|done]. injection Hw as Hw.
  destruct cancelled; [injection Hw as <- _; by apply elem_of_nil in He|].
  destruct (answer_once _ _ _ _ _ _ _ _ _ _ Hw) as (_ & _ & Hall). rewrite Forall_forall in Hall.
  rewrite (Hall e He) in Hu. apply unmarshal_marshal in Hu as ->. by exists a, r.
Qed.

Lemma screen_ok c up down own rx png err :
  sys_ok (mkSystem c up down own rx) -> Unmarshal (A := response) png = Err err ->
  sys_ok (mkSystem c up (png :: down) own rx).
Proof.
  intros Hok He. pose proof Hok as [H0 H1 H2 H3 H4 H5 H6 H7 H8 H9]. split; try done.
  cbn [sy_down sy_own]. intros b resp [->|Hb]%elem_of_cons Hu; [congruence|by eapply H7].
Qed.

Lemma deliverResponse_ok c up down own rx b arrival resp :
  sys_ok (mkSystem c up down own rx) -> b ∈ down -> Unmarshal b = Ok resp ->
  sys_ok (mkSystem (deliverResponse arrival (rs_MsgID resp) c) up down own ((arrival, resp) :: rx)).
Proof.
  intros [H0 H1 H2 H3 H4 H5 H6 H7 H8 H9] Hb Hu. cbn [sy_cl sy_up sy_down sy_own sy_rx] in *.
  destruct (H7 b resp Hb Hu) as (a & r & Hr & Hans).
  assert (forall a q v, cc_chans c !! a = Some q -> v ∈ ch_buf q ->
    exists r resp0, own !! a = Some r /\ (v, resp0) ∈ (arrival, resp) :: rx /\ answers resp0 r) as H5'.
  { intros a' q v Hq Hv. destruct (H5 a' q v Hq Hv) as (r' & resp' & E1 & E2 & E3). exists r', resp'.
    split; [done|]. split; [by right|done]. }
  unfold deliverResponse, popMsg. destruct (cc_pending c !! rs_MsgID resp) as [a0|] eqn:Ep.
  - destruct (H4 _ _ Ep) as (Hc & r0 & Hr0 & Hid).
    assert (a0 = a) as -> by (eapply H2; [exact Hr0|exact Hr|]; destruct Hans as (_ & _ & Hm); lia).
    rewrite Hr in Hr0. injection Hr0 as <-. rewrite Hc. unfold try_send. cbn [ch_closed make_chan ch_buf length ch_cap].
    change (0 <? 1)%nat with true. cbv iota.
    split; cbn [sy_cl sy_up sy_down sy_own sy_rx cc_next cc_seq cc_pending cc_chans cc_turn cc_rec]; try done.
    + rewrite dom_insert_L, H3. apply subseteq_union_1_L, singleton_subseteq_l, elem_of_dom. by eexists.
    + intros id a' [Hne Hp]%lookup_delete_Some. destruct (H4 id a' Hp) as (Hc' & r' & Hr' & Hid').
      split; [|by eexists]. rewrite lookup_insert_ne; [done|]. intros ->. congruence.
    + intros a' q v [[<- <-]|[_ Hq]]%lookup_insert_Some Hv; [|by eapply H5'].
      cbn in Hv. apply list_elem_of_singleton in Hv as ->. exists r, resp. split; [done|]. split; [left|done].
    + intros t Ht. eapply turn_ok_mono; [reflexivity|by apply H8].
    + by apply rec_rows_mono.
  - split; cbn [sy_cl sy_up sy_down sy_own sy_rx cc_next cc_seq cc_pending cc_chans cc_turn cc_rec]; try done.
    + intros t Ht. eapply turn_ok_mono; [reflexivity|by apply H8].
    + by apply rec_rows_mono.
Qed.

Lemma receive_ok c up down own rx b arrival :
  sys_ok (mkSystem c up down own rx) -> b ∈ down ->
  sys_ok (mkSystem (receiveResponse arrival b c) up down own (logResponse arrival b rx)).
Proof.
  intros Hok Hb. unfold receiveResponse, logResponse.
  destruct (Unmarshal (A := response) b) as [resp|] eqn:Hu; [by eapply deliverResponse_ok|done].
Qed.

Lemma arrival_ok c up down own rx c' :
  sys_ok (mkSystem c up down own rx) -> awaitArrival c = Some c' -> sys_ok (mkSystem c' up down own rx).
Proof.
  intros [H0 H1 H2 H3 H4 H5 H6 H7 H8 H9] Hw. cbn [sy_cl sy_up sy_down sy_own sy_rx] in *. unfold awaitArrival in Hw.
  destruct (cc_turn c) as [t|] eqn:Et; [|done]. cbn [mbind option_bind] in Hw.
  destruct (H8 t eq_refl) as [T1 T2 T3 T4 T5 T6 T7 T8].
  destruct (tu_wait t) as [|kind wait] eqn:Ew; [done|]. cbn [head mbind option_bind] in Hw.
  destruct (tu_ack t !! kind) as [a|] eqn:Ea; [|done]. cbn [mbind option_bind] in Hw.
  destruct (cc_chans c !! a) as [q|] eqn:Ec; [|done]. cbn [mbind option_bind] in Hw.
  unfold try_recv in Hw. destruct (ch_buf q) as [|v buf] eqn:Eb; [by destruct (ch_closed q)|]. injection Hw as <-.
  destruct (H5 a q v Ec) as (r & resp & Hr & Hrx & (A1 & A2 & A3)); [rewrite Eb; left|].
  destruct (T1 kind a Ea) as (r' & Hr' & Hrt & Hrk & _). rewrite Hr in Hr'. injection Hr' as <-.
  assert (tu_lat t !! kind = None) as Hnl by (apply not_elem_of_dom, T7; left).
  split; cbn [sy_cl sy_up sy_down sy_own sy_rx cc_next cc_seq cc_pending cc_chans cc_turn cc_rec]; try done.
  - unfold begun in *. cbn [cc_next cc_turn]. by rewrite Et in H0.
  - rewrite dom_insert_L, H3. apply subseteq_union_1_L, singleton_subseteq_l, elem_of_dom. by eexists.
  - intros id a' Hp. destruct (H4 id a' Hp) as (Hc' & Hex). split; [|done].
    rewrite lookup_insert_ne; [done|]. intros <-. rewrite Ec in Hc'. injection Hc' as ->. discriminate.
  - intros a' q' v' [[<- <-]|[_ Hq]]%lookup_insert_Some Hv; [|by eapply H5]. eapply H5; [exact Ec|]. rewrite Eb. by right.
  - intros t' [= <-]. cbn [tail]. apply NoDup_cons in T4 as [Hni Hnd].
    split; cbn [tu_turn tu_t0 tu_ids tu_ack tu_wait tu_lat tu_max tu_ok]; try done.
    + intros k lat [[<- <-]|[_ Hl]]%lookup_insert_Some; [|by apply T5]. exists v, resp. split_and!; [done|done|congruence|congruence].
    + intros Hok k. rewrite (T6 Hok k), dom_insert_L, elem_of_cons, elem_of_union, elem_of_singleton. tauto.
    + intros k Hk. rewrite dom_insert_L, elem_of_union, elem_of_singleton. intros [->|Hd]; [done|].
      apply (T7 k); [by right|done].
    + rewrite maxOf_insert, <- T8 by done. destruct (_ >? _) eqn:E; lia.
Qed.

Lemma timeout_ok c up down own rx c' :
  sys_ok (mkSystem c up down own rx) -> awaitTimeout c = Some c' -> sys_ok (mkSystem c' up down own rx).
Proof.
  intros [H0 H1 H2 H3 H4 H5 H6 H7 H8 H9] Hw. cbn [sy_cl sy_up sy_down sy_own sy_rx] in *. unfold awaitTimeout in Hw.
  destruct (cc_turn c) as [t|] eqn:Et; [|done]. cbn [mbind option_bind] in Hw.
  destruct (H8 t eq_refl) as [T1 T2 T3 T4 T5 T6 T7 T8].
  destruct (tu_wait t) as [|kind wait] eqn:Ew; [done|]. cbn [head mbind option_bind] in Hw. injection Hw as <-.
  split; cbn [sy_cl sy_up sy_down sy_own sy_rx cc_next cc_seq cc_pending cc_chans cc_turn cc_rec]; try done.
  - unfold begun in *. cbn [cc_next cc_turn]. by rewrite Et in H0.
  - intros id a Hp. apply H4. destruct (tu_ids t !! kind); [|done]. unfold pdelete in Hp. by apply lookup_delete_Some in Hp as [_ Hp].
  - intros t' [= <-]. cbn [tail]. apply NoDup_cons in T4 as [Hni Hnd].
    split; cbn [tu_turn tu_t0 tu_ids tu_ack tu_wait tu_lat tu_max tu_ok]; try done.
    intros k Hk. apply T7. by right.
Qed.

Lemma finish_ok c up down own rx c' :
  sys_ok (mkSystem c up down own rx) -> finishTurn warmup c = Some c' -> sys_ok (mkSystem c' up down own rx).
Proof.
  intros [(N0 & N1 & N2) H1 H2 H3 H4 H5 H6 H7 H8 H9] Hw. cbn [sy_cl sy_up sy_down sy_own sy_rx] in *. unfold finishTurn in Hw.
  destruct (cc_turn c) as [t|] eqn:Et; [|done]. cbn [mbind option_bind] in Hw.
  destruct (H8 t eq_refl) as [T1 T2 T3 T4 T5 T6 T7 T8].
  destruct (tu_wait t) as [|kind wait] eqn:Ew; [|done]. injection Hw as <-. unfold begun in N1, N2. rewrite Et in N1, N2.
  split; cbn [sy_cl sy_up sy_down sy_own sy_rx cc_next cc_seq cc_pending cc_chans cc_turn cc_rec]; try done.
  - unfold begun. cbn [cc_next cc_turn]. assert (u32 (cc_next c + 1) = cc_next c + 1) as -> by (unfold u32 in *; apply Z.mod_small; lia).
    split_and!; lia.
  - destruct (tu_ok t && (warmup <=? tu_turn t)) eqn:E; [|done]. apply andb_prop in E as [Eo _]. rewrite T8.
    eapply rec_rows_record; [done| |exact T5]. apply set_eq. intros k. rewrite elem_of_list_to_set, (T6 Eo k).
    split; [by right|by intros [?%elem_of_nil|?]].
Qed.

Lemma cuasteps_ok s : cuasteps initSystem s -> sys_ok s.
Proof.
  intros Hs. assert (sys_ok initSystem) as H0.
  { split; cbn; try done.
    - unfold begun. cbn. pose proof (Z.mod_pos_bound turns (2 ^ 32) eq_refl). unfold u32. lia.
    - by intros b r ?%elem_of_nil.
    - by intros b resp ?%elem_of_nil.
    - exists []. split; [done|]. split; [|done]. intros kind Hk.
      repeat (apply elem_of_cons in Hk as [->|Hk]; [reflexivity|]). by apply elem_of_nil in Hk. }
  revert H0. induction Hs as [|s1 s2 s3 Hst _ IH]; [done|]. intros H0. apply IH. clear IH. destruct Hst.
  - by apply begin_ok.
  - by eapply send_ok.
  - by eapply serve_ok.
  - by eapply screen_ok.
  - by eapply receive_ok.
  - by eapply arrival_ok.
  - by eapply timeout_ok.
  - by eapply finish_ok.
Qed.
End System.

(** C35: in any run of the simulator against the host, with datagrams and units
    lost, delayed, reordered or repeated, screen frames in between and
    responses racing with the turn's time-out, a latency measured for a kind of
    a turn is that of a response to this very request: never one of another
    kind or of an earlier turn.  What the recorder holds are rows of
    turns in which all four kinds were answered: for each kind the latencies of
    these turns, in the same order, and the maximum of each. *)
Theorem latencies_matched `{Jq : JSON request} `{Jr : JSON response} handlers mode dm pubs turns warmup s :
  4 * u32 turns < 2 ^ 32 ->
  (forall (r : request) b, Marshal r = Ok b -> Unmarshal b = Ok r) ->
  (forall (r : response) b, Marshal r = Ok b -> Unmarshal b = Ok r) ->
  (exists e, Unmarshal (A := request) [] = Err e) ->
  (exists e, Unmarshal (A := response) [] = Err e) ->
  cuasteps handlers mode dm pubs turns warmup initSystem s ->
  (forall t kind lat, cc_turn (sy_cl s) = Some t -> tu_lat t !! kind = Some lat ->
     measured (sy_rx s) (tu_turn t) (tu_t0 t) kind lat) /\
  exists rows, Forall (row_ok (sy_rx s)) rows /\
    (forall kind, kind ∈ kinds ->
       perKind (cc_rec (sy_cl s)) !! kind = Some ((fun row => default 0 (row.2 !! kind)) <$> rows)) /\
    perTurn (cc_rec (sy_cl s)) = (fun row => maxOf row.2) <$> rows.
Proof.
  intros H1 H2 H3 H4 H5 Hs. pose proof (cuasteps_ok _ _ _ _ _ _ H1 H2 H3 H4 H5 s Hs) as Hok. split.
  - intros t kind lat Ht Hl. by apply (to_lat _ _ _ (so_turn _ _ Hok t Ht)).
  - exact (so_rec _ _ Hok).
Qed.

(** ** A complete turn *)

Module TurnDemo.
(** Payloads as the bits of their codes. *)
Fixpoint bits (p : positive) : list byte :=
  match p with xH => [x02] | xO q => x00 :: bits q | xI q => x01 :: bits q end.
Fixpoint unbits (l : list byte) : option positive :=
  match l with
  | [x02] => Some xH
  | x00 :: l' => xO <$> unbits l'
  | x01 :: l' => xI <$> unbits l'
  | _ => None
  end.

Lemma unbits_bits p : unbits (bits p) = Some p.
Proof.
  induction p as [p IH|p IH|]; [| |done]; cbn [bits].
  - change (unbits (x01 :: bits p)) with (xI <$> unbits (bits p)). by rewrite IH.
  - change (unbits (x00 :: bits p)) with (xO <$> unbits (bits p)). by rewrite IH.
Qed.

#[export] Instance demo_request : JSON request := {|
  Marshal r := Ok (bits (encode (rq_Turn r, rq_Kind r, rq_MsgID r)));
  Unmarshal l := match unbits l ≫= decode with
                 | Some (t, k, i) => Ok (mkRequest t k i)
                 | None => Err EOF
                 end |}.
#[export] Instance demo_response : JSON response := {|
  Marshal r := Ok (bits (encode (rs_Turn r, rs_Kind r, rs_MsgID r, Z_of_byte <$> rs_Body r)));
  Unmarshal l := match unbits l ≫= decode with
                 | Some (t, k, i, b) => Ok (mkResponse t k i (byte_of_Z <$> b))
                 | None => Err EOF
                 end |}.

Lemma request_roundtrip (r : request) b : Marshal r = Ok b -> Unmarshal b = Ok r.
Proof.
  intros [= <-]. cbn [Unmarshal demo_request]. rewrite unbits_bits. cbn [mbind option_bind].
  rewrite decode_encode. by destruct r.
Qed.

Lemma response_roundtrip (r : response) b : Marshal r = Ok b -> Unmarshal b = Ok r.
Proof.
  intros [= <-]. cbn [Unmarshal demo_response]. rewrite unbits_bits. cbn [mbind option_bind].
  rewrite decode_encode. destruct r as [t k i body]. cbn. do 2 f_equal. induction body as [|c body IH]; [done|].
  csimpl. by rewrite byte_of_Z_of_byte, IH.
Qed.

Definition demo_pubs : gmap string string := <["data" := "data"]> ∅.
Definition demosteps := cuasteps (handlersOf defaultOptions) "naive" false demo_pubs 10 0.

Definition demo_bytes (r : request) : list byte := match Marshal r with Ok b => b | Err _ => [] end.
Definition demo_reply (kind : string) (id : Z) : AccessUnit :=
  mkAU (marshal (mkResponse 0 kind id [])) true 0 id false 0 ∅ 0 0.

(** A request is sent, answered, the answer received and awaited. *)
Lemma one_kind c up down own rx kind id arrival c' t :
  cc_turn c = Some t -> tu_turn t = 0 -> tu_ids t !! kind = Some id -> kind ∈ kinds ->
  awaitArrival (deliverResponse arrival id c) = Some c' ->
  demosteps (mkSystem c up down own rx)
    (mkSystem c' (demo_bytes (mkRequest 0 kind id) :: up) (au_Bytes (demo_reply kind id) :: down) own
       ((arrival, mkResponse 0 kind id []) :: rx)).
Proof.
  intros Ht H0 Hid Hk Hw.
  assert (exists cfg, handlersOf defaultOptions !! kind = Some cfg /\ run (fun _ => 0) (fun _ => []) cfg <> None) as (cfg & Hh & Hrun).
  { repeat (apply elem_of_cons in Hk as [->|Hk]; [eexists; split; [reflexivity|discriminate]|]). by apply elem_of_nil in Hk. }
  destruct (run _ _ cfg) as [[body d]|] eqn:Er; [|done].
  assert (body = []) as ->.
  { unfold run in Er. destruct (latencyMs cfg <=? 0), (bodyBytes cfg <? 0); try done. by injection Er. }
  eapply rtc_l.
  { exact (cu_send _ _ _ _ _ _ c up down own rx t kind id Ht Hid Hk). }
  rewrite H0.
  eapply rtc_l.
  { eapply (cu_serve _ _ _ _ _ _ c _ down own rx (demo_bytes (mkRequest 0 kind id)) (mkRequest 0 kind id) cfg (fun _ => 0) (fun _ => [])
      (fun _ => true) (fun _ => true) 0 false _ _ (Published "data" (demo_reply kind id))); [left| | |].
    - unfold accept. rewrite (request_roundtrip (mkRequest 0 kind id)) by done. cbn [rq_Kind]. by rewrite Hh.
    - unfold worker. rewrite Er. cbn [answer rq_Turn rq_Kind rq_MsgID]. reflexivity.
    - left. }
  eapply rtc_l.
  { apply (cu_receive _ _ _ _ _ _ c _ _ own rx (au_Bytes (demo_reply kind id)) arrival). left. }
  unfold receiveResponse, logResponse. rewrite (response_roundtrip (mkResponse 0 kind id [])) by done.
  apply rtc_once. by apply cu_arrival.
Qed.

(** The four kinds in turn, then the end of the turn. *)
Lemma demo_turn : exists s, demosteps initSystem s /\ perTurn (cc_rec (sy_cl s)) = [9].
Proof.
  eexists. split.
  - eapply rtc_l; [apply (cu_begin _ _ _ _ _ _ newCuaClient [] [] ∅ [] 100 kinds); [done|vm_compute; reflexivity|done]|].
    etransitivity; [eapply (one_kind _ _ _ _ _ "action" 1 109); [vm_compute; reflexivity|reflexivity|vm_compute; reflexivity|left|vm_compute; reflexivity]|].
    etransitivity; [eapply (one_kind _ _ _ _ _ "a11y" 2 105); [vm_compute; reflexivity|reflexivity|vm_compute; reflexivity|right; left|vm_compute; reflexivity]|].
    etransitivity; [eapply (one_kind _ _ _ _ _ "dom" 3 103); [vm_compute; reflexivity|reflexivity|vm_compute; reflexivity|right; right; left|vm_compute; reflexivity]|].
    etransitivity; [eapply (one_kind _ _ _ _ _ "perf" 4 102); [vm_compute; reflexivity|reflexivity|vm_compute; reflexivity|right; right; right; left|vm_compute; reflexivity]|].
    apply rtc_once. apply cu_finish. vm_compute. reflexivity.
  - vm_compute. reflexivity.
Qed.

Lemma latencies_matched_witness :
  exists s rows, demosteps initSystem s /\ perTurn (cc_rec (sy_cl s)) = [9] /\
    perTurn (cc_rec (sy_cl s)) = (fun row => maxOf row.2) <$> rows /\ Forall (row_ok (sy_rx s)) rows.
Proof.
  destruct demo_turn as (s & Hs & Hm).
  destruct (latencies_matched (handlersOf defaultOptions) "naive" false demo_pubs 10 0 s) as (_ & rows & H1 & _ & H3).
  - reflexivity.
  - exact request_roundtrip.
  - exact response_roundtrip.
  - exists EOF. reflexivity.
  - exists EOF. reflexivity.
  - exact Hs.
  - exists s, rows. split; [exact Hs|]. split; [exact Hm|]. split; [exact H3|exact H1].
Defined.
End TurnDemo.
