(* ===== verification/CuaLive.v ===== *)
(** * The live computer-use demo: the agent loop

    [examples/cua-live]: the contract of a brain ([brain.go]), the scripted one
    ([fake.go]), the loop that fans each turn out to the lanes of screen,
    reasoning and tool calls, and the telemetry lane ([main.go]).

    The brain is a class with two instances, [FakeBrain] here and [liveBrain] in
    [CuaLiveBrain.v].  JSON, the screen source, the clock, the outcomes of
    [Publish] and the moments the context ends are arguments. *)

From S2P Require Import Prelude GoText Wire Track Replay Record.

#[local] Open Scope Z_scope.

Definition trackScreen : string := "screen".
Definition trackReasoning : string := "reasoning".
Definition trackToolCalls : string := "toolcalls".
Definition trackTelemetry : string := "telemetry".
Definition telemetryTrackID : byte := x01.
Definition screenWidth : Z := 1024.
Definition screenHeight : Z := 640.

(** ** The contract *)

Definition ActionType : Type := string.
Definition ActionScreenshot : ActionType := "screenshot".
Definition ActionLeftClick : ActionType := "left_click".
Definition ActionTypeText : ActionType := "type".
Definition ActionKey : ActionType := "key".
Definition ActionScroll : ActionType := "scroll".
Definition ActionNavigate : ActionType := "navigate".
Definition ActionWait : ActionType := "wait".

Record Action := mkAction {
  ac_Type : ActionType;
  ac_X : Z; ac_Y : Z;
  ac_Text : string;
  ac_Key : string;
  ac_ScrollX : Z; ac_ScrollY : Z;
  ac_URL : string;
  ac_WaitMS : Z;
}.

(** [Action{Type: t}]. *)
Definition action0 (t : ActionType) : Action := mkAction t 0 0 "" "" 0 0 "" 0.

Record Step := mkStep { sp_Reasoning : string; sp_Action : Action; sp_Done : bool }.

(** A brain's state is threaded; the screenshot is empty before the first
    turn. *)
Class Brain (B : Type) := {
  NextStep : B -> list byte -> B * result Step;
  Goal : B -> string;
}.

(** ** The scripted brain *)

Record FakeBrain := mkFakeBrain { fb_script : list Step; fb_idx : nat }.

Definition fakeScript : list Step := [
  mkStep "The task is to log into the demo dashboard and read the latest payout total. I'll start by navigating to the login page."
    (mkAction ActionNavigate 0 0 "" "" 0 0 "https://dashboard.demo.example/login" 0) false;
  mkStep "The login form has loaded. I can see an email field near the top. I'll click it to focus, then type the demo account email."
    (mkAction ActionLeftClick 240 150 "" "" 0 0 "" 0) false;
  mkStep "Email field focused. Typing the demo credentials."
    (mkAction ActionTypeText 0 0 "agent@demo.example" "" 0 0 "" 0) false;
  mkStep "Now I'll tab to the password field and enter the password."
    (mkAction ActionKey 0 0 "" "Tab" 0 0 "" 0) false;
  mkStep "Typing the password into the focused field."
    (mkAction ActionTypeText 0 0 "•••••••••" "" 0 0 "" 0) false;
  mkStep "Credentials entered. Clicking the Sign in button to submit."
    (mkAction ActionLeftClick 240 250 "" "" 0 0 "" 0) false;
  mkStep "Waiting for the dashboard to load after authentication."
    (mkAction ActionWait 0 0 "" "" 0 0 "" 800) false;
  mkStep "Dashboard loaded. The payout summary is below the fold, so I'll scroll down to bring it into view."
    (mkAction ActionScroll 240 200 "" "" 0 300 "" 0) false;
  mkStep "I can now see the payouts card. Taking a screenshot to read the latest total precisely."
    (action0 ActionScreenshot) false;
  mkStep "The latest payout total reads $12,480.00, posted today. Task complete — I have the value the user asked for."
    (action0 ActionScreenshot) true ].

Definition NewFakeBrain : FakeBrain := mkFakeBrain fakeScript 0.

(** An index past the end cannot happen with a script that is not empty; it
    would be a panic. *)
Definition fakeNextStep (b : FakeBrain) : FakeBrain * result Step :=
  let idx := if (length (fb_script b) <=? fb_idx b)%nat then 0%nat else fb_idx b in
  match fb_script b !! idx with
  | Some step => (mkFakeBrain (fb_script b) (S idx), Ok step)
  | None => (b, Err (ErrMsg "index out of range"))
  end.

#[export] Instance FakeBrain_Brain : Brain FakeBrain := {
  NextStep b _ := fakeNextStep b;
  Goal _ := "Log into the demo dashboard and read the latest payout total";
}.

(** ** The loop *)

(** [strings.Fields], on the runes of the text with their widths. *)
Fixpoint fieldsFrom (ws : list (Z * nat)) (s cur : list byte) : list (list byte) :=
  match ws with
  | [] => match cur with [] => [] | _ => [cur] end
  | (r, n) :: ws' =>
      if isSpace r
      then match cur with [] => [] | _ => [cur] end ++ fieldsFrom ws' (drop n s) []
      else fieldsFrom ws' (drop n s) (cur ++ take n s)
  end.
Definition Fields (s : list byte) : list (list byte) :=
  fieldsFrom (decodeWidths (length s) (Z_of_byte <$> s)) s [].

(** The loop's counters and what was published, per lane. *)
Record agentLoop := mkAgentLoop {
  al_seqScreen : Z;
  al_seqToken : Z;
  al_seqAction : Z;
  al_screen : list AccessUnit;
  al_reasoning : list AccessUnit;
  al_tools : list AccessUnit;
  al_steps : nat;
}.

Definition newAgentLoop : agentLoop := mkAgentLoop 0 0 0 [] [] [] 0.

Inductive ending := Cancelled | BrainFailed (e : error) | ScreenFailed (e : error) | Finished.

Section Loop.
Context {B : Type} `{HB : Brain B} `{HJ : JSON Action}.
Context (frame : nat -> Action -> bool -> result (list byte)). (* screenSource.Frame *)
Context (publish : string -> Z -> bool).     (* whether Publish of this unit succeeds, by lane and number *)
Context (now : string -> Z -> Z).            (* the clock when that unit is made *)
Context (ctxErr : nat -> bool).              (* the context is done at the top of this turn *)
Context (cut : nat -> option nat).           (* it ends while this turn's tokens are sent, after so many *)
Context (paceEnds : nat -> bool).            (* it ends during this turn's pause *)

Definition tokenAU (payload : list byte) (seq : Z) : AccessUnit :=
  mkAU payload true (u64 (now trackReasoning seq)) seq false 0 ∅ 0 0.

Definition sendToken (payload : list byte) (a : agentLoop) : agentLoop :=
  mkAgentLoop (al_seqScreen a) (u32 (al_seqToken a + 1)) (al_seqAction a) (al_screen a)
    (al_reasoning a ++ [tokenAU payload (al_seqToken a)]) (al_tools a) (al_steps a).

(** The tokens of a text; the bool says whether all were published. *)
Fixpoint streamTokens (toks : list (list byte)) (cut : option nat) (a : agentLoop) : bool * agentLoop :=
  match toks with
  | [] => (true, a)
  | tok :: toks' =>
      match cut with
      | Some O => (false, a)
      | _ =>
          let payload := tok ++ [x20] in
          if publish trackReasoning (al_seqToken a)
          then streamTokens toks' (pred <$> cut) (sendToken payload a)
          else (false, a)
      end
  end.

Definition streamReasoning (text : string) (cut : option nat) (a : agentLoop) : agentLoop :=
  if bool_decide (text = "") then a
  else
    match streamTokens (Fields (bytes_of text)) cut a with
    | (false, a) => a
    | (true, a) =>
        if publish trackReasoning (al_seqToken a) then sendToken [x0a; x0a] a
        else mkAgentLoop (al_seqScreen a) (u32 (al_seqToken a + 1)) (al_seqAction a) (al_screen a)
               (al_reasoning a) (al_tools a) (al_steps a)
    end.

Definition publishAction (act : Action) (a : agentLoop) : agentLoop :=
  match Marshal act with
  | Err _ => a
  | Ok body =>
      let au := mkAU body true (u64 (now trackToolCalls (al_seqAction a))) (al_seqAction a) false 0
                  {[ "request_id" := "act-" +:+ fmt_d (al_seqAction a) ]} 0 0 in
      if publish trackToolCalls (al_seqAction a)
      then mkAgentLoop (al_seqScreen a) (al_seqToken a) (u32 (al_seqAction a + 1)) (al_screen a)
             (al_reasoning a) (al_tools a ++ [au]) (al_steps a)
      else a
  end.

Definition publishScreen (png : list byte) (keyframe : bool) (a : agentLoop) : agentLoop :=
  let au := mkAU png keyframe (u64 (now trackScreen (al_seqScreen a))) (al_seqScreen a) false 0 ∅ 0 0 in
  if publish trackScreen (al_seqScreen a)
  then mkAgentLoop (u32 (al_seqScreen a + 1)) (al_seqToken a) (al_seqAction a) (al_screen a ++ [au])
         (al_reasoning a) (al_tools a) (al_steps a)
  else a.

Definition incSteps (a : agentLoop) : agentLoop :=
  mkAgentLoop (al_seqScreen a) (al_seqToken a) (al_seqAction a) (al_screen a) (al_reasoning a) (al_tools a) (S (al_steps a)).

(** [run], with the number of turns as fuel; [None] when more turns follow. *)
Fixpoint run (fuel step : nat) (b : B) (lastShot : list byte) (a : agentLoop) : agentLoop * option ending :=
  match fuel with
  | O => (a, None)
  | S fuel' =>
      if ctxErr step then (a, Some Cancelled)
      else
        match NextStep b lastShot with
        | (_, Err e) => (a, Some (BrainFailed e))
        | (b, Ok s) =>
            let a := incSteps a in
            let a := streamReasoning (sp_Reasoning s) (cut step) a in
            let a := publishAction (sp_Action s) a in
            let keyframe := al_seqScreen a mod 5 =? 0 in
            match frame step (sp_Action s) keyframe with
            | Err e => (a, Some (ScreenFailed e))
            | Ok shot =>
                let a := publishScreen shot keyframe a in
                if sp_Done s then (a, Some Finished)
                else if paceEnds step then (a, Some Cancelled)
                else run fuel' (S step) b shot a
            end
        end
  end.
End Loop.

(** ** Telemetry *)

Record snapshotCounters := mkSnapshotCounters {
  sn_steps : Z; sn_screen : Z; sn_tokens : Z; sn_actions : Z; sn_heapMB : Z; sn_goroutines : Z }.

(** The JSON text, its double quotes written as single ones. *)
Definition telemetryBody (c : snapshotCounters) : list byte :=
  let q (t : string) := replaceByte x27 x22 (bytes_of t) in
  let d (z : Z) := bytes_of (fmt_d z) in
  q "{'step':" ++ d (sn_steps c) ++ q ",'screen_frames':" ++ d (sn_screen c) ++ q ",'tokens':" ++ d (sn_tokens c)
  ++ q ",'tool_calls':" ++ d (sn_actions c) ++ q ",'heap_mb':" ++ d (sn_heapMB c)
  ++ q ",'goroutines':" ++ d (sn_goroutines c) ++ q "}".

(** [pumpTelemetry] on the ticks before the session ends: what each tick sees
    and whether its [SendDatagram] succeeds.  The buffer is reused, so each
    envelope starts from an empty one. *)
Fixpoint pumpTelemetry (ticks : list (snapshotCounters * bool)) (seq : Z) : list (list byte) :=
  match ticks with
  | [] => []
  | (c, ok) :: ticks' =>
      match EncodeDatagram [] telemetryTrackID seq (telemetryBody c) with
      | Err _ => pumpTelemetry ticks' seq
      | Ok env => if ok then env :: pumpTelemetry ticks' (u16 (seq + 1)) else []
      end
  end.

(** [recordTelemetry]: the calls of [rec.Write]. *)
Fixpoint recordTelemetry (ticks : list snapshotCounters) (seq : Z) : list (string * string * AccessUnit) :=
  match ticks with
  | [] => []
  | c :: ticks' =>
      (trackTelemetry, KindTelemetry, mkAU (telemetryBody c) false 0 seq false 0 ∅ 0 0)
        :: recordTelemetry ticks' (u32 (seq + 1))
  end.

(** * The lanes *)

(** A lane whose units are numbered from zero without a gap. *)
Definition numbered (l : list AccessUnit) : Prop := forall k au, l !! k = Some au -> au_Seq au = u32 (Z.of_nat k).

Record lanes_ok (a : agentLoop) : Prop := {
  ln_screen : numbered (al_screen a) /\ al_seqScreen a = u32 (zlen (al_screen a));
  ln_keys : forall k au, al_screen a !! k = Some au -> au_Keyframe au = (u32 (Z.of_nat k) mod 5 =? 0);
  ln_tools : numbered (al_tools a) /\ al_seqAction a = u32 (zlen (al_tools a));
  ln_ids : forall k au, al_tools a !! k = Some au ->
             au_Keyframe au = true /\ au_Meta au !! "request_id" = Some ("act-" +:+ fmt_d (u32 (Z.of_nat k)));
  ln_tokens : Forall (fun au => au_Keyframe au = true) (al_reasoning a);
}.

Lemma lookup_snoc_inv {A} (l : list A) x k y :
  (l ++ [x]) !! k = Some y -> l !! k = Some y \/ (k = length l /\ y = x).
Proof.
  intros H. apply lookup_app_Some in H as [H|[Hk H]]; [by left|]. right.
  apply list_lookup_singleton_Some in H as [H1 H2]. split; [lia|done].
Qed.

Lemma numbered_snoc l au : numbered l -> au_Seq au = u32 (zlen l) -> numbered (l ++ [au]).
Proof. intros Hn Hs k x [Hx|[-> ->]]%lookup_snoc_inv; [by apply Hn|done]. Qed.

Lemma u32_next z : u32 (u32 z + 1) = u32 (z + 1).
Proof. unfold u32. by rewrite Zplus_mod_idemp_l. Qed.

Lemma seq_next {A} (s : Z) (l : list A) x : s = u32 (zlen l) -> u32 (s + 1) = u32 (zlen (l ++ [x])).
Proof. intros ->. rewrite zlen_app, zlen_single. apply u32_next. Qed.

Lemma lanes_init : lanes_ok newAgentLoop.
Proof. split; try done; by split. Qed.

Section LaneFacts.
Context {B : Type} `{HB : Brain B} `{HJ : JSON Action}.
Context (frame : nat -> Action -> bool -> result (list byte)) (publish : string -> Z -> bool) (now : string -> Z -> Z).
Context (ctxErr : nat -> bool) (cut : nat -> option nat) (paceEnds : nat -> bool).

(** What the reasoning lane leaves alone. *)
Definition same_but_tokens (a a' : agentLoop) : Prop :=
  al_seqScreen a' = al_seqScreen a /\ al_seqAction a' = al_seqAction a /\ al_screen a' = al_screen a /\
  al_tools a' = al_tools a /\ al_steps a' = al_steps a.

Lemma streamTokens_ok toks : forall c a,
  Forall (fun au => au_Keyframe au = true) (al_reasoning a) ->
  same_but_tokens a (streamTokens publish now toks c a).2 /\
  Forall (fun au => au_Keyframe au = true) (al_reasoning (streamTokens publish now toks c a).2).
Proof.
  induction toks as [|tok toks IH]; intros c a Ha; cbn [streamTokens]; [done|].
  destruct c as [[|c]|]; [done| |]; (destruct (publish _ _); [|done]);
    (edestruct IH as [H1 H2]; [|split; [exact H1|exact H2]]); cbn [sendToken al_reasoning];
    (apply Forall_app; split; [done|by repeat constructor]).
Qed.

Lemma streamReasoning_ok text c a :
  Forall (fun au => au_Keyframe au = true) (al_reasoning a) ->
  same_but_tokens a (streamReasoning publish now text c a) /\
  Forall (fun au => au_Keyframe au = true) (al_reasoning (streamReasoning publish now text c a)).
Proof.
  intros Ha. unfold streamReasoning. case_bool_decide; [done|].
  destruct (streamTokens_ok (Fields (bytes_of text)) c a Ha) as [H1 H2].
  destruct (streamTokens publish now (Fields (bytes_of text)) c a) as [[|] a']; cbn [snd] in *; [|done].
  destruct (publish _ _); [|done]. split; [done|]. cbn [sendToken al_reasoning].
  apply Forall_app. split; [done|by repeat constructor].
Qed.

Lemma publishAction_ok act a :
  lanes_ok a -> lanes_ok (publishAction publish now act a) /\ al_steps (publishAction publish now act a) = al_steps a.
Proof.
  intros Ha. unfold publishAction. destruct (Marshal act); [|done]. destruct (publish _ _); [|done].
  split; [|done]. destruct Ha as [H1 H2 [H3 H4] H5 H6]. split; try done; cbn [al_tools al_seqAction].
  - split; [by apply numbered_snoc|by apply seq_next].
  - intros k au [Hk|[-> ->]]%lookup_snoc_inv; [by apply H5|]. cbn [au_Keyframe au_Meta]. split; [done|].
    rewrite lookup_singleton_eq. by rewrite H4.
Qed.

Lemma publishScreen_ok png a :
  lanes_ok a -> lanes_ok (publishScreen publish now png (al_seqScreen a mod 5 =? 0) a) /\
  al_steps (publishScreen publish now png (al_seqScreen a mod 5 =? 0) a) = al_steps a.
Proof.
  intros Ha. unfold publishScreen. destruct (publish _ _); [|done].
  split; [|done]. destruct Ha as [[H1 H2] H3 H4 H5 H6]. split; try done; cbn [al_screen al_seqScreen].
  - split; [by apply numbered_snoc|by apply seq_next].
  - intros k au [Hk|[-> ->]]%lookup_snoc_inv; [by apply H3|]. cbn [au_Keyframe]. by rewrite H2.
Qed.

Lemma streamReasoning_lanes text c a :
  lanes_ok a -> lanes_ok (streamReasoning publish now text c a) /\ al_steps (streamReasoning publish now text c a) = al_steps a.
Proof.
  intros [H1 H2 H3 H4 H5]. destruct (streamReasoning_ok text c a H5) as [(E1 & E2 & E3 & E4 & E5) H6].
  split; [|done]. split; rewrite ?E1, ?E2, ?E3, ?E4; done.
Qed.

(** One turn keeps the lanes and counts one step at most. *)
Lemma run_lanes fuel : forall step b shot a,
  lanes_ok a -> lanes_ok (run frame publish now ctxErr cut paceEnds fuel step b shot a).1 /\
  (al_steps (run frame publish now ctxErr cut paceEnds fuel step b shot a).1 <= al_steps a + fuel)%nat.
Proof.
  induction fuel as [|fuel IH]; intros step b shot a Ha; cbn [run]; [split; [done|cbn; lia]|].
  destruct (ctxErr step); [split; [done|cbn; lia]|].
  destruct (NextStep b shot) as [b' [s|e]]; [|split; [done|cbn; lia]].
  assert (lanes_ok (incSteps a)) as Hi by (destruct Ha; by split).
  destruct (streamReasoning_lanes (sp_Reasoning s) (cut step) _ Hi) as [Hr Er].
  destruct (publishAction_ok (sp_Action s) _ Hr) as [Hp Ep]. cbv zeta.
  set (a2 := publishAction _ _ _ _) in *. destruct (frame step (sp_Action s) _) as [png|e]; [|split; [done|cbn in *; lia]].
  destruct (publishScreen_ok png a2 Hp) as [Hs Es].
  destruct (sp_Done s); [split; [done|cbn in *; lia]|]. destruct (paceEnds step); [split; [done|cbn in *; lia]|].
  destruct (IH (S step) b' png (publishScreen publish now png (al_seqScreen a2 mod 5 =? 0) a2) Hs) as [G1 G2].
  split; [done|]. cbn [al_steps incSteps] in *. lia.
Qed.
(** What the loop is asked to send: the steps of the brain, each with the
    screen taken after it, unless that failed. *)
Fixpoint turns (fuel step : nat) (b : B) (lastShot : list byte) : list (Step * option (list byte)) :=
  match fuel with
  | O => []
  | S fuel' =>
      if ctxErr step then []
      else
        match NextStep b lastShot with
        | (_, Err _) => []
        | (b, Ok s) =>
            match frame step (sp_Action s) (u32 (Z.of_nat step) mod 5 =? 0) with
            | Err _ => [(s, None)]
            | Ok shot => (s, Some shot) :: if sp_Done s || paceEnds step then [] else turns fuel' (S step) b shot
            end
        end
  end.

(** The tokens of a text: its words, each with a space, and a blank line. *)
Definition tokensOf (text : string) : list (list byte) :=
  if bool_decide (text = "") then [] else ((fun w => w ++ [x20]) <$> Fields (bytes_of text)) ++ [[x0a; x0a]].

Definition actionBody (act : Action) : option (list byte) :=
  match Marshal act with Ok body => Some body | Err _ => None end.

(** The payloads of the three lanes, and what turns put there. *)
Definition lanes (a : agentLoop) : list (list byte) * list (list byte) * list (list byte) :=
  (au_Bytes <$> al_reasoning a, au_Bytes <$> al_tools a, au_Bytes <$> al_screen a).
Definition lanesOf (ts : list (Step * option (list byte))) : list (list byte) * list (list byte) * list (list byte) :=
  (ts ≫= (fun t => tokensOf (sp_Reasoning t.1)), omap (fun t => actionBody (sp_Action t.1)) ts, omap snd ts).
Definition lanesApp (x y : list (list byte) * list (list byte) * list (list byte)) :=
  (x.1.1 ++ y.1.1, x.1.2 ++ y.1.2, x.2 ++ y.2).

Section Undropped.
Context (Hpub : forall lane n, publish lane n = true) (Hcut : forall n, cut n = None).

Lemma streamTokens_all toks : forall a,
  (streamTokens publish now toks None a).1 = true /\
  au_Bytes <$> al_reasoning (streamTokens publish now toks None a).2 =
    (au_Bytes <$> al_reasoning a) ++ ((fun w => w ++ [x20]) <$> toks).
Proof.
  induction toks as [|tok toks IH]; intros a; cbn [streamTokens]; [by rewrite app_nil_r|].
  rewrite Hpub. cbn [fmap option_fmap option_map]. destruct (IH (sendToken now (tok ++ [x20]) a)) as [H1 H2].
  split; [exact H1|]. rewrite H2. cbn [sendToken al_reasoning]. by rewrite fmap_app, <- app_assoc.
Qed.

Lemma streamReasoning_all text a :
  au_Bytes <$> al_reasoning (streamReasoning publish now text None a) = (au_Bytes <$> al_reasoning a) ++ tokensOf text.
Proof.
  unfold streamReasoning, tokensOf. case_bool_decide; [by rewrite app_nil_r|].
  destruct (streamTokens_all (Fields (bytes_of text)) a) as [H1 H2].
  destruct (streamTokens publish now (Fields (bytes_of text)) None a) as [[|] a']; [|done]. cbn [fst snd] in *.
  rewrite Hpub. cbn [sendToken al_reasoning]. by rewrite fmap_app, H2, <- app_assoc.
Qed.

(** One turn up to its screen. *)
Lemma turn_lanes s step a : lanes_ok a ->
  let a' := publishAction publish now (sp_Action s) (streamReasoning publish now (sp_Reasoning s) (cut step) (incSteps a)) in
  lanes_ok a' /\ al_seqScreen a' = al_seqScreen a /\ lanes a' = lanesApp (lanes a) (lanesOf [(s, None)]).
Proof.
  intros Ha. assert (lanes_ok (incSteps a)) as Hi by (destruct Ha; by split). rewrite Hcut. cbv zeta.
  destruct (streamReasoning_ok (sp_Reasoning s) None (incSteps a) (ln_tokens _ Hi)) as [(E1 & _ & E3 & E4 & _) _].
  pose proof (streamReasoning_all (sp_Reasoning s) (incSteps a)) as Et.
  destruct (streamReasoning_lanes (sp_Reasoning s) None _ Hi) as [Hr _].
  split; [by apply publishAction_ok|]. set (a1 := streamReasoning _ _ _ _ _) in *.
  unfold publishAction, lanes, lanesOf, lanesApp, actionBody. cbn [omap list_omap fst snd mbind list_bind].
  rewrite app_nil_r. destruct (Marshal (sp_Action s)) as [body|e]; [rewrite Hpub|];
    cbn [al_seqScreen al_reasoning al_tools al_screen]; rewrite Et, E1, E3, E4, ?fmap_app, ?app_nil_r; done.
Qed.

Lemma lanes_cons s o ts a a1 :
  lanes a1 = lanesApp (lanes a) (lanesOf [(s, None)]) ->
  lanesApp (lanesApp (lanes a1) ([], [], option_list o)) (lanesOf ts) = lanesApp (lanes a) (lanesOf ((s, o) :: ts)).
Proof.
  intros ->. unfold lanesApp, lanesOf, lanes. cbn [fst snd omap list_omap mbind list_bind].
  destruct (actionBody (sp_Action s)), o; cbn [option_list]; rewrite ?app_nil_r, <- ?app_assoc; done.
Qed.

Lemma run_fans_out fuel : forall step b shot a,
  lanes_ok a -> al_seqScreen a = u32 (Z.of_nat step) ->
  lanes (run frame publish now ctxErr cut paceEnds fuel step b shot a).1 = lanesApp (lanes a) (lanesOf (turns fuel step b shot)).
Proof.
  assert (forall a, lanes a = lanesApp (lanes a) (lanesOf [])) as Hnil.
  { intros a. unfold lanesApp, lanesOf, lanes. cbn. by rewrite !app_nil_r. }
  induction fuel as [|fuel IH]; intros step b shot a Ha Hs; cbn [run turns]; [apply Hnil|].
  destruct (ctxErr step); [apply Hnil|]. destruct (NextStep b shot) as [b' [s|e]]; [|apply Hnil].
  destruct (turn_lanes s step a Ha) as (Hok & Hseq & Hl). cbv zeta in *. set (a1 := publishAction _ _ _ _) in *.
  rewrite Hseq, Hs. destruct (frame step (sp_Action s) _) as [png|e]; [|exact Hl].
  assert (al_seqScreen a1 = u32 (Z.of_nat step)) as Hs1 by congruence.
  destruct (publishScreen_ok png a1 Hok) as [Hok2 _]. rewrite Hs1 in Hok2. set (kf := u32 (Z.of_nat step) mod 5 =? 0) in *.
  assert (lanes (publishScreen publish now png kf a1) = lanesApp (lanes a1) ([], [], option_list (Some png))) as Hl2.
  { unfold publishScreen. rewrite Hpub. unfold lanes, lanesApp. cbn. by rewrite fmap_app, !app_nil_r. }
  assert (al_seqScreen (publishScreen publish now png kf a1) = u32 (Z.of_nat (S step))) as Hs2.
  { unfold publishScreen. rewrite Hpub. cbn [al_seqScreen]. rewrite Hs1, u32_next. f_equal. lia. }
  rewrite <- (lanes_cons s (Some png) _ a a1 Hl), <- Hl2.
  destruct (sp_Done s); [apply Hnil|]. destruct (paceEnds step); [apply Hnil|]. cbn [orb]. by apply IH.
Qed.
End Undropped.
End LaneFacts.

(** C40: the turns of the agent are fanned out to the lanes.  For every brain,
    every screen source and every outcome of publishing, however the context
    ends: the screen lane and the tool-call lane are numbered 0, 1, 2, ...
    without a gap, a screen unit is a keyframe exactly when its number is a
    multiple of five (so the first is), the n-th tool call carries the request
    identifier [act-n], every token is self-contained, and a turn is counted at
    most once.  When no publication fails and the context does not end amid the
    tokens, the lanes carry exactly what the turns gave, in their order: the
    words of each reasoning followed by a blank line, each action that encodes,
    and each screen, the last turn's included. *)
Theorem lanes_numbered {B : Type} `{HB : Brain B} `{HJ : JSON Action} frame publish now ctxErr cut paceEnds fuel (b : B) a res :
  run frame publish now ctxErr cut paceEnds fuel 0 b [] newAgentLoop = (a, res) ->
  numbered (al_screen a) /\
  (forall k au, al_screen a !! k = Some au -> au_Keyframe au = (u32 (Z.of_nat k) mod 5 =? 0)) /\
  numbered (al_tools a) /\
  (forall k au, al_tools a !! k = Some au -> au_Meta au !! "request_id" = Some ("act-" +:+ fmt_d (u32 (Z.of_nat k)))) /\
  Forall (fun au => au_Keyframe au = true) (al_reasoning a) /\ (al_steps a <= fuel)%nat /\
  ((forall lane n, publish lane n = true) -> (forall n, cut n = None) ->
   lanes a = lanesOf (turns frame ctxErr paceEnds fuel 0 b [])).
Proof.
  intros E. destruct (run_lanes frame publish now ctxErr cut paceEnds fuel 0 b [] _ lanes_init) as [H1 H2].
  rewrite E in H1, H2. cbn [fst] in *. destruct H1 as [[S1 _] S2 [T1 _] T2 R]. split_and!; try done.
  - intros k au Hk. by apply T2.
  - intros Hp Hc. pose proof (run_fans_out frame publish now ctxErr cut paceEnds Hp Hc fuel 0 b [] _ lanes_init eq_refl) as Hl.
    rewrite E in Hl. cbn [fst] in Hl. exact Hl.
Qed.

Module LiveDemo.
#[export] Instance demo_action : JSON Action := {| Marshal a := Ok (bytes_of (ac_Type a)); Unmarshal _ := Err EOF |}.
Definition demo_run := run (fun _ _ _ => Ok [x01]) (fun _ _ => true) (fun _ _ => 0) (fun _ => false) (fun _ => None)
  (fun _ => false) 10 0 NewFakeBrain [] newAgentLoop.

Definition demo_turns := turns (fun _ _ _ => Ok [x01]) (fun _ => false) (fun _ => false) 10 0 NewFakeBrain [].

Lemma lanes_numbered_witness :
  numbered (al_screen demo_run.1) /\ length (al_screen demo_run.1) = 10%nat /\ lanes demo_run.1 = lanesOf demo_turns /\
  fst <$> demo_turns = fakeScript.
Proof.
  destruct (lanes_numbered (fun _ _ _ => Ok [x01]) (fun _ _ => true) (fun _ _ => 0) (fun _ => false) (fun _ => None)
    (fun _ => false) 10 NewFakeBrain demo_run.1 demo_run.2) as (Hn & _ & _ & _ & _ & _ & Hl); [apply surjective_pairing|].
  split; [exact Hn|]. split; [vm_compute; reflexivity|]. split; [|vm_compute; reflexivity].
  apply Hl; reflexivity.
Defined.
End LiveDemo.

(** * The scripted session ends *)

Section FakeRun.
Context `{HJ : JSON Action}.
Context (frame : nat -> Action -> bool -> result (list byte)) (publish : string -> Z -> bool) (now : string -> Z -> Z).
Context (ctxErr : nat -> bool) (cut : nat -> option nat) (paceEnds : nat -> bool).

(** Nothing but the script ends the run. *)
Definition undisturbed : Prop :=
  (forall n, ctxErr n = false) /\ (forall n, paceEnds n = false) /\ (forall n act k, exists png, frame n act k = Ok png).

Lemma fakeNext i s : fakeScript !! i = Some s -> fakeNextStep (mkFakeBrain fakeScript i) = (mkFakeBrain fakeScript (S i), Ok s).
Proof.
  intros Hs. unfold fakeNextStep. cbn [fb_script fb_idx]. apply lookup_lt_Some in Hs as Hl.
  assert ((length fakeScript <=? i)%nat = false) as -> by (apply Nat.leb_gt; lia). by rewrite Hs.
Qed.

Lemma script_done i s : fakeScript !! i = Some s -> sp_Done s = (i =? 9)%nat.
Proof. intros Hs. do 10 (destruct i as [|i]; [by injection Hs as <-|]). done. Qed.

Lemma fake_from m : forall i fuel step shot a,
  (i + m = 10)%nat -> (0 < m)%nat -> (m <= fuel)%nat -> lanes_ok a ->
  exists a' e, run frame publish now ctxErr cut paceEnds fuel step (mkFakeBrain fakeScript i) shot a = (a', Some e) /\
    (al_steps a' <= al_steps a + m)%nat /\ (undisturbed -> e = Finished /\ al_steps a' = (al_steps a + m)%nat).
Proof.
  induction m as [|m IH]; intros i fuel step shot a Hi Hm Hf Ha; [lia|]. destruct fuel as [|fuel]; [lia|]. cbn [run].
  destruct (ctxErr step) eqn:Ec; [eexists _, _; split; [done|]; split; [lia|]; intros [Hu _]; by rewrite Hu in Ec|].
  destruct (lookup_lt_is_Some_2 fakeScript i) as [s Hs]; [change (length fakeScript) with 10%nat; lia|].
  cbn [NextStep FakeBrain_Brain]. rewrite (fakeNext i s Hs).
  assert (lanes_ok (incSteps a)) as Hin by (destruct Ha; by split).
  destruct (streamReasoning_lanes publish now (sp_Reasoning s) (cut step) _ Hin) as [Hr Er].
  destruct (publishAction_ok publish now (sp_Action s) _ Hr) as [Hp Ep]. cbv zeta. set (a2 := publishAction _ _ _ _) in *.
  destruct (frame step (sp_Action s) (al_seqScreen a2 mod 5 =? 0)) as [png|err] eqn:Efr.
  2:{ eexists _, _. split; [done|]. cbn in *. split; [lia|]. intros (_ & _ & Hu).
      destruct (Hu step (sp_Action s) (al_seqScreen a2 mod 5 =? 0)). congruence. }
  destruct (publishScreen_ok publish now png a2 Hp) as [Hsc Esc]. rewrite (script_done i s Hs).
  destruct (i =? 9)%nat eqn:E9.
  { eexists _, _. split; [done|]. assert (m = 0%nat) as -> by (apply Nat.eqb_eq in E9; lia).
    cbn [al_steps incSteps] in *. split; [lia|]. intros _. split; [done|lia]. }
  destruct (paceEnds step) eqn:Epe.
  { eexists _, _. split; [done|]. cbn [al_steps incSteps] in *. split; [lia|]. intros (_ & Hu & _). by rewrite Hu in Epe. }
  apply Nat.eqb_neq in E9.
  destruct (IH (S i) fuel (S step) png _ ltac:(lia) ltac:(lia) ltac:(lia) Hsc) as (a' & e & E & Hl & Hu).
  exists a', e. split; [exact E|]. cbn [al_steps incSteps] in *. split; [lia|]. intros Hun. destruct (Hu Hun) as [-> Hst].
  split; [done|lia].
Qed.
End FakeRun.

(** the scripted session ends by itself: whatever the screen source, the
    publishers and the context do, the loop returns within ten turns, and when
    nothing disturbs it after exactly ten, with the script's last step.  So the
    script is never started again, which [NextStep] says it is there for. *)
Theorem fake_session_ends `{HJ : JSON Action} frame publish now ctxErr cut paceEnds fuel :
  (10 <= fuel)%nat ->
  exists a e, run frame publish now ctxErr cut paceEnds fuel 0 NewFakeBrain [] newAgentLoop = (a, Some e) /\
    (al_steps a <= 10)%nat /\ (undisturbed frame ctxErr paceEnds -> e = Finished /\ al_steps a = 10%nat).
Proof.
  intros Hf. apply (fake_from frame publish now ctxErr cut paceEnds 10 0 fuel 0 [] newAgentLoop); [lia|lia|lia|].
  apply lanes_init.
Qed.

Lemma fake_session_ends_witness :
  exists a, run (HJ := LiveDemo.demo_action) (fun _ _ _ => Ok [x01]) (fun _ _ => true) (fun _ _ => 0) (fun _ => false) (fun _ => None)
    (fun _ => false) 12 0 NewFakeBrain [] newAgentLoop = (a, Some Finished).
Proof.
  destruct (fake_session_ends (HJ := LiveDemo.demo_action) (fun _ _ _ => Ok [x01]) (fun _ _ => true) (fun _ _ => 0)
    (fun _ => false) (fun _ => None) (fun _ => false) 12) as (a & e & E & _ & Hu); [lia|].
  destruct Hu as [-> _]; [|exists a; exact E]. split; [reflexivity|]. split; [reflexivity|]. intros. eexists. reflexivity.
Defined.

(** ** Telemetry *)

(** Each datagram of the telemetry lane decodes to its track, its number and
    the counters' JSON, and they are numbered 0, 1, 2, ... modulo [2^16]. *)
Theorem telemetry_decodes ticks k env :
  Forall (fun t => zlen (telemetryBody t.1) <= MaxDatagramPayload) ticks ->
  pumpTelemetry ticks 0 !! k = Some env ->
  exists c ok, ticks !! k = Some (c, ok) /\
    DecodeDatagram env = Ok (telemetryTrackID, u16 (Z.of_nat k), telemetryBody c).
Proof.
  intros Hall. change 0 with (u16 0). replace (Z.of_nat k) with (0 + Z.of_nat k) by lia. generalize 0 as n.
  revert k Hall. induction ticks as [|[c ok] ticks IH]; intros k Hall n Hk; [done|].
  apply Forall_cons in Hall as [Hc Hall]. cbn [pumpTelemetry] in Hk. unfold EncodeDatagram at 1 in Hk. cbn [fst] in Hc.
  destruct (zlen (telemetryBody c) >? MaxDatagramPayload) eqn:E; [lia|]. destruct ok; [|done]. destruct k as [|k].
  - injection Hk as <-. exists c, true. split; [done|]. rewrite Z.add_0_r.
    destruct (datagram_decode_encode telemetryTrackID (u16 n) (telemetryBody c)) as (bs & Eb & Ed); [|exact Hc|].
    + unfold is_u, u16. apply Z.mod_pos_bound. lia.
    + unfold EncodeDatagram in Eb. rewrite E in Eb. injection Eb as <-. exact Ed.
  - cbn [lookup list_lookup] in Hk. assert (u16 (u16 n + 1) = u16 (n + 1)) as En by (unfold u16; by rewrite Zplus_mod_idemp_l).
    rewrite En in Hk. destruct (IH k Hall (n + 1) Hk) as (c' & ok & Hc' & Hd). exists c', ok. split; [done|].
    by replace (n + Z.of_nat (S k)) with (n + 1 + Z.of_nat k) by lia.
Qed.
