(* ===== verification/CuaLiveBrain.v ===== *)
(** * The live computer-use demo: the model's brain

    [examples/cua-live/live.go]: the conversation with the Messages API, the
    translation of the model's tool calls to actions and of actions to browser
    tasks.

    The HTTP exchange (a function from the history to a response or an error),
    JSON, base64, lower-casing and the browser are arguments. *)

From S2P Require Import Prelude GoText Wire CuaLive.

#[local] Open Scope Z_scope.

Record liveConfig := mkLiveConfig {
  lc_Goal : string; lc_StartURL : string; lc_Model : string; lc_Width : Z; lc_Height : Z }.

(** A content block.  [Source] is the base64 data of an image; the nested
    content of a tool result is a list of blocks. *)
#[warnings="-register-all"]
Inductive apiContent := mkContent {
  co_Type : string;
  co_Text : string;
  co_ID : string;
  co_Name : string;
  co_Input : list byte;
  co_ToolUseID : string;
  co_Content : list apiContent;
  co_Source : option string;
}.

Record apiMessage := mkMessage { msg_Role : string; msg_Content : list apiContent }.
Record apiTool := mkTool { tl_Type : string; tl_Name : string; tl_DisplayWidth : Z; tl_DisplayHeight : Z }.
Record apiRequest := mkApiRequest {
  ar_Model : string; ar_MaxTokens : Z; ar_Tools : list apiTool; ar_Messages : list apiMessage }.
Record apiResponse := mkApiResponse { rp_Content : list apiContent; rp_StopReason : string }.

Definition textContent (t : string) : apiContent := mkContent "text" t "" "" [] "" [] None.

Record liveBrain := mkLiveBrain {
  lb_cfg : liveConfig;
  lb_history : list apiMessage;
  lb_pendingToolUseID : string;
  lb_started : bool;
}.

Definition computerToolTyp : string := "computer_20250124".

(** The arguments of the computer tool. *)
Record toolInput := mkToolInput {
  ti_Action : string; ti_Coordinate : list Z; ti_Text : string;
  ti_ScrollDir : string; ti_ScrollAmt : Z; ti_Duration : Z }.

(** [newLiveBrain] after the browser is up; [None] without a key. *)
Definition newLiveBrain (apiKey : string) (launched : option error) (cfg : liveConfig) : result liveBrain :=
  if bool_decide (apiKey = "") then Err (ErrMsg "ANTHROPIC_API_KEY is not set (required for -live)")
  else
    let goal := if bool_decide (lc_Goal cfg = "")
                then "Explore the page, then summarize what you see in one sentence." else lc_Goal cfg in
    match launched with
    | Some e => Err e
    | None => Ok (mkLiveBrain (mkLiveConfig goal (lc_StartURL cfg) (lc_Model cfg) (lc_Width cfg) (lc_Height cfg)) [] "" false)
    end.

Definition coord (c : list Z) : Z * Z :=
  match c with x :: y :: _ => (x, y) | _ => (0, 0) end.

(** [s[:n]] on bytes. *)
Definition truncate (s : list byte) (n : nat) : list byte :=
  if (length s <=? n)%nat then s else take n s ++ [xe2; x80; xa6].

Section Live.
Context `{HI : JSON toolInput} `{HQ : JSON apiRequest} `{HP : JSON apiResponse}.
Context (ToLower : string -> string) (b64 : list byte -> string).

Definition scrollDelta (dir : string) (amt : Z) : Z * Z :=
  let amt := if amt =? 0 then 3 else amt in
  let px := 100 in
  let d := ToLower dir in
  if decide (d = "up") then (0, - amt * px)
  else if decide (d = "down") then (0, amt * px)
  else if decide (d = "left") then (- amt * px, 0)
  else if decide (d = "right") then (amt * px, 0)
  else (0, amt * px).

Definition toolUseToAction (input : list byte) : option Action :=
  match Unmarshal input with
  | Err _ => None
  | Ok inp =>
      let at_ := ToLower (ti_Action inp) in
      if decide (at_ = "screenshot") then Some (action0 ActionScreenshot)
      else if decide (at_ = "left_click" \/ at_ = "mouse_click") then
        let '(x, y) := coord (ti_Coordinate inp) in Some (mkAction ActionLeftClick x y "" "" 0 0 "" 0)
      else if decide (at_ = "type") then Some (mkAction ActionTypeText 0 0 (ti_Text inp) "" 0 0 "" 0)
      else if decide (at_ = "key") then Some (mkAction ActionKey 0 0 "" (ti_Text inp) 0 0 "" 0)
      else if decide (at_ = "scroll") then
        let '(dx, dy) := scrollDelta (ti_ScrollDir inp) (ti_ScrollAmt inp) in
        let '(x, y) := coord (ti_Coordinate inp) in Some (mkAction ActionScroll x y "" "" dx dy "" 0)
      else if decide (at_ = "wait") then
        let ms := ti_Duration inp * 1000 in
        let ms := if ms =? 0 then 500 else ms in Some (mkAction ActionWait 0 0 "" "" 0 0 "" ms)
      else None
  end.

Definition imageContent (png : list byte) : apiContent := mkContent "image" "" "" "" [] "" [] (Some (b64 png)).

(** [callAPI]: [post] is the HTTP exchange, its status and its body. *)
Definition callAPI (post : list byte -> result (Z * list byte)) (b : liveBrain) : result apiResponse :=
  let reqBody := mkApiRequest (lc_Model (lb_cfg b)) 1024
    [mkTool computerToolTyp "computer" (lc_Width (lb_cfg b)) (lc_Height (lb_cfg b))] (lb_history b) in
  match Marshal reqBody with
  | Err e => Err e
  | Ok raw =>
      match post raw with
      | Err e => Err e
      | Ok (status, body) =>
          if negb (status =? 200) then Err (ErrMsg ("anthropic API " +:+ fmt_d status +:+ ": " +:+ string_of (truncate body 400)))
          else Unmarshal body
      end
  end.

(** The loop over the blocks of a response: the text, the pending identifier
    and the action so far. *)
Definition readBlock (st : list byte * string * option Action) (c : apiContent) : list byte * string * option Action :=
  let '(text, id, act) := st in
  if decide (co_Type c = "text") then (text ++ bytes_of (co_Text c), id, act)
  else if decide (co_Type c = "tool_use") then
    (text, co_ID c, match toolUseToAction (co_Input c) with Some a => Some a | None => act end)
  else st.

Definition userMessage (b : liveBrain) (screenshotPNG : list byte) : apiMessage :=
  if lb_started b
  then mkMessage "user" [mkContent "tool_result" "" "" "" [] (lb_pendingToolUseID b) [imageContent screenshotPNG] None]
  else mkMessage "user" (textContent (lc_Goal (lb_cfg b)) ::
         match screenshotPNG with [] => [] | _ => [imageContent screenshotPNG] end).

Definition liveNextStep (post : list byte -> result (Z * list byte)) (b : liveBrain) (screenshotPNG : list byte)
    : liveBrain * result Step :=
  let b := mkLiveBrain (lb_cfg b) (lb_history b ++ [userMessage b screenshotPNG]) (lb_pendingToolUseID b) true in
  match callAPI post b with
  | Err e => (b, Err e)
  | Ok resp =>
      let '(text, id, act) := foldl readBlock ([], lb_pendingToolUseID b, None) (rp_Content resp) in
      let b := mkLiveBrain (lb_cfg b) (lb_history b ++ [mkMessage "assistant" (rp_Content resp)]) id (lb_started b) in
      let reasoning := string_of (TrimSpace text) in
      let step := match act with
                  | Some a => mkStep reasoning a false
                  | None => mkStep reasoning (action0 ActionScreenshot) true
                  end in
      let done := if bool_decide (rp_StopReason resp = "end_turn") && match act with Some _ => false | None => true end
                  then true else sp_Done step in
      (b, Ok (mkStep (sp_Reasoning step) (sp_Action step) done))
  end.

(** The brain against one API. *)
#[export] Instance liveBrain_Brain (post : list byte -> result (Z * list byte)) : Brain liveBrain := {
  NextStep := liveNextStep post;
  Goal b := lc_Goal (lb_cfg b);
}.

(** ** Actions in the browser *)

Inductive task :=
  | Navigate (url : string)
  | MouseClickXY (x y : Z)
  | KeyEvent (keys : string)
  | Wheel (x y dx dy : Z)
  | Sleep (nanos : Z).

(** What follows the last [+], or the whole key. *)
Fixpoint afterPlus (l : list byte) (acc : list byte) : list byte :=
  match l with
  | [] => acc
  | c :: l' => if decide (c = x2b) then afterPlus l' l' else afterPlus l' acc
  end.

Definition keyChord (key : string) : task :=
  let k := ToLower key in
  if decide (k = "return" \/ k = "enter") then KeyEvent (string_of [x0d])
  else if decide (k = "tab") then KeyEvent (string_of [x09])
  else if decide (k = "backspace") then KeyEvent (string_of [x08])
  else if decide (k = "escape" \/ k = "esc") then KeyEvent (string_of [x1b])
  else KeyEvent (string_of (afterPlus (bytes_of key) (bytes_of key))).

Definition actionTasks (act : Action) : list task :=
  if decide (ac_Type act = ActionNavigate) then [Navigate (ac_URL act)]
  else if decide (ac_Type act = ActionLeftClick) then [MouseClickXY (ac_X act) (ac_Y act)]
  else if decide (ac_Type act = ActionTypeText) then [KeyEvent (ac_Text act)]
  else if decide (ac_Type act = ActionKey) then [keyChord (ac_Key act)]
  else if decide (ac_Type act = ActionScroll) then [Wheel (ac_X act) (ac_Y act) (ac_ScrollX act) (ac_ScrollY act)]
  else if decide (ac_Type act = ActionWait) then
    let d := s64 (u64 (ac_WaitMS act * 1000000)) in
    [Sleep (if d <=? 0 then 300 * 1000000 else d)]
  else [].

(** [liveScreen.Frame]: [run] executes tasks, [capture] takes a screenshot. *)
Definition liveFrame (run : list task -> option error) (capture : result (list byte)) (act : Action) : result (list byte) :=
  match run (actionTasks act) with
  | Some e => Err e
  | None => capture
  end.
End Live.

(** * The conversation *)

Definition toolIDs (l : list apiContent) : list string :=
  omap (fun c => if decide (co_Type c = "tool_use") then Some (co_ID c) else None) l.

Definition texts (l : list apiContent) : list byte :=
  concat (omap (fun c => if decide (co_Type c = "text") then Some (bytes_of (co_Text c)) else None) l).

Section LiveFacts.
Context `{HI : JSON toolInput} `{HQ : JSON apiRequest} `{HP : JSON apiResponse}.
Context (ToLower : string -> string) (b64 : list byte -> string) (post : list byte -> result (Z * list byte)).

(** [s] is what the message [a] of the assistant says and asks for. *)
Definition decided (s : Step) (a : apiMessage) : Prop :=
  msg_Role a = "assistant" /\ sp_Reasoning s = string_of (TrimSpace (texts (msg_Content a))) /\
  exists c, c ∈ msg_Content a /\ co_Type c = "tool_use" /\ toolUseToAction ToLower (co_Input c) = Some (sp_Action s).

(** User and assistant alternate, beginning with the goal; every later message of
    the user is one tool result with one image, for a tool call of the
    assistant's message before it; the steps are those the assistant asked for. *)
Inductive conversation (goal : string) : list Step -> list apiMessage -> Prop :=
  | conv_first s u a :
      msg_Role u = "user" -> head (msg_Content u) = Some (textContent goal) -> decided s a -> conversation goal [s] [u; a]
  | conv_next l h m id png s a :
      conversation goal l (h ++ [m]) -> id ∈ toolIDs (msg_Content m) -> decided s a ->
      conversation goal (l ++ [s])
        (h ++ [m; mkMessage "user" [mkContent "tool_result" "" "" "" [] id [imageContent b64 png] None]; a]).

(** Turns that end without an error and are not the last one. *)
Inductive turns : liveBrain -> list Step -> liveBrain -> Prop :=
  | turns_nil b : turns b [] b
  | turns_cons b b1 b2 shot s l :
      liveNextStep ToLower b64 post b shot = (b1, Ok s) -> sp_Done s = false -> turns b1 l b2 -> turns b (s :: l) b2.

Lemma readBlocks_no_call l : forall text id act text' id' act',
  toolIDs l = [] -> foldl (readBlock ToLower) (text, id, act) l = (text', id', act') -> id' = id.
Proof.
  induction l as [|d l IH]; intros text id act text' id' act' Hn E; [by injection E|]. cbn [foldl] in E. unfold readBlock at 2 in E.
  unfold toolIDs in Hn. cbn [omap list_omap] in Hn. destruct (decide (co_Type d = "tool_use")) as [|Hd]; [done|].
  case_decide; by eapply IH.
Qed.

(** The loop over the blocks: all the text, the identifier of a tool call and the
    action of one, if there was any. *)
Lemma readBlocks_spec l : forall text id act text' id' act',
  foldl (readBlock ToLower) (text, id, act) l = (text', id', act') ->
  text' = text ++ texts l /\ (id' ∈ toolIDs l \/ toolIDs l = []) /\
  (act' = act \/ exists c, c ∈ l /\ co_Type c = "tool_use" /\ toolUseToAction ToLower (co_Input c) = act').
Proof.
  induction l as [|c l IH]; intros text id act text' id' act' E.
  { injection E as <- <- <-. unfold texts. cbn. rewrite app_nil_r. auto. }
  cbn [foldl] in E. unfold toolIDs, texts. cbn [omap list_omap]. unfold readBlock at 2 in E.
  assert (forall act0, act' = act0 \/ (exists c0, c0 ∈ l /\ co_Type c0 = "tool_use" /\ toolUseToAction ToLower (co_Input c0) = act') ->
    act' = act0 \/ exists c0, c0 ∈ c :: l /\ co_Type c0 = "tool_use" /\ toolUseToAction ToLower (co_Input c0) = act') as Hin.
  { intros act0 [?|(c0 & ? & ?)]; [by left|]. right. exists c0. split; [by right|done]. }
  destruct (decide (co_Type c = "text")) as [Ht|Ht].
  { rewrite decide_False by (rewrite Ht; discriminate). apply IH in E as (-> & Hid & Ha). cbn [concat].
    split; [by rewrite <- app_assoc|]. split; [exact Hid|by apply Hin]. }
  destruct (decide (co_Type c = "tool_use")) as [Hu|Hu]; [|apply IH in E as (-> & Hid & Ha); split; [done|]; split; [exact Hid|by apply Hin]].
  pose proof E as E0. apply IH in E as (-> & Hid & Ha). split; [done|]. fold (toolIDs l). split.
  - left. destruct Hid as [Hid|Hid]; [by right|]. assert (id' = co_ID c) as ->; [|by left].
    by eapply readBlocks_no_call.
  - destruct (toolUseToAction ToLower (co_Input c)) as [a|] eqn:Ea; [|by apply Hin].
    apply Hin in Ha as [->|Ha]; [|by right]. right. exists c. split; [by left|done].
Qed.

(** What a turn that is not the last one adds to the history. *)
Lemma turn_history b b1 shot s :
  liveNextStep ToLower b64 post b shot = (b1, Ok s) -> sp_Done s = false ->
  exists a, lb_history b1 = lb_history b ++ [userMessage b64 b shot; a] /\ decided s a /\
    lb_pendingToolUseID b1 ∈ toolIDs (msg_Content a) /\ lb_started b1 = true /\ lb_cfg b1 = lb_cfg b.
Proof.
  unfold liveNextStep. set (b0 := mkLiveBrain _ _ _ true).
  destruct (callAPI post b0) as [resp|e] eqn:Ec; [|discriminate].
  destruct (foldl (readBlock ToLower) _ _) as [[text id] act] eqn:Ef.
  destruct (readBlocks_spec _ _ _ _ _ _ _ Ef) as (-> & Hid & Hact). intros [= <- <-] Hd. cbn [sp_Done] in Hd.
  exists (mkMessage "assistant" (rp_Content resp)). unfold b0. cbn [lb_history lb_pendingToolUseID lb_started lb_cfg msg_Content].
  rewrite <- app_assoc. destruct act as [act|]; [|cbn in Hd; destruct (bool_decide _); discriminate].
  destruct Hact as [?|(c & Hc & Ht & Ha)]; [done|]. split; [done|]. split; [|split; [|done]].
  - split; [done|]. split; [done|]. by exists c.
  - destruct Hid as [Hid|Hid]; [done|]. exfalso. assert (co_ID c ∈ toolIDs (rp_Content resp)) as Hin.
    { unfold toolIDs. apply list_elem_of_omap. exists c. split; [done|]. by rewrite decide_True. }
    rewrite Hid in Hin. by apply elem_of_nil in Hin.
Qed.

(** The brain between two turns, after the steps [l]. *)
Definition between (goal : string) (l : list Step) (b : liveBrain) : Prop :=
  lb_started b = true /\ conversation goal l (lb_history b) /\
  exists h m, lb_history b = h ++ [m] /\ lb_pendingToolUseID b ∈ toolIDs (msg_Content m).

Lemma turns_between goal l0 b l b' : turns b l b' -> between goal l0 b -> between goal (l0 ++ l) b'.
Proof.
  intros Ht. revert l0. induction Ht as [b|b b1 b2 shot s l E Hd Ht IH]; intros l0 Hb; [by rewrite app_nil_r|].
  rewrite (cons_middle s l0 l), app_assoc. apply IH. destruct Hb as (Hs & Hc & h & m & Hh & Hm).
  destruct (turn_history b b1 shot s E Hd) as (a & Eh & Ha & Hid & Hst & _). unfold userMessage in Eh. rewrite Hs in Eh.
  split; [done|]. split.
  - rewrite Eh, Hh, <- app_assoc. cbn [app]. apply conv_next; [by rewrite <- Hh|done|done].
  - rewrite Eh. exists (lb_history b ++ [userMessage b64 b shot]), a. unfold userMessage. rewrite Hs, <- app_assoc. done.
Qed.

Lemma turns_first b s l b' :
  turns b (s :: l) b' -> lb_started b = false -> lb_history b = [] -> between (lc_Goal (lb_cfg b)) (s :: l) b'.
Proof.
  intros Ht Hs Hh. inversion Ht as [|? b1 ? shot ? ? E Hd Ht']; subst. apply (turns_between _ [s] b1 l b' Ht').
  destruct (turn_history b b1 shot s E Hd) as (a & Eh & Ha & Hid & Hst & _). rewrite Hh in Eh. cbn [app] in Eh. split; [done|]. rewrite Eh. split.
  - apply conv_first; unfold userMessage; rewrite ?Hs; done.
  - by exists [userMessage b64 b shot], a.
Qed.
End LiveFacts.

(** C39: whatever the API answers, the conversation the live brain keeps is well
    formed after every turn that does not end the session: it begins with the
    goal, user and assistant alternate, each later message of the user is one
    tool result with one image, for a tool call of the response before it, and so
    will be the next one; and the step of each turn has the text of its response
    and the action of one of its tool calls. *)
Theorem conversation_paired `{HI : JSON toolInput} `{HQ : JSON apiRequest} `{HP : JSON apiResponse}
    ToLower b64 post key cfg b steps b' :
  newLiveBrain key None cfg = Ok b -> turns ToLower b64 post b steps b' -> steps <> [] ->
  conversation ToLower b64 (lc_Goal (lb_cfg b)) steps (lb_history b') /\
  exists h m, lb_history b' = h ++ [m] /\ lb_pendingToolUseID b' ∈ toolIDs (msg_Content m).
Proof.
  intros Hb Ht Hne. destruct steps as [|s l]; [done|].
  assert (lb_started b = false /\ lb_history b = []) as [Hs Hh].
  { unfold newLiveBrain in Hb. destruct (bool_decide (key = "")); [done|]. by injection Hb as <-. }
  by apply (turns_first _ _ _ _ _ _ _ Ht Hs Hh).
Qed.

Module LiveBrainDemo.
#[export] Instance demo_input : JSON toolInput :=
  {| Marshal _ := Ok []; Unmarshal l := Ok (mkToolInput (string_of l) [3; 4] "" "" 0 0) |}.
#[export] Instance demo_request : JSON apiRequest := {| Marshal r := Ok [byte_of_Z (zlen (ar_Messages r))]; Unmarshal _ := Err EOF |}.

Definition call (id : string) (act : string) : apiContent := mkContent "tool_use" "" id "computer" (bytes_of act) "" [] None.
(** The response to the n-th request clicks, with a fresh identifier. *)
#[export] Instance demo_response : JSON apiResponse :=
  {| Marshal _ := Ok []; Unmarshal l := Ok (mkApiResponse [textContent "ok"; call (string_of l) "left_click"] "tool_use") |}.

Definition demo_cfg : liveConfig := mkLiveConfig "find it" "u" "m" 1024 640.
Definition demo_post (raw : list byte) : result (Z * list byte) := Ok (200, raw).
Definition demo_brain : liveBrain := mkLiveBrain demo_cfg [] "" false.

Lemma conversation_paired_witness :
  exists steps b', conversation (fun s => s) (fun _ => "png") "find it" steps (lb_history b') /\ length (lb_history b') = 4%nat.
Proof.
  eexists _, _. split.
  - refine (proj1 (conversation_paired (fun s => s) (fun _ => "png") demo_post "sk" demo_cfg demo_brain _ _ eq_refl _ _)).
    + eapply (turns_cons _ _ _ _ _ _ [] _); [vm_compute; reflexivity|reflexivity|].
      eapply (turns_cons _ _ _ _ _ _ [x01] _); [vm_compute; reflexivity|reflexivity|]. apply turns_nil.
    + discriminate.
  - vm_compute. reflexivity.
Defined.
End LiveBrainDemo.

(** ** Where the brain differs from its documentation *)

Section LiveDiffers.
Context `{HI : JSON toolInput} `{HQ : JSON apiRequest} `{HP : JSON apiResponse}.
Context (ToLower : string -> string) (b64 : list byte -> string).

Lemma readBlock_tool text id act c :
  co_Type c = "tool_use" ->
  readBlock ToLower (text, id, act) c =
    (text, co_ID c, match toolUseToAction ToLower (co_Input c) with Some a => Some a | None => act end).
Proof. intros Ht. unfold readBlock. rewrite decide_False by (rewrite Ht; discriminate). by rewrite decide_True. Qed.

(** A tool call the demo does not model ends the session: the documentation of
    [toolUseToAction] says the loop takes it as a screenshot and goes on. *)
Theorem unmodelled_call_ends post b shot resp c b' s :
  callAPI post (mkLiveBrain (lb_cfg b) (lb_history b ++ [userMessage b64 b shot]) (lb_pendingToolUseID b) true) = Ok resp ->
  rp_Content resp = [c] -> co_Type c = "tool_use" -> toolUseToAction ToLower (co_Input c) = None ->
  liveNextStep ToLower b64 post b shot = (b', s) ->
  exists reasoning, s = Ok (mkStep reasoning (action0 ActionScreenshot) true).
Proof.
  intros Hc Hl Ht Ha. unfold liveNextStep. rewrite Hc, Hl. cbn [foldl]. rewrite readBlock_tool, Ha by done.
  intros [= <- <-]. eexists. cbn. by destruct (bool_decide _).
Qed.

(** When a response holds a call the demo models and then one it does not, the
    first one's action is executed and its result sent under the identifier of
    the second. *)
Theorem result_under_wrong_call text c1 c2 act :
  co_Type c1 = "tool_use" -> co_Type c2 = "tool_use" ->
  toolUseToAction ToLower (co_Input c1) = Some act -> toolUseToAction ToLower (co_Input c2) = None ->
  foldl (readBlock ToLower) (text, "", None) [c1; c2] = (text, co_ID c2, Some act).
Proof.
  intros H1 H2 A1 A2. cbn [foldl]. by rewrite !readBlock_tool, A1, A2.
Qed.

(** Every action the model can ask for is executed by one browser task, but a
    screenshot, which needs none; a wait sleeps for a positive time. *)
Theorem action_has_task input act :
  toolUseToAction ToLower input = Some act ->
  (ac_Type act = ActionScreenshot /\ actionTasks ToLower act = []) \/
  exists t, actionTasks ToLower act = [t] /\ match t with Sleep d => 0 < d | _ => True end.
Proof.
  unfold toolUseToAction. destruct (Unmarshal input) as [inp|]; [|done]. cbv zeta.
  assert (forall k, match keyChord ToLower k with Sleep d => 0 < d | _ => True end) as Hk.
  { intros k. unfold keyChord. repeat case_decide; done. }
  case_decide; [intros [= <-]; by left|]. case_decide.
  { destruct (coord _). intros [= <-]. right. by eexists. }
  case_decide; [intros [= <-]; right; by eexists|]. case_decide; [intros [= <-]; right; eexists; split; [reflexivity|apply Hk]|].
  case_decide. { destruct (scrollDelta _ _ _), (coord _). intros [= <-]. right. by eexists. }
  case_decide; [|done]. intros [= <-]. right. eexists. split; [reflexivity|].
  destruct (s64 _ <=? 0) eqn:E; lia.
Qed.
End LiveDiffers.
