(* ===== verification/Paint.v ===== *)
(** * Painting frames

    The painters of the examples, on the pixels of an [image.NRGBA]:
    [fillRect], [setPx] and the browser window of [examples/cua-live/fake.go],
    and the bands of [examples/internal/synframe].

    [Pix] is the slice of channel values, four per pixel, row by row.  Reading
    or writing it out of range is a panic, [None]. *)

From Stdlib Require Import Floats.SpecFloat.
From S2P Require Import Prelude RateLimit KindStats GoText Wire Track Replay Record CuaLive.

#[local] Open Scope Z_scope.

Record nrgba := mkNRGBA { im_w : Z; im_h : Z; im_pix : list Z }.

Definition NewNRGBA (w h : Z) : nrgba := mkNRGBA w h (repeat 0 (Z.to_nat (4 * w * h))).

Definition colour : Type := Z * Z * Z * Z.
Definition PixOffset (w x y : Z) : Z := y * (4 * w) + x * 4.

(** [Pix[off+0] = R; ...; Pix[off+3] = A]. *)
Definition write4 (off : Z) (c : colour) (pix : list Z) : option (list Z) :=
  let '(r, g, b, a) := c in
  if (0 <=? off) && (off + 3 <? zlen pix)
  then Some (<[Z.to_nat (off + 3) := a]> (<[Z.to_nat (off + 2) := b]>
             (<[Z.to_nat (off + 1) := g]> (<[Z.to_nat off := r]> pix))))
  else None.

(** [for x := x0; x < x0+n; x++] on the row that starts at [base], a slice of
    [4*w] values. *)
Fixpoint fillRow (n : nat) (x base w : Z) (c : colour) (pix : list Z) : option (list Z) :=
  match n with
  | O => Some pix
  | S n' =>
      if (0 <=? x * 4) && (x * 4 + 3 <? 4 * w)
      then pix ← write4 (base + x * 4) c pix; fillRow n' (x + 1) base w c pix
      else None
  end.

Fixpoint fillRows (n : nat) (y x0 x1 w : Z) (c : colour) (pix : list Z) : option (list Z) :=
  match n with
  | O => Some pix
  | S n' =>
      let base := PixOffset w 0 y in
      if (0 <=? base) && (base + w * 4 <=? zlen pix)
      then pix ← fillRow (Z.to_nat (x1 - x0)) x0 base w c pix; fillRows n' (y + 1) x0 x1 w c pix
      else None
  end.

Definition fillRect (x0 y0 x1 y1 : Z) (c : colour) (img : nrgba) : option nrgba :=
  let x0 := if x0 <? 0 then 0 else x0 in
  let y0 := if y0 <? 0 then 0 else y0 in
  let x1 := if x1 >? im_w img then im_w img else x1 in
  let y1 := if y1 >? im_h img then im_h img else y1 in
  pix ← fillRows (Z.to_nat (y1 - y0)) y0 x0 x1 (im_w img) c (im_pix img);
  Some (mkNRGBA (im_w img) (im_h img) pix).

Definition setPx (x y : Z) (c : colour) (img : nrgba) : option nrgba :=
  if (x <? 0) || (y <? 0) || (x >=? im_w img) || (y >=? im_h img) then Some img
  else pix ← write4 (PixOffset (im_w img) x y) c (im_pix img); Some (mkNRGBA (im_w img) (im_h img) pix).

(** A sequence of painting calls. *)
Definition paintAll (ops : list (nrgba -> option nrgba)) (img : nrgba) : option nrgba :=
  foldl (fun o op => img ← o; op img) (Some img) ops.

(** ** The browser window *)

Definition chromeBarH : Z := 48.

(** [trigTable], [cosDeg] and [sinDeg]: cosine and sine times a hundred. *)
Definition trigEntry (d : Z) : Z * Z :=
  let q := Z.rem d 90 in
  let cosQ := 100 - Z.quot (q * q) 81 in
  let sinQ := 100 - Z.quot ((90 - q) * (90 - q)) 81 in
  let s := Z.quot d 90 in
  if s =? 0 then (cosQ, sinQ) else if s =? 1 then (- sinQ, cosQ) else if s =? 2 then (- cosQ, - sinQ) else (sinQ, - cosQ).

Definition trigTable : list (Z * Z) := trigEntry <$> seqZ 0 360.

Definition trigIndex (deg : Z) : Z := Z.rem (Z.rem deg 360 + 360) 360.
Definition cosDeg (deg : Z) : option Z := fst <$> trigTable !! Z.to_nat (trigIndex deg).
Definition sinDeg (deg : Z) : option Z := snd <$> trigTable !! Z.to_nat (trigIndex deg).

Definition crossColour : colour := (235, 70, 70, 255).

Definition ringPixel (cx cy r a : Z) (img : nrgba) : option nrgba :=
  c ← cosDeg a;
  s ← sinDeg a;
  setPx (cx + Z.quot (r * c) 100) (cy + Z.quot (r * s) 100) crossColour img.

Definition paintCrosshair (cx cy : Z) : nrgba -> option nrgba :=
  paintAll
    ((d ← seqZ (-10) 21; [setPx (cx + d) cy crossColour; setPx cx (cy + d) crossColour])
     ++ (r ← [8; 9]; k ← seqZ 0 60; [ringPixel cx cy r (6 * k)])).

Definition paintField (x0 y0 x1 y1 : Z) (filled : bool) : nrgba -> option nrgba :=
  paintAll ([fillRect x0 y0 x1 y1 (200, 206, 214, 255);
             fillRect (x0 + 2) (y0 + 2) (x1 - 2) (y1 - 2) (248, 250, 252, 255)]
            ++ if filled then [fillRect (x0 + 8) (y0 + 10) (x0 + 8 + 140) (y1 - 10) (60, 70, 84, 255)] else []).

Definition paintLoginForm (w : Z) (act : Action) : nrgba -> option nrgba :=
  let cardX0 := Z.quot w 2 - 160 in
  let cardX1 := Z.quot w 2 + 160 in
  let typing := bool_decide (ac_Type act = ActionTypeText) && negb (bool_decide (ac_Text act = "")) in
  let typingEmail := typing && bool_decide (ac_Text act = "agent@demo.example") in
  let emailY := chromeBarH + 78 in
  let pwY := chromeBarH + 128 in
  paintAll [
    fillRect cardX0 (chromeBarH + 24) cardX1 (chromeBarH + 24 + 220) (255, 255, 255, 255);
    fillRect cardX0 (chromeBarH + 24) cardX1 (chromeBarH + 24 + 8) (90, 150, 230, 255);
    paintField (cardX0 + 24) emailY (cardX1 - 24) (emailY + 30) typingEmail;
    paintField (cardX0 + 24) pwY (cardX1 - 24) (pwY + 30) (typing && negb typingEmail);
    fillRect (cardX0 + 24) (chromeBarH + 178) (cardX1 - 24) (chromeBarH + 178 + 34) (70, 130, 220, 255)].

Definition paintDashboard (w h : Z) : nrgba -> option nrgba :=
  paintAll ([
    fillRect 0 chromeBarH 120 h (28, 34, 46, 255);
    fillRect 160 (chromeBarH + 40) (w - 40) (chromeBarH + 40 + 120) (255, 255, 255, 255);
    fillRect 160 (chromeBarH + 40) (w - 40) (chromeBarH + 40 + 10) (90, 200, 130, 255);
    fillRect 184 (chromeBarH + 96) 380 (chromeBarH + 96 + 28) (40, 48, 60, 255)]
    ++ ((fun i => let y := chromeBarH + 200 + i * 40 in fillRect 160 y (w - 40) (y + 24) (230, 234, 240, 255)) <$> [0; 1])).

Definition trafficLights : list colour := [(235, 90, 80, 255); (240, 190, 70, 255); (90, 200, 110, 255)].

(** [(stepIdx*73 + 40) % w] panics on an empty image. *)
Definition progressBar (w h stepIdx : Z) (img : nrgba) : option nrgba :=
  if w =? 0 then None
  else fillRect 0 (h - 6) (Z.rem (stepIdx * 73 + 40) w) h (90, 150, 230, 255) img.

(** The page: background, chrome bar, lights, address bar and the step's body. *)
Definition paintPage (w h stepIdx : Z) (act : Action) (keyframe : bool) : list (nrgba -> option nrgba) :=
  [fillRect 0 0 w h (if keyframe then (250, 252, 255, 255) else (244, 246, 250, 255));
   fillRect 0 0 w chromeBarH (36, 42, 54, 255)]
  ++ imap (fun i c => let cx := 16 + Z.of_nat i * 22 in fillRect cx 18 (cx + 12) 30 c) trafficLights
  ++ [fillRect 84 12 (w - 16) 36 (58, 66, 80, 255);
      if bool_decide (ac_Type act = ActionScroll) || (7 <=? stepIdx) then paintDashboard w h else paintLoginForm w act].

Definition paintBrowser (stepIdx : Z) (act : Action) (keyframe : bool) (img : nrgba) : option nrgba :=
  let w := im_w img in
  let h := im_h img in
  paintAll (paintPage w h stepIdx act keyframe
    ++ (if bool_decide (ac_Type act = ActionLeftClick) then [paintCrosshair (ac_X act) (ac_Y act)] else [])
    ++ [progressBar w h stepIdx]) img.

(** [FakeBrain.Frame]: [encode] is the PNG encoder. *)
Definition fakeFrame (encode : nrgba -> result (list byte)) (step : nat) (act : Action) (keyframe : bool) (img : nrgba)
    : option (nrgba * result (list byte)) :=
  img ← paintBrowser (Z.of_nat step) act keyframe img;
  Some (img, encode img).

(** ** The bands of synframe *)

Definition bandColour (thirds y : Z) : Z * Z * Z :=
  if y <? thirds then (32, 120, 200) else if y <? 2 * thirds then (200, 140, 32) else (180, 60, 160).

(** [int(seq)], [int(seq*2)] on a [uint32]; the width is not zero. *)
Definition bandPhase (w seq thirds y : Z) : Z :=
  if y <? thirds then Z.rem seq w
  else if y <? 2 * thirds then Z.rem (w - Z.rem (u32 (seq * 2)) w) w
  else Z.rem (w - Z.rem seq w) w.

(** The brightness of column [x]: one at the phase, zero half a width away. *)
Definition bandScale (w phase x : Z) : spec_float :=
  let d := x - phase in
  let d := if d <? 0 then - d else d in
  let d := if d >? Z.quot w 2 then w - d else d in
  let scale := fsub (float64 1) (fdiv (float64 d) (float64 (Z.quot w 2))) in
  if flt scale fzero then fzero else scale.

Definition bandChannel (base boost : Z) (scale : spec_float) : Z :=
  u8 (u8 (ftrunc (fmul (float64 base) scale)) + Z.quot boost 2).

Fixpoint paintBandRow (n : nat) (x base w phase boost : Z) (rgb : Z * Z * Z) (pix : list Z) : option (list Z) :=
  match n with
  | O => Some pix
  | S n' =>
      let '(r, g, b) := rgb in
      let s := bandScale w phase x in
      if (0 <=? x * 4) && (x * 4 + 3 <? 4 * w)
      then pix ← write4 (base + x * 4) (bandChannel r boost s, bandChannel g boost s, bandChannel b boost s, 255) pix;
           paintBandRow n' (x + 1) base w phase boost rgb pix
      else None
  end.

Fixpoint paintBands (n : nat) (y w seq thirds boost : Z) (pix : list Z) : option (list Z) :=
  match n with
  | O => Some pix
  | S n' =>
      let base := PixOffset w 0 y in
      if (0 <=? base) && (base + w * 4 <=? zlen pix)
      then pix ← paintBandRow (Z.to_nat w) 0 base w (bandPhase w seq thirds y) boost (bandColour thirds y) pix;
           paintBands n' (y + 1) w seq thirds boost pix
      else None
  end.

Fixpoint paintTick (n : nat) (y w tickX : Z) (pix : list Z) : option (list Z) :=
  match n with
  | O => Some pix
  | S n' => pix ← write4 (PixOffset w tickX y) (230, 230, 230, 255) pix; paintTick n' (y + 1) w tickX pix
  end.

(** [paint]; an image without columns but with rows panics on the division. *)
Definition paint (seq : Z) (keyframe : bool) (img : nrgba) : option nrgba :=
  let w := im_w img in
  let h := im_h img in
  let boost := if keyframe then 32 else 0 in
  if w =? 0 then None
  else
    pix ← paintBands (Z.to_nat h) 0 w seq (Z.quot h 3) boost (im_pix img);
    pix ← paintTick (Z.to_nat h) 0 w (Z.rem seq w) pix;
    Some (mkNRGBA w h pix).

(** * No painter leaves the image *)

Record img_ok (img : nrgba) : Prop := {
  io_w : 0 <= im_w img; io_h : 0 <= im_h img; io_pix : zlen (im_pix img) = 4 * (im_w img * im_h img) }.

(** A painting call that neither panics nor changes the image's size. *)
Definition safe (op : nrgba -> option nrgba) : Prop :=
  forall img, img_ok img ->
    exists img', op img = Some img' /\ img_ok img' /\ im_w img' = im_w img /\ im_h img' = im_h img.

Lemma zlen_insert {A} i (x : A) l : zlen (<[i := x]> l) = zlen l.
Proof. unfold zlen. by rewrite length_insert. Qed.

Lemma write4_some off c pix : 0 <= off -> off + 3 < zlen pix -> exists pix', write4 off c pix = Some pix' /\ zlen pix' = zlen pix.
Proof.
  intros H1 H2. unfold write4. destruct c as [[[r g] b] a]. destruct (_ && _) eqn:E; [|lia].
  eexists. split; [done|]. by rewrite !zlen_insert.
Qed.

Lemma fillRow_some n x base w c pix :
  0 <= x -> x + Z.of_nat n <= w -> 0 <= base -> base + 4 * w <= zlen pix ->
  exists pix', fillRow n x base w c pix = Some pix' /\ zlen pix' = zlen pix.
Proof.
  revert x pix; induction n as [|n IH]; intros x pix Hx Hn Hb Hl; cbn [fillRow]; [by eexists|].
  destruct (_ && _) eqn:E; [|lia].
  destruct (write4_some (base + x * 4) c pix) as (pix1 & -> & Hl1); [lia|lia|]. cbn [mbind option_bind].
  destruct (IH (x + 1) pix1) as (pix' & -> & Hl'); [lia..|]. exists pix'. split; [done|lia].
Qed.

Lemma row_fits w h y len : 0 <= w -> 0 <= y < h -> len = 4 * (w * h) ->
  0 <= PixOffset w 0 y /\ PixOffset w 0 y + w * 4 <= len.
Proof. unfold PixOffset. intros. nia. Qed.

Lemma fillRows_some n y x0 x1 w h c pix :
  0 <= w -> 0 <= x0 -> x1 <= w -> 0 <= y -> y + Z.of_nat n <= h -> zlen pix = 4 * (w * h) ->
  exists pix', fillRows n y x0 x1 w c pix = Some pix' /\ zlen pix' = zlen pix.
Proof.
  revert y pix; induction n as [|n IH]; intros y pix Hw H0 H1 Hy Hn Hl; cbn [fillRows]; [by eexists|].
  destruct (row_fits w h y (zlen pix)) as [R1 R2]; [lia..|]. destruct (_ && _) eqn:E; [|lia].
  destruct (decide (x0 <= x1)) as [Hx|Hx].
  - destruct (fillRow_some (Z.to_nat (x1 - x0)) x0 (PixOffset w 0 y) w c pix) as (pix1 & -> & Hl1); [lia..|].
    cbn [mbind option_bind]. destruct (IH (y + 1) pix1) as (pix' & -> & Hl'); [lia..|]. exists pix'. split; [done|lia].
  - replace (Z.to_nat (x1 - x0)) with 0%nat by lia. cbn [fillRow mbind option_bind]. apply IH; lia.
Qed.

Lemma fillRect_safe x0 y0 x1 y1 c : safe (fillRect x0 y0 x1 y1 c).
Proof.
  intros [w h pix] [Hw Hh Hp]. cbn [im_w im_h im_pix] in *. unfold fillRect. cbn [im_w im_h im_pix].
  set (X0 := if x0 <? 0 then 0 else x0). set (Y0 := if y0 <? 0 then 0 else y0).
  set (X1 := if x1 >? w then w else x1). set (Y1 := if y1 >? h then h else y1).
  assert (0 <= X0 /\ 0 <= Y0 /\ X1 <= w /\ Y1 <= h) as (? & ? & ? & ?) by (unfold X0, Y0, X1, Y1; split_ifs; lia).
  destruct (decide (Y0 <= Y1)) as [Hy|Hy].
  - destruct (fillRows_some (Z.to_nat (Y1 - Y0)) Y0 X0 X1 w h c pix) as (pix' & -> & Hl); [lia..|].
    eexists. split; [done|]. split; [split; cbn; lia|done].
  - replace (Z.to_nat (Y1 - Y0)) with 0%nat by lia. eexists. split; [done|]. split; [by split|done].
Qed.

Lemma setPx_safe x y c : safe (setPx x y c).
Proof.
  intros [w h pix] [Hw Hh Hp]. cbn [im_w im_h im_pix] in *. unfold setPx. cbn [im_w im_h im_pix].
  destruct (_ || _ || _ || _) eqn:E; [eexists; split; [done|]; split; [by split|done]|].
  destruct (write4_some (PixOffset w x y) c pix) as (pix' & -> & Hl); [unfold PixOffset; nia|unfold PixOffset; nia|].
  eexists. split; [done|]. split; [split; cbn; lia|done].
Qed.

Lemma paintAll_safe ops : Forall safe ops -> safe (paintAll ops).
Proof.
  unfold paintAll. induction ops as [|op ops IH] using rev_ind; intros H.
  - intros img Hi. eexists. split; [done|]. by split.
  - apply Forall_app in H as [H Hop]. apply Forall_cons in Hop as [Hop _].
    intros img Hi. rewrite foldl_app. destruct (IH H img Hi) as (img1 & -> & Hi1 & Hw1 & Hh1).
    cbn [foldl mbind option_bind]. destruct (Hop img1 Hi1) as (img2 & -> & Hi2 & Hw2 & Hh2).
    exists img2. split; [done|]. split; [done|]. split; congruence.
Qed.

#[export] Hint Resolve fillRect_safe setPx_safe : quicrtc.
#[export] Hint Resolve Forall_nil_2 Forall_cons_2 : quicrtc.

Lemma trig_defined a : exists c s, cosDeg a = Some c /\ sinDeg a = Some s.
Proof.
  unfold cosDeg, sinDeg. destruct (lookup_lt_is_Some_2 trigTable (Z.to_nat (trigIndex a))) as [[c s] ->].
  - change (length trigTable) with 360%nat. unfold trigIndex. Z.to_euclidean_division_equations. lia.
  - by exists c, s.
Qed.

Lemma ringPixel_safe cx cy r a : safe (ringPixel cx cy r a).
Proof.
  intros img Hi. unfold ringPixel. destruct (trig_defined a) as (c & s & -> & ->). cbn [mbind option_bind]. by apply setPx_safe.
Qed.

Lemma paintCrosshair_safe cx cy : safe (paintCrosshair cx cy).
Proof.
  apply paintAll_safe, Forall_app. split.
  - apply Forall_forall. intros op Hop. apply list_elem_of_bind in Hop as (d & Hop & _).
    repeat (apply elem_of_cons in Hop as [->|Hop]; [auto with quicrtc|]). by apply elem_of_nil in Hop.
  - apply Forall_forall. intros op Hop. apply list_elem_of_bind in Hop as (r & Hop & _).
    apply list_elem_of_bind in Hop as (k & Hop & _). apply list_elem_of_singleton in Hop as ->. apply ringPixel_safe.
Qed.

Lemma paintField_safe x0 y0 x1 y1 filled : safe (paintField x0 y0 x1 y1 filled).
Proof. apply paintAll_safe. destruct filled; cbn [app]; auto with quicrtc. Qed.

Lemma paintLoginForm_safe w act : safe (paintLoginForm w act).
Proof. apply paintAll_safe. repeat (apply Forall_cons_2; [auto using paintField_safe with quicrtc|]). constructor. Qed.

Lemma paintDashboard_safe w h : safe (paintDashboard w h).
Proof. apply paintAll_safe. cbn [fmap list_fmap app]. auto 8 with quicrtc. Qed.

Lemma paintBandRow_some n x base w phase boost rgb pix :
  0 <= x -> x + Z.of_nat n <= w -> 0 <= base -> base + 4 * w <= zlen pix ->
  exists pix', paintBandRow n x base w phase boost rgb pix = Some pix' /\ zlen pix' = zlen pix.
Proof.
  revert x pix; induction n as [|n IH]; intros x pix Hx Hn Hb Hl; cbn [paintBandRow]; [by eexists|].
  destruct rgb as [[r g] b]. cbv zeta. destruct (_ && _) eqn:E; [|lia].
  edestruct (write4_some (base + x * 4)) as (pix1 & -> & Hl1); [lia| |]; [lia|]. cbn [mbind option_bind].
  destruct (IH (x + 1) pix1) as (pix' & E' & Hl'); [lia..|]. exists pix'. split; [exact E'|lia].
Qed.

Lemma paintBands_some n y w h seq thirds boost pix :
  0 <= w -> 0 <= y -> y + Z.of_nat n <= h -> zlen pix = 4 * (w * h) ->
  exists pix', paintBands n y w seq thirds boost pix = Some pix' /\ zlen pix' = zlen pix.
Proof.
  revert y pix; induction n as [|n IH]; intros y pix Hw Hy Hn Hl; cbn [paintBands]; [by eexists|].
  destruct (row_fits w h y (zlen pix)) as [R1 R2]; [lia..|]. destruct (_ && _) eqn:E; [|lia].
  destruct (paintBandRow_some (Z.to_nat w) 0 (PixOffset w 0 y) w (bandPhase w seq thirds y) boost (bandColour thirds y) pix)
    as (pix1 & -> & Hl1); [lia..|].
  cbn [mbind option_bind]. destruct (IH (y + 1) pix1) as (pix' & -> & Hl'); [lia..|]. exists pix'. split; [done|lia].
Qed.

Lemma paintTick_some n y w h tickX pix :
  0 <= tickX < w -> 0 <= y -> y + Z.of_nat n <= h -> zlen pix = 4 * (w * h) ->
  exists pix', paintTick n y w tickX pix = Some pix' /\ zlen pix' = zlen pix.
Proof.
  revert y pix; induction n as [|n IH]; intros y pix Hx Hy Hn Hl; cbn [paintTick]; [by eexists|].
  edestruct (write4_some (PixOffset w tickX y)) as (pix1 & -> & Hl1); [unfold PixOffset; nia| |]; [unfold PixOffset; nia|].
  cbn [mbind option_bind]. destruct (IH (y + 1) pix1) as (pix' & -> & Hl'); [lia..|]. exists pix'. split; [done|lia].
Qed.

(** ** What is painted *)

(** The pixel at [(x, y)]. *)
Definition read4 (off : Z) (pix : list Z) : option colour :=
  r ← pix !! Z.to_nat off; g ← pix !! Z.to_nat (off + 1); b ← pix !! Z.to_nat (off + 2); a ← pix !! Z.to_nat (off + 3);
  Some (r, g, b, a).
Definition pixelAt (img : nrgba) (x y : Z) : option colour := read4 (PixOffset (im_w img) x y) (im_pix img).

Lemma read_write4 off off' c pix pix' :
  0 <= off' -> off mod 4 = 0 -> off' mod 4 = 0 -> write4 off c pix = Some pix' ->
  read4 off' pix' = if decide (off' = off) then Some c else read4 off' pix.
Proof.
  intros H0 Hm Hm'. unfold write4. destruct c as [[[r g] b] a]. destruct (_ && _) eqn:E; [|done]. intros [= <-].
  assert (0 <= off /\ off + 3 < zlen pix) as [Ho Hl] by lia. unfold zlen in Hl. unfold read4.
  case_decide as Hd; [subst off'|].
  - set (L := <[Z.to_nat (off + 3) := a]> _).
    assert (L !! Z.to_nat off = Some r) as -> by
      (unfold L; do 3 (rewrite list_lookup_insert_ne by lia); apply list_lookup_insert_eq; lia).
    assert (L !! Z.to_nat (off + 1) = Some g) as -> by
      (unfold L; do 2 (rewrite list_lookup_insert_ne by lia); apply list_lookup_insert_eq; rewrite ?length_insert; lia).
    assert (L !! Z.to_nat (off + 2) = Some b) as -> by
      (unfold L; rewrite list_lookup_insert_ne by lia; apply list_lookup_insert_eq; rewrite ?length_insert; lia).
    assert (L !! Z.to_nat (off + 3) = Some a) as -> by (unfold L; apply list_lookup_insert_eq; rewrite ?length_insert; lia).
    done.
  - assert (forall i j, 0 <= i < 4 -> 0 <= j < 4 -> off' + i <> off + j) as Hne
      by (intros i j Hi Hj; Z.to_euclidean_division_equations; lia).
    assert (forall i, 0 <= i < 4 -> (<[Z.to_nat (off + 3):=a]> (<[Z.to_nat (off + 2):=b]>
       (<[Z.to_nat (off + 1):=g]> (<[Z.to_nat off:=r]> pix)))) !! Z.to_nat (off' + i) = pix !! Z.to_nat (off' + i)) as Hrd.
    { intros i Hi. rewrite !list_lookup_insert_ne; [done|..].
      all: pose proof (Hne i 0 Hi ltac:(lia)); pose proof (Hne i 1 Hi ltac:(lia)); pose proof (Hne i 2 Hi ltac:(lia));
           pose proof (Hne i 3 Hi ltac:(lia)); lia. }
    rewrite (Hrd 1), (Hrd 2), (Hrd 3) by lia. pose proof (Hrd 0 ltac:(lia)) as H1. rewrite Z.add_0_r in H1. by rewrite H1.
Qed.

Lemma PixOffset_mod4 w x y : PixOffset w x y mod 4 = 0.
Proof. unfold PixOffset. replace (y * (4 * w) + x * 4) with ((y * w + x) * 4) by lia. by apply Z.mod_mul. Qed.

(** Pixels of the image have offsets of their own. *)
Lemma PixOffset_inj w x y x' y' : 0 <= x < w -> 0 <= x' < w -> PixOffset w x y = PixOffset w x' y' -> x = x' /\ y = y'.
Proof. unfold PixOffset. intros. assert (y = y') by nia. subst y'. split; [lia|done]. Qed.

Lemma fillRow_pixels n x base w c pix pix' o :
  base mod 4 = 0 -> 0 <= o -> o mod 4 = 0 -> fillRow n x base w c pix = Some pix' ->
  read4 o pix' = if decide (base + 4 * x <= o < base + 4 * (x + Z.of_nat n)) then Some c else read4 o pix.
Proof.
  intros Hb Ho Hm. revert x pix; induction n as [|n IH]; intros x pix E; cbn [fillRow] in E.
  { injection E as <-. rewrite decide_False by lia. done. }
  destruct (_ && _); [|done]. destruct (write4 (base + x * 4) c pix) as [pix1|] eqn:Ew; [|done]. cbn [mbind option_bind] in E.
  rewrite (IH _ _ E), (read_write4 (base + x * 4) o _ _ _ Ho ltac:(Z.to_euclidean_division_equations; lia) Hm Ew).
  repeat case_decide; try done; Z.to_euclidean_division_equations; lia.
Qed.

Lemma fillRows_pixels n y x0 x1 w c pix pix' x' y' :
  0 <= x' < w -> 0 <= y' -> 0 <= x0 -> x1 <= w -> 0 <= y -> fillRows n y x0 x1 w c pix = Some pix' ->
  read4 (PixOffset w x' y') pix' =
    if decide (y <= y' < y + Z.of_nat n /\ x0 <= x' < x1) then Some c else read4 (PixOffset w x' y') pix.
Proof.
  intros Hx' Hy' H0 H1. revert y pix; induction n as [|n IH]; intros y pix Hy E; cbn [fillRows] in E.
  { injection E as <-. rewrite decide_False by lia. done. }
  destruct (_ && _); [|done]. destruct (fillRow _ _ _ _ _ _) as [pix1|] eqn:Er; [|done]. cbn [mbind option_bind] in E.
  rewrite (IH (y + 1) pix1 ltac:(lia) E).
  assert (PixOffset w 0 y mod 4 = 0 /\ PixOffset w x' y' mod 4 = 0 /\ 0 <= PixOffset w x' y') as (M1 & M2 & M3).
  { rewrite !PixOffset_mod4. split_and!; [done|done|unfold PixOffset; nia]. }
  rewrite (fillRow_pixels _ _ _ _ _ _ _ _ M1 M3 M2 Er).
  assert (PixOffset w 0 y + 4 * x0 <= PixOffset w x' y' < PixOffset w 0 y + 4 * (x0 + Z.of_nat (Z.to_nat (x1 - x0)))
          <-> y' = y /\ x0 <= x' < x1) as Hiff.
  { unfold PixOffset. split; [|intros [-> ?]; lia]. intros Hr. assert (x0 < x1) by lia.
    rewrite Z2Nat.id in Hr by lia. assert (y' = y) by nia. subst y'. split; [done|lia]. }
  destruct (decide (y' = y /\ x0 <= x' < x1)) as [Hin|Hout].
  - rewrite (decide_True (P := PixOffset w 0 y + 4 * x0 <= _ < _)) by tauto. rewrite (decide_True (P := y <= y' < y + Z.of_nat (S n) /\ _)) by lia.
    by destruct (decide _).
  - rewrite (decide_False (P := PixOffset w 0 y + 4 * x0 <= _ < _)) by tauto. repeat case_decide; try done; lia.
Qed.

(** [fillRect] paints the part of the rectangle that is on the image, and
    nothing else. *)
Lemma fillRect_pixels x0 y0 x1 y1 c img img' x y :
  0 <= x < im_w img -> 0 <= y < im_h img -> fillRect x0 y0 x1 y1 c img = Some img' ->
  pixelAt img' x y = if decide (x0 <= x < x1 /\ y0 <= y < y1) then Some c else pixelAt img x y.
Proof.
  intros Hx Hy E. unfold fillRect in E.
  set (X0 := if x0 <? 0 then 0 else x0) in *. set (Y0 := if y0 <? 0 then 0 else y0) in *.
  set (X1 := if x1 >? im_w img then im_w img else x1) in *. set (Y1 := if y1 >? im_h img then im_h img else y1) in *.
  destruct (fillRows _ _ _ _ _ _ _) as [pix|] eqn:Er; [|done]. injection E as <-. unfold pixelAt. cbn [im_w im_pix].
  rewrite (fillRows_pixels (Z.to_nat (Y1 - Y0)) Y0 X0 X1 (im_w img) c (im_pix img) pix x y);
    [|done|lia|unfold X0; split_ifs; lia|unfold X1; split_ifs; lia|unfold Y0; split_ifs; lia|exact Er].
  assert (Y0 <= y < Y0 + Z.of_nat (Z.to_nat (Y1 - Y0)) /\ X0 <= x < X1 <-> x0 <= x < x1 /\ y0 <= y < y1) as Hiff
    by (unfold X0, X1, Y0, Y1; split_ifs; lia).
  destruct (decide (x0 <= x < x1 /\ y0 <= y < y1)); [rewrite decide_True by tauto|rewrite decide_False by tauto]; done.
Qed.

Lemma setPx_pixels x0 y0 c img img' x y :
  0 <= x < im_w img -> 0 <= y < im_h img -> setPx x0 y0 c img = Some img' ->
  pixelAt img' x y = if decide (x = x0 /\ y = y0) then Some c else pixelAt img x y.
Proof.
  intros Hx Hy. unfold setPx. destruct (_ || _ || _ || _) eqn:Eo.
  { intros [= <-]. rewrite decide_False by lia. done. }
  destruct (write4 _ _ _) as [pix|] eqn:Ew; [|done]. intros [= <-]. unfold pixelAt. cbn [im_w im_pix].
  rewrite (read_write4 (PixOffset (im_w img) x0 y0) (PixOffset (im_w img) x y) c (im_pix img) pix);
    [|unfold PixOffset; nia|apply PixOffset_mod4|apply PixOffset_mod4|exact Ew].
  destruct (decide (x = x0 /\ y = y0)) as [[-> ->]|Hne]; [by rewrite decide_True|].
  rewrite decide_False; [done|]. intros E. apply Hne. eapply (PixOffset_inj (im_w img)); [lia|lia|exact E].
Qed.

(** ** Claims *)

(** The calls that leave the colour [c] at [(x, y)] where it is. *)
Definition keeps (x y : Z) (c : colour) (op : nrgba -> option nrgba) : Prop :=
  forall img img', img_ok img -> 0 <= x < im_w img -> 0 <= y < im_h img ->
    op img = Some img' -> pixelAt img x y = Some c -> pixelAt img' x y = Some c.

Lemma setPx_keeps x y c x0 y0 : keeps x y c (setPx x0 y0 c).
Proof. intros img img' _ Hx Hy E H. rewrite (setPx_pixels _ _ _ _ _ _ _ Hx Hy E). by case_decide. Qed.

Lemma ringPixel_keeps x y cx cy r a : keeps x y crossColour (ringPixel cx cy r a).
Proof.
  intros img img' Hi Hx Hy E H. unfold ringPixel in E. destruct (trig_defined a) as (k & s & Ec & Es). rewrite Ec, Es in E.
  cbn [mbind option_bind] in E. by eapply setPx_keeps.
Qed.

Lemma paintAll_keeps x y c ops : Forall safe ops -> Forall (keeps x y c) ops -> keeps x y c (paintAll ops).
Proof.
  induction ops as [|op ops IH] using rev_ind; intros Hs Hk img img' Hi Hx Hy E H.
  { by injection E as <-. }
  apply Forall_app in Hs as [Hs Hop]. apply Forall_cons in Hop as [Hop _].
  apply Forall_app in Hk as [Hk Hko]. apply Forall_cons in Hko as [Hko _].
  unfold paintAll in E. rewrite foldl_app in E. destruct (paintAll_safe ops Hs img Hi) as (img1 & E1 & Hi1 & Hw & Hh).
  unfold paintAll in E1. rewrite E1 in E. cbn [foldl mbind option_bind] in E.
  eapply Hko; [exact Hi1|lia|lia|exact E|]. eapply IH; [done|done|exact Hi|done|done|exact E1|done].
Qed.

(** A click on the image is visible after the crosshair is painted. *)
Lemma paintCrosshair_shows cx cy img img' :
  img_ok img -> 0 <= cx < im_w img -> 0 <= cy < im_h img -> paintCrosshair cx cy img = Some img' ->
  pixelAt img' cx cy = Some crossColour.
Proof.
  intros Hi Hx Hy. unfold paintCrosshair. set (ring := [8; 9] ≫= _).
  assert (Forall safe ring /\ Forall (keeps cx cy crossColour) ring) as [R1 R2].
  { split; apply Forall_forall; intros op Hop; apply list_elem_of_bind in Hop as (r & Hop & _);
      apply list_elem_of_bind in Hop as (k & Hop & _); apply list_elem_of_singleton in Hop as ->;
      [apply ringPixel_safe|apply ringPixel_keeps]. }
  change (seqZ (-10) 21) with (seqZ (-10) 10 ++ 0 :: seqZ 1 10). rewrite bind_app, bind_cons.
  set (pre := seqZ (-10) 10 ≫= _). set (post := seqZ 1 10 ≫= _).
  assert (forall l, Forall safe (l ≫= fun d => [setPx (cx + d) cy crossColour; setPx cx (cy + d) crossColour]) /\
    Forall (keeps cx cy crossColour) (l ≫= fun d => [setPx (cx + d) cy crossColour; setPx cx (cy + d) crossColour])) as Hl.
  { intros l. split; apply Forall_forall; intros op Hop; apply list_elem_of_bind in Hop as (d & Hop & _);
      repeat (apply elem_of_cons in Hop as [->|Hop]; [auto using setPx_keeps with quicrtc|]); by apply elem_of_nil in Hop. }
  intros E. cbn [app] in E. rewrite Z.add_0_r, Z.add_0_r in E. unfold paintAll in E. rewrite <- app_assoc, foldl_app in E.
  destruct (paintAll_safe pre (proj1 (Hl _)) img Hi) as (img1 & E1 & Hi1 & Hw1 & Hh1). unfold paintAll in E1. rewrite E1 in E.
  cbn [app foldl mbind option_bind] in E.
  destruct (setPx_safe cx cy crossColour img1 Hi1) as (img2 & E2 & Hi2 & Hw2 & Hh2). rewrite E2 in E.
  eapply (paintAll_keeps cx cy crossColour (setPx cx cy crossColour :: post ++ ring)); [| |exact Hi2|lia|lia|exact E|].
  - apply Forall_cons. split; [apply setPx_safe|]. apply Forall_app. split; [apply Hl|done].
  - apply Forall_cons. split; [apply setPx_keeps|]. apply Forall_app. split; [apply Hl|done].
  - rewrite (setPx_pixels cx cy crossColour img1 img2 cx cy ltac:(lia) ltac:(lia) E2). by rewrite decide_True.
Qed.

Lemma paintPage_safe w h stepIdx act keyframe : Forall safe (paintPage w h stepIdx act keyframe).
Proof.
  unfold paintPage. set (body := if _ || _ then _ else _).
  assert (safe body) by (unfold body; destruct (_ || _); [apply paintDashboard_safe|apply paintLoginForm_safe]).
  repeat (apply Forall_cons_2; [first [assumption|apply fillRect_safe]|]). constructor.
Qed.

Lemma progressBar_safe w h stepIdx : 0 < w -> safe (progressBar w h stepIdx).
Proof. intros Hw img Hi. unfold progressBar. destruct (w =? 0) eqn:E; [lia|]. by apply fillRect_safe. Qed.

(** the painters of the demos never index outside of the image, whatever
    its size (with at least one column), the step, the sequence number and the
    action's coordinates are: both return an image of the same size.  A click
    inside of the image and above the progress strip is visible as the
    crosshair's colour at its coordinates. *)
Theorem painters_stay_inside img stepIdx act seq keyframe :
  img_ok img -> 0 < im_w img -> 0 <= seq ->
  (exists img', paint seq keyframe img = Some img' /\ img_ok img' /\ im_w img' = im_w img /\ im_h img' = im_h img) /\
  exists img', paintBrowser stepIdx act keyframe img = Some img' /\ img_ok img' /\
    im_w img' = im_w img /\ im_h img' = im_h img /\
    (ac_Type act = ActionLeftClick -> 0 <= ac_X act < im_w img -> 0 <= ac_Y act < im_h img - 6 ->
     pixelAt img' (ac_X act) (ac_Y act) = Some crossColour).
Proof.
  intros Hi Hw Hseq. split.
  - destruct img as [w h pix]. destruct Hi as [H1 H2 H3]. cbn [im_w im_h im_pix] in *. unfold paint. cbn [im_w im_h im_pix].
    destruct (w =? 0) eqn:E; [lia|]. cbv zeta.
    destruct (paintBands_some (Z.to_nat h) 0 w h seq (Z.quot h 3) (if keyframe then 32 else 0) pix) as (p1 & -> & L1); [lia..|].
    cbn [mbind option_bind].
    destruct (paintTick_some (Z.to_nat h) 0 w h (Z.rem seq w) p1) as (p2 & -> & L2); [apply Z.rem_bound_pos; lia|lia..|].
    eexists. split; [done|]. split; [split; cbn; lia|done].
  - unfold paintBrowser. set (w := im_w img). set (h := im_h img).
    set (base := paintPage w h stepIdx act keyframe).
    assert (Forall safe base) as Hbase by apply paintPage_safe.
    destruct (paintAll_safe base Hbase img Hi) as (img1 & E1 & Hi1 & Hw1 & Hh1).
    set (cross := if bool_decide (ac_Type act = ActionLeftClick) then [paintCrosshair (ac_X act) (ac_Y act)] else []).
    assert (Forall safe cross) as Hcross
      by (unfold cross; destruct (bool_decide _); auto using paintCrosshair_safe with quicrtc).
    destruct (paintAll_safe cross Hcross img1 Hi1) as (img2 & E2 & Hi2 & Hw2 & Hh2).
    destruct (progressBar_safe w h stepIdx Hw img2 Hi2) as (img3 & E3 & Hi3 & Hw3 & Hh3).
    exists img3. split; [|split; [done|]].
    { unfold paintAll in *. rewrite !foldl_app, E1, E2. exact E3. }
    split; [lia|]. split; [lia|]. intros Ht Hx Hy.
    unfold progressBar in E3. destruct (w =? 0) eqn:Ew; [lia|].
    rewrite (fillRect_pixels _ _ _ _ _ img2 img3 (ac_X act) (ac_Y act) ltac:(lia) ltac:(lia) E3).
    rewrite decide_False by (unfold h; lia). unfold cross in E2. rewrite bool_decide_eq_true_2 in E2 by done.
    eapply paintCrosshair_shows; [exact Hi1|lia|lia|exact E2].
Qed.

Lemma painters_stay_inside_witness :
  exists img', paintBrowser 1 (mkAction ActionLeftClick 3 2 "" "" 0 0 "" 0) true (NewNRGBA 8 12) = Some img' /\
    pixelAt img' 3 2 = Some crossColour.
Proof.
  destruct (painters_stay_inside (NewNRGBA 8 12) 1 (mkAction ActionLeftClick 3 2 "" "" 0 0 "" 0) 4 true)
    as (_ & img' & E & _ & _ & _ & H).
  - split; vm_compute; congruence.
  - reflexivity.
  - discriminate.
  - exists img'. split; [exact E|]. apply H; [reflexivity|split; [discriminate|reflexivity]|split; [discriminate|reflexivity]].
Defined.
