(* ===== verification/AgentPubsub.v ===== *)
(** * The small example programs

    [examples/agent_pubsub] (server pumps and the command-line viewer),
    [examples/publisher], [examples/subscriber], [examples/relay] and the
    counters of [examples/internal/status].

    The encoder, the clock, random numbers and the outcomes of [Publish] and
    [SendDatagram] are arguments; what a loop sees before its context ends is a
    list. *)

From S2P Require Import Prelude GoText Wire Track Replay ReplayTool.

#[local] Open Scope Z_scope.

(** ** agent_pubsub: the server's pumps *)

Module Server.
Definition trackScreen : string := "screen".
Definition trackReasoning : string := "reasoning".
Definition trackActions : string := "actions".
Definition trackUserActs : string := "user_actions".
Definition telemetryTrackID : byte := x01.

(** What the screen pump shares with [OnKeyframeRequest]. *)
Record screenState := mkScreenState { sc_seq : Z; sc_force : bool }.

(** A keyframe request for a track, or a tick with the encoder's result. *)
Inductive screenEvent :=
  | KeyframeRequest (trackName : string)
  | Tick (encode : Z -> bool -> result (list byte)) (now : Z).

(** [seq%25 == 0 || force.Swap(false)]: the flag is read and cleared only when
    the first test fails. *)
Definition screenStep (st : screenState) (e : screenEvent) : screenState * option AccessUnit :=
  match e with
  | KeyframeRequest t => (if decide (t = trackScreen) then mkScreenState (sc_seq st) true else st, None)
  | Tick encode now =>
      let periodic := sc_seq st mod 25 =? 0 in
      let keyframe := periodic || sc_force st in
      let force := if periodic then sc_force st else false in
      match encode (sc_seq st) keyframe with
      | Err _ => (mkScreenState (sc_seq st) force, None)
      | Ok png => (mkScreenState (u32 (sc_seq st + 1)) force,
                   Some (mkAU png keyframe (u64 now) (sc_seq st) false 0 ∅ 0 0))
      end
  end.

Fixpoint pumpScreen (st : screenState) (evs : list screenEvent) : list AccessUnit :=
  match evs with
  | [] => []
  | e :: evs' => let '(st, au) := screenStep st e in option_list au ++ pumpScreen st evs'
  end.

Definition thoughts : list (list string) := [
  ["User"; "wants"; "me"; "to"; "summarize"; "the"; "open"; "tabs."; "I'll"; "start"; "by"; "taking"; "a"; "screenshot."];
  ["Detected"; "a"; "Stripe"; "dashboard."; "I"; "should"; "click"; "the"; "Reports"; "tab."];
  ["Form"; "appeared."; "Filling"; "email"; "field"; "with"; "the"; "value"; "from"; "the"; "previous"; "step."];
  ["Submit"; "succeeded."; "Verifying"; "confirmation"; "banner"; "is"; "visible."]].

(** The [n] first tokens, the list of sentences being repeated; [publish] says
    whether a unit's [Publish] succeeds: the pump returns when one does not. *)
Fixpoint sendTokens (publish : Z -> bool) (now : Z -> Z) (n : nat) (toks all : list string) (seq : Z) : list AccessUnit :=
  match n with
  | O => []
  | S n' =>
      let toks := match toks with [] => all | _ => toks end in
      match toks with
      | [] => []
      | tok :: toks' =>
          let payload := bytes_of tok ++ [x20] in
          if publish seq
          then mkAU payload true (u64 (now seq)) seq false 0 ∅ 0 0
                 :: sendTokens publish now n' toks' all (u32 (seq + 1))
          else []
      end
  end.

Definition pumpReasoning (publish : Z -> bool) (now : Z -> Z) (n : nat) : list AccessUnit :=
  sendTokens publish now n [] (concat thoughts) 0.

Definition actionTexts : list (list byte) := jsonText <$> [
  "{'tool':'screenshot'}"; "{'tool':'left_click','x':412,'y':318}"; "{'tool':'type','text':'sachin@example.com'}";
  "{'tool':'key','key':'Tab'}"; "{'tool':'type','text':'hunter2'}"; "{'tool':'left_click','x':520,'y':402}";
  "{'tool':'wait','ms':1500}"].

Fixpoint pumpActions (publish : Z -> bool) (now : Z -> Z) (n : nat) (seq : Z) : option (list AccessUnit) :=
  match n with
  | O => Some []
  | S n' =>
      payload ← actionTexts !! Z.to_nat (seq mod zlen actionTexts);
      if publish seq
      then rest ← pumpActions publish now n' (u32 (seq + 1));
           Some (mkAU payload true (u64 (now seq)) seq false 0 ∅ 0 0 :: rest)
      else Some []
  end.

(** The telemetry payload: track, number and a reserved byte before the body. *)
Definition telemetryPayload (seq : Z) (body : list byte) : list byte :=
  [telemetryTrackID] ++ be_bytes 2 seq ++ [x00] ++ body.

(** [pumpTelemetry] on the bodies of the ticks; the bool says whether
    [SendDatagram] succeeds. *)
Fixpoint pumpTelemetry (ticks : list (list byte * bool)) (seq : Z) : list (list byte) :=
  match ticks with
  | [] => []
  | (body, ok) :: ticks' =>
      if ok then telemetryPayload seq body :: pumpTelemetry ticks' (u16 (seq + 1)) else []
  end.

(** [short], for the log of [drainUserActions]. *)
Definition short (sid : string) : string :=
  if Z.of_nat (String.length sid) >? 8 then String.substring 0 8 sid else sid.
End Server.

(** ** agent_pubsub: the viewer *)

Module Viewer.
(** [readReasoning]: the buffer, and the lines printed. *)
Definition flush (st : list byte * list (list byte)) : list byte * list (list byte) :=
  let '(buf, lines) := st in
  if 0 <? zlen buf then ([], lines ++ [TrimSpace buf]) else st.

Definition readToken (st : list byte * list (list byte)) (tok : list byte) : list byte * list (list byte) :=
  match last tok with
  | None => st
  | Some c =>
      let st := (st.1 ++ tok, st.2) in
      if bool_decide (c = x2e) || bool_decide (c = x21) || bool_decide (c = x3f) || (64 <=? zlen st.1) then flush st else st
  end.

(** The lines printed for the tokens before the stream ends. *)
Definition readReasoning (toks : list (list byte)) : list (list byte) :=
  (flush (foldl readToken ([], []) toks)).2.

(** [readTelemetry] on one datagram: number and body, or [None] when skipped. *)
Definition readTelemetry (raw : list byte) : option (Z * list byte) :=
  match raw with
  | id :: b1 :: b2 :: _ :: body => if decide (id = x01) then Some (be_value [b1; b2], body) else None
  | _ => None
  end.
End Viewer.

(** ** publisher and subscriber *)

Module Basic.
Definition gop : Z := 30.
Definition frameSize : Z := 4 * 1024.

(** A unit as the publisher makes it: its bytes are the address of the slice.
    The program has one slice, and fills it again for every frame. *)
Record sharedAU := mkSharedAU { sh_bytes : nat; sh_Keyframe : bool; sh_PTSMicro : Z; sh_Seq : Z }.

Record publisher := mkPublisher {
  pb_slices : gmap nat (list byte);
  pb_seq : Z;
  pb_held : list sharedAU;         (* accepted by Publish, still queued or cached there *)
  pb_frames : Z; pb_kframes : Z; pb_bytes : Z;
}.

Definition buf : nat := 0.

(** A tick: the random bytes read into the slice, and whether [Publish]
    succeeds. *)
Definition publishTick (p : publisher) (tick : list byte * bool) : publisher :=
  let '(rnd, published) := tick in
  let au := mkSharedAU buf (pb_seq p mod gop =? 0) (pb_seq p * 33333) (pb_seq p) in
  let slices := <[buf := rnd]> (pb_slices p) in
  if published
  then mkPublisher slices (u32 (pb_seq p + 1)) (pb_held p ++ [au]) (pb_frames p + 1)
         (if sh_Keyframe au then pb_kframes p + 1 else pb_kframes p) (pb_bytes p + zlen rnd)
  else mkPublisher slices (u32 (pb_seq p + 1)) (pb_held p) (pb_frames p) (pb_kframes p) (pb_bytes p).

Definition newPublisher : publisher := mkPublisher {[ buf := repeat x00 (Z.to_nat frameSize) ]} 0 [] 0 0 0.

(** What a subscriber that takes [au] from its queue now sends. *)
Definition contents (p : publisher) (au : sharedAU) : option (list byte) := pb_slices p !! sh_bytes au.

(** The subscriber's loop on the units it receives. *)
Record subscriber := mkSubscriber { sb_lastSeq : Z; sb_gaps : Z; sb_frames : Z; sb_kframes : Z; sb_bytes : Z; sb_lastK : Z }.

Definition newSubscriber : subscriber := mkSubscriber (-1) 0 0 0 0 (-1).

Definition receiveAU (s : subscriber) (au : AccessUnit) : subscriber :=
  let gaps := if (0 <=? sb_lastSeq s) && (au_Seq au >? sb_lastSeq s + 1) then sb_gaps s + 1 else sb_gaps s in
  mkSubscriber (au_Seq au) gaps (sb_frames s + 1) (if au_Keyframe au then sb_kframes s + 1 else sb_kframes s)
    (sb_bytes s + zlen (au_Bytes au)) (if au_Keyframe au then au_Seq au else sb_lastK s).

(** [-upstream] of the relay program, repeated. *)
Definition multiFlag : Type := list string.
Definition multiFlag_Set (s : string) (m : multiFlag) : multiFlag := m ++ [s].

(** The peak subscriber count the relay program keeps. *)
Definition peakSubs (peak n : Z) : Z := if n >? peak then n else peak.
End Basic.

(** ** status *)

Module Status.
(** The counters; a missing one is made with zero. *)
Definition counters : Type := gmap string Z.
Definition counter (name : string) (c : counters) : Z * counters :=
  match c !! name with Some v => (v, c) | None => (0, <[name := 0]> c) end.
Definition Inc (name : string) (n : Z) (c : counters) : counters :=
  let '(v, c) := counter name c in <[name := s64 (u64 (v + n))]> c.
Definition Set_ (name : string) (v : Z) (c : counters) : counters :=
  let '(_, c) := counter name c in <[name := v]> c.
Definition Get (name : string) (c : counters) : Z * counters := counter name c.

(** [HumanCount]: a comma before every digit whose distance to the end is a
    multiple of three, but the first. *)
Fixpoint commas (first : bool) (digits : list byte) : list byte :=
  match digits with
  | [] => []
  | c :: l =>
      if negb first && (zlen digits mod 3 =? 0) then x2c :: c :: commas false l else c :: commas false l
  end.
Definition HumanCount (n : Z) : list byte :=
  if n <? 1000 then bytes_of (fmt_d n) else commas true (bytes_of (fmt_d n)).

(** The summary box: keys padded to the longest one. *)
Definition keyWidth (fields : list (string * string)) : nat :=
  foldl (fun w f => if (w <? String.length f.1)%nat then String.length f.1 else w) 0%nat fields.
Definition summaryRow (w : nat) (f : string * string) : string :=
  "  " +:+ f.1 +:+ string_of (repeat x20 (w - String.length f.1)) +:+ "  " +:+ f.2.
Definition newline : string := string_of [x0a].
Definition Done (rendered istty : bool) (headline : string) (fields : list (string * string)) : string :=
  (if rendered && istty then newline else "") +:+
  (if bool_decide (headline = "") then "" else newline +:+ headline +:+ newline) +:+
  "── summary ──────────────────────────" +:+ newline +:+
  String.concat "" ((fun f => summaryRow (keyWidth fields) f +:+ newline) <$> fields).
End Status.

(** * Properties *)

(** ** The screen pump *)

Section ScreenPump.
Import Server.

(** A tick whose frame is encoded. *)
Definition encodes (e : screenEvent) : Prop :=
  match e with KeyframeRequest _ => True | Tick encode _ => forall s k, exists png, encode s k = Ok png end.

Lemma pumpScreen_seq evs : forall st k au,
  0 <= sc_seq st -> sc_seq st + zlen evs < 2 ^ 32 -> pumpScreen st evs !! k = Some au ->
  au_Seq au = sc_seq st + Z.of_nat k /\ (au_Seq au mod 25 = 0 -> au_Keyframe au = true).
Proof.
  induction evs as [|e evs IH]; intros st k au H0 Hs Hk; [done|]. rewrite zlen_cons in Hs. pose proof (zlen_nonneg evs).
  cbn [pumpScreen] in Hk. destruct (screenStep st e) as [st' o] eqn:Es. destruct e as [t|encode now]; cbn [screenStep] in Es.
  { injection Es as <- <-. cbn [option_list app] in Hk.
    destruct (IH (if decide (t = trackScreen) then mkScreenState (sc_seq st) true else st) k au) as [A1 A2];
      [by case_decide|case_decide; cbn; lia|done|]. rewrite A1 in *. split; [by case_decide|done]. }
  cbv zeta in Es. destruct (encode _ _) as [png|err]; injection Es as <- <-; cbn [option_list app] in Hk.
  - assert (u32 (sc_seq st + 1) = sc_seq st + 1) as En by (unfold u32; apply Z.mod_small; lia). rewrite En in Hk.
    destruct k as [|k].
    + injection Hk as <-. cbn [au_Seq au_Keyframe]. split; [lia|]. intros Hm. by rewrite Hm.
    + set (st' := mkScreenState (sc_seq st + 1) _) in Hk. change (pumpScreen st' evs !! k = Some au) in Hk.
      destruct (IH st' k au) as [A1 A2]; [cbn; lia|cbn; lia|exact Hk|]. cbn [sc_seq st'] in A1. split; [lia|done].
  - destruct (IH (mkScreenState (sc_seq st) (if sc_seq st mod 25 =? 0 then sc_force st else false)) k au) as [A1 A2];
      [done|cbn; lia|done|]. by split.
Qed.

(** The flag stays up until a frame consumes it. *)
Lemma force_until_tick evs : forall st,
  sc_force st = true -> Forall (fun e => exists t, e = KeyframeRequest t) evs ->
  sc_force (foldl (fun s e => (screenStep s e).1) st evs) = true.
Proof.
  intros st Hf H. revert st Hf. induction H as [|e evs [t ->] _ IH]; intros st Hf; [done|]. cbn [foldl]. apply IH.
  cbn. by case_decide.
Qed.
End ScreenPump.

(** the screen pump numbers its units 0, 1, 2, ... without a gap, every
    25th is a keyframe, and a keyframe request for the screen makes the next
    unit a keyframe when its frame is encoded at the first attempt, whatever
    requests (for this or other tracks) come in between. *)
Theorem screen_pump_keyframes evs between encode now k au st :
  zlen evs < 2 ^ 32 ->
  Server.pumpScreen (Server.mkScreenState 0 false) evs !! k = Some au ->
  Forall (fun e => exists t, e = Server.KeyframeRequest t) between ->
  (forall s b, exists png, encode s b = Ok png) ->
  (au_Seq au = Z.of_nat k /\ (Z.of_nat k mod 25 = 0 -> au_Keyframe au = true)) /\
  exists au', (Server.screenStep
      (foldl (fun s e => (Server.screenStep s e).1) (Server.screenStep st (Server.KeyframeRequest Server.trackScreen)).1 between)
      (Server.Tick encode now)).2 = Some au' /\ au_Keyframe au' = true.
Proof.
  intros Hn Hk Hb He. split.
  - destruct (pumpScreen_seq evs (Server.mkScreenState 0 false) k au) as [H1 H2]; [done|cbn; lia|done|].
    cbn in H1. rewrite H1 in *. done.
  - cbn [Server.screenStep fst]. rewrite decide_True by done.
    pose proof (force_until_tick between (Server.mkScreenState (Server.sc_seq st) true) eq_refl Hb) as Hf.
    set (s := foldl _ _ between) in *. rewrite Hf, orb_true_r. destruct (He (Server.sc_seq s) true) as [png ->].
    eexists. split; [done|done].
Qed.

Lemma screen_pump_keyframes_witness :
  exists au', (Server.screenStep (Server.screenStep (Server.mkScreenState 7 false) (Server.KeyframeRequest "screen")).1
      (Server.Tick (fun _ _ => Ok [x01]) 0)).2 = Some au' /\ au_Keyframe au' = true.
Proof.
  destruct (screen_pump_keyframes [Server.Tick (fun _ _ => Ok [x01]) 0] [] (fun _ _ => Ok [x01]) 0 0
    (mkAU [x01] true 0 0 false 0 ∅ 0 0) (Server.mkScreenState 7 false)) as [_ H].
  - reflexivity.
  - reflexivity.
  - constructor.
  - intros s b. exists [x01]. reflexivity.
  - exact H.
Defined.

(** ** Telemetry *)

(** the command-line viewer reads back the number and the body of every
    telemetry datagram of the server, but [wire.DecodeDatagram] refuses all of
    them: the server writes an envelope of its own, not the one its comments
    refer to and the browser viewer decodes. *)
Theorem telemetry_envelopes seq body :
  is_u 16 seq ->
  Viewer.readTelemetry (Server.telemetryPayload seq body) = Some (seq, body) /\
  exists e, DecodeDatagram (Server.telemetryPayload seq body) = Err e.
Proof.
  intros Hs. unfold Server.telemetryPayload. rewrite be_bytes_2. cbn [app]. split.
  - unfold Viewer.readTelemetry, Server.telemetryTrackID. rewrite decide_True by done.
    by rewrite <- be_bytes_2, be_value_bytes_id.
  - unfold DecodeDatagram. destruct (_ <? _); [by eexists|]. rewrite decide_False by discriminate. by eexists.
Qed.

Lemma telemetry_envelopes_witness : Viewer.readTelemetry (Server.telemetryPayload 513 [x7b; x7d]) = Some (513, [x7b; x7d]).
Proof. apply (telemetry_envelopes 513 [x7b; x7d]). split; [discriminate|reflexivity]. Defined.

(** ** Where the examples differ from their comments *)

(** A request that meets a frame which cannot be encoded is lost: the flag is
    cleared and the next attempt at the frame is not a keyframe. *)
Theorem failed_encode_loses_request st encode encode' now now' err au :
  Server.sc_seq st mod 25 <> 0 -> encode (Server.sc_seq st) true = Err err ->
  let st1 := (Server.screenStep (Server.screenStep st (Server.KeyframeRequest Server.trackScreen)).1 (Server.Tick encode now)).1 in
  (Server.screenStep st1 (Server.Tick encode' now')).2 = Some au -> au_Keyframe au = false.
Proof.
  intros Hm He. cbn [Server.screenStep fst]. rewrite decide_True by done. cbn [Server.sc_seq Server.sc_force].
  apply Z.eqb_neq in Hm. rewrite Hm. cbn [orb]. rewrite He. cbn [fst Server.sc_seq Server.sc_force]. rewrite Hm. cbn [orb].
  destruct (encode' _ _); [|done]. by intros [= <-].
Qed.

(** The server's tokens end in a space, so no token ends a sentence for the
    viewer, whatever it says: only a full buffer is flushed. *)
Theorem sentences_not_flushed toks :
  Forall (fun tok => last tok = Some x20) toks -> zlen (concat toks) < 64 ->
  foldl Viewer.readToken ([], []) toks = (concat toks, []).
Proof.
  induction toks as [|tok toks IH] using rev_ind; intros H Hl; [done|].
  apply Forall_app in H as [H Ht]. apply Forall_cons in Ht as [Ht _].
  rewrite concat_app in *. cbn [concat] in *. rewrite app_nil_r in *. rewrite zlen_app in Hl. pose proof (zlen_nonneg tok).
  rewrite foldl_app. cbn [foldl]. rewrite IH by (done || lia). unfold Viewer.readToken. rewrite Ht. cbn [fst snd].
  rewrite !bool_decide_eq_false_2 by discriminate. cbn [orb]. rewrite zlen_app.
  destruct (64 <=? _) eqn:E; [lia|done].
Qed.

(** The publisher writes each frame into the slice it has already handed to
    [Publish], which [AccessUnit] forbids: every unit still held there has the
    bytes of the latest frame. *)
Theorem published_frames_overwritten ticks rnd ok p au :
  p = foldl Basic.publishTick Basic.newPublisher (ticks ++ [(rnd, ok)]) -> au ∈ Basic.pb_held p ->
  Basic.contents p au = Some rnd.
Proof.
  intros -> Hin. unfold Basic.contents.
  assert (forall fs p, Forall (fun a => Basic.sh_bytes a = Basic.buf) (Basic.pb_held p) ->
    Forall (fun a => Basic.sh_bytes a = Basic.buf) (Basic.pb_held (foldl Basic.publishTick p fs))) as Hb.
  { induction fs as [|[r o] fs IH]; intros p Hp; [done|]. cbn [foldl]. apply IH. unfold Basic.publishTick.
    destruct o; [|done]. cbn [Basic.pb_held]. apply Forall_app. split; [done|by repeat constructor]. }
  specialize (Hb (ticks ++ [(rnd, ok)]) Basic.newPublisher ltac:(constructor)).
  rewrite Forall_forall in Hb. rewrite (Hb au Hin), foldl_app. cbn [foldl]. unfold Basic.publishTick at 1.
  destruct ok; cbn [Basic.pb_slices]; by rewrite lookup_insert_eq.
Qed.

(** ** The subscriber's gaps *)

(** The units that follow a missing one. *)
Fixpoint jumps (last : Z) (l : list AccessUnit) : Z :=
  match l with
  | [] => 0
  | au :: l' => (if au_Seq au >? last + 1 then 1 else 0) + jumps (au_Seq au) l'
  end.

(** The subscriber counts exactly the units that follow a missing one, and
    none on a stream without losses, wherever it joins. *)
Theorem gaps_counted au0 l :
  Forall (fun au => 0 <= au_Seq au) (au0 :: l) ->
  Basic.sb_gaps (foldl Basic.receiveAU Basic.newSubscriber (au0 :: l)) = jumps (au_Seq au0) l /\
  Basic.sb_frames (foldl Basic.receiveAU Basic.newSubscriber (au0 :: l)) = 1 + zlen l /\
  ((forall k au, (au0 :: l) !! k = Some au -> au_Seq au = u32 (au_Seq au0 + Z.of_nat k)) -> jumps (au_Seq au0) l = 0).
Proof.
  intros Hall. apply Forall_cons in Hall as [H0 Hall].
  assert (forall l s, Forall (fun au => 0 <= au_Seq au) l -> 0 <= Basic.sb_lastSeq s ->
    Basic.sb_gaps (foldl Basic.receiveAU s l) = Basic.sb_gaps s + jumps (Basic.sb_lastSeq s) l /\
    Basic.sb_frames (foldl Basic.receiveAU s l) = Basic.sb_frames s + zlen l) as Hf.
  { clear. induction l as [|au l IH]; intros s Hl Hs; [cbn; unfold zlen; cbn; lia|].
    apply Forall_cons in Hl as [Ha Hl]. cbn [foldl jumps]. rewrite zlen_cons.
    destruct (IH (Basic.receiveAU s au) Hl) as [G1 G2]; [done|]. rewrite G1, G2. cbn [Basic.receiveAU Basic.sb_gaps Basic.sb_lastSeq Basic.sb_frames].
    split; [|lia]. destruct (0 <=? Basic.sb_lastSeq s) eqn:E; [|lia]. cbn [andb]. destruct (_ >? _); lia. }
  cbn [foldl]. destruct (Hf l (Basic.receiveAU Basic.newSubscriber au0) Hall) as [G1 G2]; [done|].
  rewrite G1, G2. cbn [Basic.receiveAU Basic.newSubscriber Basic.sb_gaps Basic.sb_lastSeq Basic.sb_frames]. split_and!; [done|lia|].
  clear -H0. generalize (au_Seq au0) at 1 as n. revert au0 H0. induction l as [|au l IH]; intros au0 H0 n Hk; [done|].
  cbn [jumps]. pose proof (Hk 0%nat au0 eq_refl) as E0. pose proof (Hk 1%nat au eq_refl) as E1. cbn in E0, E1.
  assert (au_Seq au <= au_Seq au0 + 1).
  { rewrite E0, E1, Z.add_0_r. rewrite <- u32_succ. unfold u32 at 1. pose proof (Z.mod_le (u32 n + 1) (2 ^ 32)).
    unfold u32 in *. pose proof (Z.mod_pos_bound n (2 ^ 32) eq_refl). lia. }
  destruct (_ >? _) eqn:E; [lia|]. cbn [Z.add]. apply (IH au) with (n := n + 1).
  - rewrite E1. unfold u32. apply Z.mod_pos_bound. lia.
  - intros k a Ha. specialize (Hk (S k) a Ha). rewrite Hk. f_equal. lia.
Qed.

(** ** status *)

Lemma Inc_Get name n c : (Status.Get name (Status.Inc name n c)).1 = s64 (u64 ((Status.Get name c).1 + n)).
Proof.
  unfold Status.Get, Status.Inc, Status.counter, Status.counters in *. destruct (c !! name) as [v|] eqn:E; cbv iota beta zeta; by rewrite lookup_insert_eq.
Qed.

Lemma Inc_other name name' n c : name <> name' -> (Status.Get name' (Status.Inc name n c)).1 = (Status.Get name' c).1.
Proof.
  intros Hne. unfold Status.Get, Status.Inc, Status.counter, Status.counters in *.
  destruct (c !! name) as [v|] eqn:E; cbv iota beta zeta; rewrite !lookup_insert_ne by done; by destruct (c !! name').
Qed.

(** Only commas are added, one for every three digits after the first. *)
Lemma commas_length first l :
  zlen (Status.commas first l) = zlen l + (if first then Z.max 0 (zlen l - 1) / 3 else zlen l / 3).
Proof.
  revert first; induction l as [|c l IH]; intros first; [by destruct first|]. cbn [Status.commas]. pose proof (zlen_nonneg l).
  rewrite zlen_cons. destruct first; cbn [negb andb].
  - rewrite zlen_cons, IH. replace (Z.max 0 (1 + zlen l - 1)) with (zlen l) by lia. lia.
  - destruct ((1 + zlen l) mod 3 =? 0) eqn:E; rewrite !zlen_cons, IH; Z.to_euclidean_division_equations; lia.
Qed.
